(* ===== verification/_CoqProject ===== *)
-Q . S2P
Prelude.v
Metadata.v
Hpack.v
Transport.v
FlowControl.v
Lists.v
CStrings.v
HpackTable.v
CompletionQueue.v
Monitors.v
Threads.v
LoadBalancer.v
Balancers.v
ConnectionPool.v
Pools.v
Core.v
Channel.v
Interceptors.v
NameResolver.v
Reflection.v
Server.v
Workers.v
Metrics.v
Meters.v
Tracing.v
Health.v
Process.v
Credentials.v
Tls.v
Compression.v
Protobuf.v
Examples.v
Demos.v
Tests.v
