(* ===== verification/Prelude.v ===== *)
(** * grpc-c: a verified model of the C gRPC stack under src/src and of its examples

    The library is a client and a server side of gRPC over HTTP/2 in plain C.  This development
    translates its functions into executable definitions over explicit memory and state, and proves
    what they do.  Every definition keeps the name of the function or type it translates; a loop of
    a function that is a definition of its own is called after the function or after what it does.

    ** The parts

    - [Metadata] (src/src/enhanced_features.c, first half): the growable array of header fields
      that calls, streams and HPACK share.
    - [Hpack] (hpack.c): prefix integers, literal header fields and header blocks, byte by byte, over
      [Metadata]'s arrays; [HpackTable]: the static table, which no code uses.
    - [Transport] (http2_transport.c, the types of grpc_internal.h): connections, the heap of their
      streams with the table that lists them, the frame codec, and frames over a socket.
    - [FlowControl] (flow_control.c): the windows of connections and streams, over [Transport].
    - [CompletionQueue] and [Core] (grpc_core.c): the queue of events; deadlines, byte buffers in a
      memory of blocks, the initialisation flag and the version.
    - [Threads] (grpc_core.c): the completion queue under any number of threads, as a step relation
      over the critical sections of [CompletionQueue].
    - [Monitors]: threads around any object with a mutex, with the laws an instance proves (the class
      [MonitorLaws]); [Balancers] (load_balancing.c), [Pools] (connection_pool.c) and [Meters] (the
      metrics of observability.c) are its instances.
    - [Channel] (grpc_channel.c): a channel with its connection and its calls, each with a stream;
      uses [Transport], [Core] and the addresses of completion queues.
    - [LoadBalancer] (load_balancing.c), [ConnectionPool] (connection_pool.c), [Interceptors]
      (interceptors.c), [NameResolver] (name_resolver.c), [Reflection] (reflection.c): objects with
      a mutex and one linked list (or two), each over [Lists].  The pool uses connections through
      the class [Connection], which the transport implements.
    - [Server] (grpc_server.c): ports, registered queues and the life cycle; [Workers]: the worker
      threads with their clients and the joins of a shutdown, as a step relation.
    - [Metrics] and [Tracing] (observability.c): the registry of metrics and the logger; trace
      contexts, spans, tags and identifiers.
    - [Health] (enhanced_features.c, second half): the streaming constructors and the health check,
      which composes [CompletionQueue] and [Channel].
    - [Process]: a program that uses the library, with any number of channels, calls, queues and
      servers behind pointers (the class [Object]) and one allocator; the steps of its clients.
    - [Examples] (src/examples/echo_client.c, streaming_example.c, echo_server.c) and [Demos]
      (src/examples/advanced_example.c): the example programs, over [Process] and over the single
      components.  [Tests]: the four programs of src/test, with the checks they make.
    - [Credentials] (grpc_credentials.c) and [Tls] (grpc_tls.c): the credential records, and the
      OpenSSL contexts made from them, handshakes and ALPN.
    - [Compression] (compression.c and the wrappers in enhanced_features.c) and [Protobuf]
      (grpc_protobuf.c): the buffers around zlib and protobuf-c.

    [Prelude] has what all share; [Lists] the heap of linked nodes with the predicates [chain] (the
    pointers lead through these nodes) and [owns] (the object's list is exactly the allocated
    nodes); [CStrings] the string functions of the parsers.

    ** How state and operations correspond

    - A machine integer is a [Z]; the wrap-around is written at each operation ([u8], [u32], [u64],
      [i32]); the overflow of an [int] is the fault [SignedOverflow] ([int_add]).
    - A pointer that may be null is an [option].  A block of bytes is the list of its bytes, loads
      and stores outside it are the fault [OutOfBounds]; a slot that was never written is [None]
      where it is read back.
    - Objects that are shared or linked live in finite maps from addresses; using an address that is
      not there is the fault [UseAfterFree].  "Nothing leaked" is that the map is empty afterwards.
    - A function on a shared object is a state transformer [M S A] into [outcome]; [nullable] is the
      early return for a null object.  Error codes are values, out-parameters are components of the
      result.
    - The allocator is the list of its coming answers; past its end it never fails.  Theorems
      quantify over it.  The operating system, OpenSSL and the socket are such answers too.
    - A mutex is a boolean.  Locking it twice is the fault [Deadlock]; interference of other threads
      is explicit where a call gives up the mutex (the waits of [grpc_completion_queue_next]) and
      otherwise is the sequence of the calls, each of which runs under its mutex.
    - In [Threads] a thread has a program counter ([pc]): outside, before or behind the acquisition of
      the mutex, asleep on the condition variable, signalled or not.  A step of [run_step] is one
      acquisition or one critical section up to its release, which is what [next_by_rounds] cuts
      [grpc_completion_queue_next] into; [act_step] has the calls, the deadlines and the spurious
      wake-ups.  [pthread_cond_signal] wakes one sleeping thread ([signalled]), a broadcast all
      ([wake]).
    - In [Monitors] a thread is outside, before or behind the mutex ([thread_pc]).  What it does up to
      the acquisition (a check, an allocation, the keep-alive thread's test of its flag) is a step of
      the instance ([lb_outside], [pool_outside]), and so is what it does from there to the release
      ([lb_critical], [pool_critical]): the [_section] definitions, which the functions of
      [LoadBalancer], [ConnectionPool] and [Metrics] run behind their acquisition ([lb_call_parts] and
      [mr_call_parts] say so).
    - In [Workers] a step of a worker is what it does between two of its system calls
      ([server_worker_thread]); [serve_run] has the workers and the joins, [serve_act] what clients,
      other threads and failing system calls do.  A blocking [accept] without a client is the fault
      [Deadlock], for which there is no step.  [Server]'s [join_threads] takes the joins at once.
    - In [Process] a pointer is an address, [Object] says how the object behind it is read and written
      back, and a call is the address of its channel with its own; [legal] is what the library asks
      of a client before a call, and [notes] what a client could write down of its calls.
    - The clock, [rand], the resolver's system calls, handlers, interceptors and exporters are
      parameters: answers, or functions on the application's state.

    ** Bounds and fuel

    A loop has fuel where its recursion is not structural, and running out of it is the fault
    [OutOfFuel], which no specification theorem allows to happen.  A walk along a list gets
    [walk_fuel], one more than there are nodes; the encoder of a prefix integer at most 5
    continuation bytes ([encode_fuel], a 32-bit value has no more) and the decoder 6 rounds
    ([decode_fuel], the sixth meets the bound on the shift); a header block and an ALPN list one
    round per byte ([S input_len]); decompression twice the work zlib has left, since the buffer is
    full at most once in between two calls that make progress.

    ** What the theorems show

    - Header blocks, integers, frames, compressed and protobuf data round-trip, and the decoders of
      untrusted bytes ([hpack_decode_integer], [hpack_decode_metadata], the ALPN callback,
      [decompress_gzip]) read and write within bounds and end, whatever the bytes and the allocator,
      up to the lengths their 32-bit variables hold: header blocks below 4 GiB
      ([hpack_decode_metadata_4gib_overflow] shows the overflow past that), gzip below 1 MiB.
    - [completion_queue_refines], [lb_policy_refines], [interceptor_chain_refines],
      [reflection_registry_refines] and [metrics_registry_refines]: the objects with linked lists
      behave, over any history of calls, as abstract lists, and destroying them frees every node;
      [completion_queue_exactly_once] adds that no event is lost or duplicated.
    - [queue_threads_exactly_once] and [queue_threads_settle]: the same for threads that interleave,
      with mutual exclusion, and without deadlock or lost wake-up.
    - [lb_threads_linearizable], [metrics_threads_linearizable], [pool_threads_loans_live] and
      [pool_threads_stop]: policies, registries and pools whose functions interleave; the answers are
      those of the calls one after the other, no sample is lost, what a thread holds stays live, and a
      pool can be stopped and destroyed.  The faults of the code (the weights' overflow, a metric
      without a name) are outcomes of the critical sections, and the theorems say which ones have them.
    - [server_workers_safe] and [server_shutdown_waits]: the worker threads of a server keep within its
      ports and close what they accept, and a shutdown comes to the end that the sequential
      [stop_workers] says, unless [accept] holds a worker ([server_shutdown_can_hang]).
    - [client_tags_delivered] and [client_never_stuck]: channels, calls and queues composed; what was
      started on the calls of a queue comes out of it, in order, and every history can be brought to
      an end that leaves nothing.
    - [echo_client_spec], [streaming_example_spec], [echo_server_spec] and [advanced_example_spec]:
      what the example programs do from start to exit, and that they leave nothing behind.
    - [basic_test_spec], [enhanced_test_spec], [advanced_test_spec] and [tls_protobuf_test_spec]: the
      repository's own tests pass on the model, for every clock, generator, resolver and codec, and
      leave nothing behind.
    - [http2_connection_reachable_ok], [grpc_channel_reachable_ok], [grpc_connection_pool_invariant],
      [grpc_server_no_socket_leak] and [trace_context_reachable]: invariants of every reachable
      state, proved for each operation and composed by induction on the steps.
    - The [_spec] theorems: an operation on every branch, failed allocations included.
    - [http2_flow_control_credit], [grpc_lb_round_robin_fair], [grpc_lb_weighted_proportional],
      [grpc_metrics_increment_stats]: what a protocol built from several calls achieves.
    - [http2_connection_reachable_ok] lets a connection's descriptor be stored at any time
      ([step_socket]): no function of the library connects it.
    - Where the code does not do what it means to, the theorem states what it does: a deadlock, a
      dangling node, an accepted overflow.

    ** What is not modelled

    - The text that goes to [stderr] and [stdout], but for what the demonstrations of [Demos] show;
      [example_backpressure] of src/examples/streaming_example.c only prints.
    - zlib, protobuf-c and OpenSSL: third-party code, met through [Zlib], [ProtobufC] and the
      objects and answers of [Tls].  The names a certificate is verified against are OpenSSL's.
    - Threads around the objects with a mutex that are not named above (interceptor chains, the
      registry of services, resolvers, the logger, trace contexts): their functions are taken
      one after the other.  The accesses without the mutex (the flag of a pool, the head of a policy's
      list) are steps of their own and not data races, which C leaves undefined.
    - Spans and metrics have no [logs] and no histogram buckets because no code writes them.
    - HPACK's indexed fields and Huffman coding, HTTP/2 SETTINGS and the sending of a call's
      operations: the sources have no code for them. *)

From Stdlib Require Import ZArith Lia.
From stdpp Require Import base tactics list option strings gmap.

#[global] Set Default Goal Selector "1".

(** ** Machine integers

    A C integer of width [w] is a [Z]; the conversions write out the wrap-around:
    unsigned types reduce modulo [2^w], the conversion to [int]/[int32_t] is the
    two's complement one of every supported compiler. *)

#[local] Open Scope Z_scope.

Definition u8 (x : Z) : Z := x mod 2 ^ 8.
Definition u16 (x : Z) : Z := x mod 2 ^ 16.
Definition u32 (x : Z) : Z := x mod 2 ^ 32.
Definition u64 (x : Z) : Z := x mod 2 ^ 64.
Definition i32 (x : Z) : Z := (x + 2 ^ 31) mod 2 ^ 32 - 2 ^ 31.

Definition UINT32_MAX : Z := 2 ^ 32 - 1.

Abbreviation zlen l := (Z.of_nat (length l)).

(** A byte value, and a run of them. *)
Abbreviation byte_ok b := (0 ≤ b < 2 ^ 8).
Abbreviation bytes_ok := (Forall (fun b : Z => byte_ok b)).

Lemma u8_small x : 0 ≤ x < 2 ^ 8 → u8 x = x.
Proof. apply Z.mod_small. Qed.
Lemma u16_small x : 0 ≤ x < 2 ^ 16 → u16 x = x.
Proof. apply Z.mod_small. Qed.
Lemma u32_small x : 0 ≤ x < 2 ^ 32 → u32 x = x.
Proof. apply Z.mod_small. Qed.
Lemma u64_small x : 0 ≤ x < 2 ^ 64 → u64 x = x.
Proof. apply Z.mod_small. Qed.
Lemma i32_small x : - 2 ^ 31 ≤ x < 2 ^ 31 → i32 x = x.
Proof. intros H. unfold i32. rewrite Z.mod_small; lia. Qed.

Lemma u8_range x : 0 ≤ u8 x < 2 ^ 8.
Proof. apply Z.mod_pos_bound. lia. Qed.
Lemma u32_range x : 0 ≤ u32 x < 2 ^ 32.
Proof. apply Z.mod_pos_bound. lia. Qed.
Lemma u64_range x : 0 ≤ u64 x < 2 ^ 64.
Proof. apply Z.mod_pos_bound. lia. Qed.
Lemma i32_range x : - 2 ^ 31 ≤ i32 x < 2 ^ 31.
Proof. unfold i32. pose proof (Z.mod_pos_bound (x + 2 ^ 31) (2 ^ 32)). lia. Qed.

(** [i32] of a value one period too high is the value minus the period. *)
Lemma i32_wrap_once x : 2 ^ 31 ≤ x < 2 ^ 31 + 2 ^ 32 → i32 x = x - 2 ^ 32.
Proof.
  intros H. unfold i32.
  replace (x + 2 ^ 31) with ((x - 2 ^ 31) + 1 * 2 ^ 32) by lia.
  rewrite Z_mod_plus_full, Z.mod_small; lia.
Qed.

Lemma u32_add_l x y : u32 (u32 x + y) = u32 (x + y).
Proof. apply Zplus_mod_idemp_l. Qed.
Lemma u32_add_r x y : u32 (x + u32 y) = u32 (x + y).
Proof. apply Zplus_mod_idemp_r. Qed.
Lemma u64_add_l x y : u64 (u64 x + y) = u64 (x + y).
Proof. apply Zplus_mod_idemp_l. Qed.
Lemma i32_u32 x : i32 (u32 x) = i32 x.
Proof. unfold i32, u32. by rewrite Zplus_mod_idemp_l. Qed.

Lemma i32_u64 x : i32 (u64 x) = i32 x.
Proof.
  unfold i32, u64. f_equal.
  rewrite (Z.mod_eq x (2 ^ 64)) by lia.
  replace (x - 2 ^ 64 * (x `div` 2 ^ 64) + 2 ^ 31)
    with (x + 2 ^ 31 + (- 2 ^ 32 * (x `div` 2 ^ 64)) * 2 ^ 32) by lia.
  apply Z_mod_plus_full.
Qed.

Fixpoint zsum (l : list Z) : Z := match l with [] => 0 | x :: l => x + zsum l end.

(** The first element that passes a test. *)
Lemma find_split {A} (f : A → bool) l e :
  List.find f l = Some e → ∃ l1 l2, l = l1 ++ e :: l2 ∧ f e = true ∧ Forall (λ e, f e = false) l1.
Proof.
  induction l as [|x l IH]; cbn; [done|]. destruct (f x) eqn:E.
  - intros [= ->]. exists [], l. split_and!; [done|done|constructor].
  - intros (l1 & l2 & -> & ? & ?)%IH. exists (x :: l1), l2. split_and!; [done|done|by constructor].
Qed.

Lemma filter_all {A} (P : A → Prop) `{!∀ x, Decision (P x)} (k : list A) :
  Forall P k → filter P k = k.
Proof. induction 1 as [|x k Hx _ IH]; [done|]. by rewrite filter_cons_True, IH. Qed.
Lemma filter_none {A} (P : A → Prop) `{!∀ x, Decision (P x)} (k : list A) :
  Forall (λ x, ¬ P x) k → filter P k = [].
Proof. induction 1 as [|x k Hx _ IH]; [done|]. by rewrite filter_cons_False, IH. Qed.

Lemma zsum_app l k : zsum (l ++ k) = zsum l + zsum k.
Proof. induction l as [|x l IH]; cbn; [done|lia]. Qed.

(** ** Faults, outcomes and the two monads

    [outcome] is the result of running C code: a value, or the undefined or
    blocking behaviour it ran into.  Error codes the C code returns are values. *)

Inductive fault : Set :=
| NullDeref        (* dereference of a null pointer *)
| UseAfterFree     (* access to, or free of, an object already freed *)
| OutOfBounds      (* load or store outside the object *)
| Uninitialised    (* load of a slot never written *)
| Deadlock         (* the thread waits for a mutex it holds itself *)
| SignedOverflow   (* overflow of a signed [int] *)
| Aborted          (* a failed [assert], or [exit] in the middle of a program *)
| OutOfFuel.       (* the model's loop bound was too small *)

#[export] Instance fault_eq_dec : EqDecision fault.
Proof. solve_decision. Defined.

Inductive outcome (A : Type) : Type :=
| Ret (a : A)
| Fault (f : fault).
Arguments Ret {A} a.
Arguments Fault {A} f.

#[export] Instance outcome_ret : MRet outcome := fun A a => Ret a.
#[export] Instance outcome_bind : MBind outcome := fun A B k m =>
  match m with Ret a => k a | Fault f => Fault f end.

(** State passing over [outcome]: the code that works on a shared object. *)
Definition M (S A : Type) : Type := S → outcome (A * S).

#[export] Instance M_ret {S} : MRet (M S) := fun A a s => Ret (a, s).
#[export] Instance M_bind {S} : MBind (M S) := fun A B k m s =>
  match m s with Ret (a, s') => k a s' | Fault f => Fault f end.

Definition get {S} : M S S := fun s => Ret (s, s).
Definition gets {S A} (f : S → A) : M S A := fun s => Ret (f s, s).
Definition modify {S} (f : S → S) : M S () := fun s => Ret ((), f s).
Definition fail {S A} (f : fault) : M S A := fun _ => Fault f.
Definition of_option {S A} (f : fault) (o : option A) : M S A := fun s =>
  match o with Some a => Ret (a, s) | None => Fault f end.

Definition lift {S A} (m : outcome A) : M S A := fun s =>
  match m with Ret a => Ret (a, s) | Fault f => Fault f end.

(** [x + y] on [int]s: overflow is undefined behaviour. *)
Definition int_add (x y : Z) : outcome Z :=
  if (- 2 ^ 31 <=? x + y) && (x + y <? 2 ^ 31) then Ret (x + y) else Fault SignedOverflow.

Lemma int_add_run x y :
  0 ≤ x → 0 ≤ y → int_add x y = if x + y <? 2 ^ 31 then Ret (x + y) else Fault SignedOverflow.
Proof.
  intros Hx Hy. unfold int_add. by destruct (Z.leb_spec (- 2 ^ 31) (x + y)); [|lia].
Qed.

(** Running part of a larger state ([get]/[put] of a field). *)
Definition zoom {S T A} (proj : S → T) (inj : T → S → S) (m : M T A) : M S A :=
  fun s => match m (proj s) with
           | Ret (a, t) => Ret (a, inj t s)
           | Fault f => Fault f
           end.

(** An operation whose object pointer may be null: the code returns [dflt] before it
    touches anything. *)
Definition nullable {S A} (dflt : A) (m : M S A) : M (option S) A := fun o =>
  match o with
  | None => Ret (dflt, None)
  | Some s => match m s with
              | Ret (a, s') => Ret (a, Some s')
              | Fault f => Fault f
              end
  end.

(** A call of such an operation on the object at hand. *)
Definition deref {S A} (m : M (option S) A) : M S A := fun s =>
  match m (Some s) with
  | Ret (a, Some s') => Ret (a, s')
  | Ret (_, None) => Fault NullDeref
  | Fault f => Fault f
  end.

Lemma nullable_Ret {S A} (d : A) (m : M S A) s a s' :
  m s = Ret (a, s') → nullable d m (Some s) = Ret (a, Some s').
Proof. intros H. unfold nullable. by rewrite H. Qed.
Lemma nullable_Fault {S A} (d : A) (m : M S A) s f :
  m s = Fault f → nullable d m (Some s) = Fault f.
Proof. intros H. unfold nullable. by rewrite H. Qed.
Lemma nullable_inv {S A} (d : A) (m : M S A) s a s' :
  nullable d m (Some s) = Ret (a, Some s') → m s = Ret (a, s').
Proof. unfold nullable. destruct (m s) as [[]|]; naive_solver. Qed.
Lemma deref_Ret {S A} (m : M (option S) A) s a s' : m (Some s) = Ret (a, Some s') → deref m s = Ret (a, s').
Proof. intros H. unfold deref. by rewrite H. Qed.
Lemma deref_nullable {S A} (d : A) (m : M S A) s : deref (nullable d m) s = m s.
Proof. unfold deref, nullable. by destruct (m s) as [[]|]. Qed.

Lemma M_bind_Ret {S A B} (m : M S A) (k : A → M S B) s a s' :
  m s = Ret (a, s') → (m ≫= k) s = k a s'.
Proof. intros H. unfold mbind, M_bind. by rewrite H. Qed.
Lemma M_bind_Fault {S A B} (m : M S A) (k : A → M S B) s f :
  m s = Fault f → (m ≫= k) s = Fault f.
Proof. intros H. unfold mbind, M_bind. by rewrite H. Qed.
Lemma M_bind_lift {S A B} (m : outcome A) (k : A → M S B) s a :
  m = Ret a → (lift m ≫= k) s = k a s.
Proof. by intros ->. Qed.
Lemma M_bind_mret {S A B} (a : A) (k : A → M S B) s : (mret a ≫= k) s = k a s.
Proof. done. Qed.
Lemma M_bind_modify {S B} (f : S → S) (k : () → M S B) s : (modify f ≫= k) s = k () (f s).
Proof. done. Qed.
Lemma M_bind_gets {S A B} (f : S → A) (k : A → M S B) s : (gets f ≫= k) s = k (f s) s.
Proof. done. Qed.
Lemma outcome_bind_Ret {A B} (m : outcome A) (k : A → outcome B) a :
  m = Ret a → m ≫= k = k a.
Proof. by intros ->. Qed.
Lemma M_bind_assoc {S A B C} (m : M S A) (k : A → M S B) (h : B → M S C) s :
  ((m ≫= k) ≫= h) s = (m ≫= (λ a, k a ≫= h)) s.
Proof. unfold mbind, M_bind. by destruct (m s) as [[]|]. Qed.
Lemma M_bind_inv {S A B} (m : M S A) (k : A → M S B) s b s'' :
  (m ≫= k) s = Ret (b, s'') → ∃ a s', m s = Ret (a, s') ∧ k a s' = Ret (b, s'').
Proof.
  unfold mbind, M_bind. destruct (m s) as [[a s']|f] eqn:E; [|done]. eauto.
Qed.
Lemma outcome_bind_inv {A B} (m : outcome A) (k : A → outcome B) b :
  m ≫= k = Ret b → ∃ a, m = Ret a ∧ k a = Ret b.
Proof. destruct m; cbn; [eauto | done]. Qed.

(** [mred] exposes the state transformer of a monadic program. *)
Ltac mred :=
  cbn [mbind mret outcome_bind outcome_ret M_bind M_ret get gets modify fail
       of_option fst snd] in *.
(** The next step of a monadic program is the run [E]; [E] may be about a [lift]ed outcome. *)
Tactic Notation "mstep" uconstr(E) :=
  first [rewrite (M_bind_Ret _ _ _ _ _ E) | rewrite (M_bind_lift _ _ _ _ E)].
(** Split the tests of the code in the goal, keeping each as a hypothesis. *)
Ltac split_test :=
  match goal with
  | |- context [if ?b then _ else _] => destruct b eqn:?
  end.
(** Boolean comparisons of the code as propositions for [lia]. *)
Ltac to_prop :=
  repeat match goal with
  | H : _ && _ = true |- _ => apply andb_true_iff in H as [? ?]
  | H : _ || _ = false |- _ => apply orb_false_iff in H as [? ?]
  | H : _ && _ = false |- _ => apply andb_false_iff in H
  | H : _ || _ = true |- _ => apply orb_true_iff in H
  | H : negb _ = true |- _ => apply negb_true_iff in H
  | H : negb _ = false |- _ => apply negb_false_iff in H
  | H : (_ <? _) = true |- _ => apply Z.ltb_lt in H
  | H : (_ <? _) = false |- _ => apply Z.ltb_ge in H
  | H : (_ <=? _) = true |- _ => apply Z.leb_le in H
  | H : (_ <=? _) = false |- _ => apply Z.leb_gt in H
  | H : (_ =? _) = true |- _ => apply Z.eqb_eq in H
  | H : (_ =? _) = false |- _ => apply Z.eqb_neq in H
  end.

(** ** What a function leaves alone *)

(** [m] does not change what [f] reads of the state.  Instances follow the structure of [m]. *)
Class Keeps {S A X} (f : S → X) (m : M S A) : Prop := keeps s a s' : m s = Ret (a, s') → f s' = f s.

Section keeps.
Context {S X : Type} (f : S → X).

#[export] Instance keeps_mret {A} (a : A) : Keeps f (mret a).
Proof. by intros s b s' [= _ <-]. Qed.
#[export] Instance keeps_fail {A} (e : fault) : Keeps f (fail (A := A) e).
Proof. done. Qed.
#[export] Instance keeps_gets {A} (g : S → A) : Keeps f (gets g).
Proof. by intros s b s' [= _ <-]. Qed.
#[export] Instance keeps_lift {A} (m : outcome A) : Keeps f (lift m).
Proof. intros s b s'. unfold lift. destruct m; [by intros [= _ <-]|done]. Qed.
#[export] Instance keeps_bind {A B} (m : M S A) (k : A → M S B) :
  Keeps f m → (∀ a, Keeps f (k a)) → Keeps f (m ≫= k).
Proof.
  intros Hm Hk s b s'. unfold mbind, M_bind. destruct (m s) as [[a s1]|] eqn:E; [|done].
  intros Hb. by rewrite (Hk a s1 b s' Hb), (Hm s a s1 E).
Qed.
#[export] Instance keeps_if {A} (b : bool) (m n : M S A) : Keeps f m → Keeps f n → Keeps f (if b then m else n).
Proof. by destruct b. Qed.
#[export] Instance keeps_option {A B} (o : option B) (m : B → M S A) (n : M S A) :
  (∀ b, Keeps f (m b)) → Keeps f n → Keeps f (match o with Some b => m b | None => n end).
Proof. by destruct o. Qed.
End keeps.

(** ** Memory blocks

    A [uint8_t *] or [char *] that may be null is an [option (list Z)]: the bytes
    readable (or writable) from the pointer on.  Loads and stores outside the block
    are the fault [OutOfBounds]. *)

Definition load (m : list Z) (i : Z) : outcome Z :=
  if i <? 0 then Fault OutOfBounds
  else match m !! Z.to_nat i with Some b => Ret b | None => Fault OutOfBounds end.

Definition store (m : list Z) (i b : Z) : outcome (list Z) :=
  if (i <? 0) || (zlen m <=? i) then Fault OutOfBounds
  else Ret (<[Z.to_nat i := b]> m).

(** [&m[i]]: the block seen from offset [i] (one past the end is allowed). *)
Definition offset (m : list Z) (i : Z) : outcome (list Z) :=
  if (i <? 0) || (zlen m <? i) then Fault OutOfBounds else Ret (drop (Z.to_nat i) m).

(** Reads [n] bytes from the start of [src]. *)
Definition read_bytes (src : list Z) (n : Z) : outcome (list Z) :=
  if (n <? 0) || (zlen src <? n) then Fault OutOfBounds else Ret (take (Z.to_nat n) src).

(** [memcpy (&dst[i], src, n)]. *)
Definition memcpy (dst : list Z) (i : Z) (src : list Z) (n : Z) : outcome (list Z) :=
  bs ← read_bytes src n;
  if (i <? 0) || (zlen dst <? i + n) then Fault OutOfBounds
  else Ret (take (Z.to_nat i) dst ++ bs ++ drop (Z.to_nat (i + n)) dst).

Section memory.
Implicit Types (m pre suf bs : list Z).

Lemma load_app pre b suf i : i = zlen pre → load (pre ++ b :: suf) i = Ret b.
Proof.
  intros ->. unfold load. destruct (Z.ltb_spec (zlen pre) 0); [lia|].
  rewrite Nat2Z.id, lookup_app_r by lia. by rewrite Nat.sub_diag.
Qed.

Lemma store_app pre x suf i b :
  i = zlen pre → store (pre ++ x :: suf) i b = Ret (pre ++ b :: suf).
Proof.
  intros ->. unfold store. rewrite length_app. cbn [length].
  destruct (Z.ltb_spec (zlen pre) 0), (Z.leb_spec (Z.of_nat (length pre + S (length suf))) (zlen pre));
    try lia; cbn.
  rewrite Nat2Z.id, insert_app_r_alt by lia. by rewrite Nat.sub_diag.
Qed.

Lemma offset_app pre suf i : i = zlen pre → offset (pre ++ suf) i = Ret suf.
Proof.
  intros ->. unfold offset. rewrite length_app.
  destruct (Z.ltb_spec (zlen pre) 0), (Z.ltb_spec (Z.of_nat (length pre + length suf)) (zlen pre));
    try lia; cbn.
  by rewrite Nat2Z.id, drop_app_length.
Qed.

Lemma read_bytes_app bs suf n : n = zlen bs → read_bytes (bs ++ suf) n = Ret bs.
Proof.
  intros ->. unfold read_bytes. rewrite length_app.
  destruct (Z.ltb_spec (zlen bs) 0), (Z.ltb_spec (Z.of_nat (length bs + length suf)) (zlen bs));
    try lia; cbn.
  by rewrite Nat2Z.id, take_app_length.
Qed.

Lemma memcpy_app pre old suf bs tl i n :
  i = zlen pre → n = zlen bs → length old = length bs →
  memcpy (pre ++ old ++ suf) i (bs ++ tl) n = Ret (pre ++ bs ++ suf).
Proof.
  intros -> -> Hl. unfold memcpy. rewrite read_bytes_app by done. cbn.
  rewrite !length_app.
  destruct (Z.ltb_spec (zlen pre) 0),
    (Z.ltb_spec (Z.of_nat (length pre + (length old + length suf))) (zlen pre + zlen bs)); try lia; cbn.
  rewrite Nat2Z.id, take_app_length.
  replace (Z.to_nat (zlen pre + zlen bs)) with (length pre + length old)%nat by lia.
  by rewrite <- drop_drop, !drop_app_length.
Qed.

Lemma read_bytes_all (s : list Z) : read_bytes s (zlen s) = Ret s.
Proof. pose proof (read_bytes_app s [] (zlen s) eq_refl) as E. by rewrite app_nil_r in E. Qed.

Lemma memcpy_whole (old bs : list Z) :
  length old = length bs → memcpy old 0 bs (zlen bs) = Ret bs.
Proof.
  intros Hl. pose proof (memcpy_app [] old [] bs [] 0 (zlen bs) eq_refl eq_refl Hl) as E.
  by rewrite !app_nil_r in E.
Qed.
End memory.

(** ** Allocation

    The results of the coming calls to the allocator: [true] for a block, [false]
    for a null pointer; past the end of the list every call succeeds. *)
Abbreviation allocs := (list bool).

Definition malloc : M allocs bool := fun al =>
  match al with [] => Ret (true, []) | b :: al' => Ret (b, al') end.

(** The next answer of the allocator, and the coming ones. *)
Definition answer (al : allocs) : bool * allocs :=
  match al with [] => (true, []) | b :: al => (b, al) end.

Lemma malloc_answer al : malloc al = Ret (answer al).
Proof. by destruct al. Qed.

Lemma malloc_run al :
  ∃ ok al', malloc al = Ret (ok, al') ∧ (al = [] → ok = true ∧ al' = []).
Proof. destruct al as [|b al]; cbn; do 2 eexists; by split. Qed.

(** Run a call to the allocator: the goal is left with its answer [ok]. *)
Ltac step_malloc ok al' :=
  match goal with
  | |- context [(malloc ≫= ?k) ?al] =>
      let E := fresh "E" in let H := fresh "Hal" in
      destruct (malloc_run al) as (ok & al' & E & H);
      rewrite (M_bind_Ret malloc k _ _ _ E); clear E
  end.

(** ** C strings

    A [const char *] is the block of its bytes, terminator included. *)
Fixpoint c_strlen_nat (s : list Z) : nat :=
  match s with
  | [] => O
  | b :: s' => if b =? 0 then O else S (c_strlen_nat s')
  end.
Definition strlen (s : list Z) : Z := Z.of_nat (c_strlen_nat s).
(** The characters of the string. *)
Definition c_str (s : list Z) : list Z := take (c_strlen_nat s) s.

Abbreviation nul_free := (Forall (fun b : Z => b ≠ 0)).

Lemma c_strlen_le s : (c_strlen_nat s ≤ length s)%nat.
Proof. induction s as [|b s IH]; cbn; [lia|]. destruct (b =? 0); lia. Qed.

Lemma strlen_nonneg s : 0 ≤ strlen s.
Proof. unfold strlen. lia. Qed.

Lemma length_c_str s : zlen (c_str s) = strlen s.
Proof. unfold c_str, strlen. rewrite length_take. pose proof (c_strlen_le s). lia. Qed.

Lemma c_str_nul_free s : nul_free (c_str s).
Proof.
  unfold c_str. induction s as [|b s IH]; cbn; [constructor|].
  destruct (Z.eqb_spec b 0); cbn; by constructor.
Qed.

Lemma c_str_prefix s : ∃ tl, s = c_str s ++ tl.
Proof. exists (drop (c_strlen_nat s) s). unfold c_str. by rewrite take_drop. Qed.

Lemma c_str_bytes s : bytes_ok s → bytes_ok (c_str s).
Proof. intros H. by apply Forall_take. Qed.

Lemma c_strlen_nul_free s tl : nul_free s → c_strlen_nat (s ++ 0 :: tl) = length s.
Proof.
  induction 1 as [|b s Hb _ IH]; cbn; [done|].
  destruct (Z.eqb_spec b 0); [done|]. by rewrite IH.
Qed.

Lemma c_str_terminated s tl : nul_free s → c_str (s ++ 0 :: tl) = s.
Proof. intros H. unfold c_str. by rewrite c_strlen_nul_free, take_app_length. Qed.

(** A second terminator adds nothing. *)
Lemma c_str_app0 s : c_str (s ++ [0]) = c_str s.
Proof.
  unfold c_str. induction s as [|b s IH]; [done|]. cbn. destruct (b =? 0); [done|]. cbn. by rewrite IH.
Qed.

Lemma strlen_terminated s tl : nul_free s → strlen (s ++ 0 :: tl) = zlen s.
Proof. intros H. unfold strlen. by rewrite c_strlen_nul_free. Qed.

(** [strcmp (s, t) == 0]. *)
Definition strcmp_eq (s t : list Z) : bool := bool_decide (c_str s = c_str t).

(** ** Counting *)

Definition count_if {A} (f : A → bool) (l : list A) : nat := length (List.filter f l).

Section count.
Context {A : Type} (f : A → bool).
Implicit Types (l : list A).

#[export] Instance count_perm : Proper ((≡ₚ) ==> (=)) (count_if f).
Proof.
  unfold count_if. induction 1 as [|p ? ? _ IH|p q ?|? ? ? _ IH1 _ IH2]; cbn; [done| | |lia].
  - destruct (f p); cbn; lia.
  - by destruct (f p), (f q).
Qed.

Lemma count_cons p l : count_if f (p :: l) = ((if f p then 1 else 0) + count_if f l)%nat.
Proof. unfold count_if. cbn. by destruct (f p). Qed.
Lemma count_app l1 l2 : count_if f (l1 ++ l2) = (count_if f l1 + count_if f l2)%nat.
Proof. unfold count_if. by rewrite List.filter_app, length_app. Qed.

Lemma count_zero l p : count_if f l = 0%nat → p ∈ l → f p = false.
Proof.
  intros Hc (l1 & l2 & ->)%list_elem_of_split. rewrite <- Permutation_middle, count_cons in Hc. by destruct (f p).
Qed.
Lemma count_none l : (∀ p, p ∈ l → f p = false) → count_if f l = 0%nat.
Proof.
  induction l as [|p l IH]; intros H; [done|].
  rewrite count_cons, IH by (intros q Hq; apply H; by right). by rewrite (H p ltac:(left)).
Qed.

(** One element at most: it has one place. *)
Lemma count_unique l i j a b :
  (count_if f l ≤ 1)%nat → l !! i = Some a → l !! j = Some b → f a = true → f b = true → i = j.
Proof.
  intros Hle Hi Hj Ha Hb. destruct (decide (i = j)) as [|Hne]; [done|]. exfalso.
  rewrite <- (take_drop_middle _ _ _ Hi), <- Permutation_middle, count_cons, Ha in Hle.
  assert (b ∈ take i l ++ drop (S i) l) as (k1 & k2 & Hk)%list_elem_of_split;
    [|rewrite Hk, <- Permutation_middle, count_cons, Hb in Hle; lia].
  apply elem_of_app. destruct (decide (j < i)%nat); [left|right]; apply list_elem_of_lookup.
  - exists j. by rewrite lookup_take_lt.
  - exists (j - S i)%nat. rewrite lookup_drop. by replace (S i + (j - S i))%nat with j by lia.
Qed.
End count.

(** ** The library's hints *)
Create HintDb grpc discriminated.
Create Rewrite HintDb grpc.
#[export] Hint Resolve u8_range u32_range u64_range i32_range strlen_nonneg
  c_str_nul_free c_str_bytes : grpc.
#[export] Hint Rewrite @length_app @length_take @length_drop @length_insert
  @length_replicate length_c_str : grpc.
