(* ===== verification/Metadata.v ===== *)
(** * Metadata arrays (src/src/enhanced_features.c)

    The growable array of header fields that the metadata API and HPACK share. *)

From Stdlib Require Import ZArith Lia.
From stdpp Require Import base tactics list option strings gmap.
From S2P Require Import Prelude.

#[local] Open Scope Z_scope.
#[local] Set Warnings "-clear-no-such-hyp".

(** [struct grpc_metadata]: key and value are the blocks of the two strings, their
    terminators included. *)
Record grpc_metadata := mk_metadata {
  key : list Z;
  value : list Z;
  value_length : Z
}.

#[export] Instance grpc_metadata_eq_dec : EqDecision grpc_metadata.
Proof. solve_decision. Defined.

(** A slot of the block: zeroed by [calloc] (null pointers), with the indeterminate
    content [realloc] leaves, or written. *)
Inductive md_slot :=
| Zeroed
| Indeterminate
| Entry (md : grpc_metadata).

(** What the field [metadata] of an array points to: nothing, a block of slots, or a
    block that was freed. *)
Inductive md_block :=
| MdNull
| MdLive (slots : list md_slot)
| MdFreed.

Record grpc_metadata_array := mk_md_array {
  count : Z;
  capacity : Z;
  metadata : md_block
}.

Definition GRPC_METADATA_DEFAULT_CAPACITY : Z := 16.
(** [sizeof (grpc_metadata)] on LP64. *)
Definition SIZEOF_METADATA : Z := 24.

(** An array as [calloc] leaves it inside a call or a stream. *)
Definition md_array_zero : grpc_metadata_array := mk_md_array 0 0 MdNull.

(** [calloc (n, sizeof (grpc_metadata))] detects the overflow of the product. *)
Definition calloc_slots (n : Z) : M allocs md_block :=
  if 2 ^ 64 <=? n * SIZEOF_METADATA then mret MdNull
  else ok ← malloc;
       mret (if ok : bool then MdLive (replicate (Z.to_nat n) Zeroed) else MdNull).

(** [realloc (b, n * sizeof (grpc_metadata))]: the product is taken modulo [2^64], the
    common prefix of the slots is kept; [None] when the allocation fails, and then the
    old block is untouched. *)
Definition realloc_slots (b : md_block) (n : Z) : M allocs (option md_block) :=
  let room := Z.to_nat (u64 (n * SIZEOF_METADATA) / SIZEOF_METADATA) in
  match b with
  | MdFreed => fail UseAfterFree
  | MdNull | MdLive _ =>
      let old := match b with MdLive slots => slots | _ => [] end in
      ok ← malloc;
      mret (if ok : bool
            then Some (MdLive (take room old ++ replicate (room - length old) Indeterminate))
            else None)
  end.

(** [b[i] = md]. *)
Definition set_slot {S} (b : md_block) (i : Z) (md : grpc_metadata) : M S md_block :=
  match b with
  | MdNull => fail NullDeref
  | MdFreed => fail UseAfterFree
  | MdLive slots =>
      if (i <? 0) || (zlen slots <=? i) then fail OutOfBounds
      else mret (MdLive (<[Z.to_nat i := Entry md]> slots))
  end.

(** The pointers in [b[i]]: [None] when they are null. *)
Definition get_slot {S} (b : md_block) (i : Z) : M S (option grpc_metadata) :=
  match b with
  | MdNull => fail NullDeref
  | MdFreed => fail UseAfterFree
  | MdLive slots =>
      if i <? 0 then fail OutOfBounds
      else match slots !! Z.to_nat i with
           | Some (Entry md) => mret (Some md)
           | Some Zeroed => mret None
           | Some Indeterminate => fail Uninitialised
           | None => fail OutOfBounds
           end
  end.

(** A [malloc (room)] filled by [memcpy] with [bs] and a terminator after them. *)
Definition terminated_copy {S} (room : Z) (bs : list Z) : M S (list Z) :=
  if room <? zlen bs + 1 then fail OutOfBounds else mret (bs ++ [0]).

(** ** The operations

    A pointer to an array is [None] when null; each operation returns the [int] of the
    code and the array after the call. *)

Definition grpc_metadata_array_init (array : option grpc_metadata_array)
    (initial_capacity : Z) : M allocs (Z * option grpc_metadata_array) :=
  match array with
  | None => mret (-1, None)
  | Some _ =>
      let cap := if 0 <? initial_capacity then initial_capacity
                 else GRPC_METADATA_DEFAULT_CAPACITY in
      block ← calloc_slots cap;
      let array := mk_md_array 0 cap block in
      match block with
      | MdNull => mret (-1, Some array)
      | _ => mret (0, Some array)
      end
  end.

(** The growth step of [grpc_metadata_array_add] and of [hpack_decode_metadata];
    [None] when [realloc] fails. *)
Definition md_array_grow (array : grpc_metadata_array)
    : M allocs (option grpc_metadata_array) :=
  if capacity array <=? count array then
    let new_capacity := u64 (capacity array * 2) in
    new_metadata ← realloc_slots (metadata array) new_capacity;
    match new_metadata with
    | None => mret None
    | Some b => mret (Some (mk_md_array (count array) new_capacity b))
    end
  else mret (Some array).

(** [array->metadata[array->count] = md; array->count++]. *)
Definition md_array_push (array : grpc_metadata_array) (md : grpc_metadata)
    : M allocs grpc_metadata_array :=
  b ← set_slot (metadata array) (count array) md;
  mret (mk_md_array (u64 (count array + 1)) (capacity array) b).

Definition grpc_metadata_array_add (array : option grpc_metadata_array)
    (key value : option (list Z)) (value_len : Z)
    : M allocs (Z * option grpc_metadata_array) :=
  match array, key, value with
  | Some array, Some key, Some value =>
      grown ← md_array_grow array;
      match grown with
      | None => mret (-1, Some array)
      | Some array =>
          key_ok ← malloc;                       (* strdup (key) *)
          if negb key_ok then mret (-1, Some array) else
          value_ok ← malloc;                     (* malloc (value_len + 1) *)
          if negb value_ok then mret (-1, Some array) else
          (if (value_len <? 0) || (zlen value <? value_len) then fail OutOfBounds else
           value_copy ← terminated_copy (u64 (value_len + 1)) (take (Z.to_nat value_len) value);
           array ← md_array_push array (mk_metadata (c_str key ++ [0]) value_copy value_len);
           mret (0, Some array))
      end
  | _, _, _ => mret (-1, array)
  end.

(** The loop of [grpc_metadata_array_destroy] over the slots [i .. i + n - 1]: it reads
    each slot and frees the strings it holds. *)
Fixpoint destroy_slots (b : md_block) (i : Z) (n : nat) : M allocs () :=
  match n with
  | O => mret ()
  | S n' => _ ← get_slot b i; destroy_slots b (i + 1) n'
  end.

Definition grpc_metadata_array_destroy (array : option grpc_metadata_array)
    : M allocs (option grpc_metadata_array) :=
  match array with
  | None => mret None
  | Some array =>
      match metadata array with
      | MdNull => mret (Some array)
      | b =>
          _ ← destroy_slots b 0 (Z.to_nat (count array));
          match b with
          | MdFreed => fail UseAfterFree          (* free (array->metadata) *)
          | _ => mret (Some (mk_md_array 0 0 MdNull))
          end
      end
  end.

(** ** Well-formed arrays *)

(** [array] is live and holds exactly the fields [l]. *)
Definition md_array_ok (array : grpc_metadata_array) (l : list grpc_metadata) : Prop :=
  ∃ rest,
    metadata array = MdLive (map Entry l ++ rest) ∧
    zlen (map Entry l ++ rest) = capacity array ∧
    count array = zlen l ∧
    1 ≤ capacity array ∧ capacity array * SIZEOF_METADATA < 2 ^ 64.

(** The array of a size no address space can exceed: doubling it does not wrap. *)
Definition md_size_ok (l : list grpc_metadata) : Prop := zlen l < 2 ^ 58.

Section proofs.
Implicit Types (a : grpc_metadata_array) (l : list grpc_metadata) (al : allocs).

Lemma realloc_slots_spec slots n al :
  ∃ ok al',
    realloc_slots (MdLive slots) n al =
      Ret (if ok : bool
           then let room := Z.to_nat (u64 (n * SIZEOF_METADATA) / SIZEOF_METADATA) in
                Some (MdLive (take room slots ++ replicate (room - length slots) Indeterminate))
           else None, al') ∧
    (al = [] → ok = true ∧ al' = []).
Proof.
  unfold realloc_slots. step_malloc ok al'. exists ok, al'. by destruct ok.
Qed.

Lemma md_array_grow_spec a l al :
  md_array_ok a l → md_size_ok l →
  ∃ o al', md_array_grow a al = Ret (o, al') ∧
    match o with
    | None => True
    | Some a' => md_array_ok a' l ∧ count a' < capacity a'
    end ∧ (al = [] → o ≠ None ∧ al' = []).
Proof.
  intros (rest & Hb & Hlen & Hc & H1 & Hsz) Hl.
  unfold md_array_grow, md_size_ok, SIZEOF_METADATA in *.
  destruct (Z.leb_spec (capacity a) (count a)) as [Hfull|Hroom].
  - rewrite (u64_small (capacity a * 2)), Hb by lia.
    destruct (realloc_slots_spec (map Entry l ++ rest) (capacity a * 2) al)
      as (ok & al' & E & Hal).
    mstep E. clear E.
    rewrite length_app, length_map in Hlen.
    destruct ok; [|exists None, al'; naive_solver].
    eexists _, al'; split; [done|]. split; [|naive_solver].
    unfold SIZEOF_METADATA. rewrite u64_small, Z.div_mul by lia.
    assert (rest = []) as -> by (apply nil_length_inv; lia).
    rewrite app_nil_r, take_ge by (rewrite length_map; lia).
    split; [|cbn; lia].
    eexists; split_and!; cbn -[Z.mul]; unfold SIZEOF_METADATA; [done| |lia..].
    rewrite length_app, length_replicate, length_map; lia.
  - eexists _, al; split; [done|]. split; [|naive_solver]. split; [|lia]. exists rest.
    unfold SIZEOF_METADATA. split_and!; done || lia.
Qed.

Lemma md_array_push_spec a l md al :
  md_array_ok a l → count a < capacity a →
  ∃ a', md_array_push a md al = Ret (a', al) ∧ md_array_ok a' (l ++ [md]) ∧
        capacity a' = capacity a.
Proof.
  intros (rest & Hb & Hlen & Hc & H1 & Hsz) Hroom.
  unfold md_array_push. unfold mbind, M_bind, set_slot. rewrite Hb.
  unfold SIZEOF_METADATA in *.
  destruct (Z.ltb_spec (count a) 0); [lia|].
  destruct (Z.leb_spec (zlen (map Entry l ++ rest)) (count a)); [lia|].
  mred. eexists; split; [done|]. split; [|done].
  rewrite length_app, length_map in Hlen.
  destruct rest as [|x rest]; [cbn in Hlen; lia|]. exists rest; cbn in Hlen |- *.
  rewrite map_app. split_and!; cbn.
  - rewrite Hc, Nat2Z.id, insert_app_r_alt by (rewrite length_map; lia).
    rewrite length_map, Nat.sub_diag, <- app_assoc. done.
  - rewrite !length_app, length_map. cbn. lia.
  - rewrite u64_small, length_app by lia. cbn. lia.
  - lia.
  - unfold SIZEOF_METADATA. lia.
Qed.

Lemma get_slot_ok {S} a l i (s : S) :
  md_array_ok a l → 0 ≤ i < count a →
  ∃ md, l !! Z.to_nat i = Some md ∧ get_slot (metadata a) i s = Ret (Some md, s).
Proof.
  intros (rest & Hb & Hlen & Hc & _) Hi.
  destruct (lookup_lt_is_Some_2 l (Z.to_nat i)) as [md Hmd]; [lia|].
  exists md; split; [done|]. unfold get_slot. rewrite Hb.
  destruct (Z.ltb_spec i 0); [lia|].
  rewrite lookup_app_l by (rewrite length_map; lia).
  by rewrite list_lookup_fmap, Hmd.
Qed.
End proofs.

(** The field [grpc_metadata_array_add] stores: copies of the key up to its terminator
    and of [value_len] bytes of the value, each with a terminator of its own. *)
Definition added_entry (key value : list Z) (value_len : Z) : grpc_metadata :=
  mk_metadata (c_str key ++ [0]) (take (Z.to_nat value_len) value ++ [0]) value_len.

Section theorems.
Implicit Types (a : grpc_metadata_array) (l : list grpc_metadata) (al : allocs).

(** [grpc_metadata_array_add] on a well-formed array: for any key, value and allocator
    answers, the call touches no memory out of bounds and returns; either it returns 0 and the
    array holds the old fields followed by the new one, or it returns -1 and the array still
    holds exactly the old fields. It returns 0 when every allocation succeeds. *)
Theorem grpc_metadata_array_add_spec a l k v value_len al :
  md_array_ok a l → md_size_ok l →
  0 ≤ value_len ≤ zlen v → value_len < 2 ^ 64 - 1 →
  ∃ r a' al',
    grpc_metadata_array_add (Some a) (Some k) (Some v) value_len al = Ret ((r, Some a'), al') ∧
    ((r = 0 ∧ md_array_ok a' (l ++ [added_entry k v value_len])) ∨
     (r = -1 ∧ md_array_ok a' l)) ∧
    (al = [] → r = 0).
Proof.
  intros Hok Hsz Hv Hmax. unfold grpc_metadata_array_add.
  destruct (md_array_grow_spec a l al Hok Hsz) as (o & al1 & Hg & Ho & Hal).
  mstep Hg.
  destruct o as [a1|]; [|exists (-1), a, al1; naive_solver].
  destruct Ho as [Hok1 Hroom].
  step_malloc key_ok al2. destruct key_ok; cbn [negb]; [|exists (-1), a1, al2; naive_solver].
  step_malloc value_ok al3. destruct value_ok; cbn [negb]; [|exists (-1), a1, al3; naive_solver].
  destruct (Z.ltb_spec value_len 0), (Z.ltb_spec (zlen v) value_len); try lia. cbn [orb].
  unfold terminated_copy. rewrite length_take, u64_small by lia.
  destruct (Z.ltb_spec (value_len + 1) (Z.of_nat (Z.to_nat value_len `min` length v) + 1)); [lia|].
  destruct (md_array_push_spec a1 l (added_entry k v value_len) al3 Hok1 Hroom)
    as (a2 & Hp & Hok2 & _).
  unfold added_entry in Hp. rewrite (M_bind_Ret _ _ al3 _ al3 eq_refl), (M_bind_Ret _ _ _ _ _ Hp).
  exists 0, a2, al3. naive_solver.
Qed.

Lemma destroy_slots_ok a l n i al :
  md_array_ok a l → 0 ≤ i → i + Z.of_nat n ≤ count a →
  destroy_slots (metadata a) i n al = Ret ((), al).
Proof.
  intros Hok. revert i. induction n as [|n IH]; intros i Hi Hn; cbn; [done|].
  destruct (get_slot_ok a l i al Hok) as (md & _ & E); [lia|].
  mstep E. apply IH; lia.
Qed.

(** [grpc_metadata_array_init] leaves an empty array of the requested room. *)
Lemma grpc_metadata_array_init_spec a n al :
  0 ≤ n → n * SIZEOF_METADATA < 2 ^ 64 →
  ∃ r a' al', grpc_metadata_array_init (Some a) n al = Ret ((r, Some a'), al') ∧
    (r = 0 ∧ md_array_ok a' [] ∨ r = -1) ∧ (al = [] → r = 0).
Proof.
  unfold grpc_metadata_array_init, SIZEOF_METADATA. intros H0 Hn.
  set (cap := if 0 <? n then n else _).
  assert (1 ≤ cap ∧ cap * 24 < 2 ^ 64) as [Hc1 Hc2]
    by (subst cap; unfold GRPC_METADATA_DEFAULT_CAPACITY; destruct (Z.ltb_spec 0 n); lia).
  destruct (malloc_run al) as (ok & al' & E & Hal).
  assert (calloc_slots cap al =
    Ret (if ok then MdLive (replicate (Z.to_nat cap) Zeroed) else MdNull, al')) as Hcall.
  { unfold calloc_slots, SIZEOF_METADATA. destruct (Z.leb_spec (2 ^ 64) (cap * 24)); [lia|].
    mstep E. by destruct ok. }
  mstep Hcall.
  destruct ok; [|exists (-1); naive_solver].
  exists 0; do 2 eexists; split; [done|]. split; [left; split; [done|] | done].
  eexists; split_and!; cbn -[Z.mul]; unfold SIZEOF_METADATA; [done| |lia..].
  rewrite length_replicate. lia.
Qed.

(** Destroying a well-formed array frees every field and resets it, so that a second
    destruction is harmless. *)
Theorem grpc_metadata_array_destroy_spec a l al :
  md_array_ok a l →
  grpc_metadata_array_destroy (Some a) al = Ret (Some md_array_zero, al) ∧
  grpc_metadata_array_destroy (Some md_array_zero) al = Ret (Some md_array_zero, al).
Proof.
  intros Hok. split; [|done]. unfold grpc_metadata_array_destroy.
  pose proof Hok as (rest & Hb & Hlen & Hc & _).
  pose proof (destroy_slots_ok a l (Z.to_nat (count a)) 0 al Hok) as Hd.
  rewrite Hb in Hd |- *. mstep (Hd ltac:(lia) ltac:(lia)). done.
Qed.

(** The arrays that [calloc] zeroes inside calls and streams have capacity 0, and doubling
    it keeps it 0: adding any field to such an array writes outside the block (or to the one
    [grpc_metadata_array_destroy] leaves), however much memory there is. *)
Theorem grpc_metadata_array_add_zeroed_overflows k v value_len :
  0 ≤ value_len ≤ zlen v → value_len < 2 ^ 64 - 1 →
  grpc_metadata_array_add (Some md_array_zero) (Some k) (Some v) value_len [] =
    Fault OutOfBounds.
Proof.
  intros Hv Hmax. cbn -[Z.pow Z.add].
  destruct (Z.ltb_spec value_len 0), (Z.ltb_spec (zlen v) value_len); try lia. cbn [orb].
  unfold terminated_copy. rewrite length_take, u64_small by lia.
  destruct (Z.ltb_spec (value_len + 1) (Z.of_nat (Z.to_nat value_len `min` length v) + 1)); [lia|].
  done.
Qed.
End theorems.

(** A two-slot array that is full, so that adding the field doubles the block. *)
Definition full_array : grpc_metadata_array :=
  mk_md_array 2 2 (MdLive [Entry (mk_metadata [97; 0] [98; 0] 1);
                           Entry (mk_metadata [99; 0] [0] 0)]).

Lemma full_array_ok :
  md_array_ok full_array [mk_metadata [97; 0] [98; 0] 1; mk_metadata [99; 0] [0] 0].
Proof. exists []. by vm_compute. Qed.

Lemma grpc_metadata_array_add_witness :
  grpc_metadata_array_add (Some full_array) (Some [107; 0]) (Some [118; 0]) 1 [] ≠
    Fault OutOfBounds.
Proof.
  destruct (grpc_metadata_array_add_spec full_array _ [107; 0] [118; 0] 1 [] full_array_ok)
    as (r & a' & al' & E & _); [by vm_compute|split; by vm_compute|by vm_compute|].
  rewrite E. discriminate.
Defined.

Lemma grpc_metadata_array_zeroed_witness :
  grpc_metadata_array_add (Some md_array_zero) (Some [107; 0]) (Some [118; 0]) 1 [] =
    Fault OutOfBounds.
Proof.
  apply grpc_metadata_array_add_zeroed_overflows; [split; by vm_compute|by vm_compute].
Defined.
