(* ===== verification/Hpack.v ===== *)
(** * HPACK header compression (src/src/hpack.c)

    The prefix integers of RFC 7541, the literal header fields and the header blocks,
    over explicit output and input memory. *)

From Stdlib Require Import ZArith Lia.
From stdpp Require Import base tactics list option strings gmap.
From S2P Require Import Prelude Metadata.

#[local] Open Scope Z_scope.
#[local] Set Warnings "-clear-no-such-hyp".

Definition HPACK_INTEGER_MAX_PREFIX_BITS : Z := 7.
Definition HPACK_INTEGER_MAX_BYTES : Z := 5.
Definition HPACK_MAX_SHIFT_BITS : Z := 28.
Definition HPACK_DECODE_INITIAL_CAPACITY : Z := 16.

(** ** Encoding

    [output] is the memory from the pointer on, [output_len] the length the caller
    passes; each function returns the [int] of the code and the memory after the call. *)

(** [if (pos >= output_len) return -1; output[pos++] = b;] followed by [k]. *)
Definition put_byte (output_len : Z) (m : list Z) (pos b : Z)
    (k : list Z → Z → outcome (Z * list Z)) : outcome (Z * list Z) :=
  if output_len <=? pos then Ret (-1, m)
  else m ← store m pos b; k m (pos + 1).

(** The loop over the continuation bytes. *)
Fixpoint encode_loop (fuel : nat) (value output_len : Z) (m : list Z) (pos : Z)
    : outcome (Z * list Z) :=
  if 128 <=? value then
    match fuel with
    | O => Fault OutOfFuel
    | S fuel =>
        put_byte output_len m pos (u8 (Z.lor (Z.land value 0x7F) 0x80)) (fun m pos =>
          encode_loop fuel (Z.shiftr value 7) output_len m pos)
    end
  else put_byte output_len m pos (u8 value) (fun m pos => Ret (i32 pos, m)).

(** Five rounds of the loop exhaust a [uint32_t]. *)
Definition encode_fuel : nat := 5.

Definition hpack_encode_integer (value prefix_bits : Z) (output : option (list Z))
    (output_len : Z) : outcome (Z * option (list Z)) :=
  match output with
  | None => Ret (-1, None)
  | Some m =>
      if (output_len =? 0) || (HPACK_INTEGER_MAX_PREFIX_BITS <? prefix_bits)
      then Ret (-1, Some m)
      else
        let max_prefix := u32 (u32 (Z.shiftl 1 prefix_bits) - 1) in
        '(r, m) ←
          (if value <? max_prefix
           then put_byte output_len m 0 (u8 value) (fun m pos => Ret (i32 pos, m))
           else put_byte output_len m 0 (u8 max_prefix) (fun m pos =>
                  encode_loop encode_fuel (u32 (value - max_prefix)) output_len m pos));
        Ret (r, Some m)
  end.

(** A call on [&m[pos]] with the room left there: the callee works on the rest of the
    block, which is put back behind the bytes before [pos]. *)
Definition call_at (m : list Z) (pos : Z)
    (f : option (list Z) → outcome (Z * option (list Z))) : outcome (Z * list Z) :=
  sub ← offset m pos;
  '(r, sub) ← f (Some sub);
  Ret (r, take (Z.to_nat pos) m ++ default [] sub).

(** The two blocks of [hpack_encode_literal_header] that emit a length and then the
    characters of [s]; the result is the position after them, [None] for the -1 exits. *)
Definition encode_string (s : list Z) (len output_len : Z) (m : list Z) (pos : Z)
    : outcome (option Z * list Z) :=
  '(len_bytes, m) ← call_at m pos (fun out =>
    hpack_encode_integer (u32 len) 7 out (u64 (output_len - pos)));
  if len_bytes <? 0 then Ret (None, m) else
  let pos := u64 (pos + len_bytes) in
  if output_len <? u64 (pos + len) then Ret (None, m) else
  m ← memcpy m pos s len;
  Ret (Some (u64 (pos + len)), m).

Definition hpack_encode_literal_header (name value : option (list Z))
    (output : option (list Z)) (output_len : Z) : outcome (Z * option (list Z)) :=
  match name, value, output with
  | Some name, Some value, Some m =>
      if output_len =? 0 then Ret (-1, Some m) else
      let name_len := strlen name in
      let value_len := strlen value in
      let max_required :=
        u64 (1 + HPACK_INTEGER_MAX_BYTES + name_len + HPACK_INTEGER_MAX_BYTES + value_len) in
      if output_len <? max_required then Ret (-1, Some m) else
      '(r, m) ← put_byte output_len m 0 0x00 (fun m pos =>
        '(after_name, m) ← encode_string name name_len output_len m pos;
        match after_name with
        | None => Ret (-1, m)
        | Some pos =>
            '(after_value, m) ← encode_string value value_len output_len m pos;
            match after_value with
            | None => Ret (-1, m)
            | Some pos => Ret (i32 pos, m)
            end
        end);
      Ret (r, Some m)
  | _, _, _ => Ret (-1, output)
  end.

(** The loop of [hpack_encode_metadata] over the fields [i .. i + n - 1]. *)
Fixpoint encode_metadata_loop (metadata : md_block) (i : Z) (n : nat)
    (output_len : Z) (m : list Z) (pos : Z) : outcome (Z * list Z) :=
  match n with
  | O => Ret (i32 pos, m)
  | S n =>
      '(md, _) ← get_slot metadata i ();
      '(bytes, m) ← call_at m pos (fun out =>
        hpack_encode_literal_header (key <$> md) (value <$> md) out (u64 (output_len - pos)));
      if bytes <? 0 then Ret (-1, m)
      else encode_metadata_loop metadata (i + 1) n output_len m (u64 (pos + bytes))
  end.

Definition hpack_encode_metadata (md : option grpc_metadata_array)
    (output : option (list Z)) (output_len : Z) : outcome (Z * option (list Z)) :=
  match md, output with
  | Some md, Some m =>
      '(r, m) ← encode_metadata_loop (metadata md) 0 (Z.to_nat (count md)) output_len m 0;
      Ret (r, Some m)
  | _, _ => Ret (-1, output)
  end.

(** ** Decoding

    A result [None] is the -1 of the code; the out-parameters are components of the
    result, indeterminate (and read by no caller) on -1. *)

(** The loop over the continuation bytes: [value] is [*value], [m] the shift. *)
Fixpoint decode_loop (fuel : nat) (input : list Z) (input_len pos value m : Z)
    : outcome (option (Z * Z)) :=
  if pos <? input_len then
    match fuel with
    | O => Fault OutOfFuel
    | S fuel =>
        byte ← load input pos;
        if HPACK_MAX_SHIFT_BITS <? m then Ret None else
        let to_add := u32 (Z.land byte 0x7F * u32 (Z.shiftl 1 m)) in
        if UINT32_MAX - to_add <? value then Ret None else
        let value := u32 (value + to_add) in
        if Z.land byte 0x80 =? 0 then Ret (Some (i32 (pos + 1), value))
        else decode_loop fuel input input_len (pos + 1) value (m + 7)
    end
  else Ret None.

(** The sixth continuation byte is refused by the shift test. *)
Definition decode_fuel : nat := 6.

Definition hpack_decode_integer (input : option (list Z)) (input_len prefix_bits : Z)
    : outcome (option (Z * Z)) :=
  match input with
  | None => Ret None
  | Some input =>
      if (input_len =? 0) || (HPACK_INTEGER_MAX_PREFIX_BITS <? prefix_bits) then Ret None else
      let max_prefix := u32 (u32 (Z.shiftl 1 prefix_bits) - 1) in
      b ← load input 0;
      let value := Z.land b max_prefix in
      if value <? max_prefix then Ret (Some (1, value))
      else decode_loop decode_fuel input input_len 1 value 0
  end.

(** [malloc (len + 1)] (a [uint32_t] sum), filled from [input[pos]] on and terminated;
    [None] when the allocation fails. *)
Definition copy_string (input : list Z) (pos len : Z) : M allocs (option (list Z)) :=
  ok ← malloc;
  if negb ok then mret None else
  sub ← lift (offset input pos);
  bs ← lift (read_bytes sub len);
  s ← terminated_copy (u32 (len + 1)) bs;
  mret (Some s).

(** The two blocks of [hpack_decode_literal_header] that read a length and then a
    string; the result is the position after them and the copy, [None] for the -1 exits
    (the second block frees the key first). *)
Definition decode_string (input : list Z) (input_len pos : Z)
    : M allocs (option (Z * list Z)) :=
  sub ← lift (offset input pos);
  r ← lift (hpack_decode_integer (Some sub) (u64 (input_len - pos)) 7);
  match r with
  | None => mret None
  | Some (len_bytes, len) =>
      if len_bytes <? 0 then mret None else
      let pos := u64 (pos + len_bytes) in
      if input_len <? u64 (pos + len) then mret None else
      s ← copy_string input pos len;
      match s with
      | None => mret None
      | Some s => mret (Some (u64 (pos + len), s))
      end
  end.

(** The result is the number of bytes read, the key and the value. *)
Definition hpack_decode_literal_header (input : option (list Z)) (input_len : Z)
    : M allocs (option (Z * (list Z * list Z))) :=
  match input with
  | None => mret None
  | Some input =>
      if input_len <? 2 then mret None else
      k ← decode_string input input_len 1;
      match k with
      | None => mret None
      | Some (pos, k) =>
          v ← decode_string input input_len pos;
          match v with
          | None => mret None
          | Some (pos, v) => mret (Some (i32 pos, (k, v)))
          end
      end
  end.

(** The error exit of [hpack_decode_metadata]: the strings and the block are freed, the
    fields of the structure keep their values (the pointer dangles). *)
Definition decode_cleanup (array : grpc_metadata_array)
    : M allocs (Z * option grpc_metadata_array) :=
  _ ← destroy_slots (metadata array) 0 (Z.to_nat (count array));
  mret (-1, Some (mk_md_array (count array) (capacity array) MdFreed)).

Fixpoint decode_metadata_loop (fuel : nat) (input : list Z) (input_len pos : Z)
    (array : grpc_metadata_array) : M allocs (Z * option grpc_metadata_array) :=
  if pos <? input_len then
    match fuel with
    | O => fail OutOfFuel
    | S fuel =>
        sub ← lift (offset input pos);
        r ← hpack_decode_literal_header (Some sub) (u64 (input_len - pos));
        match r with
        | None => decode_cleanup array
        | Some (bytes, (k, v)) =>
            if bytes <? 0 then decode_cleanup array else
            grown ← md_array_grow array;
            match grown with
            | None => mret (-1, Some array)
            | Some array =>
                array ← md_array_push array (mk_metadata k v (strlen v));
                decode_metadata_loop fuel input input_len (u64 (pos + bytes)) array
            end
        end
    end
  else mret (0, Some array).

Definition hpack_decode_metadata (input : option (list Z)) (input_len : Z)
    (array : option grpc_metadata_array) : M allocs (Z * option grpc_metadata_array) :=
  match input, array with
  | Some input, Some _ =>
      block ← calloc_slots HPACK_DECODE_INITIAL_CAPACITY;
      let array := mk_md_array 0 HPACK_DECODE_INITIAL_CAPACITY block in
      match block with
      | MdNull => mret (-1, Some array)
      | _ => decode_metadata_loop (S (Z.to_nat input_len)) input input_len 0 array
      end
  | _, _ => mret (-1, array)
  end.

(** The 10-byte example of the test suite, and a header block of two fields. *)
Example encode_1337 :
  hpack_encode_integer 1337 5 (Some (replicate 10 0)) 10 =
    Ret (3, Some [31; 154; 10; 0; 0; 0; 0; 0; 0; 0]).
Proof. reflexivity. Qed.
Example decode_1337 : hpack_decode_integer (Some [31; 154; 10; 0]) 4 5 = Ret (Some (3, 1337)).
Proof. reflexivity. Qed.

(** ** Prefix integers: the reference encoding *)

(** The continuation bytes of [v]: seven bits each, least significant first. *)
Fixpoint varint (fuel : nat) (v : Z) : list Z :=
  match fuel with
  | O => [v]
  | S fuel => if 128 <=? v then (v mod 128 + 128) :: varint fuel (v / 128) else [v]
  end.

(** The bytes RFC 7541 (section 5.1) assigns to [v] with a [p]-bit prefix. *)
Definition int_bytes (v p : Z) : list Z :=
  if v <? 2 ^ p - 1 then [v] else (2 ^ p - 1) :: varint encode_fuel (v - (2 ^ p - 1)).

Section integer_lemmas.
Lemma land_pow2_small x n : 0 ≤ x < 2 ^ n → 0 ≤ n → Z.land x (2 ^ n) = 0.
Proof.
  intros Hx Hn. apply Z.bits_inj'. intros i Hi.
  rewrite Z.land_spec, Z.bits_0, Z.pow2_bits_eqb by lia.
  destruct (Z.eqb_spec n i) as [->|]; [|by rewrite andb_false_r].
  rewrite andb_true_r, <- (Z.mod_small x (2 ^ i)) by lia.
  by apply Z.mod_pow2_bits_high.
Qed.

Lemma cont_byte v : u8 (Z.lor (Z.land v 0x7F) 0x80) = v mod 128 + 128.
Proof.
  change 0x7F with (Z.ones 7). rewrite Z.land_ones by lia. change (2 ^ 7) with 128.
  pose proof (Z.mod_pos_bound v 128).
  rewrite <- Z.add_nocarry_lor by (apply (land_pow2_small _ 7); lia).
  apply u8_small. lia.
Qed.

Lemma land_7F x : 0 ≤ x < 128 → Z.land x 0x7F = x ∧ Z.land (x + 128) 0x7F = x.
Proof.
  intros Hx. change 0x7F with (Z.ones 7). rewrite !Z.land_ones by lia. change (2 ^ 7) with 128.
  rewrite Z.mod_small by lia. split; [done|].
  replace (x + 128) with (x + 1 * 128) by lia. rewrite Z_mod_plus_full, Z.mod_small; lia.
Qed.

Lemma land_80 x : 0 ≤ x < 128 → Z.land x 0x80 = 0 ∧ Z.land (x + 128) 0x80 ≠ 0.
Proof.
  intros Hx. split; [apply (land_pow2_small x 7); lia|].
  intros E. apply (f_equal (fun z => Z.testbit z 7)) in E.
  rewrite Z.land_spec, Z.bits_0, <- (Z.mod_small (x + 128) (2 ^ 8)) in E by lia.
  change (Z.testbit 128 7) with true in E. rewrite andb_true_r in E.
  rewrite Z.mod_small, Z.testbit_eqb in E by lia. change (2 ^ 7) with 128 in E.
  replace ((x + 128) / 128) with 1 in E; [done|].
  apply Z.div_unique with x; lia.
Qed.

Lemma shiftr_7 v : Z.shiftr v 7 = v / 128.
Proof. by rewrite Z.shiftr_div_pow2. Qed.

Lemma max_prefix_eq p : 0 ≤ p ≤ 7 → u32 (u32 (Z.shiftl 1 p) - 1) = 2 ^ p - 1.
Proof.
  intros Hp. rewrite Z.shiftl_1_l.
  assert (1 ≤ 2 ^ p ≤ 2 ^ 7) by (split; [lia|apply Z.pow_le_mono_r; lia]).
  rewrite (u32_small (2 ^ p)), u32_small; lia.
Qed.

Lemma length_varint fuel v : (1 ≤ length (varint fuel v) ≤ S fuel)%nat.
Proof.
  revert v. induction fuel as [|fuel IH]; intros v; cbn; [lia|].
  destruct (128 <=? v); cbn; [specialize (IH (v / 128)); lia|lia].
Qed.

Lemma length_int_bytes v p : (1 ≤ length (int_bytes v p) ≤ 7)%nat.
Proof.
  unfold int_bytes. destruct (_ <? _); cbn -[varint]; [lia|].
  pose proof (length_varint encode_fuel (v - (2 ^ p - 1))). unfold encode_fuel in *. lia.
Qed.

Lemma length_varint_bound k fuel w :
  0 ≤ w < 128 ^ Z.of_nat (S k) → (length (varint fuel w) ≤ S k)%nat.
Proof.
  revert fuel w. induction k as [|k IH]; intros [|fuel] w Hw; cbn [varint length]; try lia;
    destruct (Z.leb_spec 128 w); cbn [length]; try lia.
  apply le_n_S, IH. rewrite (Nat2Z.inj_succ (S k)), Z.pow_succ_r in Hw by lia.
  split; [apply Z.div_pos; lia | apply Z.div_lt_upper_bound; lia].
Qed.

(** Lengths below [2^28] take at most the five bytes that [max_required] reserves. *)
Lemma length_int_bytes_small v : 0 ≤ v < 2 ^ 28 → (length (int_bytes v 7) ≤ 5)%nat.
Proof.
  intros Hv. unfold int_bytes. change (2 ^ 7 - 1) with 127.
  destruct (Z.ltb_spec v 127); cbn -[varint]; [lia|].
  pose proof (length_varint_bound 3 encode_fuel (v - 127)) as H1.
  change (128 ^ Z.of_nat 4) with (2 ^ 28) in H1. lia.
Qed.
End integer_lemmas.

(** ** Encoding writes exactly the reference bytes *)

(** [m'] differs from [m] in the first [n] bytes only, and the bytes of [m'] before [n]
    are the only ones a call with length [n] may have written. *)
Definition writes_within (n : Z) (m m' : list Z) : Prop :=
  length m' = length m ∧ drop (Z.to_nat n) m' = drop (Z.to_nat n) m.

#[export] Instance writes_within_preorder n : PreOrder (writes_within n).
Proof.
  split; [by split|]. intros m1 m2 m3 [L1 D1] [L2 D2]. split; congruence.
Qed.

Section encode_proofs.
Implicit Types (m out old suf : list Z).

Lemma put_byte_app olen out x suf pos b k :
  pos = zlen out → zlen out < olen →
  put_byte olen (out ++ x :: suf) pos b k = k (out ++ b :: suf) (zlen out + 1).
Proof.
  intros -> H. unfold put_byte. destruct (Z.leb_spec olen (zlen out)); [lia|].
  by rewrite (outcome_bind_Ret _ _ _ (store_app _ _ _ _ _ eq_refl)).
Qed.

Lemma put_byte_head olen x suf b k :
  0 < olen → put_byte olen (x :: suf) 0 b k = k (b :: suf) 1.
Proof. intros H. by apply (put_byte_app olen []). Qed.

Lemma encode_loop_app fuel v olen out old suf pos :
  0 ≤ v < 128 ^ Z.of_nat (S fuel) → length old = length (varint fuel v) →
  pos = zlen out → zlen out + zlen old ≤ olen →
  encode_loop fuel v olen (out ++ old ++ suf) pos =
    Ret (i32 (zlen out + zlen old), out ++ varint fuel v ++ suf).
Proof.
  revert v out old pos. induction fuel as [|fuel IH]; intros v out old pos Hv Hold -> Holen.
  - cbn [encode_loop varint] in *. destruct (Z.leb_spec 128 v); [lia|].
    destruct old as [|x [|]]; try done. cbn [app length] in *.
    rewrite put_byte_app, u8_small by lia. done.
  - cbn [encode_loop varint] in *. destruct (Z.leb_spec 128 v) as [Hbig|Hsmall].
    + destruct old as [|x old]; [done|]. cbn [app length] in *.
      rewrite put_byte_app, cont_byte, shiftr_7 by lia.
      change (out ++ v mod 128 + 128 :: old ++ suf) with (out ++ [v mod 128 + 128] ++ old ++ suf).
      rewrite app_assoc. rewrite (Nat2Z.inj_succ (S fuel)), Z.pow_succ_r in Hv by lia.
      rewrite IH; rewrite ?length_app; cbn [length]; [|split|lia..].
      * rewrite <- app_assoc.
        by replace (Z.of_nat (length out + 1) + zlen old)
          with (zlen out + Z.of_nat (S (length old))) by lia.
      * apply Z.div_pos; lia.
      * apply Z.div_lt_upper_bound; lia.
    + destruct old as [|x [|]]; try done. cbn [app length] in *.
      rewrite put_byte_app, u8_small by lia. done.
Qed.

(** With room for the reference bytes the encoder writes them and nothing else. *)
Lemma hpack_encode_integer_app v p olen old suf :
  0 ≤ v < 2 ^ 32 → 0 ≤ p ≤ 7 → length old = length (int_bytes v p) → zlen old ≤ olen →
  hpack_encode_integer v p (Some (old ++ suf)) olen =
    Ret (zlen old, Some (int_bytes v p ++ suf)).
Proof.
  intros Hv Hp Hold Holen. unfold hpack_encode_integer.
  pose proof (length_int_bytes v p).
  destruct (Z.eqb_spec olen 0); [lia|].
  destruct (Z.ltb_spec HPACK_INTEGER_MAX_PREFIX_BITS p) as [Hp'|_];
    [unfold HPACK_INTEGER_MAX_PREFIX_BITS in Hp'; lia|]. cbn [orb].
  rewrite max_prefix_eq by lia.
  assert (1 ≤ 2 ^ p ≤ 2 ^ 7) by (split; [lia|apply Z.pow_le_mono_r; lia]).
  unfold int_bytes in *. destruct (Z.ltb_spec v (2 ^ p - 1)) as [Hlt|Hge].
  - destruct old as [|x [|]]; try done. cbn [app].
    rewrite put_byte_head, u8_small by lia. done.
  - destruct old as [|x old]; [done|]. cbn [length app] in *.
    rewrite put_byte_head, (u8_small (2 ^ p - 1)), u32_small by lia.
    change ((2 ^ p - 1) :: old ++ suf) with ([2 ^ p - 1] ++ old ++ suf).
    assert (0 ≤ v - (2 ^ p - 1) < 128 ^ Z.of_nat (S encode_fuel)).
    { change (128 ^ Z.of_nat (S encode_fuel)) with (2 ^ 42). lia. }
    rewrite encode_loop_app by (done || cbn [length]; lia). cbn -[varint i32].
    rewrite i32_small by lia. by replace (Z.of_nat 1 + zlen old) with (Z.of_nat (S (length old))) by lia.
Qed.
End encode_proofs.

(** ** Prefix integers: the reference value *)

(** The unbounded value of a run of continuation bytes, with their number. *)
Fixpoint varint_value (bs : list Z) : option (nat * Z) :=
  match bs with
  | [] => None
  | b :: bs =>
      if b <? 128 then Some (1%nat, b)
      else '(n, v) ← varint_value bs; Some (S n, b mod 128 + 128 * v)
  end.

(** The unbounded integer that starts [bs], with the number of bytes it takes. *)
Definition int_value (p : Z) (bs : list Z) : option (nat * Z) :=
  match bs with
  | [] => None
  | b :: bs =>
      let v := b mod 2 ^ p in
      if v <? 2 ^ p - 1 then Some (1%nat, v)
      else '(n, w) ← varint_value bs; Some (S n, v + w)
  end.

Section decode_proofs.
Implicit Types (pre bs junk : list Z).

Lemma varint_value_bounds bs n w :
  bytes_ok bs → varint_value bs = Some (n, w) → (1 ≤ n ≤ length bs)%nat ∧ 0 ≤ w.
Proof.
  intros Hbs. revert n w. induction Hbs as [|b bs Hb Hbs IH]; intros n w; cbn; [done|].
  destruct (Z.ltb_spec b 128); [intros [= <- <-]; lia|].
  destruct (varint_value bs) as [[n' w']|]; cbn; [|done].
  intros [= <- <-]. specialize (IH _ _ eq_refl).
  pose proof (Z.mod_pos_bound b 128). lia.
Qed.

(** One round of the loop on an arbitrary byte. *)
Lemma decode_loop_cons fuel pre b bs junk value m pos ilen :
  byte_ok b → 0 ≤ m → pos = zlen pre → ilen = zlen (pre ++ b :: bs) →
  decode_loop (S fuel) (pre ++ b :: bs ++ junk) ilen pos value m =
    (if 28 <? m then Ret None else
     if UINT32_MAX - u32 ((b mod 128) * 2 ^ m) <? value then Ret None else
     let value' := u32 (value + u32 ((b mod 128) * 2 ^ m)) in
     if b <? 128 then Ret (Some (i32 (zlen pre + 1), value'))
     else decode_loop fuel ((pre ++ [b]) ++ bs ++ junk) (zlen ((pre ++ [b]) ++ bs))
            (zlen (pre ++ [b])) value' (m + 7)).
Proof.
  intros Hb Hm -> ->. cbn [decode_loop].
  destruct (Z.ltb_spec (zlen pre) (zlen (pre ++ b :: bs))) as [_|Hno];
    [|rewrite length_app in Hno; cbn in Hno; lia].
  rewrite (outcome_bind_Ret _ _ _ (load_app _ _ _ _ eq_refl)).
  change HPACK_MAX_SHIFT_BITS with 28.
  destruct (Z.ltb_spec 28 m); [done|].
  assert (u32 (Z.shiftl 1 m) = 2 ^ m) as ->.
  { rewrite Z.shiftl_1_l. apply u32_small.
    split; [lia|]. apply Z.pow_lt_mono_r; lia. }
  assert (Z.land b 0x7F = b mod 128) as -> by (apply (Z.land_ones b 7); lia).
  assert ((Z.land b 0x80 =? 0) = (b <? 128)) as ->.
  { destruct (Z.ltb_spec b 128) as [Hlt|Hge].
    - apply Z.eqb_eq, land_80. lia.
    - apply Z.eqb_neq. replace b with ((b - 128) + 128) by lia. apply land_80. lia. }
  destruct (_ <? value); [done|]. destruct (b <? 128); [done|].
  replace (zlen (pre ++ [b])) with (zlen pre + 1) by (rewrite length_app; cbn; lia).
  by rewrite <- !app_assoc.
Qed.

Lemma decode_loop_nil fuel pre junk value m :
  decode_loop fuel (pre ++ junk) (zlen pre) (zlen pre) value m = Ret None.
Proof. destruct fuel; cbn; by rewrite Z.ltb_irrefl. Qed.

(** Whatever the bytes, the loop ends; a value it returns is the one the bytes encode,
    modulo [2^32]. *)
Lemma decode_loop_sound j fuel pre bs junk value :
  (j + fuel = 6)%nat → (1 ≤ fuel)%nat → bytes_ok bs → 0 ≤ value < 2 ^ 32 →
  ∃ r, decode_loop fuel (pre ++ bs ++ junk) (zlen (pre ++ bs)) (zlen pre) value
         (7 * Z.of_nat j) = Ret r ∧
    (r = None ∨ ∃ n w, varint_value bs = Some (n, w) ∧ (n + j ≤ 5)%nat ∧
       r = Some (i32 (zlen pre + Z.of_nat n), u32 (value + w * 2 ^ (7 * Z.of_nat j)))).
Proof.
  revert j pre bs value. induction fuel as [|fuel IH]; intros j pre bs value Hj Hf Hbs Hv; [lia|].
  destruct bs as [|b bs].
  { exists None. split; [|by left]. rewrite app_nil_r. apply decode_loop_nil. }
  apply Forall_cons in Hbs as [Hb Hbs].
  rewrite <- app_comm_cons, decode_loop_cons by (done || lia).
  destruct (Z.ltb_spec 28 (7 * Z.of_nat j)) as [|Hm]; [eauto|].
  destruct (_ <? value); [eauto|]. cbn [varint_value].
  destruct (Z.ltb_spec b 128) as [Hlt|Hge].
  - eexists; split; [done|]. right. exists 1%nat, b. rewrite (Z.mod_small b 128) by lia.
    split_and!; [done|lia|]. by rewrite u32_add_r.
  - destruct (IH (S j) (pre ++ [b]) bs (u32 (value + u32 (b mod 128 * 2 ^ (7 * Z.of_nat j)))))
      as (r & E & Hr); [lia|lia|done|apply u32_range|].
    replace (7 * Z.of_nat j + 7) with (7 * Z.of_nat (S j)) by lia.
    exists r; split; [done|]. destruct Hr as [->|(n & w & Hw & Hn & ->)]; [by left|right].
    exists (S n), (b mod 128 + 128 * w). rewrite Hw. split_and!; [done|lia|].
    rewrite length_app. cbn [length]. do 2 f_equal; [f_equal; lia|].
    rewrite Nat2Z.inj_succ, Z.mul_succ_r, Z.pow_add_r by lia. change (2 ^ 7) with 128.
    rewrite u32_add_l, <- Z.add_assoc, (Z.add_comm (u32 _)), Z.add_assoc, u32_add_r.
    f_equal. ring.
Qed.

(** An encoded value that fits 32 bits, in at most five continuation bytes, is found. *)
Lemma decode_loop_complete j fuel pre bs junk value n w :
  (j + fuel = 6)%nat → bytes_ok bs → 0 ≤ value →
  varint_value bs = Some (n, w) → (n + j ≤ 5)%nat → value + w * 2 ^ (7 * Z.of_nat j) < 2 ^ 32 →
  decode_loop fuel (pre ++ bs ++ junk) (zlen (pre ++ bs)) (zlen pre) value (7 * Z.of_nat j) =
    Ret (Some (i32 (zlen pre + Z.of_nat n), value + w * 2 ^ (7 * Z.of_nat j))).
Proof.
  revert j pre bs value n w.
  induction fuel as [|fuel IH]; intros j pre bs value n w Hj Hbs Hv Hw Hn Hfit.
  { destruct (varint_value_bounds bs n w); [done..|lia]. }
  destruct bs as [|b bs]; [done|]. apply Forall_cons in Hbs as [Hb Hbs].
  cbn [varint_value] in Hw.
  pose proof (Z.mod_pos_bound b 128). pose proof (Z.pow_pos_nonneg 2 (7 * Z.of_nat j)).
  assert (∃ w', 0 ≤ w' ∧ w = b mod 128 + 128 * w') as (w' & Hw' & Hsplit).
  { destruct (Z.ltb_spec b 128).
    - injection Hw as <- <-. exists 0. rewrite Z.mod_small; lia.
    - destruct (varint_value bs) as [[n' w']|] eqn:E; [|done]. injection Hw as <- <-.
      exists w'. destruct (varint_value_bounds bs n' w'); [done..|lia]. }
  assert (1 ≤ n)%nat by (destruct (b <? 128); [|destruct (varint_value bs) as [[? ?]|]; [|done]];
    injection Hw; lia).
  assert (b mod 128 * 2 ^ (7 * Z.of_nat j) ≤ w * 2 ^ (7 * Z.of_nat j))
    by (apply Z.mul_le_mono_nonneg_r; lia).
  rewrite <- app_comm_cons, decode_loop_cons by (done || lia).
  rewrite !(u32_small (b mod 128 * _)) by nia. unfold UINT32_MAX.
  destruct (Z.ltb_spec 28 (7 * Z.of_nat j)); [lia|].
  destruct (Z.ltb_spec (2 ^ 32 - 1 - b mod 128 * 2 ^ (7 * Z.of_nat j)) value); [lia|].
  rewrite u32_small by nia.
  destruct (Z.ltb_spec b 128) as [Hlt|Hge].
  - injection Hw as <- <-. by rewrite (Z.mod_small b 128) by lia.
  - destruct (varint_value bs) as [[n' w'']|] eqn:E; [|done]. injection Hw as <- <-.
    assert (w'' = w') as -> by lia.
    replace (7 * Z.of_nat j + 7) with (7 * Z.of_nat (S j)) by lia.
    assert (2 ^ (7 * Z.of_nat (S j)) = 128 * 2 ^ (7 * Z.of_nat j)) as Hpow.
    { rewrite Nat2Z.inj_succ, Z.mul_succ_r, Z.pow_add_r by lia. change (2 ^ 7) with 128. ring. }
    rewrite (IH (S j) (pre ++ [b]) bs _ n' w') by (done || rewrite ?Hpow; nia).
    rewrite Hpow, length_app. cbn [length]. do 2 f_equal. f_equal; [f_equal; lia|ring].
Qed.
End decode_proofs.

Section integer_theorems.
Implicit Types (bs junk : list Z).

Lemma land_prefix b p : 0 ≤ p ≤ 7 → Z.land b (2 ^ p - 1) = b mod 2 ^ p.
Proof.
  intros Hp. rewrite <- Z.land_ones, Z.ones_equiv by lia. f_equal.
Qed.

Lemma decode_prefix b bs junk p :
  0 ≤ p ≤ 7 → byte_ok b →
  hpack_decode_integer (Some ((b :: bs) ++ junk)) (zlen (b :: bs)) p =
    (if b mod 2 ^ p <? 2 ^ p - 1 then Ret (Some (1, b mod 2 ^ p))
     else decode_loop decode_fuel ([b] ++ bs ++ junk) (zlen ([b] ++ bs)) (zlen [b])
            (b mod 2 ^ p) (7 * Z.of_nat 0)).
Proof.
  intros Hp Hb. unfold hpack_decode_integer.
  destruct (Z.eqb_spec (zlen (b :: bs)) 0) as [E|_]; [cbn in E; lia|].
  destruct (Z.ltb_spec HPACK_INTEGER_MAX_PREFIX_BITS p) as [Hp'|_];
    [unfold HPACK_INTEGER_MAX_PREFIX_BITS in Hp'; lia|]. cbn [orb].
  rewrite (outcome_bind_Ret _ _ _ (load_app [] b (bs ++ junk) 0 eq_refl)).
  by rewrite max_prefix_eq, land_prefix by lia.
Qed.

(** The integer decoder on arbitrary bytes: it reads nothing outside the [input_len] bytes
    it is given and ends, and when it returns a value, that is the integer the bytes encode
    (modulo [2^32]) with the number of bytes it takes; every integer below [2^32] that takes at
    most six bytes is decoded. *)
Theorem hpack_decode_integer_spec p bs junk :
  0 ≤ p ≤ 7 → bytes_ok bs → bs ≠ [] →
  ∃ r, hpack_decode_integer (Some (bs ++ junk)) (zlen bs) p = Ret r ∧
    (r = None ∨
     ∃ n w, int_value p bs = Some (n, w) ∧ (n ≤ length bs)%nat ∧
            r = Some (Z.of_nat n, u32 w)) ∧
    (∀ n w, int_value p bs = Some (n, w) → (n ≤ 6)%nat → w < 2 ^ 32 →
            r = Some (Z.of_nat n, w)).
Proof.
  intros Hp Hbs Hne. destruct bs as [|b bs]; [done|]. apply Forall_cons in Hbs as [Hb Hbs].
  rewrite decode_prefix by done. cbn [int_value].
  assert (1 ≤ 2 ^ p ≤ 2 ^ 7) by (split; [lia|apply Z.pow_le_mono_r; lia]).
  pose proof (Z.mod_pos_bound b (2 ^ p)).
  destruct (Z.ltb_spec (b mod 2 ^ p) (2 ^ p - 1)).
  { eexists; split; [done|]. split; [right|naive_solver].
    do 2 eexists; split_and!; [done|cbn; lia|]. by rewrite u32_small by lia. }
  destruct (decode_loop_sound 0 decode_fuel [b] bs junk (b mod 2 ^ p))
    as (r & E & Hr); [done|unfold decode_fuel; lia|done|lia|].
  exists r; split; [done|]. split.
  - destruct Hr as [->|(n & w & Hw & Hn & ->)]; [by left|right].
    exists (S n), (b mod 2 ^ p + w). rewrite Hw.
    destruct (varint_value_bounds bs n w) as [Hlen _]; [done..|].
    split_and!; [done|cbn; lia|]. rewrite i32_small by (cbn; lia).
    rewrite Z.mul_1_r. do 2 f_equal. cbn. lia.
  - intros n w Hw Hn Hfit.
    destruct (varint_value bs) as [[n' w']|] eqn:Ev; [|done]. injection Hw as <- <-.
    rewrite (decode_loop_complete 0 decode_fuel [b] bs junk _ n' w') in E
      by (done || rewrite ?Z.mul_1_r; cbn -[Z.pow]; lia).
    injection E as <-. rewrite i32_small by (cbn; lia).
    rewrite Z.mul_1_r. do 2 f_equal. cbn. lia.
Qed.

Lemma varint_value_varint fuel v tl :
  0 ≤ v < 128 ^ Z.of_nat (S fuel) →
  varint_value (varint fuel v ++ tl) = Some (length (varint fuel v), v).
Proof.
  revert v. induction fuel as [|fuel IH]; intros v Hv; cbn [varint].
  - cbn. destruct (Z.ltb_spec v 128); [done|]. lia.
  - destruct (Z.leb_spec 128 v); cbn.
    + pose proof (Z.mod_pos_bound v 128).
      destruct (Z.ltb_spec (v mod 128 + 128) 128); [lia|].
      rewrite IH; cbn.
      * do 2 f_equal. replace (v mod 128 + 128) with (v mod 128 + 1 * 128) by lia.
        rewrite Z_mod_plus_full, Zmod_mod, Z.add_comm, <- Z.div_mod; lia.
      * rewrite (Nat2Z.inj_succ (S fuel)), Z.pow_succ_r in Hv by lia.
        split; [apply Z.div_pos; lia | apply Z.div_lt_upper_bound; lia].
    + destruct (Z.ltb_spec v 128); [done|lia].
Qed.

Lemma varint_bytes_ok fuel v : 0 ≤ v < 128 ^ Z.of_nat (S fuel) → bytes_ok (varint fuel v).
Proof.
  revert v. induction fuel as [|fuel IH]; intros v Hv; cbn [varint].
  - constructor; [|constructor]. change (128 ^ Z.of_nat 1) with 128 in Hv. lia.
  - pose proof (Z.mod_pos_bound v 128).
    destruct (Z.leb_spec 128 v); repeat constructor; [lia|lia| |lia|lia].
    apply IH. rewrite (Nat2Z.inj_succ (S fuel)), Z.pow_succ_r in Hv by lia.
    split; [apply Z.div_pos; lia | apply Z.div_lt_upper_bound; lia].
Qed.

Lemma int_bytes_spec v p tl :
  0 ≤ v < 2 ^ 32 → 0 ≤ p ≤ 7 →
  int_value p (int_bytes v p ++ tl) = Some (length (int_bytes v p), v) ∧
  (length (int_bytes v p) ≤ 6)%nat ∧ bytes_ok (int_bytes v p).
Proof.
  intros Hv Hp. unfold int_bytes.
  assert (1 ≤ 2 ^ p ≤ 2 ^ 7) by (split; [lia|apply Z.pow_le_mono_r; lia]).
  assert (0 ≤ v - (2 ^ p - 1) < 128 ^ Z.of_nat 5 ∨ v < 2 ^ p - 1) as Hrange.
  { change (128 ^ Z.of_nat 5) with (2 ^ 35). lia. }
  destruct (Z.ltb_spec v (2 ^ p - 1)); cbn -[varint].
  - rewrite Z.mod_small by lia. destruct (Z.ltb_spec v (2 ^ p - 1)); [|lia].
    split_and!; [done|lia|]. repeat constructor; lia.
  - assert (0 ≤ v - (2 ^ p - 1) < 128 ^ Z.of_nat (S encode_fuel)).
    { change (128 ^ Z.of_nat (S encode_fuel)) with (2 ^ 42). lia. }
    rewrite Z.mod_small, Z.ltb_irrefl, varint_value_varint by lia. cbn -[varint].
    pose proof (length_varint_bound 4 encode_fuel (v - (2 ^ p - 1))).
    split_and!; [do 2 f_equal; lia|lia|]. constructor; [lia|]. by apply varint_bytes_ok.
Qed.
End integer_theorems.

(** ** Literal header fields *)

(** The bytes of a literal field without indexing, without Huffman coding. *)
Definition literal_bytes (name value : list Z) : list Z :=
  0 :: int_bytes (zlen name) 7 ++ name ++ int_bytes (zlen value) 7 ++ value.

(** Names and values that [max_required] accounts for exactly. *)
Abbreviation small_string s := (strlen s < 2 ^ 28).

(** The room [hpack_encode_literal_header] asks for. *)
Definition literal_room (name value : list Z) : Z :=
  1 + HPACK_INTEGER_MAX_BYTES + strlen name + HPACK_INTEGER_MAX_BYTES + strlen value.

Section literal_proofs.
Implicit Types (m pre rest name value : list Z).

Lemma call_at_app pre rest pos f r rest' :
  pos = zlen pre → f (Some rest) = Ret (r, Some rest') →
  call_at (pre ++ rest) pos f = Ret (r, pre ++ rest').
Proof.
  intros -> H. unfold call_at. rewrite (outcome_bind_Ret _ _ _ (offset_app _ _ _ eq_refl)).
  rewrite (outcome_bind_Ret _ _ _ H). by rewrite Nat2Z.id, take_app_length.
Qed.

Lemma length_literal_bytes name value :
  zlen name < 2 ^ 28 → zlen value < 2 ^ 28 →
  zlen (literal_bytes name value) ≤ 11 + zlen name + zlen value.
Proof.
  intros Hn Hv. unfold literal_bytes. cbn [length]. rewrite !length_app.
  pose proof (length_int_bytes_small (zlen name)).
  pose proof (length_int_bytes_small (zlen value)). lia.
Qed.

(** Skip to the next cell: a memory split at an offset. *)
Lemma split_at m (n : nat) : (n ≤ length m)%nat → ∃ a b, m = a ++ b ∧ length a = n.
Proof.
  intros H. exists (take n m), (drop n m). rewrite take_drop, length_take. split; [done|lia].
Qed.

(** One encoded length followed by its string. *)
Lemma encode_string_app pre s olen old suf pos :
  small_string s → length old = (length (int_bytes (strlen s) 7) + length (c_str s))%nat →
  pos = zlen pre → zlen pre + zlen old ≤ olen → olen < 2 ^ 63 →
  encode_string s (strlen s) olen (pre ++ old ++ suf) pos =
    Ret (Some (zlen pre + zlen old),
         (pre ++ int_bytes (strlen s) 7 ++ c_str s) ++ suf).
Proof.
  intros Hs Hold -> Holen Hmax. pose proof (strlen_nonneg s). pose proof (length_c_str s).
  destruct (split_at old (length (int_bytes (strlen s) 7))) as (o1 & o2 & -> & Ho1); [lia|].
  rewrite length_app in *. unfold encode_string.
  rewrite (call_at_app pre _ _ _ (zlen o1) (int_bytes (strlen s) 7 ++ o2 ++ suf)).
  2: done.
  2: { rewrite !u32_small, u64_small, <- app_assoc by lia.
       apply hpack_encode_integer_app; lia. }
  cbn [mbind outcome_bind].
  destruct (Z.ltb_spec (zlen o1) 0); [lia|]. cbv zeta.
  rewrite (u64_small (zlen pre + zlen o1)), u64_small by lia.
  destruct (Z.ltb_spec olen (zlen pre + zlen o1 + strlen s)); [lia|].
  destruct (c_str_prefix s) as [tl Htl]. rewrite app_assoc. rewrite Htl at 2.
  rewrite (memcpy_app (pre ++ int_bytes (strlen s) 7) o2 suf (c_str s) tl)
    by (rewrite ?length_app; lia).
  cbn [mbind outcome_bind]. rewrite <- !app_assoc.
  by replace (zlen pre + zlen o1 + strlen s)
    with (zlen pre + Z.of_nat (length o1 + length o2)) by lia.
Qed.

Lemma hpack_encode_literal_header_app name value olen old suf :
  small_string name → small_string value →
  length old = length (literal_bytes (c_str name) (c_str value)) →
  literal_room name value ≤ olen → olen < 2 ^ 63 →
  hpack_encode_literal_header (Some name) (Some value) (Some (old ++ suf)) olen =
    Ret (zlen old, Some (literal_bytes (c_str name) (c_str value) ++ suf)).
Proof.
  intros Hn Hv Hold Hroom Hmax. unfold hpack_encode_literal_header, literal_room in *.
  pose proof (strlen_nonneg name). pose proof (strlen_nonneg value).
  pose proof (length_c_str name) as Hln. pose proof (length_c_str value) as Hlv.
  pose proof (length_literal_bytes (c_str name) (c_str value)) as Hlit.
  unfold HPACK_INTEGER_MAX_BYTES in *.
  destruct (Z.eqb_spec olen 0); [lia|]. rewrite u64_small by lia.
  destruct (Z.ltb_spec olen (1 + 5 + strlen name + 5 + strlen value)); [lia|].
  unfold literal_bytes in *. rewrite Hln, Hlv in *. cbn [length] in *.
  rewrite !length_app in *.
  destruct old as [|x old]; [done|]. cbn [length app] in *.
  rewrite put_byte_head by lia.
  destruct (split_at old (length (int_bytes (strlen name) 7) + length (c_str name)))
    as (o1 & o2 & -> & Ho1); [lia|]. rewrite length_app in *.
  assert (0 :: (o1 ++ o2) ++ suf = [0] ++ o1 ++ o2 ++ suf) as -> by by rewrite <- app_assoc.
  rewrite (outcome_bind_Ret _ _ _ (encode_string_app [0] name olen o1 (o2 ++ suf) 1
    Hn Ho1 eq_refl ltac:(cbn [length]; lia) Hmax)).
  cbn beta iota.
  set (out := [0] ++ int_bytes (strlen name) 7 ++ c_str name).
  assert (zlen [0] + zlen o1 = zlen out) as Eout
    by (subst out; rewrite !length_app; cbn [length]; lia).
  rewrite (outcome_bind_Ret _ _ _ (encode_string_app out value olen o2 suf _
    Hv ltac:(lia) Eout ltac:(rewrite <- Eout; cbn [length]; lia) Hmax)).
  rewrite <- Eout. subst out.
  cbn [mbind outcome_bind]. rewrite i32_small by (cbn [length]; lia).
  rewrite <- !app_assoc. cbn [app length].
  by replace (Z.of_nat 1 + zlen o1 + zlen o2) with (Z.of_nat (S (length o1 + length o2))) by lia.
Qed.
End literal_proofs.

(** ** Header blocks *)

Definition field_bytes (md : grpc_metadata) : list Z :=
  literal_bytes (c_str (key md)) (c_str (value md)).

(** The header block of the fields [l]. *)
Definition block_bytes (l : list grpc_metadata) : list Z := concat (map field_bytes l).

Definition small_fields (l : list grpc_metadata) : Prop :=
  Forall (fun md => small_string (key md) ∧ small_string (value md)) l.

Section block_proofs.
Implicit Types (a : grpc_metadata_array) (l : list grpc_metadata).

Lemma field_bytes_room md :
  small_string (key md) → small_string (value md) →
  literal_room (key md) (value md) ≤ zlen (field_bytes md) + 8 ∧
  zlen (field_bytes md) ≤ literal_room (key md) (value md).
Proof.
  intros Hk Hv. unfold literal_room, HPACK_INTEGER_MAX_BYTES, field_bytes.
  rewrite <- (length_c_str (key md)), <- (length_c_str (value md)) in *.
  pose proof (length_literal_bytes (c_str (key md)) (c_str (value md)) Hk Hv).
  split; [|lia]. unfold literal_bytes. cbn [length]. rewrite !length_app.
  pose proof (length_int_bytes (zlen (c_str (key md))) 7).
  pose proof (length_int_bytes (zlen (c_str (value md))) 7). lia.
Qed.

Lemma encode_field_app out md old suf olen :
  small_string (key md) → small_string (value md) → length old = length (field_bytes md) →
  zlen out + literal_room (key md) (value md) ≤ olen → olen < 2 ^ 63 →
  call_at (out ++ old ++ suf) (zlen out) (fun sub =>
    hpack_encode_literal_header (key <$> Some md) (value <$> Some md) sub
      (u64 (olen - zlen out))) =
    Ret (zlen old, out ++ field_bytes md ++ suf).
Proof.
  intros Hk Hv Hold Hroom Hmax. apply call_at_app; [done|].
  destruct (field_bytes_room md Hk Hv) as [_ Hle].
  apply hpack_encode_literal_header_app; rewrite ?u64_small; lia || done.
Qed.

Lemma encode_metadata_loop_app a l n i olen out old suf pos :
  md_array_ok a l → (i + n = length l)%nat → small_fields l →
  length old = length (block_bytes (drop i l)) → pos = zlen out →
  zlen out + zlen old + 8 ≤ olen → olen < 2 ^ 31 →
  encode_metadata_loop (metadata a) (Z.of_nat i) n olen (out ++ old ++ suf) pos =
    Ret (zlen out + zlen old, out ++ block_bytes (drop i l) ++ suf).
Proof.
  intros Hok Hin Hsmall. revert i Hin out old pos.
  induction n as [|n IH]; intros i Hin out old pos Hold -> Holen Hmax; cbn [encode_metadata_loop].
  { rewrite drop_ge in * by lia. destruct old; [|done]. rewrite i32_small by (cbn; lia).
    by rewrite Z.add_0_r. }
  pose proof Hok as (_ & _ & _ & Hc & _).
  destruct (get_slot_ok a l (Z.of_nat i) () Hok) as (md & Hmd & Eget); [lia|].
  rewrite (outcome_bind_Ret _ _ _ Eget). cbn beta iota. rewrite Nat2Z.id in Hmd.
  destruct (Forall_lookup_1 _ _ _ _ Hsmall Hmd) as [Hk Hv].
  destruct (field_bytes_room md Hk Hv) as [Hroom _].
  rewrite (drop_S _ _ _ Hmd) in *. unfold block_bytes in *. cbn [map concat] in *.
  rewrite length_app in Hold.
  destruct (split_at old (length (field_bytes md))) as (o1 & o2 & -> & Ho1); [lia|].
  rewrite length_app in *. rewrite <- app_assoc.
  rewrite (outcome_bind_Ret _ _ _ (encode_field_app out md o1 (o2 ++ suf) olen
    Hk Hv Ho1 ltac:(lia) ltac:(lia))).
  cbn beta iota. destruct (Z.ltb_spec (zlen o1) 0); [lia|].
  rewrite u64_small, app_assoc by lia.
  replace (Z.of_nat i + 1) with (Z.of_nat (S i)) by lia.
  rewrite IH by (rewrite ?length_app; lia).
  rewrite !length_app, <- !app_assoc. do 2 f_equal. lia.
Qed.

(** With eight spare bytes after the block, the encoder produces the header block of
    the array's fields and nothing else. *)
Lemma hpack_encode_metadata_app a l olen old suf :
  md_array_ok a l → small_fields l → length old = length (block_bytes l) →
  zlen old + 8 ≤ olen → olen < 2 ^ 31 →
  hpack_encode_metadata (Some a) (Some (old ++ suf)) olen =
    Ret (zlen old, Some (block_bytes l ++ suf)).
Proof.
  intros Hok Hsmall Hold Holen Hmax. unfold hpack_encode_metadata.
  pose proof Hok as (_ & _ & _ & Hc & _).
  rewrite Hc, Nat2Z.id.
  by rewrite (outcome_bind_Ret _ _ _ (encode_metadata_loop_app a l (length l) 0 olen [] old suf 0
    Hok eq_refl Hsmall Hold eq_refl Holen Hmax)).
Qed.
End block_proofs.

(** The field the decoder rebuilds: the characters of both strings up to their first
    terminator, with the length of the value recomputed by [strlen]. *)
Definition decoded_field (md : grpc_metadata) : grpc_metadata :=
  mk_metadata (c_str (key md) ++ [0]) (c_str (value md) ++ [0]) (strlen (value md)).

Definition bytes_fields (l : list grpc_metadata) : Prop :=
  Forall (fun md => bytes_ok (key md) ∧ bytes_ok (value md)) l.

Section roundtrip_lemmas.
Implicit Types (pre suf junk s name value : list Z) (al : allocs).

Lemma copy_string_app pre s suf pos al :
  pos = zlen pre → zlen s < 2 ^ 32 - 1 →
  ∃ ok al', copy_string (pre ++ s ++ suf) pos (zlen s) al =
      Ret (if ok : bool then Some (s ++ [0]) else None, al') ∧
    (al = [] → ok = true ∧ al' = []).
Proof.
  intros -> Hs. unfold copy_string. step_malloc ok al'. exists ok, al'. split; [|done].
  destruct ok; cbn [negb]; [|done].
  mstep (offset_app pre (s ++ suf) _ eq_refl).
  mstep (read_bytes_app s suf _ eq_refl).
  unfold terminated_copy. rewrite u32_small by lia.
  by destruct (Z.ltb_spec (zlen s + 1) (zlen s + 1)); [lia|].
Qed.

Lemma decode_string_app pre s suf junk pos ilen al :
  zlen s < 2 ^ 28 → bytes_ok (s ++ suf) → pos = zlen pre →
  ilen = zlen (pre ++ int_bytes (zlen s) 7 ++ s ++ suf) → ilen < 2 ^ 31 →
  ∃ ok al', decode_string (pre ++ int_bytes (zlen s) 7 ++ s ++ suf ++ junk) ilen pos al =
      Ret (if ok : bool then Some (zlen (pre ++ int_bytes (zlen s) 7 ++ s), s ++ [0]) else None,
           al') ∧
    (al = [] → ok = true ∧ al' = []).
Proof.
  intros Hs Hbs -> -> Hmax. unfold decode_string.
  destruct (int_bytes_spec (zlen s) 7 (s ++ suf)) as (Hval & Hlen & Hib); [lia..|].
  pose proof (length_int_bytes (zlen s) 7).
  destruct (hpack_decode_integer_spec 7 (int_bytes (zlen s) 7 ++ s ++ suf) junk)
    as (r & Edec & _ & Hdec); [lia|by apply Forall_app|intros Enil; apply app_nil in Enil as [Enil _]; rewrite Enil in *; cbn in *; lia|].
  rewrite (Hdec _ _ Hval Hlen ltac:(lia)) in Edec. clear Hdec.
  mstep (offset_app pre _ _ eq_refl).
  rewrite !length_app in *. rewrite u64_small by lia.
  rewrite (M_bind_lift _ _ _ (Some (zlen (int_bytes (zlen s) 7), zlen s))).
  2: { rewrite <- Edec. rewrite <- !app_assoc. f_equal. lia. }
  destruct (Z.ltb_spec (zlen (int_bytes (zlen s) 7)) 0); [lia|]. cbv zeta.
  rewrite (u64_small (zlen pre + _)), (u64_small (_ + zlen s)) by lia.
  match goal with |- context [?a <? ?b] => destruct (Z.ltb_spec a b); [lia|] end.
  destruct (copy_string_app (pre ++ int_bytes (zlen s) 7) s (suf ++ junk)
    (zlen pre + zlen (int_bytes (zlen s) 7)) al) as (ok & al' & Ecopy & Hal);
    [rewrite length_app; lia|lia|].
  rewrite <- app_assoc in Ecopy. mstep Ecopy.
  exists ok, al'. split; [|done]. destruct ok; [|done]. unfold mret, M_ret.
  repeat f_equal. lia.
Qed.

Lemma hpack_decode_literal_header_app name value suf junk ilen al :
  zlen name < 2 ^ 28 → zlen value < 2 ^ 28 → bytes_ok (name ++ value ++ suf) →
  ilen = zlen (literal_bytes name value ++ suf) → ilen < 2 ^ 31 →
  ∃ ok al',
    hpack_decode_literal_header (Some (literal_bytes name value ++ suf ++ junk)) ilen al =
      Ret (if ok : bool
           then Some (zlen (literal_bytes name value), (name ++ [0], value ++ [0]))
           else None, al') ∧
    (al = [] → ok = true ∧ al' = []).
Proof.
  intros Hn Hv Hbs -> Hmax. unfold hpack_decode_literal_header.
  apply Forall_app in Hbs as [Hbn Hbs].
  pose proof (length_int_bytes (zlen name) 7). pose proof (length_int_bytes (zlen value) 7).
  destruct (int_bytes_spec (zlen value) 7 []) as (_ & _ & Hbi); [lia..|].
  match goal with |- context [?a <? 2] => destruct (Z.ltb_spec a 2) as [Hlt|_] end.
  { unfold literal_bytes in Hlt. cbn [length app] in Hlt. rewrite !length_app in Hlt. lia. }
  set (rest := int_bytes (zlen value) 7 ++ value ++ suf).
  destruct (decode_string_app [0] name rest junk 1
    (zlen (literal_bytes name value ++ suf)) al) as (ok1 & al1 & E1 & Hal1);
    [done| |done| |done|].
  { apply Forall_app; split; [done|]. by apply Forall_app. }
  { unfold literal_bytes, rest. by rewrite <- app_comm_cons, <- !app_assoc. }
  assert (literal_bytes name value ++ suf ++ junk =
    [0] ++ int_bytes (zlen name) 7 ++ name ++ rest ++ junk) as Eq1.
  { unfold literal_bytes, rest. by rewrite <- app_comm_cons, <- !app_assoc. }
  rewrite Eq1, (M_bind_Ret _ _ _ _ _ E1).
  destruct ok1; [|exists false, al1; naive_solver].
  destruct (decode_string_app ([0] ++ int_bytes (zlen name) 7 ++ name) value suf junk _
    (zlen (literal_bytes name value ++ suf)) al1 Hv Hbs eq_refl)
    as (ok2 & al2 & E2 & Hal2); [|done|].
  { unfold literal_bytes. cbn [app]. by rewrite <- !app_assoc. }
  unfold rest. rewrite <- !app_assoc in E2 |- *. mstep E2.
  exists ok2, al2. split; [|naive_solver]. destruct ok2; [|done].
  unfold mret, M_ret. unfold literal_bytes in Hmax |- *.
  cbn [app] in *. rewrite <- !app_assoc in Hmax |- *.
  rewrite i32_small; [done|]. cbn [length] in *. rewrite !length_app in *. lia.
Qed.
End roundtrip_lemmas.

Section roundtrip.
Implicit Types (a : grpc_metadata_array) (l : list grpc_metadata) (m : list Z).

Lemma block_bytes_ok l : small_fields l → bytes_fields l → bytes_ok (block_bytes l).
Proof.
  intros Hs Hb. unfold block_bytes. induction l as [|md l IH]; cbn [map concat]; [constructor|].
  apply Forall_cons in Hs as [[Hk Hv] Hs], Hb as [[Hbk Hbv] Hb].
  apply Forall_app; split; [|by apply IH]. unfold field_bytes, literal_bytes.
  rewrite <- length_c_str in Hk, Hv.
  destruct (int_bytes_spec (zlen (c_str (key md))) 7 []) as (_ & _ & ?); [lia..|].
  destruct (int_bytes_spec (zlen (c_str (value md))) 7 []) as (_ & _ & ?); [lia..|].
  constructor; [lia|]. rewrite !Forall_app. split_and!; auto with grpc.
Qed.

Lemma decoded_field_strlen md : strlen (c_str (value md) ++ [0]) = strlen (value md).
Proof. rewrite strlen_terminated by auto with grpc. apply length_c_str. Qed.

Lemma length_field_bytes md : (1 ≤ length (field_bytes md))%nat.
Proof. unfold field_bytes, literal_bytes. cbn [length]. lia. Qed.

Lemma length_block_bytes l : (length l ≤ length (block_bytes l))%nat.
Proof.
  unfold block_bytes. induction l as [|md l IH]; cbn [map concat length]; [lia|].
  rewrite length_app. pose proof (length_field_bytes md). lia.
Qed.

Lemma decode_field_app md suf junk :
  small_string (key md) → small_string (value md) → bytes_ok (field_bytes md ++ suf) →
  zlen (field_bytes md ++ suf) < 2 ^ 31 →
  hpack_decode_literal_header (Some (field_bytes md ++ suf ++ junk))
      (zlen (field_bytes md ++ suf)) [] =
    Ret (Some (zlen (field_bytes md), (c_str (key md) ++ [0], c_str (value md) ++ [0])), []).
Proof.
  intros Hk Hv Hbytes Hmax. rewrite <- length_c_str in Hk, Hv.
  destruct (hpack_decode_literal_header_app (c_str (key md)) (c_str (value md)) suf junk
    (zlen (field_bytes md ++ suf)) [] Hk Hv) as (ok & al' & Edec & Hal); [|done|done|].
  - unfold field_bytes, literal_bytes in Hbytes.
    rewrite Forall_app, Forall_cons, !Forall_app in Hbytes. rewrite !Forall_app. naive_solver.
  - by destruct (Hal eq_refl) as [-> ->].
Qed.

Lemma decode_metadata_loop_app l fuel pre junk pos a l0 :
  md_array_ok a l0 → zlen l0 + zlen l < 2 ^ 58 → (length l < fuel)%nat →
  small_fields l → bytes_fields l → pos = zlen pre →
  zlen (pre ++ block_bytes l) < 2 ^ 31 →
  ∃ a', decode_metadata_loop fuel (pre ++ block_bytes l ++ junk)
          (zlen (pre ++ block_bytes l)) pos a [] = Ret ((0, Some a'), []) ∧
        md_array_ok a' (l0 ++ map decoded_field l).
Proof.
  intros Hok Hsz Hf Hs Hb -> Hmax. revert fuel pre a l0 Hok Hsz Hf Hs Hb Hmax.
  induction l as [|md l IH]; intros [|fuel] pre a l0 Hok Hsz Hf Hs Hb Hmax;
    cbn [length] in *; try lia.
  { exists a. cbn [map]. rewrite !app_nil_r in *. cbn [decode_metadata_loop].
    by rewrite Z.ltb_irrefl. }
  pose proof (block_bytes_ok _ Hs Hb) as Hbytes.
  apply Forall_cons in Hs as [[Hk Hv] Hs]. pose proof Hb as Hb2. apply Forall_cons in Hb2 as [_ Hb2].
  unfold block_bytes in *. cbn [map concat] in *.
  cbn [decode_metadata_loop].
  match goal with |- context [?a <? ?b] => destruct (Z.ltb_spec a b) as [_|Hge] end.
  2: { rewrite !length_app in Hge. pose proof (length_field_bytes md). lia. }
  mstep (offset_app pre _ _ eq_refl).
  rewrite <- app_assoc.
  assert (u64 (zlen (pre ++ field_bytes md ++ concat (map field_bytes l)) - zlen pre) =
    zlen (field_bytes md ++ concat (map field_bytes l))) as ->
    by (rewrite u64_small; rewrite !length_app in *; lia).
  mstep (decode_field_app md (concat (map field_bytes l)) junk Hk Hv Hbytes
    ltac:(rewrite !length_app in *; lia)).
  destruct (Z.ltb_spec (zlen (field_bytes md)) 0); [lia|].
  destruct (md_array_grow_spec a l0 [] Hok) as (o & al1 & Eg & Ho & Hal1);
    [unfold md_size_ok; lia|].
  destruct (Hal1 eq_refl) as [Hne ->]. mstep Eg.
  destruct o as [a1|]; [|done]. destruct Ho as [Hok1 Hroom].
  destruct (md_array_push_spec a1 l0 (decoded_field md) [] Hok1 Hroom) as (a2 & Ep & Hok2 & _).
  rewrite decoded_field_strlen. unfold decoded_field in Ep at 1.
  mstep Ep.
  rewrite (app_assoc pre (field_bytes md)) in *. rewrite u64_small.
  2: { rewrite !length_app in *. lia. }
  destruct (IH fuel (pre ++ field_bytes md) a2 (l0 ++ [decoded_field md])) as (a' & E & Hok');
    [done|rewrite length_app; cbn [length]; lia|lia|done|done|done|].
  exists a'. rewrite <- app_assoc in Hok'. split; [|done].
  replace (zlen (pre ++ field_bytes md)) with (zlen pre + zlen (field_bytes md)) in E
    by (rewrite length_app; lia).
  by rewrite (app_assoc pre (field_bytes md) (concat (map field_bytes l))).
Qed.
End roundtrip.

(** ** Decoding arbitrary input *)

Section decode_safety.
Implicit Types (input : list Z) (al : allocs).

Lemma decode_integer_total input ilen p :
  0 ≤ p ≤ 7 → bytes_ok input → 0 ≤ ilen ≤ zlen input →
  ∃ r, hpack_decode_integer (Some input) ilen p = Ret r ∧
    match r with None => True | Some (n, v) => 1 ≤ n ≤ ilen ∧ 0 ≤ v < 2 ^ 32 end.
Proof.
  intros Hp Hb Hl. destruct (decide (ilen = 0)) as [->|Hne]; [by exists None|].
  assert (ilen = zlen (take (Z.to_nat ilen) input)) as E by (rewrite length_take; lia).
  destruct (hpack_decode_integer_spec p (take (Z.to_nat ilen) input) (drop (Z.to_nat ilen) input))
    as (r & Er & Hr & _); [done|by apply Forall_take| |].
  { intros E0. rewrite E0 in E. cbn in E. lia. }
  rewrite take_drop, <- E in Er.
  exists r; split; [done|]. destruct Hr as [->|(n & w & Hval & Hn & ->)]; [done|].
  split; [|apply u32_range]. rewrite length_take in Hn. split; [|lia].
  destruct (take _ input) as [|b bs] eqn:Eb; [done|]. cbn in Hval.
  destruct (_ <? _); [injection Hval; lia|].
  destruct (varint_value bs) as [[]|]; [|done]. injection Hval; lia.
Qed.

Lemma copy_string_total input pos len al :
  0 ≤ pos → 0 ≤ len → pos + len ≤ zlen input → len < 2 ^ 32 - 1 →
  ∃ o al', copy_string input pos len al = Ret (o, al').
Proof.
  intros Hp Hl Hin Hmax.
  destruct (split_at input (Z.to_nat pos)) as (pre & rest & -> & Hpre); [lia|].
  rewrite length_app in Hin.
  destruct (split_at rest (Z.to_nat len)) as (s & suf & -> & Hs); [lia|].
  destruct (copy_string_app pre s suf pos al) as (ok & al' & E & _); [lia|lia|].
  replace len with (zlen s) by lia. eauto.
Qed.

Lemma decode_string_total input ilen pos al :
  bytes_ok input → ilen ≤ zlen input → ilen < 2 ^ 32 → 0 ≤ pos ≤ ilen →
  ∃ o al', decode_string input ilen pos al = Ret (o, al') ∧
    match o with None => True | Some (pos', _) => pos < pos' ≤ ilen end.
Proof.
  intros Hb Hl Hmax Hpos. unfold decode_string.
  destruct (split_at input (Z.to_nat pos)) as (pre & rest & -> & Hpre); [lia|].
  apply Forall_app in Hb as [_ Hb]. rewrite length_app in Hl.
  mstep (offset_app pre rest pos ltac:(lia)).
  rewrite u64_small by lia.
  destruct (decode_integer_total rest (ilen - pos) 7) as (r & E & Hr); [lia|done|lia|].
  mstep E.
  destruct r as [[n v]|]; [|exists None; naive_solver].
  destruct (Z.ltb_spec n 0); [lia|]. cbv zeta.
  rewrite (u64_small (pos + n)), (u64_small (pos + n + v)) by lia.
  destruct (Z.ltb_spec ilen (pos + n + v)); [exists None; naive_solver|].
  destruct (copy_string_total (pre ++ rest) (pos + n) v al) as (o & al' & Ec);
    [lia|lia|rewrite length_app; lia|lia|].
  mstep Ec.
  destruct o as [s|]; [|exists None; naive_solver].
  eexists _, al'; split; [done|]. cbn. lia.
Qed.

(** The position is returned as an [int]: past [2^31] it is negative, which the caller takes for
    an error. *)
Lemma decode_literal_total input ilen al :
  bytes_ok input → 0 ≤ ilen ≤ zlen input → ilen < 2 ^ 32 →
  ∃ o al', hpack_decode_literal_header (Some input) ilen al = Ret (o, al') ∧
    match o with None => True | Some (n, _) => 3 ≤ n ≤ ilen ∨ n < 0 end.
Proof.
  intros Hb Hl Hmax. unfold hpack_decode_literal_header.
  destruct (Z.ltb_spec ilen 2); [exists None; naive_solver|].
  destruct (decode_string_total input ilen 1 al) as (o1 & al1 & E1 & H1); [done|lia..|].
  mstep E1. destruct o1 as [[pos k]|]; [|exists None; naive_solver].
  destruct (decode_string_total input ilen pos al1) as (o2 & al2 & E2 & H2); [done|lia..|].
  mstep E2. destruct o2 as [[pos' v]|]; [|exists None; naive_solver].
  eexists _, al2; split; [done|]. cbn. destruct (decide (pos' < 2 ^ 31)).
  - left. rewrite i32_small; lia.
  - right. rewrite i32_wrap_once; lia.
Qed.

Lemma decode_cleanup_ok a l al :
  md_array_ok a l →
  decode_cleanup a al = Ret ((-1, Some (mk_md_array (count a) (capacity a) MdFreed)), al).
Proof.
  intros Hok. pose proof Hok as (_ & _ & _ & Hc & _). unfold decode_cleanup.
  assert (destroy_slots (metadata a) 0 (Z.to_nat (count a)) al = Ret ((), al)) as E
    by (apply (destroy_slots_ok a l); [done|lia|lia]).
  by mstep E.
Qed.

(** Every iteration consumes at least three bytes, so the fuel never runs out. *)
Lemma decode_metadata_loop_total fuel input ilen pos a l al :
  bytes_ok input → ilen ≤ zlen input → ilen < 2 ^ 32 → 0 ≤ pos ≤ ilen →
  md_array_ok a l → zlen l ≤ pos → ilen - pos < Z.of_nat fuel →
  ∃ r a' al', decode_metadata_loop fuel input ilen pos a al = Ret ((r, Some a'), al') ∧
    ((r = 0 ∧ ∃ l', md_array_ok a' l' ∧ zlen l' ≤ ilen) ∨ r = -1).
Proof.
  intros Hb Hl Hmax. revert pos a l al.
  induction fuel as [|fuel IH]; intros pos a l al Hpos Hok Hcnt Hf; [lia|].
  cbn [decode_metadata_loop]. destruct (Z.ltb_spec pos ilen) as [Hmore|].
  2: { exists 0, a, al. split; [done|]. left. split; [done|]. exists l. split; [done|lia]. }
  destruct (split_at input (Z.to_nat pos)) as (pre & rest & Hin & Hpre); [lia|].
  rewrite (M_bind_lift _ _ _ rest) by (rewrite Hin; apply offset_app; lia).
  rewrite u64_small by lia.
  destruct (decode_literal_total rest (ilen - pos) al) as (o & al1 & E & Ho).
  { rewrite Hin in Hb. by apply Forall_app in Hb as [_ Hb]. }
  { apply (f_equal length) in Hin. rewrite length_app in Hin. lia. }
  { lia. }
  mstep E.
  destruct o as [[n [k v]]|]; [|rewrite (decode_cleanup_ok _ _ _ Hok); naive_solver].
  destruct (Z.ltb_spec n 0); [rewrite (decode_cleanup_ok _ _ _ Hok); naive_solver|].
  assert (3 ≤ n ≤ ilen - pos) by lia.
  destruct (md_array_grow_spec a l al1 Hok) as (o & al2 & Eg & Hg & _); [unfold md_size_ok; lia|].
  mstep Eg. destruct o as [a1|]; [|naive_solver].
  destruct Hg as [Hok1 Hroom].
  destruct (md_array_push_spec a1 l (mk_metadata k v (strlen v)) al2 Hok1 Hroom)
    as (a2 & Ep & Hok2 & _).
  mstep Ep; rewrite u64_small by lia.
  eapply IH; [lia|done| |lia]. rewrite length_app. cbn [length]. lia.
Qed.
End decode_safety.

(** ** Encoding never writes outside the room it is given *)

(** A call with room [n] on memory [m] returns -1 or a position up to [n], and has
    written at most the first [n] bytes. *)
Definition safe_write (n : Z) (m : list Z) (o : outcome (Z * list Z)) : Prop :=
  ∃ r m', o = Ret (r, m') ∧ writes_within n m m' ∧ -1 ≤ r ≤ n.

Section encode_safety.
Implicit Types (m : list Z).

Lemma safe_write_error n m m' : writes_within n m m' → 0 ≤ n → safe_write n m (Ret (-1, m')).
Proof. intros H Hn. exists (-1), m'. split_and!; (done || lia). Qed.

Lemma safe_write_trans n m m' o :
  writes_within n m m' → safe_write n m' o → safe_write n m o.
Proof. intros H (r & m2 & E & H2 & Hr). exists r, m2. split_and!; [done|by etrans|lia|lia]. Qed.

Lemma writes_within_take (pos n : Z) m sub :
  0 ≤ pos ≤ n → n ≤ zlen m → writes_within (n - pos) (drop (Z.to_nat pos) m) sub →
  writes_within n m (take (Z.to_nat pos) m ++ sub).
Proof.
  intros Hpos Hn [HL HD]. rewrite length_drop in HL.
  assert (length (take (Z.to_nat pos) m) = Z.to_nat pos) as Ht by (rewrite length_take; lia).
  split; [rewrite length_app, HL, Ht; lia|].
  rewrite drop_app, drop_ge, Ht by lia. cbn [app].
  replace (Z.to_nat n - Z.to_nat pos)%nat with (Z.to_nat (n - pos)) by lia.
  rewrite HD, drop_drop. f_equal. lia.
Qed.

Lemma put_byte_safe n m pos b k :
  0 ≤ pos → 0 ≤ n ≤ zlen m →
  (∀ m', writes_within n m m' → pos + 1 ≤ n → safe_write n m' (k m' (pos + 1))) →
  safe_write n m (put_byte n m pos b k).
Proof.
  intros Hp Hn Hk. unfold put_byte. destruct (Z.leb_spec n pos).
  { apply safe_write_error; [reflexivity|lia]. }
  unfold store. destruct (Z.ltb_spec pos 0), (Z.leb_spec (zlen m) pos); try lia. cbn.
  assert (writes_within n m (<[Z.to_nat pos:=b]> m)) as Hw.
  { split; [apply length_insert|]. rewrite drop_insert_lt by lia. done. }
  eapply safe_write_trans; [done|]. apply Hk; [done|lia].
Qed.

Lemma encode_loop_safe fuel v n m pos :
  0 ≤ v < 128 ^ Z.of_nat (S fuel) → 0 ≤ pos → 0 ≤ n ≤ zlen m → n < 2 ^ 31 →
  safe_write n m (encode_loop fuel v n m pos).
Proof.
  revert v m pos. induction fuel as [|fuel IH]; intros v m pos Hv Hp Hn Hmax; cbn [encode_loop];
    destruct (Z.leb_spec 128 v); try lia; apply put_byte_safe; try done; intros m' Hw Hpos.
  - eexists _, m'; split; [done|]. split; [reflexivity|]. rewrite i32_small; lia.
  - pose proof Hw as [HL _]. apply IH; try lia.
    rewrite shiftr_7. rewrite (Nat2Z.inj_succ (S fuel)), Z.pow_succ_r in Hv by lia.
    split; [apply Z.div_pos; lia | apply Z.div_lt_upper_bound; lia].
  - eexists _, m'; split; [done|]. split; [reflexivity|]. rewrite i32_small; lia.
Qed.

Lemma encode_integer_safe v p n m :
  0 ≤ p ≤ 7 → 0 ≤ n ≤ zlen m → n < 2 ^ 31 →
  ∃ r m', hpack_encode_integer (u32 v) p (Some m) n = Ret (r, Some m') ∧
          writes_within n m m' ∧ -1 ≤ r ≤ n.
Proof.
  intros Hp Hn Hmax. unfold hpack_encode_integer.
  pose proof (u32_range v).
  destruct (Z.eqb_spec n 0) as [->|Hn0]; cbn [orb].
  { exists (-1), m. split_and!; [done|reflexivity|lia..]. }
  destruct (Z.ltb_spec HPACK_INTEGER_MAX_PREFIX_BITS p) as [Hp'|_];
    [unfold HPACK_INTEGER_MAX_PREFIX_BITS in Hp'; lia|].
  match goal with |- context [?o ≫= _] => assert (safe_write n m o) as (r & m' & E & Hw & Hr) end.
  { destruct (_ <? _); apply put_byte_safe; try lia; intros m' Hw Hpos.
    - eexists _, m'; split; [done|]. split; [reflexivity|]. rewrite i32_small; lia.
    - pose proof Hw as [HL _]. apply encode_loop_safe; try lia.
      pose proof (u32_range (u32 v - u32 (u32 (Z.shiftl 1 p) - 1))).
      change (128 ^ Z.of_nat (S encode_fuel)) with (2 ^ 42). lia. }
  rewrite (outcome_bind_Ret _ _ _ E). exists r, m'. done.
Qed.

Lemma call_at_safe n m pos f :
  0 ≤ pos ≤ n → n ≤ zlen m →
  (∀ sub, zlen sub = zlen m - pos → ∃ r sub', f (Some sub) = Ret (r, Some sub') ∧
     writes_within (n - pos) sub sub' ∧ -1 ≤ r ≤ n - pos) →
  ∃ r m', call_at m pos f = Ret (r, m') ∧ writes_within n m m' ∧ -1 ≤ r ≤ n - pos.
Proof.
  intros Hpos Hn Hf. unfold call_at, offset.
  destruct (Z.ltb_spec pos 0), (Z.ltb_spec (zlen m) pos); try lia. cbn [orb mbind outcome_bind].
  destruct (Hf (drop (Z.to_nat pos) m)) as (r & sub & E & Hw & Hr); [rewrite length_drop; lia|].
  rewrite E. eexists r, _; split; [done|]. split; [|done]. cbn [default].
  by apply writes_within_take.
Qed.

Lemma encode_string_safe s n m pos :
  strlen s < 2 ^ 62 → 0 ≤ pos ≤ n → n ≤ zlen m → n < 2 ^ 31 →
  ∃ o m', encode_string s (strlen s) n m pos = Ret (o, m') ∧ writes_within n m m' ∧
    match o with None => True | Some pos' => pos ≤ pos' ≤ n end.
Proof.
  intros Hs Hpos Hn Hmax. pose proof (strlen_nonneg s). unfold encode_string.
  rewrite u64_small by lia.
  destruct (call_at_safe n m pos (fun out => hpack_encode_integer (u32 (strlen s)) 7 out (n - pos)))
    as (r & m1 & E & Hw & Hr); [lia|lia| |].
  { intros sub Hsub. apply encode_integer_safe; lia. }
  rewrite (outcome_bind_Ret _ _ _ E). cbn beta iota.
  destruct (Z.ltb_spec r 0); [by exists None, m1|]. cbv zeta.
  rewrite (u64_small (pos + r)), u64_small by lia.
  destruct (Z.ltb_spec n (pos + r + strlen s)); [by exists None, m1|].
  pose proof Hw as [HL HD]. unfold memcpy, read_bytes.
  pose proof (c_strlen_le s). unfold strlen in *.
  destruct (Z.ltb_spec (Z.of_nat (c_strlen_nat s)) 0), (Z.ltb_spec (zlen s) (Z.of_nat (c_strlen_nat s)));
    try lia. cbn [orb mbind outcome_bind].
  destruct (Z.ltb_spec (pos + r) 0), (Z.ltb_spec (zlen m1) (pos + r + Z.of_nat (c_strlen_nat s)));
    try lia. cbn [orb].
  eexists _, _; split; [done|]. split; [|lia]. etrans; [done|].
  apply (writes_within_take (pos + r) n m1); [lia|lia|]. rewrite Nat2Z.id. split.
  - rewrite length_app, !length_drop, length_take. lia.
  - rewrite drop_app, drop_ge, length_take by (rewrite length_take; lia). cbn [app].
    rewrite !drop_drop. f_equal. lia.
Qed.

Lemma encode_literal_safe name value n m :
  strlen name < 2 ^ 62 → strlen value < 2 ^ 62 → 0 ≤ n ≤ zlen m → n < 2 ^ 31 →
  ∃ r m', hpack_encode_literal_header (Some name) (Some value) (Some m) n = Ret (r, Some m') ∧
    writes_within n m m' ∧ -1 ≤ r ≤ n.
Proof.
  intros Hk Hv Hn Hmax. unfold hpack_encode_literal_header.
  destruct (Z.eqb_spec n 0) as [->|]; [exists (-1), m; split_and!; [done|reflexivity|lia..]|].
  destruct (n <? _); [exists (-1), m; split_and!; [done|reflexivity|lia..]|].
  match goal with |- context [?o ≫= _] => assert (safe_write n m o) as (r & m' & E & Hw & Hr) end.
  2: { rewrite (outcome_bind_Ret _ _ _ E). by exists r, m'. }
  apply put_byte_safe; try lia. intros m1 [HL1 _] _.
  destruct (encode_string_safe name n m1 (0 + 1)) as (o2 & m2 & E2 & Hw2 & H2); [lia..|].
  rewrite (outcome_bind_Ret _ _ _ E2). eapply safe_write_trans; [done|].
  destruct o2 as [pos|]; [|apply safe_write_error; [reflexivity|lia]]. pose proof Hw2 as [HL2 _].
  destruct (encode_string_safe value n m2 pos) as (o3 & m3 & E3 & Hw3 & H3); [lia..|].
  rewrite (outcome_bind_Ret _ _ _ E3). eapply safe_write_trans; [done|].
  destruct o3 as [pos'|]; [|apply safe_write_error; [reflexivity|lia]].
  eexists _, m3; split; [done|]. split; [reflexivity|]. rewrite i32_small; lia.
Qed.

Lemma encode_metadata_loop_safe a l k i n m pos :
  md_array_ok a l → Forall (fun md => strlen (key md) < 2 ^ 62 ∧ strlen (value md) < 2 ^ 62) l →
  0 ≤ i → i + Z.of_nat k ≤ count a → 0 ≤ pos ≤ n → n ≤ zlen m → n < 2 ^ 31 →
  safe_write n m (encode_metadata_loop (metadata a) i k n m pos).
Proof.
  intros Hok Hl. revert i m pos. induction k as [|k IH]; intros i m pos Hi Hk Hpos Hn Hmax;
    cbn [encode_metadata_loop].
  { eexists _, m; split; [done|]. split; [reflexivity|]. rewrite i32_small; lia. }
  destruct (get_slot_ok a l i () Hok) as (md & Hmd & E); [lia|].
  rewrite (outcome_bind_Ret _ _ _ E). cbn beta iota.
  destruct (Forall_lookup_1 _ _ _ _ Hl Hmd) as [Hlk Hlv]. rewrite u64_small by lia.
  destruct (call_at_safe n m pos (fun out =>
    hpack_encode_literal_header (key <$> Some md) (value <$> Some md) out (n - pos)))
    as (r & m1 & E1 & Hw & Hr); [lia|lia| |].
  { intros sub Hsub. apply encode_literal_safe; (done || lia). }
  rewrite (outcome_bind_Ret _ _ _ E1). cbn beta iota. eapply safe_write_trans; [done|].
  pose proof Hw as [HL _].
  destruct (Z.ltb_spec r 0); [apply safe_write_error; [reflexivity|lia]|].
  rewrite u64_small by lia. apply IH; lia.
Qed.
End encode_safety.

(** ** The properties of the codec *)

Section theorems.
Implicit Types (a : grpc_metadata_array) (l : list grpc_metadata) (m input : list Z).

(** C1. Header blocks round-trip: encoding an array of fields into a buffer with eight spare
    bytes (strings below [2^28] bytes, a buffer below [2^31]) writes a block that the decoder
    turns back into the same fields in the same order, each string cut at its first NUL and
    each value length recomputed. *)
Theorem hpack_metadata_roundtrip a l m output_len a0 :
  md_array_ok a l → small_fields l → bytes_fields l →
  zlen (block_bytes l) + 8 ≤ output_len ≤ zlen m → output_len < 2 ^ 31 →
  ∃ n m' a',
    hpack_encode_metadata (Some a) (Some m) output_len = Ret (n, Some m') ∧
    n = zlen (block_bytes l) ∧
    hpack_decode_metadata (Some m') n (Some a0) [] = Ret ((0, Some a'), []) ∧
    md_array_ok a' (map decoded_field l).
Proof.
  intros Hok Hs Hb Hroom Hmax.
  destruct (split_at m (length (block_bytes l))) as (old & suf & -> & Hold); [lia|].
  exists (zlen old), (block_bytes l ++ suf).
  rewrite (hpack_encode_metadata_app a l output_len old suf) by (done || lia).
  assert (md_array_ok (mk_md_array 0 16 (MdLive (replicate 16 Zeroed))) []) as Hok0.
  { exists (replicate 16 Zeroed). by vm_compute. }
  destruct (decode_metadata_loop_app l (S (Z.to_nat (zlen old))) [] suf 0 _ [] Hok0)
    as (a' & E & Hok'); [..|done|cbn [app]; lia|].
  { pose proof (length_block_bytes l). cbn [length]. lia. }
  { pose proof (length_block_bytes l). lia. }
  1, 2: done.
  cbn [app] in E. rewrite <- Hold in E. exists a'. split_and!; [done|lia| |done].
  exact E.
Qed.

(** C2. The header block decoder on arbitrary bytes, fewer than [2^32] of them, and with an
    arbitrary allocator reads and writes nothing outside its blocks and ends: it returns 0 with
    a well-formed array of at most as many fields as there are bytes, or -1. *)
Theorem hpack_decode_metadata_total input input_len a0 al :
  bytes_ok input → 0 ≤ input_len ≤ zlen input → input_len < 2 ^ 32 →
  ∃ r a' al', hpack_decode_metadata (Some input) input_len (Some a0) al = Ret ((r, Some a'), al') ∧
    ((r = 0 ∧ ∃ l, md_array_ok a' l ∧ zlen l ≤ input_len) ∨ r = -1).
Proof.
  intros Hb Hl Hmax. unfold hpack_decode_metadata, calloc_slots.
  change (2 ^ 64 <=? HPACK_DECODE_INITIAL_CAPACITY * SIZEOF_METADATA) with false. cbn match.
  destruct (malloc_run al) as (ok & al' & E & _).
  rewrite (M_bind_Ret _ _ _ (if ok then MdLive (replicate 16 Zeroed) else MdNull) al')
    by (mstep E; by destruct ok).
  destruct ok; [|exists (-1); naive_solver].
  apply (decode_metadata_loop_total _ _ _ _ _ []); try done; try lia.
  exists (replicate 16 Zeroed). by vm_compute.
Qed.

(** The room for a string of [2^32 - 1] bytes and its terminator wraps to no byte at all. *)
Lemma copy_huge_string pre s tail :
  zlen s = 2 ^ 32 - 1 → copy_string (pre ++ s ++ tail) (zlen pre) (zlen s) [] = Fault OutOfBounds.
Proof.
  intros Hs. unfold copy_string. rewrite (M_bind_Ret _ _ _ true []) by reflexivity. cbn [negb].
  mstep (offset_app pre (s ++ tail) (zlen pre) eq_refl).
  mstep (read_bytes_app s tail _ eq_refl).
  unfold terminated_copy. by rewrite Hs.
Qed.

(** A block whose first field announces a name of [2^32 - 1] bytes, and has them. *)
Lemma decode_huge_string b s tail :
  bytes_ok (s ++ tail) → zlen s = 2 ^ 32 - 1 → zlen tail < 2 ^ 62 →
  decode_string (b :: int_bytes (zlen s) 7 ++ s ++ tail)
    (zlen (b :: int_bytes (zlen s) 7 ++ s ++ tail)) 1 [] = Fault OutOfBounds.
Proof.
  intros Hb Hs Ht. unfold decode_string.
  destruct (int_bytes_spec (zlen s) 7 (s ++ tail)) as (Hval & Hlen & Hib); [lia..|].
  pose proof (length_int_bytes (zlen s) 7) as Hpos.
  set (ib := int_bytes (zlen s) 7) in *.
  destruct (hpack_decode_integer_spec 7 (ib ++ s ++ tail) []) as (r & Edec & _ & Hdec);
    [lia|by apply Forall_app|intros Enil; apply app_nil in Enil as [Enil _]; rewrite Enil in Hpos; cbn in Hpos; lia|].
  rewrite (Hdec _ _ Hval Hlen ltac:(lia)), app_nil_r in Edec. clear Hdec.
  mstep (offset_app [b] (ib ++ s ++ tail) 1 eq_refl).
  assert (zlen (b :: ib ++ s ++ tail) = 1 + zlen (ib ++ s ++ tail)) as E1 by (cbn [length]; lia).
  rewrite E1, u64_small by (rewrite !length_app; lia).
  replace (1 + zlen (ib ++ s ++ tail) - 1) with (zlen (ib ++ s ++ tail)) by lia.
  rewrite (M_bind_lift _ _ _ _ Edec). destruct (Z.ltb_spec (Z.of_nat (length ib)) 0); [lia|]. cbv zeta.
  rewrite (u64_small (1 + _)), (u64_small (_ + zlen s)) by lia.
  match goal with |- context [?x <? ?y] => destruct (Z.ltb_spec x y) as [Hlt|_] end;
    [rewrite !length_app in Hlt; lia|].
  pose proof (copy_huge_string (b :: ib) s tail Hs) as Ec.
  replace (zlen (b :: ib)) with (1 + zlen ib) in Ec by (cbn [length]; lia).
  by rewrite (M_bind_Fault _ _ _ _ Ec).
Qed.

(** C20. A header block of [2^32 + 6] bytes or more whose first field announces a name of [2^32
    - 1] bytes, and has them, makes the decoder write outside the block of the name, with an
    allocator that does not fail: the length and its terminator wrap to a block of no bytes. *)
Theorem hpack_decode_metadata_4gib_overflow b s tail a0 :
  bytes_ok (s ++ tail) → zlen s = 2 ^ 32 - 1 → zlen tail < 2 ^ 62 →
  let block := b :: int_bytes (zlen s) 7 ++ s ++ tail in
  hpack_decode_metadata (Some block) (zlen block) (Some a0) [] = Fault OutOfBounds.
Proof.
  intros Hb Hs Ht block. unfold hpack_decode_metadata, calloc_slots.
  change (2 ^ 64 <=? HPACK_DECODE_INITIAL_CAPACITY * SIZEOF_METADATA) with false. cbn match.
  rewrite (M_bind_Ret _ _ _ (MdLive (replicate 16 Zeroed)) []) by reflexivity.
  pose proof (decode_huge_string b s tail Hb Hs Ht) as E. fold block in E.
  assert (2 ≤ zlen block < 2 ^ 63) as Hlen.
  { pose proof (length_int_bytes (zlen s) 7). destruct (int_bytes_spec (zlen s) 7 []) as (_ & ? & _); [lia..|].
    unfold block. cbn [length]. rewrite !length_app. lia. }
  cbn [decode_metadata_loop]. destruct (Z.ltb_spec 0 (zlen block)); [|lia].
  mstep (offset_app [] block 0 eq_refl).
  rewrite Z.sub_0_r, u64_small by lia.
  unfold hpack_decode_literal_header at 1. destruct (Z.ltb_spec (zlen block) 2); [lia|].
  rewrite M_bind_assoc. by rewrite (M_bind_Fault _ _ _ _ E).
Qed.

(** C23. Prefix integers round-trip: any [uint32_t] encoded with any legal prefix into a buffer
    of at least six bytes is decoded from that buffer to itself, in one to six bytes. *)
Theorem hpack_integer_roundtrip v p m len :
  0 ≤ v < 2 ^ 32 → 0 ≤ p ≤ 7 → bytes_ok m → 6 ≤ len ≤ zlen m →
  ∃ n m', hpack_encode_integer v p (Some m) len = Ret (n, Some m') ∧ 1 ≤ n ≤ 6 ∧
          hpack_decode_integer (Some m') len p = Ret (Some (n, v)).
Proof.
  intros Hv Hp Hb Hlen.
  destruct (int_bytes_spec v p []) as (_ & H6 & Hib); [done..|].
  pose proof (length_int_bytes v p).
  destruct (split_at m (length (int_bytes v p))) as (old & suf & -> & Hold); [lia|].
  exists (zlen old), (int_bytes v p ++ suf).
  rewrite hpack_encode_integer_app by (done || lia). split; [done|]. split; [lia|].
  apply Forall_app in Hb as [_ Hb]. rewrite length_app in Hlen.
  destruct (split_at suf (Z.to_nat len - length old)) as (s1 & s2 & -> & Hs1); [lia|].
  destruct (hpack_decode_integer_spec p (int_bytes v p ++ s1) s2) as (r & E & _ & Hr);
    [done|apply Forall_app in Hb as [Hb _]; by apply Forall_app| |].
  { intros E0. apply (f_equal length) in E0. rewrite length_app in E0. cbn in E0. lia. }
  destruct (int_bytes_spec v p s1) as (Hval & _); [done..|].
  rewrite (Hr _ _ Hval H6 ltac:(lia)), <- app_assoc in E. rewrite Hold, <- E.
  f_equal. rewrite length_app. lia.
Qed.

(** C24. Encoding a header block writes nothing past the [output_len] bytes it is given,
    whatever the fields and on every exit, and returns -1 or a length within them (fewer than
    [2^31], so that the length is an [int]). *)
Theorem hpack_encode_metadata_safe a l m output_len :
  md_array_ok a l → Forall (fun md => strlen (key md) < 2 ^ 62 ∧ strlen (value md) < 2 ^ 62) l →
  0 ≤ output_len ≤ zlen m → output_len < 2 ^ 31 →
  ∃ r m', hpack_encode_metadata (Some a) (Some m) output_len = Ret (r, Some m') ∧
    writes_within output_len m m' ∧ -1 ≤ r ≤ output_len.
Proof.
  intros Hok Hl Hlen Hmax. unfold hpack_encode_metadata.
  pose proof Hok as (_ & _ & _ & Hc & _).
  destruct (encode_metadata_loop_safe a l (Z.to_nat (count a)) 0 output_len m 0 Hok Hl)
    as (r & m' & E & Hw & Hr); [lia..|].
  rewrite (outcome_bind_Ret _ _ _ E). by exists r, m'.
Qed.

(** The overflow test of the integer decoder misses the bits that the multiplication
    itself drops: a fifth continuation byte of 16 or more encodes an integer of at least
    [2^32], and the decoder returns its low 32 bits instead of -1. *)
Theorem hpack_decode_integer_overflow_accepted d :
  16 ≤ d < 128 →
  int_value 7 [127; 128; 128; 128; 128; d] = Some (6%nat, 127 + d * 2 ^ 28) ∧
  2 ^ 32 ≤ 127 + d * 2 ^ 28 ∧
  hpack_decode_integer (Some [127; 128; 128; 128; 128; d]) 6 7 =
    Ret (Some (6, u32 (127 + d * 2 ^ 28))).
Proof.
  intros Hd. split; [|split; [lia|]].
  - cbn -[Z.mul Z.add]. destruct (Z.ltb_spec d 128); [|lia].
    change (127 mod 2 ^ 7) with 127. change (128 mod 128) with 0.
    change (127 <? 2 ^ 7 - 1) with false. cbn -[Z.mul Z.add]. do 2 f_equal. lia.
  - set (run d := hpack_decode_integer (Some [127; 128; 128; 128; 128; d]) 6 7).
    assert (forallb (fun d => match run d with
      | Ret (Some (n, v)) => (n =? 6) && (v =? u32 (127 + d * 2 ^ 28))
      | _ => false end) (map Z.of_nat (seq 16 112)) = true) as Hall by by vm_compute.
    rewrite forallb_forall in Hall. specialize (Hall d). fold (run d).
    destruct (run d) as [[[n v]|]|]; [|exfalso; apply Bool.diff_false_true, Hall..].
    2, 3: apply in_map_iff; exists (Z.to_nat d); rewrite in_seq; lia.
    assert ((n =? 6) && (v =? u32 (127 + d * 2 ^ 28)) = true) as Heq
      by (apply Hall, in_map_iff; exists (Z.to_nat d); rewrite in_seq; lia).
    to_prop. by subst.
Qed.
End theorems.

(** [HPACK_INTEGER_MAX_BYTES] is 5, but a 32-bit integer takes up to six bytes. *)
Example int_bytes_six : length (int_bytes (2 ^ 32 - 1) 7) = 6%nat.
Proof. reflexivity. Qed.

(** After a failed decode the array's block pointer dangles: destroying the array, as a
    caller that owns it would, frees the block again. *)
Example decode_error_then_destroy :
  (r ← hpack_decode_metadata (Some [0; 1]) 2 (Some md_array_zero);
   grpc_metadata_array_destroy (r.2)) ([] : allocs) = Fault UseAfterFree.
Proof. reflexivity. Qed.

(** ** Concrete instances *)

Definition two_fields : list grpc_metadata :=
  [mk_metadata [97; 0] [98; 0] 1; mk_metadata [99; 0] [0] 0].

Lemma two_fields_small : small_fields two_fields ∧ bytes_fields two_fields.
Proof. split; repeat constructor; vm_compute; intros; discriminate. Qed.

Lemma hpack_metadata_roundtrip_witness :
  ∃ n m' a',
    hpack_encode_metadata (Some full_array) (Some (replicate 20 0)) 20 = Ret (n, Some m') ∧
    n = 9 ∧
    hpack_decode_metadata (Some m') n (Some md_array_zero) [] = Ret ((0, Some a'), []) ∧
    md_array_ok a' two_fields.
Proof.
  apply (hpack_metadata_roundtrip full_array two_fields (replicate 20 0) 20 md_array_zero).
  - exact full_array_ok.
  - exact (proj1 two_fields_small).
  - exact (proj2 two_fields_small).
  - split; vm_compute; discriminate.
  - reflexivity.
Defined.

Lemma hpack_decode_metadata_total_witness :
  ∃ r a' al',
    hpack_decode_metadata (Some [0; 200; 1; 2]) 4 (Some md_array_zero) [true; false] =
      Ret ((r, Some a'), al') ∧
    ((r = 0 ∧ ∃ l, md_array_ok a' l ∧ zlen l ≤ 4) ∨ r = -1).
Proof.
  apply hpack_decode_metadata_total.
  - repeat constructor; vm_compute; intros; discriminate.
  - split; vm_compute; discriminate.
  - reflexivity.
Defined.

Lemma huge_name : ∃ s, zlen s = 2 ^ 32 - 1 ∧ bytes_ok (s ++ []).
Proof.
  exists (replicate (Z.to_nat (2 ^ 32 - 1)) 97). rewrite app_nil_r, length_replicate. split; [lia|].
  apply Forall_replicate. split; [lia|reflexivity].
Qed.

Lemma hpack_decode_metadata_4gib_overflow_witness :
  ∃ block, zlen block = 2 ^ 32 + 6 ∧
    hpack_decode_metadata (Some block) (zlen block) (Some md_array_zero) [] = Fault OutOfBounds.
Proof.
  destruct huge_name as (s & Hs & Hb). exists (0 :: int_bytes (zlen s) 7 ++ s ++ []). split.
  - rewrite app_nil_r. cbn [length]. rewrite length_app, Hs.
    change (length (int_bytes (2 ^ 32 - 1) 7)) with 6%nat. lia.
  - exact (hpack_decode_metadata_4gib_overflow 0 s [] md_array_zero Hb Hs eq_refl).
Defined.

Lemma hpack_decode_integer_witness :
  ∃ r, hpack_decode_integer (Some ([31; 154; 10] ++ [7])) 3 5 = Ret r ∧ r = Some (3, 1337).
Proof.
  destruct (hpack_decode_integer_spec 5 [31; 154; 10] [7]) as (r & E & _ & Hr).
  - split; vm_compute; discriminate.
  - repeat constructor; vm_compute; intros; discriminate.
  - discriminate.
  - exists r. split; [exact E|]. apply (Hr 3%nat 1337); [reflexivity|lia|lia].
Defined.

Lemma hpack_integer_roundtrip_witness :
  ∃ n m', hpack_encode_integer 4294967295 7 (Some (replicate 8 0)) 8 = Ret (n, Some m') ∧
    1 ≤ n ≤ 6 ∧ hpack_decode_integer (Some m') 8 7 = Ret (Some (n, 4294967295)).
Proof.
  apply hpack_integer_roundtrip.
  - lia.
  - lia.
  - repeat constructor; vm_compute; intros; discriminate.
  - split; vm_compute; discriminate.
Defined.

Lemma hpack_encode_metadata_safe_witness :
  ∃ r m', hpack_encode_metadata (Some full_array) (Some (replicate 20 0)) 13 = Ret (r, Some m') ∧
    writes_within 13 (replicate 20 0) m' ∧ -1 ≤ r ≤ 13.
Proof.
  apply (hpack_encode_metadata_safe full_array two_fields).
  - exact full_array_ok.
  - repeat constructor; vm_compute; reflexivity.
  - split; vm_compute; discriminate.
  - reflexivity.
Defined.

Lemma hpack_decode_integer_overflow_witness :
  hpack_decode_integer (Some [127; 128; 128; 128; 128; 16]) 6 7 = Ret (Some (6, 127)).
Proof. apply (hpack_decode_integer_overflow_accepted 16). lia. Defined.
