(* ===== verification/Transport.v ===== *)
(** * HTTP/2 transport (src/src/http2_transport.c, src/src/grpc_internal.h)

    Connections with their stream table and mutexes, the frame codec, and frame input
    and output over a socket. *)

From Stdlib Require Import ZArith Lia.
From stdpp Require Import base tactics list option strings gmap.
From S2P Require Import Prelude Metadata.

#[local] Open Scope Z_scope.
#[local] Set Warnings "-clear-no-such-hyp".

(** ** Data *)

(** [http2_frame_type]. *)
Inductive http2_frame_type :=
| HTTP2_FRAME_DATA
| HTTP2_FRAME_HEADERS
| HTTP2_FRAME_PRIORITY
| HTTP2_FRAME_RST_STREAM
| HTTP2_FRAME_SETTINGS
| HTTP2_FRAME_PUSH_PROMISE
| HTTP2_FRAME_PING
| HTTP2_FRAME_GOAWAY
| HTTP2_FRAME_WINDOW_UPDATE
| HTTP2_FRAME_CONTINUATION.

Definition frame_type_code (t : http2_frame_type) : Z :=
  match t with
  | HTTP2_FRAME_DATA => 0x00
  | HTTP2_FRAME_HEADERS => 0x01
  | HTTP2_FRAME_PRIORITY => 0x02
  | HTTP2_FRAME_RST_STREAM => 0x03
  | HTTP2_FRAME_SETTINGS => 0x04
  | HTTP2_FRAME_PUSH_PROMISE => 0x05
  | HTTP2_FRAME_PING => 0x06
  | HTTP2_FRAME_GOAWAY => 0x07
  | HTTP2_FRAME_WINDOW_UPDATE => 0x08
  | HTTP2_FRAME_CONTINUATION => 0x09
  end.

(** [length] is a [uint32_t], [type] and [flags] are [uint8_t]s. *)
Record http2_frame_header := mk_frame_header {
  fh_length : Z;
  fh_type : Z;
  fh_flags : Z;
  fh_stream_id : Z
}.

#[export] Instance http2_frame_header_eq_dec : EqDecision http2_frame_header.
Proof. solve_decision. Defined.

Definition HTTP2_FRAME_HEADER_SIZE : Z := 9.
Definition HTTP2_DEFAULT_WINDOW_SIZE : Z := 65535.
Definition HTTP2_DEFAULT_MAX_FRAME_SIZE : Z := 16384.
Definition HTTP2_DEFAULT_MAX_CONCURRENT_STREAMS : Z := 100.
Definition GRPC_STATUS_OK : Z := 0.

(** [http2_stream]: [s_conn] tells whether the back pointer is set, [s_call] is the
    identity of the call the stream belongs to. *)
Record http2_stream := mk_stream {
  s_id : Z;
  s_conn : bool;
  s_call : option positive;
  headers_sent : bool;
  end_stream_sent : bool;
  end_stream_received : bool;
  initial_metadata : grpc_metadata_array;
  trailing_metadata : grpc_metadata_array;
  recv_buffer : option (list Z);
  status : Z;
  status_details : option (list Z);
  s_local_window_size : Z;
  s_remote_window_size : Z
}.

(** [http2_connection]: a mutex is [true] while it is held; [streams] lists the first
    [streams_count] pointers of the array. *)
Record http2_connection := mk_connection {
  socket_fd : Z;
  ssl_ctx : option positive;
  ssl : option positive;
  is_client : bool;
  next_stream_id : Z;
  write_mutex : bool;
  streams_mutex : bool;
  streams : list positive;
  streams_capacity : Z;
  local_window_size : Z;
  remote_window_size : Z;
  max_frame_size : Z;
  max_concurrent_streams : Z
}.

(** What the process sees of the operating system: the answers of the allocator, the
    bytes the socket has taken, the answers of the coming [send] calls (past the end of
    the list a call takes the whole buffer), the bytes still to be received before the
    end of the stream, and the descriptors closed. *)
Record env := mk_env {
  answers : allocs;
  wire : list Z;
  send_results : list Z;
  inbound : list Z;
  closed : list Z
}.

(** A connection with the stream objects it owns; [brk] is the next fresh address. *)
Record world := mk_world {
  conn : http2_connection;
  heap : gmap positive http2_stream;
  brk : positive;
  ev : env
}.

Definition upd_conn (f : http2_connection → http2_connection) (w : world) : world :=
  mk_world (f (conn w)) (heap w) (brk w) (ev w).
Definition upd_heap (f : gmap positive http2_stream → gmap positive http2_stream)
    (w : world) : world := mk_world (conn w) (f (heap w)) (brk w) (ev w).
Definition upd_env (f : env → env) (w : world) : world :=
  mk_world (conn w) (heap w) (brk w) (f (ev w)).

Definition set_write_mutex (b : bool) (c : http2_connection) : http2_connection :=
  mk_connection (socket_fd c) (ssl_ctx c) (ssl c) (is_client c) (next_stream_id c)
    b (streams_mutex c) (streams c) (streams_capacity c)
    (local_window_size c) (remote_window_size c) (max_frame_size c) (max_concurrent_streams c).
Definition set_streams_mutex (b : bool) (c : http2_connection) : http2_connection :=
  mk_connection (socket_fd c) (ssl_ctx c) (ssl c) (is_client c) (next_stream_id c)
    (write_mutex c) b (streams c) (streams_capacity c)
    (local_window_size c) (remote_window_size c) (max_frame_size c) (max_concurrent_streams c).
Definition set_streams (l : list positive) (cap : Z) (c : http2_connection) : http2_connection :=
  mk_connection (socket_fd c) (ssl_ctx c) (ssl c) (is_client c) (next_stream_id c)
    (write_mutex c) (streams_mutex c) l cap
    (local_window_size c) (remote_window_size c) (max_frame_size c) (max_concurrent_streams c).
Definition set_next_stream_id (n : Z) (c : http2_connection) : http2_connection :=
  mk_connection (socket_fd c) (ssl_ctx c) (ssl c) (is_client c) n
    (write_mutex c) (streams_mutex c) (streams c) (streams_capacity c)
    (local_window_size c) (remote_window_size c) (max_frame_size c) (max_concurrent_streams c).
Definition set_windows (l r : Z) (c : http2_connection) : http2_connection :=
  mk_connection (socket_fd c) (ssl_ctx c) (ssl c) (is_client c) (next_stream_id c)
    (write_mutex c) (streams_mutex c) (streams c) (streams_capacity c)
    l r (max_frame_size c) (max_concurrent_streams c).
Definition set_limits (frame concurrent : Z) (c : http2_connection) : http2_connection :=
  mk_connection (socket_fd c) (ssl_ctx c) (ssl c) (is_client c) (next_stream_id c)
    (write_mutex c) (streams_mutex c) (streams c) (streams_capacity c)
    (local_window_size c) (remote_window_size c) frame concurrent.
Definition set_stream_windows (l r : Z) (s : http2_stream) : http2_stream :=
  mk_stream (s_id s) (s_conn s) (s_call s) (headers_sent s) (end_stream_sent s)
    (end_stream_received s) (initial_metadata s) (trailing_metadata s) (recv_buffer s)
    (status s) (status_details s) l r.
Definition set_stream_call (call : option positive) (s : http2_stream) : http2_stream :=
  mk_stream (s_id s) (s_conn s) call (headers_sent s) (end_stream_sent s)
    (end_stream_received s) (initial_metadata s) (trailing_metadata s) (recv_buffer s)
    (status s) (status_details s) (s_local_window_size s) (s_remote_window_size s).

(** ** The operating system and the mutexes *)

Definition malloc_env : M env bool :=
  zoom answers (fun al e => mk_env al (wire e) (send_results e) (inbound e) (closed e)) malloc.
Definition malloc_world : M world bool :=
  zoom ev (fun e w => upd_env (fun _ => e) w) malloc_env.

(** [send (conn->socket_fd, buf, zlen buf, 0)]: the socket takes a prefix of [buf]; the
    answer is its length, or -1. *)
Definition sys_send (buf : list Z) : M world Z := fun w =>
  let e := ev w in
  let r := match send_results e with
           | [] => zlen buf
           | r :: _ => Z.max (-1) (Z.min r (zlen buf))
           end in
  Ret (r, upd_env (fun e => mk_env (answers e) (wire e ++ take (Z.to_nat r) buf)
            (tail (send_results e)) (inbound e) (closed e)) w).

(** [recv (conn->socket_fd, buf, n, MSG_WAITALL)] returns fewer than [n] bytes only at
    the end of the stream. *)
Definition sys_recv (n : Z) : M world (list Z) := fun w =>
  let e := ev w in
  Ret (take (Z.to_nat n) (inbound e),
       upd_env (fun e => mk_env (answers e) (wire e) (send_results e)
         (drop (Z.to_nat n) (inbound e)) (closed e)) w).

Definition sys_close (fd : Z) : M world () :=
  modify (upd_env (fun e => mk_env (answers e) (wire e) (send_results e) (inbound e)
                              (fd :: closed e))).

(** [pthread_mutex_lock] on a default mutex: a thread that holds it already waits for
    itself. *)
Definition lock_write : M world () := fun w =>
  if write_mutex (conn w) then Fault Deadlock
  else Ret ((), upd_conn (set_write_mutex true) w).
Definition unlock_write : M world () := modify (upd_conn (set_write_mutex false)).
Definition lock_streams : M world () := fun w =>
  if streams_mutex (conn w) then Fault Deadlock
  else Ret ((), upd_conn (set_streams_mutex true) w).
Definition unlock_streams : M world () := modify (upd_conn (set_streams_mutex false)).

(** A stream object through its pointer. *)
Definition read_stream (s : positive) : M world http2_stream := fun w =>
  match heap w !! s with Some o => Ret (o, w) | None => Fault UseAfterFree end.
Definition write_stream (s : positive) (o : http2_stream) : M world () := fun w =>
  match heap w !! s with
  | Some _ => Ret ((), upd_heap (insert s o) w)
  | None => Fault UseAfterFree
  end.
Definition new_stream (o : http2_stream) : M world positive := fun w =>
  Ret (brk w, mk_world (conn w) (<[brk w := o]> (heap w)) (Pos.succ (brk w)) (ev w)).
Definition free_stream (s : positive) : M world () := fun w =>
  match heap w !! s with
  | Some _ => Ret ((), upd_heap (delete s) w)
  | None => Fault UseAfterFree
  end.

(** ** Connections *)

(** [http2_flow_control_init_connection] and [http2_flow_control_init_stream]
    (src/src/flow_control.c). *)
Definition http2_flow_control_init_connection (c : http2_connection) : http2_connection :=
  set_limits HTTP2_DEFAULT_MAX_FRAME_SIZE HTTP2_DEFAULT_MAX_CONCURRENT_STREAMS
    (set_windows HTTP2_DEFAULT_WINDOW_SIZE HTTP2_DEFAULT_WINDOW_SIZE c).
Definition http2_flow_control_init_stream (s : http2_stream) : http2_stream :=
  set_stream_windows HTTP2_DEFAULT_WINDOW_SIZE HTTP2_DEFAULT_WINDOW_SIZE s.

Definition http2_connection_create (is_client : bool) : M env (option http2_connection) :=
  ok ← malloc_env;
  if negb ok then mret None else
  let c := mk_connection (-1) None None is_client (if is_client then 1 else 2)
             false false [] 16 0 0 0 0 in
  streams_ok ← malloc_env;
  if negb streams_ok then mret None else
  mret (Some (http2_flow_control_init_connection c)).

(** The first nine bytes of a frame. *)
Definition encode_frame_header (h : http2_frame_header) : list Z :=
  [ Z.land (Z.shiftr (fh_length h) 16) 0xFF;
    Z.land (Z.shiftr (fh_length h) 8) 0xFF;
    Z.land (fh_length h) 0xFF;
    fh_type h;
    fh_flags h;
    Z.land (Z.shiftr (fh_stream_id h) 24) 0x7F;
    Z.land (Z.shiftr (fh_stream_id h) 16) 0xFF;
    Z.land (Z.shiftr (fh_stream_id h) 8) 0xFF;
    Z.land (fh_stream_id h) 0xFF ].

(** [payload] is the memory the payload pointer reads, [None] for a null pointer. *)
Definition http2_connection_send_frame (header : option http2_frame_header)
    (payload : option (list Z)) : M (option world) Z := nullable (-1)
  match header with
  | None => mret (-1)
  | Some header =>
      c ← gets conn;
      if socket_fd c <? 0 then mret (-1) else
      _ ← lock_write;
      sent ← sys_send (encode_frame_header header);
      if negb (sent =? HTTP2_FRAME_HEADER_SIZE) then _ ← unlock_write; mret (-1) else
      ok ← match payload with
           | Some p =>
               if 0 <? fh_length header then
                 buf ← lift (read_bytes p (fh_length header));
                 sent ← sys_send buf;
                 mret (sent =? fh_length header)
               else mret true
           | None => mret true
           end;
      _ ← unlock_write;
      mret (if ok : bool then 0 else -1)
  end.

Definition decode_frame_header (b : list Z) : option http2_frame_header :=
  match b with
  | [b0; b1; b2; b3; b4; b5; b6; b7; b8] =>
      Some (mk_frame_header
        (Z.lor (Z.lor (Z.shiftl b0 16) (Z.shiftl b1 8)) b2) b3 b4
        (Z.lor (Z.lor (Z.lor (Z.shiftl (Z.land b5 0x7F) 24) (Z.shiftl b6 16))
                      (Z.shiftl b7 8)) b8))
  | _ => None
  end.

(** [want_header] and [want_payload] tell whether the out-parameters are given (not
    null); the result [None] is -1, else the header and the payload stored ([None] for a null pointer). *)
Definition http2_connection_recv_frame (want_header want_payload : bool)
    : M (option world) (option (http2_frame_header * option (list Z))) := nullable None (
  if negb want_header then mret None else
  c ← gets conn;
  if socket_fd c <? 0 then mret None else
  bytes ← sys_recv HTTP2_FRAME_HEADER_SIZE;
  match decode_frame_header bytes with
  | None => mret None                      (* received != HTTP2_FRAME_HEADER_SIZE *)
  | Some header =>
      if (0 <? fh_length header) && want_payload then
        ok ← malloc_world;
        if negb ok then mret None else
        p ← sys_recv (fh_length header);
        if negb (zlen p =? fh_length header) then mret None
        else mret (Some (header, Some p))
      else mret (Some (header, None))
  end).

(** ** Streams *)

(** [streams[i] = streams[count - 1]; count--]. *)
Definition remove_at (i : nat) (l : list positive) : list positive :=
  match last l with
  | Some x => take (length l - 1) (<[i := x]> l)
  | None => []
  end.

(** The search of [http2_stream_destroy]: the first slot that holds [s]. *)
Fixpoint find_stream (s : positive) (l : list positive) : option nat :=
  match l with
  | [] => None
  | x :: l => if decide (x = s) then Some O else S <$> find_stream s l
  end.

Definition swap_remove (s : positive) (l : list positive) : list positive :=
  match find_stream s l with
  | Some i => remove_at i l
  | None => l
  end.

(** The growth of a full table; [false] when the new array cannot be had. *)
Definition grow_streams : M world bool :=
  c ← gets conn;
  if streams_capacity c <=? zlen (streams c) then
    ok ← malloc_world;            (* realloc *)
    if negb ok then mret false else
    _ ← modify (upd_conn (set_streams (streams c) (u64 (streams_capacity c * 2))));
    mret true
  else mret true.

Definition http2_stream_create (stream_id : Z) : M (option world) (option positive) :=
  nullable None (
  ok ← malloc_world;
  if negb ok then mret None else
  let stream := http2_flow_control_init_stream
    (mk_stream stream_id true None false false false md_array_zero md_array_zero None
       GRPC_STATUS_OK None 0 0) in
  s ← new_stream stream;
  _ ← lock_streams;
  grown ← grow_streams;
  if negb grown then
    _ ← unlock_streams;
    _ ← free_stream s;
    mret None
  else
    c ← gets conn;
    if streams_capacity c <=? zlen (streams c) then fail OutOfBounds else
    _ ← modify (upd_conn (set_streams (streams c ++ [s]) (streams_capacity c)));
    _ ← unlock_streams;
    mret (Some s)).

(** [if (a.metadata) free (a.metadata)]. *)
Definition free_metadata (a : grpc_metadata_array) : M world () :=
  match metadata a with MdFreed => fail UseAfterFree | _ => mret () end.

(** The stream is removed from the table of its connection, then freed together with
    the buffers it owns. *)
Definition http2_stream_destroy (stream : option positive) : M world () :=
  match stream with
  | None => mret ()
  | Some s =>
      o ← read_stream s;
      _ ← (if s_conn o then
             _ ← lock_streams;
             c ← gets conn;
             _ ← modify (upd_conn (set_streams (swap_remove s (streams c)) (streams_capacity c)));
             unlock_streams
           else mret ());
      _ ← free_metadata (initial_metadata o);
      _ ← free_metadata (trailing_metadata o);
      free_stream s
  end.

(** The loop of [http2_connection_destroy], [i] its index; the bound [streams_count] is
    read again at every iteration. *)
Fixpoint destroy_streams (fuel : nat) (i : nat) : M world () :=
  c ← gets conn;
  if decide (i < length (streams c))%nat then
    match fuel with
    | O => fail OutOfFuel
    | S fuel =>
        s ← of_option OutOfBounds (streams c !! i);
        _ ← http2_stream_destroy (Some s);
        destroy_streams fuel (S i)
    end
  else mret ().

(** The connection is gone afterwards: what is left is the environment, and the stream
    objects nobody freed. *)
Definition http2_connection_destroy (w : option world)
    : outcome (option (gmap positive http2_stream * env)) :=
  match w with
  | None => Ret None
  | Some w =>
      let body :=
        _ ← lock_streams;
        c ← gets conn;
        _ ← destroy_streams (length (streams c)) 0;
        _ ← unlock_streams;
        c ← gets conn;
        if 0 <=? socket_fd c then sys_close (socket_fd c) else mret () in
      match body w with
      | Ret (_, w') => Ret (Some (heap w', ev w'))
      | Fault f => Fault f
      end
  end.

(** A client connection on descriptor [fd], with nothing allocated yet. *)
Definition test_world (fd : Z) : world :=
  mk_world (mk_connection fd None None true 1 false false [] 16 65535 65535 16384 100)
    ∅ 1 (mk_env [] [] [] [] []).

Example send_ping :
  match http2_connection_send_frame (Some (mk_frame_header 2 6 1 3)) (Some [7; 8])
          (Some (test_world 5)) with
  | Ret (r, Some w) => (r, wire (ev w))
  | _ => (1, [])
  end = (0, [0; 0; 2; 6; 1; 0; 0; 0; 3; 7; 8]).
Proof. reflexivity. Qed.

(** ** The frame codec *)

(** What a [http2_frame_header] can hold. *)
Definition frame_header_ok (h : http2_frame_header) : Prop :=
  0 ≤ fh_length h < 2 ^ 32 ∧ byte_ok (fh_type h) ∧ byte_ok (fh_flags h) ∧
  0 ≤ fh_stream_id h < 2 ^ 32.

(** The header a peer reads: 24 bits of length and 31 bits of stream identifier. *)
Definition wire_header (h : http2_frame_header) : http2_frame_header :=
  mk_frame_header (fh_length h mod 2 ^ 24) (fh_type h) (fh_flags h)
    (fh_stream_id h mod 2 ^ 31).

Lemma land_ones_mod x n m : 0 ≤ n → m = Z.ones n → Z.land x m = x mod 2 ^ n.
Proof. intros Hn ->. by apply Z.land_ones. Qed.

Lemma lor_shiftl_add a b n : 0 ≤ n → 0 ≤ b < 2 ^ n → Z.lor (Z.shiftl a n) b = a * 2 ^ n + b.
Proof.
  intros Hn Hb. rewrite <- Z.shiftl_mul_pow2 by done.
  symmetry. apply Z.add_nocarry_lor.
  apply Z.bits_inj'. intros k Hk. rewrite Z.land_spec, Z.bits_0.
  destruct (Z.ltb_spec k n) as [Hlt|Hge].
  - by rewrite Z.shiftl_spec_low by done.
  - destruct (decide (b = 0)) as [->|]; [by rewrite Z.bits_0, andb_false_r|].
    rewrite (Z.bits_above_log2 b), andb_false_r; [done|lia|].
    apply Z.log2_lt_pow2; [lia|].
    assert (2 ^ n ≤ 2 ^ k) by (apply Z.pow_le_mono_r; lia). lia.
Qed.

(** Big-endian bytes put together again. *)
Lemma be_split x n : 0 ≤ n → x mod 2 ^ (n + 8) = (x / 2 ^ n mod 2 ^ 8) * 2 ^ n + x mod 2 ^ n.
Proof.
  intros Hn. rewrite Z.pow_add_r, Z.rem_mul_r by lia. lia.
Qed.

Lemma encode_frame_header_bytes h :
  encode_frame_header h =
    [ fh_length h / 2 ^ 16 mod 2 ^ 8; fh_length h / 2 ^ 8 mod 2 ^ 8; fh_length h mod 2 ^ 8;
      fh_type h; fh_flags h;
      fh_stream_id h / 2 ^ 24 mod 2 ^ 7; fh_stream_id h / 2 ^ 16 mod 2 ^ 8;
      fh_stream_id h / 2 ^ 8 mod 2 ^ 8; fh_stream_id h mod 2 ^ 8 ].
Proof.
  unfold encode_frame_header. rewrite !Z.shiftr_div_pow2 by lia.
  rewrite !(land_ones_mod _ 8 0xFF), !(land_ones_mod _ 7 0x7F) by done. done.
Qed.

Lemma decode_encode_frame_header h :
  decode_frame_header (encode_frame_header h) = Some (wire_header h).
Proof.
  rewrite encode_frame_header_bytes. unfold decode_frame_header, wire_header.
  set (L := fh_length h). set (S := fh_stream_id h).
  rewrite (land_ones_mod (S / 2 ^ 24 mod 2 ^ 7) 7 0x7F), Zmod_mod by done.
  pose proof (Z.mod_pos_bound (L / 2 ^ 8) (2 ^ 8)). pose proof (Z.mod_pos_bound L (2 ^ 8)).
  pose proof (Z.mod_pos_bound (S / 2 ^ 16) (2 ^ 8)).
  pose proof (Z.mod_pos_bound (S / 2 ^ 8) (2 ^ 8)). pose proof (Z.mod_pos_bound S (2 ^ 8)).
  pose proof (be_split L 16 ltac:(lia)) as HL1. pose proof (be_split L 8 ltac:(lia)) as HL2.
  pose proof (be_split S 16 ltac:(lia)) as HS1. pose proof (be_split S 8 ltac:(lia)) as HS2.
  change (16 + 8) with 24 in *. change (8 + 8) with 16 in *.
  assert (S mod 2 ^ 31 = (S / 2 ^ 24 mod 2 ^ 7) * 2 ^ 24 + S mod 2 ^ 24) as HS.
  { replace (2 ^ 31) with (2 ^ 24 * 2 ^ 7) by done. rewrite Z.rem_mul_r by lia. lia. }
  rewrite <- !Z.lor_assoc.
  rewrite !(lor_shiftl_add _ _ 8) by lia.
  rewrite !(lor_shiftl_add _ _ 16) by lia.
  rewrite !(lor_shiftl_add _ _ 24) by lia.
  do 2 f_equal; [rewrite HL1, HL2 | rewrite HS, HS1, HS2]; lia.
Qed.

(** ** Frame output *)

(** What a frame is on the wire. *)
Definition frame_bytes (h : http2_frame_header) (payload : option (list Z)) : list Z :=
  encode_frame_header h ++
  match payload with Some p => take (Z.to_nat (fh_length h)) p | None => [] end.

(** The payload memory holds the length the header announces. *)
Definition payload_ok (h : http2_frame_header) (payload : option (list Z)) : Prop :=
  0 ≤ fh_length h ∧ match payload with Some p => fh_length h ≤ zlen p | None => True end.

(** The world after the socket has taken [sent]. *)
Definition wire_app (sent : list Z) (rest : list Z) : world → world :=
  upd_env (fun e => mk_env (answers e) (wire e ++ sent) rest (inbound e) (closed e)).

Lemma sys_send_spec buf w :
  ∃ r rest, sys_send buf w = Ret (r, wire_app (take (Z.to_nat r) buf) rest w) ∧
    -1 ≤ r ≤ zlen buf ∧ (send_results (ev w) = [] → r = zlen buf ∧ rest = []).
Proof.
  unfold sys_send. do 2 eexists. split; [done|].
  destruct (send_results (ev w)) as [|r l]; (split; [lia|done]).
Qed.

Lemma wire_app_app a b r1 r2 w :
  wire_app b r2 (wire_app a r1 w) = wire_app (a ++ b) r2 w.
Proof. unfold wire_app, upd_env. cbn. by rewrite <- app_assoc. Qed.

Lemma unlock_lock_write w :
  write_mutex (conn w) = false →
  upd_conn (set_write_mutex false) (upd_conn (set_write_mutex true) w) = w.
Proof. destruct w as [c ???], c; cbn. by intros ->. Qed.

Lemma upd_conn_wire_app f a r w :
  upd_conn f (wire_app a r w) = wire_app a r (upd_conn f w).
Proof. done. Qed.

Lemma length_encode_frame_header h : zlen (encode_frame_header h) = 9.
Proof. done. Qed.

Lemma take_neq_full {A} (l : list A) n : (n < length l)%nat → take n l ≠ l.
Proof. intros H E. apply (f_equal length) in E. rewrite length_take in E. lia. Qed.

(** The whole of [http2_connection_send_frame]: it never blocks or faults, releases the
    mutex, and leaves on the wire a prefix of the frame which is the frame itself
    exactly when the result is 0. *)
Lemma send_frame_run h payload w :
  0 ≤ socket_fd (conn w) → write_mutex (conn w) = false → payload_ok h payload →
  ∃ r sent rest,
    http2_connection_send_frame (Some h) payload (Some w) =
      Ret (r, Some (wire_app sent rest w)) ∧
    sent `prefix_of` frame_bytes h payload ∧
    (r = 0 ∨ r = -1) ∧ (r = 0 ↔ sent = frame_bytes h payload) ∧
    (send_results (ev w) = [] → r = 0 ∧ rest = []).
Proof.
  intros Hfd Hm [Hl Hp]. unfold http2_connection_send_frame, nullable.
  mstep eq_refl.
  destruct (Z.ltb_spec (socket_fd (conn w)) 0); [lia|].
  unfold lock_write at 1. unfold mbind at 1, M_bind at 1. rewrite Hm.
  destruct (sys_send_spec (encode_frame_header h) (upd_conn (set_write_mutex true) w))
    as (r & rest & E & Hr & Hd).
  mstep E. rewrite length_encode_frame_header in *.
  unfold HTTP2_FRAME_HEADER_SIZE. destruct (Z.eqb_spec r 9) as [->|Hne]; cbn [negb].
  2:{ exists (-1), (take (Z.to_nat r) (encode_frame_header h)), rest.
      unfold unlock_write. rewrite M_bind_modify, upd_conn_wire_app, unlock_lock_write by done.
      split_and!; [done| |auto| |].
      - unfold frame_bytes. etrans; [|by apply prefix_app_r]. apply prefix_take.
      - split; [done|]. intros E'. exfalso. apply (f_equal length) in E'. 
        unfold frame_bytes in E'. rewrite length_take, length_app in E'.
        pose proof (length_encode_frame_header h). lia.
      - intros Hn. destruct (Hd Hn). lia. }
  replace (take (Z.to_nat 9) (encode_frame_header h)) with (encode_frame_header h) by done.
  set (w1 := wire_app _ _ _).
  destruct payload as [p|]; [destruct (Z.ltb_spec 0 (fh_length h))|].
  2,3: exists 0, (encode_frame_header h), rest; rewrite M_bind_mret;
    unfold unlock_write; rewrite M_bind_modify;
    subst w1; rewrite upd_conn_wire_app, unlock_lock_write by done;
    unfold frame_bytes;
    try replace (Z.to_nat (fh_length h)) with O by lia;
    rewrite ?take_0, ?app_nil_r; split_and!; [done|done|auto|done|by intros []%Hd].
  unfold read_bytes. destruct (Z.ltb_spec (fh_length h) 0), (Z.ltb_spec (zlen p) (fh_length h));
    try lia. cbn [orb].
  set (buf := take (Z.to_nat (fh_length h)) p).
  assert (zlen buf = fh_length h) as Hbuf by (subst buf; rewrite length_take; lia).
  destruct (sys_send_spec buf w1) as (r2 & rest2 & E2 & Hr2 & Hd2).
  unfold mbind, M_bind. cbn [lift]. rewrite E2. unfold unlock_write, modify, mret, M_ret.
  subst w1. rewrite wire_app_app, upd_conn_wire_app, unlock_lock_write by done.
  set (ok := r2 =? fh_length h).
  exists (if ok then 0 else -1), (encode_frame_header h ++ take (Z.to_nat r2) buf), rest2.
  split_and!; [done| |destruct ok; auto| |].
  - unfold frame_bytes. fold buf. apply prefix_app, prefix_take.
  - unfold frame_bytes. fold buf. subst ok. destruct (Z.eqb_spec r2 (fh_length h)).
    + split; [intros _|done]. f_equal. apply take_ge. lia.
    + split; [done|]. intros E'%app_inv_head. apply take_neq_full in E'; [done|]. lia.
  - intros Hn. destruct (Hd Hn) as [_ ->]. destruct (Hd2 eq_refl) as [-> ->].
    subst ok. rewrite Hbuf, Z.eqb_refl. done.
Qed.

(** ** Frame input, and sequences of frames *)

(** The receiver's world after [n] bytes of payload and [k] calls to the allocator. *)
Definition received (al : allocs) (rest : list Z) : world → world :=
  upd_env (fun e => mk_env al (wire e) (send_results e) rest (closed e)).

(** A frame whose payload is the one its header announces. *)
Definition frame_ok (f : http2_frame_header * option (list Z)) : Prop :=
  let h := f.1 in
  frame_header_ok h ∧ fh_length h < 2 ^ 24 ∧
  match f.2 with Some p => fh_length h ≤ zlen p | None => fh_length h = 0 end.

(** What the peer gets for it. *)
Definition wire_frame (f : http2_frame_header * option (list Z))
    : http2_frame_header * option (list Z) :=
  (wire_header f.1,
   match f.2 with
   | Some p => if 0 <? fh_length f.1 then Some (take (Z.to_nat (fh_length f.1)) p) else None
   | None => None
   end).

Lemma sys_recv_app n bs tl w :
  n = zlen bs → inbound (ev w) = bs ++ tl →
  sys_recv n w = Ret (bs, received (answers (ev w)) tl w).
Proof.
  intros -> E. unfold sys_recv, received, upd_env. cbn.
  by rewrite E, Nat2Z.id, take_app_length, drop_app_length.
Qed.

Lemma received_received a b l r w : received a l (received b r w) = received a l w.
Proof. done. Qed.

(** One frame received from a stream that starts with it. *)
Lemma recv_frame_run f tl w :
  0 ≤ socket_fd (conn w) → frame_ok f → answers (ev w) = [] →
  inbound (ev w) = frame_bytes f.1 f.2 ++ tl →
  http2_connection_recv_frame true true (Some w) =
    Ret (Some (wire_frame f), Some (received [] tl w)).
Proof.
  destruct f as [h p]. cbn [fst snd]. intros Hfd [Hh [Hl Hp]] Hal Hin. cbn [fst snd] in *.
  destruct Hh as [HL _].
  unfold http2_connection_recv_frame, nullable. cbn [negb].
  rewrite M_bind_gets. destruct (Z.ltb_spec (socket_fd (conn w)) 0); [lia|].
  unfold frame_bytes in Hin. rewrite <- app_assoc in Hin.
  mstep (sys_recv_app HTTP2_FRAME_HEADER_SIZE
    (encode_frame_header h) _ _ eq_refl Hin).
  rewrite decode_encode_frame_header. rewrite andb_true_r. unfold wire_frame. cbn [fst snd].
  assert (fh_length (wire_header h) = fh_length h) as ->
    by (cbn; apply Z.mod_small; lia).
  destruct (Z.ltb_spec 0 (fh_length h)).
  2:{ assert (fh_length h = 0) as -> by lia. rewrite Hal. cbn [Z.to_nat take].
      by destruct p. }
  destruct p as [p|]; [|lia].
  rewrite Hal.
  rewrite (M_bind_Ret malloc_world _ _ true (received [] (take (Z.to_nat (fh_length h)) p ++ tl) w))
    by done. cbn [negb].
  assert (zlen (take (Z.to_nat (fh_length h)) p) = fh_length h) as Hlen
    by (rewrite length_take; lia).
  set (buf := take (Z.to_nat (fh_length h)) p) in *.
  mstep (sys_recv_app (fh_length h) buf tl
    (received [] (buf ++ tl) w) (eq_sym Hlen) eq_refl).
  rewrite Hlen, Z.eqb_refl. done.
Qed.

(** A sender that stops at the first failure, and a receiver of [n] frames. *)
Fixpoint send_frames (fs : list (http2_frame_header * option (list Z))) : M (option world) Z :=
  match fs with
  | [] => mret 0
  | (h, p) :: fs =>
      r ← http2_connection_send_frame (Some h) p;
      if negb (r =? 0) then mret r else send_frames fs
  end.

Fixpoint recv_frames (n : nat) : M (option world) (list (http2_frame_header * option (list Z))) :=
  match n with
  | O => mret []
  | S n =>
      f ← http2_connection_recv_frame true true;
      match f with
      | None => mret []
      | Some f => fs ← recv_frames n; mret (f :: fs)
      end
  end.

Lemma frame_ok_payload h p : frame_ok (h, p) → payload_ok h p.
Proof. intros [[? _] [? ?]]. cbn in *. split; [lia|]. by destruct p. Qed.

Lemma send_frames_run fs w :
  0 ≤ socket_fd (conn w) → write_mutex (conn w) = false → send_results (ev w) = [] →
  Forall frame_ok fs →
  send_frames fs (Some w) =
    Ret (0, Some (wire_app (concat (map (λ f, frame_bytes f.1 f.2) fs)) [] w)).
Proof.
  intros Hfd Hm Hs Hf. revert w Hfd Hm Hs.
  induction Hf as [|[h p] fs Hh Hf IH]; intros w Hfd Hm Hs; cbn [send_frames].
  - unfold mret, M_ret. do 3 f_equal. cbn. unfold wire_app, upd_env.
    destruct w as [c hp b [al wi sr inb cl]]. cbn in *. by rewrite Hs, app_nil_r.
  - destruct (send_frame_run h p w Hfd Hm (frame_ok_payload _ _ Hh))
      as (r & sent & rest & E & _ & _ & Hr & Hd).
    destruct (Hd Hs) as [-> ->]. mstep E. cbn [Z.eqb negb].
    rewrite (proj1 Hr eq_refl), IH by done. by rewrite wire_app_app.
Qed.

Lemma recv_frames_run fs tl w :
  0 ≤ socket_fd (conn w) → answers (ev w) = [] → Forall frame_ok fs →
  inbound (ev w) = concat (map (λ f, frame_bytes f.1 f.2) fs) ++ tl →
  recv_frames (length fs) (Some w) = Ret (map wire_frame fs, Some (received [] tl w)).
Proof.
  intros Hfd Hal Hf. revert w Hfd Hal.
  induction Hf as [|f fs Hh Hf IH]; intros w Hfd Hal Hin; cbn [recv_frames length map].
  - unfold mret, M_ret. do 2 f_equal. unfold received, upd_env.
    destruct w as [c hp b [al wi sr inb cl]]. cbn in *. by subst.
  - cbn [map concat] in Hin. rewrite <- app_assoc in Hin.
    mstep (recv_frame_run f _ _ Hfd Hh Hal Hin).
    set (rest := concat _ ++ tl).
    mstep (IH (received [] rest w) Hfd eq_refl eq_refl).
    by rewrite received_received.
Qed.

(** ** The stream table *)

Section swap_remove.
Implicit Types (s x : positive) (l : list positive).

Lemma remove_at_perm i l x : l !! i = Some x → x :: remove_at i l ≡ₚ l.
Proof.
  intros Hx. unfold remove_at. pose proof (lookup_lt_Some _ _ _ Hx).
  destruct l as [|y l _] using rev_ind; [done|].
  rewrite last_snoc, length_app, Nat.add_sub.
  destruct (decide (i = length l)) as [->|].
  - rewrite lookup_app_r, Nat.sub_diag in Hx by lia. injection Hx as <-.
    rewrite insert_app_r_alt, Nat.sub_diag, take_app_length by lia. apply Permutation_cons_append.
  - rewrite length_app in H. cbn in H. rewrite lookup_app_l in Hx by lia.
    rewrite insert_app_l, take_app_le by (rewrite ?length_insert; lia).
    rewrite take_ge by (rewrite length_insert; lia).
    rewrite insert_take_drop by lia.
    rewrite <- (take_drop_middle l i x Hx) at 3.
    rewrite <- app_assoc. cbn. rewrite <- (Permutation_cons_append (drop _ _) y).
    by rewrite <- !Permutation_middle.
Qed.

Lemma find_stream_Some s l i : find_stream s l = Some i → l !! i = Some s.
Proof.
  revert i. induction l as [|x l IH]; intros i; cbn; [done|].
  case_decide; subst; [by intros [= <-]|].
  destruct (find_stream s l); cbn; [intros [= <-]; by apply IH|done].
Qed.

Lemma find_stream_None s l : find_stream s l = None → s ∉ l.
Proof.
  induction l as [|x l IH]; cbn; [by intros _ ?%elem_of_nil|].
  case_decide; [done|]. destruct (find_stream s l); [done|].
  intros _ [->|Hin]%elem_of_cons; [done|]. by apply IH.
Qed.

Lemma swap_remove_perm s l : s ∈ l → s :: swap_remove s l ≡ₚ l.
Proof.
  intros Hin. unfold swap_remove. destruct (find_stream s l) as [i|] eqn:E.
  - by apply remove_at_perm, find_stream_Some.
  - by apply find_stream_None in E.
Qed.
End swap_remove.

Definition stream_ok (o : http2_stream) : Prop :=
  s_conn o = true ∧ metadata (initial_metadata o) ≠ MdFreed ∧
  metadata (trailing_metadata o) ≠ MdFreed.

(** The invariant of a connection between two operations: the table lists each stream
    object exactly once, it fits its array, and no mutex is held. *)
Record conn_ok (w : world) : Prop := {
  ok_nodup : NoDup (streams (conn w));
  ok_listed : ∀ s, s ∈ streams (conn w) ↔ is_Some (heap w !! s);
  ok_streams : ∀ s o, heap w !! s = Some o → stream_ok o;
  ok_fits : zlen (streams (conn w)) ≤ streams_capacity (conn w);
  ok_capacity : 0 < streams_capacity (conn w);
  ok_fresh : ∀ s, is_Some (heap w !! s) → (s < brk w)%positive;
  ok_write_mutex : write_mutex (conn w) = false;
  ok_streams_mutex : streams_mutex (conn w) = false
}.

(** The stream [http2_stream_create] makes. *)
Definition fresh_stream (stream_id : Z) : http2_stream :=
  mk_stream stream_id true None false false false md_array_zero md_array_zero None
    GRPC_STATUS_OK None HTTP2_DEFAULT_WINDOW_SIZE HTTP2_DEFAULT_WINDOW_SIZE.

Definition set_answers (al : allocs) : world → world :=
  upd_env (fun e => mk_env al (wire e) (send_results e) (inbound e) (closed e)).

(** A call to the allocator; a null pointer is an answer the environment holds. *)
Lemma malloc_world_run w :
  ∃ ok al', malloc_world w = Ret (ok, set_answers al' w) ∧
    (ok = false → false ∈ answers (ev w)) ∧ (∀ b, b ∈ al' → b ∈ answers (ev w)).
Proof.
  unfold malloc_world, malloc_env, zoom, malloc.
  destruct (answers (ev w)) as [|b al] eqn:E.
  - exists true, []. split; [done|]. split; [done|set_solver].
  - exists b, al. split; [done|]. split; [intros ->|intros]; set_solver.
Qed.

Lemma lock_streams_run w :
  streams_mutex (conn w) = false → lock_streams w = Ret ((), upd_conn (set_streams_mutex true) w).
Proof. unfold lock_streams. by intros ->. Qed.

(** The growth of the table, under its mutex. *)
Lemma conn_ok_answers al w : conn_ok w → conn_ok (set_answers al w).
Proof. by intros []. Qed.

(** Adding a fresh stream at the end of a table that has room for it. *)
Lemma conn_ok_add w o cap :
  conn_ok w → stream_ok o → zlen (streams (conn w)) + 1 ≤ cap →
  conn_ok (upd_conn (set_streams (streams (conn w) ++ [brk w]) cap)
             (mk_world (conn w) (<[brk w := o]> (heap w)) (Pos.succ (brk w)) (ev w))).
Proof.
  intros [Hnd Hl Hs Hf Hc Hfr Hw Hm] Ho Hcap.
  assert (heap w !! brk w = None) as Hnew.
  { apply eq_None_not_Some. intros H%Hfr. lia. }
  assert (brk w ∉ streams (conn w)) as Hni.
  { rewrite Hl, Hnew. by intros []. }
  split; cbn; [| | |rewrite length_app; cbn; lia|lia| |done|done].
  - apply NoDup_app. split_and!; [done| |by apply NoDup_singleton].
    intros x Hx ->%list_elem_of_singleton. done.
  - intros s. rewrite elem_of_app, list_elem_of_singleton, Hl, lookup_insert_is_Some.
    destruct (decide (s = brk w)); naive_solver.
  - intros s o'. rewrite lookup_insert_Some. intros [[<- <-]|[_ ?]]; [done|by eapply Hs].
  - intros s. rewrite lookup_insert_is_Some. intros [<-|[_ H%Hfr]]; lia.
Qed.

(** The growth leaves room for one more pointer, and the table as it was. *)
Lemma grow_streams_run w :
  zlen (streams (conn w)) ≤ streams_capacity (conn w) < 2 ^ 60 → 0 < streams_capacity (conn w) →
  ∃ ok al cap, grow_streams w =
      Ret (ok, upd_conn (set_streams (streams (conn w)) cap) (set_answers al w)) ∧
    (ok = true → zlen (streams (conn w)) + 1 ≤ cap) ∧
    (ok = false → cap = streams_capacity (conn w) ∧ false ∈ answers (ev w)).
Proof.
  intros Hcap Hpos. unfold grow_streams. rewrite M_bind_gets.
  destruct (Z.leb_spec (streams_capacity (conn w)) (zlen (streams (conn w)))).
  - destruct (malloc_world_run w) as (ok & al & E & Hf & _). mstep E.
    destruct ok; cbn [negb].
    + rewrite M_bind_modify. do 3 eexists. split; [done|]. split; [|done].
      intros _. rewrite u64_small; lia.
    + exists false, al, (streams_capacity (conn w)). split.
      { destruct w as [[] ???]. done. }
      split; [done|]. intros _. auto.
  - exists true, (answers (ev w)), (streams_capacity (conn w)). split.
    { destruct w as [[] ?? []]. done. }
    split; [lia|done].
Qed.

(** The part of a connection that stream creation and destruction leave alone. *)
Definition same_but_table (w w' : world) : Prop :=
  conn w' = set_streams (streams (conn w')) (streams_capacity (conn w')) (conn w).

Lemma same_but_table_intro w l cap h b e :
  streams_mutex (conn w) = false →
  same_but_table w (upd_conn (set_streams_mutex false) (mk_world
    (set_streams l cap (set_streams_mutex true (conn w))) h b e)).
Proof. destruct w as [[] ???]. unfold same_but_table. cbn. by intros ->. Qed.

Lemma same_but_table_refl w e : same_but_table w (upd_env e w).
Proof. by destruct w as [[] ???]. Qed.

(** [http2_stream_create] on a connection: the new stream is listed last, or nothing has
    changed because the allocator said no. *)
Lemma http2_stream_create_run id w :
  conn_ok w → streams_capacity (conn w) < 2 ^ 60 →
  ∃ r w', http2_stream_create id (Some w) = Ret (r, Some w') ∧ conn_ok w' ∧
    same_but_table w w' ∧
    match r with
    | Some s => heap w !! s = None ∧ heap w' = <[s := fresh_stream id]> (heap w) ∧
        streams (conn w') = streams (conn w) ++ [s]
    | None => heap w' = heap w ∧ streams (conn w') = streams (conn w) ∧
        false ∈ answers (ev w)
    end.
Proof.
  intros Hok Hcap. unfold http2_stream_create, nullable.
  destruct (malloc_world_run w) as (ok & al & E & Hf & Hin).
  mstep E. destruct ok; cbn [negb].
  2:{ exists None, (set_answers al w). split; [done|]. split; [by apply conn_ok_answers|].
      split; [apply same_but_table_refl|]. split_and!; [done|done|by apply Hf]. }
  change (http2_flow_control_init_stream _) with (fresh_stream id).
  set (w2 := mk_world (conn w) (<[brk w := fresh_stream id]> (heap w)) (Pos.succ (brk w))
               (ev (set_answers al w))).
  rewrite (M_bind_Ret (new_stream _) _ (set_answers al w) (brk w) w2 eq_refl).
  mstep (lock_streams_run w2 (ok_streams_mutex _ Hok)).
  set (w3 := upd_conn _ w2).
  assert (heap w !! brk w = None) as Hn.
  { apply eq_None_not_Some. intros H%(ok_fresh _ Hok). lia. }
  pose proof (ok_fits _ Hok). pose proof (ok_capacity _ Hok).
  destruct (grow_streams_run w3 (conj H Hcap) H0) as (ok & al2 & cap & E2 & Hroom & Hno).
  mstep E2. destruct ok; cbn [negb].
  - specialize (Hroom eq_refl).
    change (streams (conn w3)) with (streams (conn w)) in *.
    pose proof (conn_ok_add (set_answers al2 w) (fresh_stream id) cap
      (conn_ok_answers al2 w Hok) ltac:(done) Hroom) as Hadd.
    rewrite M_bind_gets. cbn [conn streams streams_capacity upd_conn set_streams].
    destruct (Z.leb_spec cap (zlen (streams (conn w)))); [lia|].
    rewrite M_bind_modify. unfold unlock_streams. rewrite M_bind_modify.
    do 2 eexists. split; [done|]. split; [by destruct Hadd|].
    split; [apply same_but_table_intro, (ok_streams_mutex _ Hok)|done].
  - destruct (Hno eq_refl) as [-> Hf2]. unfold unlock_streams. rewrite M_bind_modify.
    do 2 eexists. split.
    { unfold free_stream, mbind, M_bind. cbn. by rewrite lookup_insert_eq. }
    assert (delete (brk w) (<[brk w:=fresh_stream id]> (heap w)) = heap w) as Hdel
      by (by rewrite delete_insert_eq, delete_id).
    split; [|split; [apply (same_but_table_intro w), (ok_streams_mutex _ Hok)
      |split_and!; [done|done|by apply Hin]]].
    destruct Hok; split; try done; cbn; rewrite Hdel; try done.
    intros s Hs. pose proof (ok_fresh0 s Hs). lia.
Qed.

Lemma free_metadata_run a w : metadata a ≠ MdFreed → free_metadata a w = Ret ((), w).
Proof. unfold free_metadata. by destruct (metadata a). Qed.

(** [http2_stream_destroy] of a stream the connection has. *)
Lemma http2_stream_destroy_run s w :
  conn_ok w → is_Some (heap w !! s) →
  ∃ w', http2_stream_destroy (Some s) w = Ret ((), w') ∧ conn_ok w' ∧
    heap w' = delete s (heap w) ∧ s :: streams (conn w') ≡ₚ streams (conn w) ∧
    same_but_table w w'.
Proof.
  intros Hok [o Ho]. pose proof (proj2 (ok_listed _ Hok s) (mk_is_Some _ _ Ho)) as Hin.
  pose proof (swap_remove_perm s _ Hin) as Hperm.
  destruct (ok_streams _ Hok s o Ho) as (Hc & Hm1 & Hm2).
  unfold http2_stream_destroy.
  assert (read_stream s w = Ret (o, w)) as E by (unfold read_stream; by rewrite Ho).
  mstep E. rewrite Hc.
  set (w1 := upd_conn (set_streams (swap_remove s (streams (conn w))) (streams_capacity (conn w))) w).
  rewrite (M_bind_Ret _ _ w () w1).
  2:{ mstep (lock_streams_run w (ok_streams_mutex _ Hok)).
      rewrite M_bind_gets, M_bind_modify. unfold unlock_streams, modify, w1, upd_conn. cbn.
      do 3 f_equal. pose proof (ok_streams_mutex _ Hok). destruct w as [[] ???]. cbn in *. by subst. }
  mstep (free_metadata_run _ _ Hm1).
  mstep (free_metadata_run _ _ Hm2).
  unfold free_stream. cbn [heap w1 upd_conn]. rewrite Ho.
  eexists. split; [done|]. split; [|by destruct w as [[] ???]].
  pose proof (ok_nodup _ Hok) as Hnd. rewrite <- Hperm in Hnd. apply NoDup_cons in Hnd as [Hni Hnd].
  destruct Hok. split; try done; cbn.
  - intros x. destruct (decide (x = s)) as [->|Hne].
    + rewrite lookup_delete_eq. split; [done|by intros []].
    + rewrite lookup_delete_ne by done. rewrite <- ok_listed0.
      assert (x ∈ s :: swap_remove s (streams (conn w)) ↔ x ∈ streams (conn w)) as <-
        by (by rewrite Hperm).
      set_solver.
  - intros x o' [_ Hx]%lookup_delete_Some. by eapply ok_streams0.
  - apply Permutation_length in Hperm. cbn in Hperm. lia.
  - intros x [o' [_ Hx]%lookup_delete_Some]. by apply ok_fresh0.
Qed.

Lemma destroy_streams_nil n i w :
  streams (conn w) = [] → destroy_streams n i w = Ret ((), w).
Proof.
  intros E. destruct n; cbn [destroy_streams]; rewrite M_bind_gets, E; by case_decide; [cbn in *; lia|].
Qed.

(** What is left of an environment once the connection's socket is closed. *)
Definition closed_env (w : world) : env :=
  if 0 <=? socket_fd (conn w)
  then mk_env (answers (ev w)) (wire (ev w)) (send_results (ev w)) (inbound (ev w))
         (socket_fd (conn w) :: closed (ev w))
  else ev w.

(** A connection without streams goes away completely. *)
Lemma connection_destroy_empty w :
  conn_ok w → streams (conn w) = [] →
  http2_connection_destroy (Some w) = Ret (Some (∅, closed_env w)).
Proof.
  intros Hok E. unfold http2_connection_destroy.
  mstep (lock_streams_run w (ok_streams_mutex _ Hok)).
  rewrite M_bind_gets. cbn [upd_conn conn set_streams_mutex streams].
  set (w1 := upd_conn _ w). assert (streams (conn w1) = []) as Hs by done.
  assert (heap w = ∅) as Hh.
  { apply map_empty. intros i. apply eq_None_not_Some. rewrite <- (ok_listed _ Hok), E.
    by intros ?%elem_of_nil. }
  mstep (destroy_streams_nil _ 0 w1 Hs).
  unfold unlock_streams, closed_env. rewrite M_bind_modify, M_bind_gets. cbn.
  destruct (0 <=? socket_fd (conn w)); cbn; by rewrite Hh.
Qed.

Lemma connection_destroy_deadlock w :
  conn_ok w → streams (conn w) ≠ [] → http2_connection_destroy (Some w) = Fault Deadlock.
Proof.
  intros Hok E.
  unfold http2_connection_destroy.
  mstep (lock_streams_run w (ok_streams_mutex _ Hok)).
  rewrite M_bind_gets. cbn [upd_conn conn set_streams_mutex streams].
  set (w1 := upd_conn _ w). assert (streams (conn w1) = streams (conn w)) as Hs by done.
  destruct (streams (conn w)) as [|s l] eqn:El; [done|].
  assert (is_Some (heap w !! s)) as [o Ho] by (apply (ok_listed _ Hok); rewrite El; left).
  cbn [length destroy_streams].
  rewrite (M_bind_Fault _ _ _ Deadlock); [done|].
  rewrite M_bind_gets, Hs.
  destruct (decide (0 < length (s :: l))%nat); [|cbn in *; lia].
  rewrite (M_bind_Ret _ _ _ s w1) by done.
  rewrite (M_bind_Fault _ _ _ Deadlock); [done|].
  unfold http2_stream_destroy.
  rewrite (M_bind_Ret _ _ _ o w1) by (unfold read_stream; cbn; by rewrite Ho).
  destruct (ok_streams _ Hok s o Ho) as (-> & _).
  rewrite (M_bind_Fault _ _ _ Deadlock); [done|].
  by rewrite (M_bind_Fault _ _ _ Deadlock).
Qed.

(** Destroying a well-formed connection closes its socket and frees it when it has no
    stream, and deadlocks when it has one: the loop over the streams holds the mutex that the
    destruction of a stream locks. *)
Theorem http2_connection_destroy_spec w :
  conn_ok w →
  http2_connection_destroy (Some w) =
    if decide (streams (conn w) = []) then Ret (Some (∅, closed_env w)) else Fault Deadlock.
Proof.
  intros Hok. case_decide as E; [by apply connection_destroy_empty|by apply connection_destroy_deadlock].
Qed.

Lemma wire_app_nil w : wire_app [] (send_results (ev w)) w = w.
Proof. destruct w as [c h b []]. unfold wire_app, upd_env. cbn. by rewrite app_nil_r. Qed.

(** [http2_connection_send_frame] on every branch: a null pointer gives -1 and no effect;
    otherwise the bytes on the wire are a prefix of the frame's bytes, the result is 0 exactly
    when the socket is open and the frame went out whole, a closed socket sends nothing, and
    the mutex is released. *)
Theorem http2_connection_send_frame_spec cw header payload :
  (∀ w h, cw = Some w → header = Some h → write_mutex (conn w) = false ∧ payload_ok h payload) →
  ∃ r cw', http2_connection_send_frame header payload cw = Ret (r, cw') ∧
    (r = 0 ∨ r = -1) ∧
    match cw, header with
    | Some w, Some h =>
        ∃ sent rest, cw' = Some (wire_app sent rest w) ∧
          sent `prefix_of` frame_bytes h payload ∧
          (r = 0 ↔ 0 ≤ socket_fd (conn w) ∧ sent = frame_bytes h payload) ∧
          (socket_fd (conn w) < 0 → sent = [])
    | _, _ => r = -1 ∧ cw' = cw
    end.
Proof.
  intros H. destruct cw as [w|]; [|by eexists _, _; eauto].
  destruct header as [h|]; [|by eexists _, _; eauto].
  destruct (H w h eq_refl eq_refl) as [Hm Hp].
  destruct (decide (0 ≤ socket_fd (conn w))) as [Hfd|Hfd].
  - destruct (send_frame_run h payload w Hfd Hm Hp) as (r & sent & rest & E & Hpre & Hr & Hz & _).
    exists r, (Some (wire_app sent rest w)). split_and!; [done..|].
    exists sent, rest. split_and!; [done|done|tauto|lia].
  - exists (-1), (Some w). split_and!; [|by right|].
    + unfold http2_connection_send_frame, nullable. rewrite M_bind_gets.
      by destruct (Z.ltb_spec (socket_fd (conn w)) 0); [|lia].
    + exists [], (send_results (ev w)). rewrite wire_app_nil.
      split_and!; [done|apply prefix_nil|split; [done|lia]|done].
Qed.

Definition sender : world := test_world 5.
Definition ping : http2_frame_header * option (list Z) :=
  (mk_frame_header 2 6 1 3, Some [7; 8]).

Lemma http2_connection_send_frame_witness :
  ∃ r cw', http2_connection_send_frame (Some ping.1) ping.2 (Some sender) = Ret (r, cw') ∧ r = 0.
Proof.
  destruct (http2_connection_send_frame_spec (Some sender) (Some ping.1) ping.2)
    as (r & cw' & E & Hr & sent & rest & -> & Hpre & Hz & _).
  { intros w h [= <-] [= <-]. split; [done|]. by cbn. }
  exists r, (Some (wire_app sent rest sender)). split; [done|]. vm_compute in E. congruence.
Defined.

(** C4. A sequence of frames sent on a healthy socket arrives at a receiver of those bytes as
    the same sequence: headers with the reserved bit of the stream identifier cleared, payloads
    byte for byte, and the bytes that follow are left unread. *)
Theorem http2_frames_roundtrip fs ws :
  Forall frame_ok fs → 0 ≤ socket_fd (conn ws) → write_mutex (conn ws) = false →
  send_results (ev ws) = [] →
  ∃ bytes ws', send_frames fs (Some ws) = Ret (0, Some ws') ∧
    wire (ev ws') = wire (ev ws) ++ bytes ∧
    ∀ wr tl, 0 ≤ socket_fd (conn wr) → answers (ev wr) = [] →
      inbound (ev wr) = bytes ++ tl →
      recv_frames (length fs) (Some wr) = Ret (map wire_frame fs, Some (received [] tl wr)).
Proof.
  intros Hf Hfd Hm Hs. do 2 eexists. split; [by apply send_frames_run|]. split; [done|].
  intros wr tl Hr Ha Hin. by apply recv_frames_run.
Qed.

Lemma http2_frames_roundtrip_witness :
  ∃ bytes ws', send_frames [ping; ping] (Some sender) = Ret (0, Some ws') ∧
    wire (ev ws') = bytes ∧ length bytes = 22%nat.
Proof.
  destruct (http2_frames_roundtrip [ping; ping] sender) as (bytes & ws' & E & Hw & _);
    [repeat constructor; cbn; lia | cbn; lia | done | done |].
  exists bytes, ws'. split; [done|]. split; [done|].
  vm_compute in E. injection E as <-. cbn in Hw. by subst bytes.
Defined.

Lemma sender_ok : conn_ok sender.
Proof.
  split; cbn; try lia; try done.
  - apply NoDup_nil_2.
  - intros s. rewrite lookup_empty. split; [by intros ?%elem_of_nil|by intros []].
  - intros s [? ?]. done.
Qed.

(** C25. Creating a stream on a well-formed connection keeps it well formed: on success the
    stream is fresh and last in the table, and destroying it gives back the old heap and, up to
    order, the old table; on failure (only when an allocation failed) nothing changed. *)
Theorem http2_stream_create_destroy id w r w1 :
  conn_ok w → streams_capacity (conn w) < 2 ^ 60 →
  http2_stream_create id (Some w) = Ret (r, Some w1) →
  conn_ok w1 ∧
  match r with
  | Some s =>
      heap w !! s = None ∧ heap w1 = <[s := fresh_stream id]> (heap w) ∧
      streams (conn w1) = streams (conn w) ++ [s] ∧
      ∃ w2, http2_stream_destroy r w1 = Ret ((), w2) ∧ conn_ok w2 ∧
        heap w2 = heap w ∧ streams (conn w2) ≡ₚ streams (conn w)
  | None => heap w1 = heap w ∧ streams (conn w1) = streams (conn w) ∧ false ∈ answers (ev w)
  end.
Proof.
  intros Hok Hcap E. destruct (http2_stream_create_run id w Hok Hcap) as (r' & w1' & E' & Hok1 & _ & Hr).
  rewrite E in E'. injection E' as <- <-. split; [done|]. destruct r as [s|]; [|done].
  destruct Hr as (Hn & Hh & Hs). split_and!; [done..|].
  destruct (http2_stream_destroy_run s w1 Hok1) as (w2 & E2 & Hok2 & Hh2 & Hs2 & _).
  { rewrite Hh, lookup_insert_eq. by eexists. }
  exists w2. split_and!; [done|done| |].
  - by rewrite Hh2, Hh, delete_insert_eq, delete_id.
  - rewrite Hs, <- Permutation_cons_append in Hs2. by apply Permutation_cons_inv in Hs2.
Qed.

Definition one_stream : world :=
  mk_world (set_streams [1%positive] 16 (conn sender)) {[1%positive := fresh_stream 1]} 2 (ev sender).

Lemma one_stream_ok : conn_ok one_stream.
Proof.
  split; cbn; try lia; try done.
  - by apply NoDup_singleton.
  - intros s. rewrite list_elem_of_singleton, lookup_singleton_is_Some. naive_solver.
  - intros s o [<- <-]%lookup_singleton_Some. done.
  - intros s <-%lookup_singleton_is_Some. lia.
Qed.

Lemma http2_connection_destroy_witness :
  http2_connection_destroy (Some one_stream) = Fault Deadlock ∧
  ∃ e, http2_connection_destroy (Some sender) = Ret (Some (∅, e)) ∧ closed e = [5].
Proof.
  split; [by rewrite (http2_connection_destroy_spec one_stream one_stream_ok)|].
  eexists. split; [by rewrite (http2_connection_destroy_spec sender sender_ok)|done].
Defined.

Lemma http2_stream_create_destroy_witness :
  ∃ w1, http2_stream_create 3 (Some one_stream) = Ret (Some 2%positive, Some w1) ∧
    streams (conn w1) = [1; 2]%positive ∧
    ∃ w2, http2_stream_destroy (Some 2%positive) w1 = Ret ((), w2) ∧ heap w2 = heap one_stream.
Proof.
  pose (w1 := match http2_stream_create 3 (Some one_stream) with
              | Ret (_, Some w) => w | _ => one_stream end).
  assert (http2_stream_create 3 (Some one_stream) = Ret (Some 2%positive, Some w1)) as E
    by (vm_compute; reflexivity).
  exists w1. split; [done|].
  destruct (http2_stream_create_destroy 3 one_stream _ _ one_stream_ok eq_refl E)
    as (_ & _ & _ & Hs & w2 & E2 & _ & Hh & _).
  split; [done|]. by exists w2.
Defined.
