(* ===== verification/FlowControl.v ===== *)
(** * HTTP/2 flow control (src/src/flow_control.c)

    The windows of connections and streams: WINDOW_UPDATE frames out and in, the test
    before data is sent, and the accounting of data sent and received. *)

From Stdlib Require Import ZArith Lia.
From stdpp Require Import base tactics list option strings gmap relations.
From S2P Require Import Prelude Metadata Transport.

#[local] Open Scope Z_scope.
#[local] Set Warnings "-clear-no-such-hyp".

Definition HTTP2_WINDOW_UPDATE_THRESHOLD_PERCENT : Z := 50.

(** ** Operations *)

(** The four bytes of a WINDOW_UPDATE payload. *)
Definition encode_window_update (increment : Z) : list Z :=
  [ Z.land (Z.shiftr increment 24) 0x7F;
    Z.land (Z.shiftr increment 16) 0xFF;
    Z.land (Z.shiftr increment 8) 0xFF;
    Z.land increment 0xFF ].

Definition http2_flow_control_send_window_update (stream_id increment : Z)
    : M (option world) Z := nullable (-1) (
  if (increment =? 0) || (0x7FFFFFFF <? increment) then mret (-1) else
  let header := mk_frame_header 4 (frame_type_code HTTP2_FRAME_WINDOW_UPDATE) 0 stream_id in
  deref (http2_connection_send_frame (Some header) (Some (encode_window_update increment)))).

(** The search for a stream by its identifier. *)
Fixpoint find_stream_id (stream_id : Z) (l : list positive) : M world (option positive) :=
  match l with
  | [] => mret None
  | s :: l =>
      o ← read_stream s;
      if s_id o =? stream_id then mret (Some s) else find_stream_id stream_id l
  end.

Definition set_remote (r : Z) (c : http2_connection) : http2_connection :=
  set_windows (local_window_size c) r c.
Definition set_local (l : Z) (c : http2_connection) : http2_connection :=
  set_windows l (remote_window_size c) c.
Definition set_stream_remote (r : Z) (o : http2_stream) : http2_stream :=
  set_stream_windows (s_local_window_size o) r o.
Definition set_stream_local (l : Z) (o : http2_stream) : http2_stream :=
  set_stream_windows l (s_remote_window_size o) o.

(** [window += increment]: the sum is a [uint32_t], stored as an [int32_t]. *)
Definition window_add (window increment : Z) : Z := i32 (u32 (window + increment)).
(** [window -= data_len]: the difference is a [size_t]. *)
Definition window_sub (window data_len : Z) : Z := i32 (u64 (window - data_len)).

Definition http2_flow_control_receive_window_update (stream_id increment : Z)
    : M (option world) Z := nullable (-1) (
  if (increment =? 0) || (0x7FFFFFFF <? increment) then mret (-1) else
  if stream_id =? 0 then
    _ ← lock_write;
    c ← gets conn;
    _ ← modify (upd_conn (set_remote (window_add (remote_window_size c) increment)));
    c ← gets conn;
    if 0x7FFFFFFF <? remote_window_size c then _ ← unlock_write; mret (-1) else
    _ ← unlock_write;
    mret 0
  else
    _ ← lock_streams;
    c ← gets conn;
    stream ← find_stream_id stream_id (streams c);
    match stream with
    | Some s =>
        o ← read_stream s;
        _ ← write_stream s (set_stream_remote (window_add (s_remote_window_size o) increment) o);
        o ← read_stream s;
        if 0x7FFFFFFF <? s_remote_window_size o then _ ← unlock_streams; mret (-1) else
        _ ← unlock_streams;
        mret 0
    | None =>
        _ ← unlock_streams;
        mret 0
    end).

(** 1: can send, 0: blocked, -1: error.  [data_len] is a [size_t]. *)
Definition http2_flow_control_can_send (stream : option positive) (data_len : Z)
    : M (option world) Z := nullable (-1)
  match stream with
  | None => mret (-1)
  | Some s =>
      _ ← lock_write;
      c ← gets conn;
      let conn_window := remote_window_size c in
      _ ← unlock_write;
      o ← read_stream s;
      let stream_window := s_remote_window_size o in
      mret (if (i32 data_len <=? conn_window) && (i32 data_len <=? stream_window)
            then 1 else 0)
  end.

Definition http2_flow_control_consume_send_window (stream : option positive) (data_len : Z)
    : M (option world) Z := nullable (-1)
  match stream with
  | None => mret (-1)
  | Some s =>
      _ ← lock_write;
      c ← gets conn;
      _ ← modify (upd_conn (set_remote (window_sub (remote_window_size c) data_len)));
      _ ← unlock_write;
      o ← read_stream s;
      _ ← write_stream s (set_stream_remote (window_sub (s_remote_window_size o) data_len) o);
      mret 0
  end.

(** [threshold] and [stream_threshold]. *)
Definition window_threshold : Z :=
  HTTP2_DEFAULT_WINDOW_SIZE * HTTP2_WINDOW_UPDATE_THRESHOLD_PERCENT / 100.

(** "Send WINDOW_UPDATE if window is getting low", for the connection and for a stream. *)
Definition refill_connection : M world () :=
  c ← gets conn;
  if local_window_size c <? window_threshold then
    let increment := u32 (HTTP2_DEFAULT_WINDOW_SIZE - local_window_size c) in
    if 0 <? increment then
      _ ← deref (http2_flow_control_send_window_update 0 increment);
      modify (upd_conn (set_local HTTP2_DEFAULT_WINDOW_SIZE))
    else mret ()
  else mret ().

Definition refill_stream (s : positive) : M world () :=
  o ← read_stream s;
  if s_local_window_size o <? window_threshold then
    let increment := u32 (HTTP2_DEFAULT_WINDOW_SIZE - s_local_window_size o) in
    if 0 <? increment then
      _ ← deref (http2_flow_control_send_window_update (s_id o) increment);
      write_stream s (set_stream_local HTTP2_DEFAULT_WINDOW_SIZE o)
    else mret ()
  else mret ().

Definition http2_flow_control_consume_recv_window (stream : option positive) (data_len : Z)
    : M (option world) Z := nullable (-1)
  match stream with
  | None => mret (-1)
  | Some s =>
      if (i32 data_len <? 0) || (HTTP2_DEFAULT_WINDOW_SIZE <? i32 data_len) then mret (-1) else
      _ ← lock_write;
      c ← gets conn;
      if local_window_size c <? i32 data_len then _ ← unlock_write; mret (-1) else
      _ ← modify (upd_conn (set_local (window_sub (local_window_size c) data_len)));
      _ ← refill_connection;
      _ ← unlock_write;
      o ← read_stream s;
      if s_local_window_size o <? i32 data_len then mret (-1) else
      _ ← write_stream s (set_stream_local (window_sub (s_local_window_size o) data_len) o);
      _ ← refill_stream s;
      mret 0
  end.

Example threshold_value : window_threshold = 32767.
Proof. reflexivity. Qed.

(** ** Window arithmetic *)

Lemma window_add_small w n : - 2 ^ 31 ≤ w + n < 2 ^ 31 → window_add w n = w + n.
Proof. intros H. unfold window_add. by rewrite i32_u32, i32_small. Qed.

Lemma window_add_wraps w n :
  2 ^ 31 ≤ w + n < 2 ^ 32 → window_add w n = w + n - 2 ^ 32.
Proof. intros H. unfold window_add. rewrite i32_u32, i32_wrap_once; lia. Qed.

Lemma window_add_max w n : (0x7FFFFFFF <? window_add w n) = false.
Proof. apply Z.ltb_ge. pose proof (i32_range (u32 (w + n))). unfold window_add. lia. Qed.

Lemma window_sub_i32 w n : - 2 ^ 31 ≤ w - n < 2 ^ 31 → window_sub w n = w - n.
Proof. intros H. unfold window_sub. by rewrite i32_u64, i32_small. Qed.

Lemma lock_write_run w :
  write_mutex (conn w) = false → lock_write w = Ret ((), upd_conn (set_write_mutex true) w).
Proof. unfold lock_write. by intros ->. Qed.

Lemma read_stream_run s o w : heap w !! s = Some o → read_stream s w = Ret (o, w).
Proof. unfold read_stream. by intros ->. Qed.
Lemma write_stream_run s o o' w :
  heap w !! s = Some o → write_stream s o' w = Ret ((), upd_heap (insert s o') w).
Proof. unfold write_stream. by intros ->. Qed.

(** Releasing the mutex after an update made under it. *)
Lemma unlock_write_windows l r w :
  write_mutex (conn w) = false →
  upd_conn (set_write_mutex false) (upd_conn (set_windows l r) (upd_conn (set_write_mutex true) w))
  = upd_conn (set_windows l r) w.
Proof. destruct w as [[] ???]; cbn. by intros ->. Qed.

Lemma unlock_lock_streams w :
  streams_mutex (conn w) = false →
  upd_conn (set_streams_mutex false) (upd_conn (set_streams_mutex true) w) = w.
Proof. destruct w as [[] ???]; cbn. by intros ->. Qed.

Lemma alter_as_insert {A} (f : A → A) (m : gmap positive A) i x :
  m !! i = Some x → alter f i m = <[i := f x]> m.
Proof. intros H. rewrite <- (insert_id m i x H) at 1. apply alter_insert_eq. Qed.

(** The invariant of the table does not see windows. *)
Lemma conn_ok_windows l r w : conn_ok w → conn_ok (upd_conn (set_windows l r) w).
Proof. by intros []. Qed.

Lemma conn_ok_insert s o o' w :
  conn_ok w → heap w !! s = Some o → stream_ok o' → conn_ok (upd_heap (insert s o') w).
Proof.
  intros [] Ho Ho'. split; try done; cbn.
  - intros x. rewrite ok_listed, lookup_insert_is_Some. destruct (decide (s = x)); naive_solver.
  - intros x p. rewrite lookup_insert_Some. intros [[<- <-]|[_ ?]]; [done|by eapply ok_streams].
  - intros x. rewrite lookup_insert_is_Some. intros [<-|[_ ?]]; [apply ok_fresh; by eexists|by apply ok_fresh].
Qed.

Lemma stream_ok_windows l r o : stream_ok o → stream_ok (set_stream_windows l r o).
Proof. done. Qed.

(** ** Received WINDOW_UPDATE frames *)

(** The stream a WINDOW_UPDATE names: the first of the table with that identifier. *)
Definition has_id (stream_id : Z) (w : world) (s : positive) : bool :=
  match heap w !! s with Some o => s_id o =? stream_id | None => false end.
Definition stream_with_id (stream_id : Z) (w : world) : option positive :=
  List.find (has_id stream_id w) (streams (conn w)).

Lemma find_stream_id_run stream_id l w :
  (∀ s, s ∈ l → is_Some (heap w !! s)) →
  find_stream_id stream_id l w = Ret (List.find (has_id stream_id w) l, w).
Proof.
  induction l as [|s l IH]; intros Hl; [done|]. cbn [find_stream_id List.find].
  destruct (Hl s) as [o Ho]; [left|]. mstep (read_stream_run _ _ _ Ho).
  unfold has_id at 1. rewrite Ho. destruct (s_id o =? stream_id); [done|].
  apply IH. intros x Hx. apply Hl. by right.
Qed.

Lemma stream_with_id_Some stream_id w s :
  stream_with_id stream_id w = Some s → ∃ o, heap w !! s = Some o ∧ s_id o = stream_id.
Proof.
  intros [_ H]%find_some. unfold has_id in H. destruct (heap w !! s) as [o|]; [|done].
  exists o. split; [done|]. by apply Z.eqb_eq.
Qed.

(** The increments a WINDOW_UPDATE may carry. *)
Definition increment_ok (increment : Z) : Prop := 0 < increment ≤ 0x7FFFFFFF.

Lemma increment_test n :
  0 ≤ n → (n =? 0) || (0x7FFFFFFF <? n) = negb (bool_decide (increment_ok n)).
Proof.
  intros Hn. unfold increment_ok.
  destruct (Z.eqb_spec n 0), (Z.ltb_spec 0x7FFFFFFF n); case_bool_decide; cbn; lia || done.
Qed.

(** The world after a valid update. *)
Definition updated (stream_id increment : Z) (w : world) : world :=
  if stream_id =? 0 then
    upd_conn (set_remote (window_add (remote_window_size (conn w)) increment)) w
  else match stream_with_id stream_id w with
       | Some s => upd_heap (alter (λ o, set_stream_remote
                     (window_add (s_remote_window_size o) increment) o) s) w
       | None => w
       end.

Lemma receive_window_update_run stream_id increment w :
  conn_ok w → increment_ok increment →
  http2_flow_control_receive_window_update stream_id increment (Some w) =
    Ret (0, Some (updated stream_id increment w)).
Proof.
  intros Hok Hi. unfold http2_flow_control_receive_window_update, nullable, updated.
  rewrite increment_test, bool_decide_eq_true_2 by (done || (unfold increment_ok in *; lia)). cbn [negb].
  destruct (Z.eqb_spec stream_id 0) as [->|Hid].
  - mstep (lock_write_run w (ok_write_mutex _ Hok)).
    rewrite M_bind_gets, M_bind_modify, M_bind_gets. cbn.
    rewrite window_add_max. unfold unlock_write. rewrite M_bind_modify.
    exact (f_equal (λ x, Ret (0, Some x)) (unlock_write_windows _ _ w (ok_write_mutex _ Hok))).
  - mstep (lock_streams_run w (ok_streams_mutex _ Hok)).
    set (w1 := upd_conn _ w). rewrite M_bind_gets.
    mstep (find_stream_id_run stream_id (streams (conn w)) w1
      (λ s Hs, proj1 (ok_listed _ Hok s) Hs)).
    change (List.find _ _) with (stream_with_id stream_id w).
    destruct (stream_with_id stream_id w) as [s|] eqn:Es.
    + destruct (stream_with_id_Some _ _ _ Es) as (o & Ho & _).
      mstep (read_stream_run s o w1 Ho).
      set (o' := set_stream_remote _ _).
      mstep (write_stream_run s o o' w1 Ho).
      rewrite (M_bind_Ret _ _ _ o' (upd_heap (insert s o') w1))
        by (apply read_stream_run; apply lookup_insert_eq).
      cbn [o' set_stream_remote s_remote_window_size set_stream_windows].
      rewrite window_add_max. unfold unlock_streams. rewrite M_bind_modify.
      unfold mret, M_ret. do 3 f_equal. subst w1.
      rewrite <- (unlock_lock_streams w (ok_streams_mutex _ Hok)) at 2.
      unfold upd_heap, upd_conn. cbn. f_equal. 
      by rewrite (alter_as_insert _ _ _ _ Ho).
    + unfold unlock_streams. rewrite M_bind_modify.
      exact (f_equal (λ x, Ret (0, Some x)) (unlock_lock_streams w (ok_streams_mutex _ Hok))).
Qed.

Lemma receive_window_update_bad stream_id increment w :
  0 ≤ increment → ¬ increment_ok increment →
  http2_flow_control_receive_window_update stream_id increment (Some w) = Ret (-1, Some w).
Proof.
  intros Hn Hi. unfold http2_flow_control_receive_window_update, nullable.
  by rewrite increment_test, bool_decide_eq_false_2 by done.
Qed.

Lemma conn_ok_updated stream_id increment w :
  conn_ok w → conn_ok (updated stream_id increment w).
Proof.
  intros Hok. unfold updated. destruct (stream_id =? 0); [by apply conn_ok_windows|].
  destruct (stream_with_id stream_id w) as [s|] eqn:E; [|done].
  destruct (stream_with_id_Some _ _ _ E) as (o & Ho & _).
  unfold upd_heap. rewrite (alter_as_insert _ _ _ _ Ho).
  apply (conn_ok_insert s o _ w Hok Ho). by apply stream_ok_windows, (ok_streams _ Hok s).
Qed.

(** ** Data sent *)

Lemma can_send_run s o n w :
  conn_ok w → heap w !! s = Some o →
  http2_flow_control_can_send (Some s) n (Some w) =
    Ret (if (i32 n <=? remote_window_size (conn w)) && (i32 n <=? s_remote_window_size o)
         then 1 else 0, Some w).
Proof.
  intros Hok Ho. unfold http2_flow_control_can_send, nullable.
  mstep (lock_write_run w (ok_write_mutex _ Hok)).
  rewrite M_bind_gets. unfold unlock_write. rewrite M_bind_modify.
  rewrite unlock_lock_write by apply (ok_write_mutex _ Hok).
  by mstep (read_stream_run s o w Ho).
Qed.

(** The world after [n] bytes sent on [s]. *)
Definition after_send (s : positive) (n : Z) (o : http2_stream) (w : world) : world :=
  upd_heap (insert s (set_stream_remote (window_sub (s_remote_window_size o) n) o))
    (upd_conn (set_remote (window_sub (remote_window_size (conn w)) n)) w).

Lemma consume_send_window_run s o n w :
  conn_ok w → heap w !! s = Some o →
  http2_flow_control_consume_send_window (Some s) n (Some w) = Ret (0, Some (after_send s n o w)).
Proof.
  intros Hok Ho. unfold http2_flow_control_consume_send_window, nullable.
  mstep (lock_write_run w (ok_write_mutex _ Hok)).
  rewrite M_bind_gets, M_bind_modify. unfold unlock_write. rewrite M_bind_modify.
  set (w2 := upd_conn (set_write_mutex false) _).
  assert (w2 = upd_conn (set_remote (window_sub (remote_window_size (conn w)) n)) w) as ->
    by exact (unlock_write_windows _ _ w (ok_write_mutex _ Hok)).
  set (w1 := upd_conn _ w).
  mstep (read_stream_run s o w1 Ho).
  by mstep (write_stream_run s o _ w1 Ho).
Qed.

Lemma conn_ok_after_send s n o w :
  conn_ok w → heap w !! s = Some o → conn_ok (after_send s n o w).
Proof.
  intros Hok Ho. apply (conn_ok_insert s o); [by apply conn_ok_windows|done|].
  by apply stream_ok_windows, (ok_streams _ Hok s).
Qed.

(** A sender that asks before it sends, and a peer that grants credit.  [fc_run] is the
    number of bytes sent. *)
Inductive fc_event :=
| Send (s : positive) (n : Z)
| Update (stream_id increment : Z).

Definition fc_step (e : fc_event) : M (option world) Z :=
  match e with
  | Send s n =>
      r ← http2_flow_control_can_send (Some s) n;
      if r =? 1 then
        _ ← http2_flow_control_consume_send_window (Some s) n;
        mret n
      else mret 0
  | Update stream_id increment =>
      _ ← http2_flow_control_receive_window_update stream_id increment;
      mret 0
  end.

Fixpoint fc_run (es : list fc_event) : M (option world) Z :=
  match es with
  | [] => mret 0
  | e :: es => n ← fc_step e; m ← fc_run es; mret (n + m)
  end.

(** The credit an event grants: to the connection, and to whatever it names. *)
Definition conn_credit (e : fc_event) : Z :=
  match e with
  | Update 0 n => if bool_decide (increment_ok n) then n else 0
  | _ => 0
  end.
Definition credit (e : fc_event) : Z :=
  match e with
  | Update _ n => if bool_decide (increment_ok n) then n else 0
  | Send _ _ => 0
  end.

(** An event on a live stream, of a length ([size_t]) or an increment that is a number. *)
Definition event_ok (w : world) (e : fc_event) : Prop :=
  match e with
  | Send s n => is_Some (heap w !! s) ∧ 0 ≤ n < 2 ^ 64
  | Update _ n => 0 ≤ n
  end.

(** A length that the cast to [int32_t] does not change. *)
Definition short (e : fc_event) : Prop := match e with Send _ n => n < 2 ^ 31 | Update _ _ => True end.

(** No window is negative, and [room] more can be granted without overflow. *)
Definition windows_ok (room : Z) (w : world) : Prop :=
  0 ≤ remote_window_size (conn w) ∧ remote_window_size (conn w) + room < 2 ^ 31 ∧
  ∀ s o, heap w !! s = Some o →
    0 ≤ s_remote_window_size o ∧ s_remote_window_size o + room < 2 ^ 31.

Lemma credit_nonneg e : 0 ≤ credit e.
Proof. destruct e as [|? n]; cbn; [lia|]. case_bool_decide as H; [destruct H|]; lia. Qed.

Lemma sum_credit_nonneg es : 0 ≤ zsum (map credit es).
Proof. induction es as [|e es IH]; cbn; [lia|]. pose proof (credit_nonneg e). lia. Qed.

Lemma windows_ok_weaken r r' w : windows_ok r w → r' ≤ r → windows_ok r' w.
Proof.
  intros (H1 & H2 & H3) Hr. split_and!; [done|lia|].
  intros s o Ho. destruct (H3 s o Ho). lia.
Qed.

(** A send that the test lets through. *)
Lemma fc_send_ok s n w room :
  conn_ok w → event_ok w (Send s n) → short (Send s n) → windows_ok room w → 0 ≤ room →
  ∃ m w', fc_step (Send s n) (Some w) = Ret (m, Some w') ∧ conn_ok w' ∧ windows_ok room w' ∧
    (∀ x, is_Some (heap w' !! x) ↔ is_Some (heap w !! x)) ∧ 0 ≤ m ∧
    remote_window_size (conn w') = remote_window_size (conn w) - m.
Proof.
  intros Hok [[o Ho] Hn] Hshort (Hc & Hr & Hs) Hroom. destruct (Hs s o Ho) as [Ho1 Ho2]. cbn in Hshort.
  cbn [fc_step]. mstep (can_send_run s o n w Hok Ho).
  rewrite i32_small by lia.
  destruct (_ && _) eqn:E; cbn [Z.eqb Pos.eqb]; to_prop.
  - mstep (consume_send_window_run s o n w Hok Ho).
    exists n, (after_send s n o w). split; [done|]. split; [by apply conn_ok_after_send|].
    unfold after_send, windows_ok. cbn. rewrite !window_sub_i32 by lia.
    split_and!; [lia|lia| | |lia|lia].
    + intros x p. rewrite lookup_insert_Some. intros [[<- <-]|[_ Hp]]; [cbn; lia|by eapply Hs].
    + intros x. rewrite lookup_insert_is_Some. destruct (decide (s = x)); naive_solver.
  - exists 0, w. split_and!; try done. lia.
Qed.

(** A grant within the bound. *)
Lemma fc_update_ok id n w room :
  conn_ok w → event_ok w (Update id n) → windows_ok (credit (Update id n) + room) w → 0 ≤ room →
  ∃ w', fc_step (Update id n) (Some w) = Ret (0, Some w') ∧ conn_ok w' ∧ windows_ok room w' ∧
    (∀ x, is_Some (heap w' !! x) ↔ is_Some (heap w !! x)) ∧
    remote_window_size (conn w') = remote_window_size (conn w) + conn_credit (Update id n).
Proof.
  intros Hok Hn Hw Hroom. cbn [fc_step event_ok] in *.
  destruct (decide (increment_ok n)) as [Hi|Hi].
  2:{ mstep (receive_window_update_bad id n w Hn Hi).
      cbn in *. rewrite bool_decide_eq_false_2 in * by done.
      exists w. split_and!; [done|done|by eapply windows_ok_weaken; [|cbn]|done|].
      destruct id; lia. }
  mstep (receive_window_update_run id n w Hok Hi).
  exists (updated id n w). split; [done|]. split; [by apply conn_ok_updated|].
  cbn [credit conn_credit] in *. rewrite bool_decide_eq_true_2 in * by done.
  destruct Hw as (Hc & Hr & Hs). unfold increment_ok in Hi.
  unfold updated. destruct (Z.eqb_spec id 0) as [->|Hid].
  - cbn. rewrite window_add_small by lia. split_and!; [|done|done].
    unfold windows_ok. cbn. split_and!; [lia|lia|]. intros s o Ho. destruct (Hs s o Ho). lia.
  - replace (match id with 0 => n | _ => 0 end) with 0 by (by destruct id).
    assert (windows_ok room w) as Hw by (by apply (windows_ok_weaken (n + room)); [split_and!|lia]).
    destruct (stream_with_id id w) as [s|] eqn:E; [|split_and!; [done|done|lia]].
    destruct (stream_with_id_Some _ _ _ E) as (o & Ho & _). destruct (Hs s o Ho).
    unfold upd_heap. rewrite (alter_as_insert _ _ _ _ Ho), window_add_small by lia. cbn.
    destruct Hw as (? & ? & Hs'). split_and!; [unfold windows_ok; cbn; split_and!; [done|done|]| |lia].
    + intros x p. rewrite lookup_insert_Some. intros [[<- <-]|[_ Hp]]; [cbn; lia|by eapply Hs'].
    + intros x. rewrite lookup_insert_is_Some. destruct (decide (s = x)); naive_solver.
Qed.

Lemma event_ok_mono w w' e :
  (∀ x, is_Some (heap w' !! x) ↔ is_Some (heap w !! x)) → event_ok w e → event_ok w' e.
Proof. destruct e; cbn; [|done]. intros H [? ?]. by rewrite H. Qed.

Lemma fc_run_app es es' cw :
  fc_run (es ++ es') cw = (n ← fc_run es; m ← fc_run es'; mret (n + m)) cw.
Proof.
  revert cw. induction es as [|e es IH]; intros cw; cbn [app fc_run].
  - rewrite M_bind_mret. unfold mbind, M_bind, mret, M_ret. by destruct (fc_run es' cw) as [[]|].
  - unfold mbind, M_bind, mret, M_ret in *. destruct (fc_step e cw) as [[n cw1]|]; [|done]. rewrite IH.
    destruct (fc_run es cw1) as [[m cw2]|]; [|done]. destruct (fc_run es' cw2) as [[k cw3]|]; [|done].
    do 2 f_equal. lia.
Qed.

(** A history of short sends: what is sent, and what is left. *)
Lemma fc_run_ok es w :
  conn_ok w → Forall (event_ok w) es → Forall short es → windows_ok (zsum (map credit es)) w →
  ∃ sent w', fc_run es (Some w) = Ret (sent, Some w') ∧ conn_ok w' ∧ windows_ok 0 w' ∧
    (∀ x, is_Some (heap w' !! x) ↔ is_Some (heap w !! x)) ∧ 0 ≤ sent ∧
    remote_window_size (conn w') = remote_window_size (conn w) + zsum (map conn_credit es) - sent.
Proof.
  revert w. induction es as [|e es IH]; intros w Hok He Hsh Hw; cbn [map zsum fc_run] in *.
  - exists 0, w. destruct Hw as (? & ? & Hs). cbn in *. split_and!; try done; lia.
  - apply Forall_cons in He as [He Hes]. apply Forall_cons in Hsh as [Hsh Hshs].
    pose proof (sum_credit_nonneg es) as Hroom.
    assert (∃ n w', fc_step e (Some w) = Ret (n, Some w') ∧ conn_ok w' ∧
      windows_ok (zsum (map credit es)) w' ∧
      (∀ x, is_Some (heap w' !! x) ↔ is_Some (heap w !! x)) ∧ 0 ≤ n ∧
      remote_window_size (conn w') = remote_window_size (conn w) + conn_credit e - n)
      as (n & w1 & E & Hok1 & Hw1 & Hdom & Hn & Hr).
    { destruct e as [s n|id n].
      - destruct (fc_send_ok s n w (zsum (map credit es)) Hok He Hsh) as (m & w' & ? & ? & ? & ? & ? & ?).
        { by eapply windows_ok_weaken; [|cbn]. }
        { done. }
        exists m, w'. split_and!; try done. cbn. lia.
      - destruct (fc_update_ok id n w _ Hok He Hw Hroom) as (w' & ? & ? & ? & ? & ?).
        exists 0, w'. split_and!; try done. lia. }
    mstep E.
    destruct (IH w1 Hok1) as (sent & w' & E' & Hok' & Hw' & Hdom' & Hsent & Hr'); [|done|done|].
    { eapply Forall_impl; [exact Hes|]. intros x. by apply event_ok_mono. }
    mstep E'.
    exists (n + sent), w'. split_and!; try done; try lia. intros x. by rewrite Hdom', Hdom.
Qed.

(** A length whose low 32 bits are a negative [int32_t] passes the test. *)
Lemma fc_send_long s n w :
  conn_ok w → windows_ok 0 w → is_Some (heap w !! s) → 2 ^ 31 ≤ n mod 2 ^ 32 →
  ∃ w', fc_step (Send s n) (Some w) = Ret (n, Some w').
Proof.
  intros Hok (Hc & _ & Hs) [o Ho] Hn. destruct (Hs s o Ho) as [Ho1 _].
  cbn [fc_step]. mstep (can_send_run s o n w Hok Ho).
  assert (i32 n < 0) as Hneg.
  { replace (i32 n) with (i32 (u32 n)) by apply i32_u32. pose proof (u32_range n).
    change (n mod 2 ^ 32) with (u32 n) in Hn. rewrite i32_wrap_once by lia. lia. }
  destruct (Z.leb_spec (i32 n) (remote_window_size (conn w))), (Z.leb_spec (i32 n) (s_remote_window_size o)); try lia.
  cbn [andb Z.eqb Pos.eqb]. mstep (consume_send_window_run s o n w Hok Ho). by eexists.
Qed.

(** C5. Credit-based flow control: a sender that asks [can_send] before each
    [consume_send_window], with lengths below [2^31], never spends more than the initial
    connection window plus the increments received, in any interleaving with WINDOW_UPDATEs
    whose total stays below [2^31]; the windows stay non-negative and the connection window is
    at every point exactly the credit minus the bytes sent. The bound on the lengths is needed:
    after any such history a length whose low 32 bits are [2^31] or more is let through, and
    takes the sender past its credit. *)
Theorem http2_flow_control_credit es w :
  conn_ok w → Forall (event_ok w) es → Forall short es → windows_ok (zsum (map credit es)) w →
  (∃ sent w', fc_run es (Some w) = Ret (sent, Some w') ∧ conn_ok w' ∧ windows_ok 0 w' ∧
     0 ≤ sent ≤ remote_window_size (conn w) + zsum (map conn_credit es) ∧
     remote_window_size (conn w') =
       remote_window_size (conn w) + zsum (map conn_credit es) - sent) ∧
  (∀ s n, is_Some (heap w !! s) → 0 ≤ n < 2 ^ 64 → 2 ^ 31 ≤ n mod 2 ^ 32 →
     ∃ sent w', fc_run (es ++ [Send s n]) (Some w) = Ret (sent, Some w') ∧
       remote_window_size (conn w) + zsum (map conn_credit es) < sent).
Proof.
  intros Hok He Hsh Hw.
  destruct (fc_run_ok es w Hok He Hsh Hw) as (sent & w' & E & Hok' & Hw' & Hdom & Hsent & Hr).
  pose proof Hw' as (Hc & Hmax & _). split.
  - exists sent, w'. split_and!; try done; lia.
  - intros s n Hs Hn Hlong. rewrite fc_run_app. mstep E. cbn [fc_run].
    destruct (fc_send_long s n w' Hok' Hw') as (w2 & E2); [by apply Hdom|done|].
    rewrite (M_bind_Ret _ _ _ n (Some w2)) by (mstep E2; by rewrite M_bind_mret, Z.add_0_r).
    exists (sent + n), w2. split; [done|]. pose proof (Z.mod_le n (2 ^ 32)). lia.
Qed.

(** [receive_window_update] on every input: it accepts exactly the increments from 1 to
    [2^31 - 1] on a connection that is there, and then adds the increment, wrapped to 32 bits,
    to the window the stream identifier names and to no other; an unknown stream is ignored
    with result 0. *)
Theorem http2_flow_control_receive_window_update_spec stream_id increment cw :
  0 ≤ increment < 2 ^ 32 → (∀ w, cw = Some w → conn_ok w) →
  http2_flow_control_receive_window_update stream_id increment cw =
    if bool_decide (is_Some cw ∧ increment_ok increment)
    then Ret (0, updated stream_id increment <$> cw)
    else Ret (-1, cw).
Proof.
  intros Hi Hok. destruct cw as [w|]; [|by rewrite bool_decide_eq_false_2 by (intros [[] _]; done)].
  case_bool_decide as H.
  - destruct H as [_ H]. by apply receive_window_update_run; [apply Hok|].
  - apply receive_window_update_bad; [lia|]. intros ?. apply H. by split.
Qed.

(** A WINDOW_UPDATE that takes the connection window past [2^31 - 1] is accepted, and the
    window wraps to a negative one: the comparison of an [int32_t] with [0x7FFFFFFF] is never
    true. *)
Theorem http2_flow_control_window_overflow_accepted increment w :
  conn_ok w → increment_ok increment → 0 ≤ remote_window_size (conn w) →
  2 ^ 31 ≤ remote_window_size (conn w) + increment →
  remote_window_size (conn w) < 2 ^ 31 →
  ∃ w', http2_flow_control_receive_window_update 0 increment (Some w) = Ret (0, Some w') ∧
    remote_window_size (conn w') = remote_window_size (conn w) + increment - 2 ^ 32 ∧
    remote_window_size (conn w') < 0.
Proof.
  intros Hok Hi H1 H2 H3. rewrite receive_window_update_run by done.
  eexists. split; [done|]. unfold increment_ok in Hi. cbn. rewrite window_add_wraps; lia.
Qed.

(** [can_send] changes nothing and answers 1 exactly when the length fits both windows, or
    is at least [2^31] and so negative after the cast to [int32_t]. *)
Theorem http2_flow_control_can_send_spec s o n w :
  conn_ok w → heap w !! s = Some o → 0 ≤ n < 2 ^ 32 →
  0 ≤ remote_window_size (conn w) → 0 ≤ s_remote_window_size o →
  ∃ r, http2_flow_control_can_send (Some s) n (Some w) = Ret (r, Some w) ∧
    (r = 1 ↔ n ≤ remote_window_size (conn w) ∧ n ≤ s_remote_window_size o ∨ 2 ^ 31 ≤ n) ∧
    (r = 0 ∨ r = 1).
Proof.
  intros Hok Ho Hn Hc Hs. rewrite (can_send_run s o n w Hok Ho).
  eexists. split; [done|].
  assert (i32 n = if decide (n < 2 ^ 31) then n else n - 2 ^ 32) as ->.
  { case_decide; [apply i32_small|apply i32_wrap_once]; lia. }
  case_decide.
  - destruct (Z.leb_spec n (remote_window_size (conn w))), (Z.leb_spec n (s_remote_window_size o));
      cbn; (split; [lia|auto]).
  - destruct (Z.leb_spec (n - 2 ^ 32) (remote_window_size (conn w))),
      (Z.leb_spec (n - 2 ^ 32) (s_remote_window_size o)); try lia. cbn. split; [lia|auto].
Qed.

(** ** Data received *)

(** The window after [n] bytes, refilled below the threshold. *)
Definition refill (window : Z) : Z :=
  if window <? window_threshold then HTTP2_DEFAULT_WINDOW_SIZE else window.

(** Two worlds that differ in what the socket took. *)
Definition same_but_wire (w w' : world) : Prop :=
  ∃ sent rest, w' = wire_app sent rest w.

Lemma same_but_wire_refl w : same_but_wire w w.
Proof. exists [], (send_results (ev w)). by rewrite wire_app_nil. Qed.

Lemma deref_send_frame m w r o' :
  m (Some w) = Ret (r, Some o') → deref m w = Ret ((r : Z), (o' : world)).
Proof. unfold deref. by intros ->. Qed.

(** Outside of the write mutex a WINDOW_UPDATE is sent, or fails; inside of it, the
    frame waits for the mutex for ever. *)
Lemma send_window_update_run stream_id n w :
  increment_ok n → write_mutex (conn w) = false →
  ∃ r w', deref (http2_flow_control_send_window_update stream_id n) w = Ret (r, w') ∧
    same_but_wire w w'.
Proof.
  intros Hi Hm. unfold http2_flow_control_send_window_update. rewrite deref_nullable.
  rewrite increment_test, bool_decide_eq_true_2 by (done || (unfold increment_ok in *; lia)). cbn [negb].
  destruct (decide (0 ≤ socket_fd (conn w))) as [Hfd|Hfd].
  - set (h := mk_frame_header _ _ _ _).
    assert (payload_ok h (Some (encode_window_update n))) as Hp by by split.
    destruct (send_frame_run h (Some (encode_window_update n)) w Hfd Hm Hp) as (r & sent & rest & E & _).
    exists r, (wire_app sent rest w). split; [|by exists sent, rest]. unfold deref. by rewrite E.
  - exists (-1), w. split; [|apply same_but_wire_refl].
    unfold http2_connection_send_frame. rewrite deref_nullable, M_bind_gets.
    by destruct (Z.ltb_spec (socket_fd (conn w)) 0); [|lia].
Qed.

Lemma send_window_update_locked stream_id n w :
  increment_ok n → write_mutex (conn w) = true →
  deref (http2_flow_control_send_window_update stream_id n) w =
    if 0 <=? socket_fd (conn w) then Fault Deadlock else Ret (-1, w).
Proof.
  intros Hi Hm. unfold http2_flow_control_send_window_update. rewrite deref_nullable.
  rewrite increment_test, bool_decide_eq_true_2 by (done || (unfold increment_ok in *; lia)). cbn [negb].
  unfold http2_connection_send_frame. rewrite deref_nullable, M_bind_gets.
  destruct (Z.ltb_spec (socket_fd (conn w)) 0), (Z.leb_spec 0 (socket_fd (conn w))); try lia; [done|].
  unfold mbind, M_bind, lock_write. by rewrite Hm.
Qed.

Lemma window_gap l :
  0 ≤ l < window_threshold →
  u32 (HTTP2_DEFAULT_WINDOW_SIZE - l) = HTTP2_DEFAULT_WINDOW_SIZE - l ∧
  increment_ok (HTTP2_DEFAULT_WINDOW_SIZE - l).
Proof.
  rewrite threshold_value. unfold HTTP2_DEFAULT_WINDOW_SIZE, increment_ok. intros H.
  split; [apply u32_small|]; lia.
Qed.

(** The connection's refill happens under the write mutex: with an open socket it waits
    for that mutex. *)
Lemma refill_connection_run w :
  write_mutex (conn w) = true → 0 ≤ local_window_size (conn w) →
  refill_connection w =
    if (local_window_size (conn w) <? window_threshold) && (0 <=? socket_fd (conn w))
    then Fault Deadlock
    else Ret ((), upd_conn (set_local (refill (local_window_size (conn w)))) w).
Proof.
  intros Hm Hl. unfold refill_connection, refill. rewrite M_bind_gets.
  destruct (Z.ltb_spec (local_window_size (conn w)) window_threshold) as [Hlt|]; cbn [andb].
  2:{ destruct w as [[] ???]. done. }
  destruct (window_gap (local_window_size (conn w))) as [Hu Hi]; [done|].
  rewrite Hu. destruct (Z.ltb_spec 0 (HTTP2_DEFAULT_WINDOW_SIZE - local_window_size (conn w)));
    [|unfold increment_ok in Hi; lia].
  pose proof (send_window_update_locked 0 _ w Hi Hm) as E.
  destruct (0 <=? socket_fd (conn w)).
  - by rewrite (M_bind_Fault _ _ _ _ E).
  - by mstep E.
Qed.

Lemma refill_stream_run s o w :
  write_mutex (conn w) = false → heap w !! s = Some o → 0 ≤ s_local_window_size o →
  ∃ w1, same_but_wire w w1 ∧
    refill_stream s w = Ret ((), upd_heap (insert s
      (set_stream_local (refill (s_local_window_size o)) o)) w1).
Proof.
  intros Hm Ho Hl. unfold refill_stream, refill.
  mstep (read_stream_run s o w Ho).
  destruct (Z.ltb_spec (s_local_window_size o) window_threshold) as [Hlt|].
  2:{ exists w. split; [apply same_but_wire_refl|]. unfold upd_heap, set_stream_local, set_stream_windows.
      destruct o. cbn. rewrite insert_id by done. by destruct w. }
  destruct (window_gap (s_local_window_size o)) as [Hu Hi]; [done|].
  rewrite Hu. destruct (Z.ltb_spec 0 (HTTP2_DEFAULT_WINDOW_SIZE - s_local_window_size o));
    [|unfold increment_ok in Hi; lia].
  destruct (send_window_update_run (s_id o) _ w Hi Hm) as (r & w1 & E & Hs).
  exists w1. split; [done|]. mstep E.
  destruct Hs as (sent & rest & ->). by apply (write_stream_run s o).
Qed.

Lemma conn_ok_same_but_wire w w' : same_but_wire w w' → conn_ok w → conn_ok w'.
Proof. intros (? & ? & ->) []. done. Qed.

(** No local window is below the threshold at which it is refilled. *)
Definition window_ok (l : Z) : Prop := window_threshold ≤ l ≤ HTTP2_DEFAULT_WINDOW_SIZE.
Definition local_ok (w : world) : Prop :=
  window_ok (local_window_size (conn w)) ∧
  ∀ s o, heap w !! s = Some o → window_ok (s_local_window_size o).

Lemma window_ok_default : window_ok HTTP2_DEFAULT_WINDOW_SIZE.
Proof. by split. Qed.

Lemma window_ok_range l : window_ok l → 0 ≤ l ≤ HTTP2_DEFAULT_WINDOW_SIZE.
Proof. unfold window_ok. rewrite threshold_value. lia. Qed.

Lemma local_ok_insert s o w :
  local_ok w → window_ok (s_local_window_size o) → local_ok (upd_heap (insert s o) w).
Proof.
  intros [Hl Hs] Ho. split; [done|]. cbn. intros x p.
  rewrite lookup_insert_Some. intros [[_ <-]|[_ ?]]; [done|by eapply Hs].
Qed.

Lemma refill_range l : 0 ≤ l ≤ HTTP2_DEFAULT_WINDOW_SIZE → window_ok (refill l).
Proof. unfold refill. intros. split_test; [apply window_ok_default|]. split; lia. Qed.

Lemma local_ok_local l w : local_ok w → window_ok l → local_ok (upd_conn (set_local l) w).
Proof. by intros [_ ?]. Qed.

(** The part of the call that works on the stream. *)
Lemma consume_recv_stream_run s o n w :
  conn_ok w → heap w !! s = Some o → 0 ≤ n ≤ s_local_window_size o →
  s_local_window_size o ≤ HTTP2_DEFAULT_WINDOW_SIZE →
  ∃ w', (_ ← write_stream s (set_stream_local (window_sub (s_local_window_size o) n) o);
         _ ← refill_stream s; mret 0) w = Ret (0, w') ∧ conn_ok w' ∧ conn w' = conn w ∧
    (∃ o', heap w' !! s = Some o' ∧ s_local_window_size o' = refill (s_local_window_size o - n)) ∧
    (local_ok w → local_ok w').
Proof.
  intros Hok Ho Hn Hl. unfold HTTP2_DEFAULT_WINDOW_SIZE in Hl. rewrite window_sub_i32 by lia.
  set (o1 := set_stream_local _ o).
  assert (stream_ok o1) as Ho1 by by apply stream_ok_windows, (ok_streams _ Hok s).
  mstep (write_stream_run s o o1 w Ho).
  set (w1 := upd_heap _ w).
  assert (conn_ok w1) as Hok1 by by apply (conn_ok_insert s o).
  assert (heap w1 !! s = Some o1) as Hw1 by apply lookup_insert_eq.
  destruct (refill_stream_run s o1 w1 (ok_write_mutex _ Hok1) Hw1) as (w2 & Hs & E); [cbn; lia|].
  mstep E. eexists. split; [done|].
  pose proof (conn_ok_same_but_wire _ _ Hs Hok1) as Hok2. destruct Hs as (? & ? & ->).
  split_and!; [|done| |].
  - by apply (conn_ok_insert s o1).
  - eexists. split; [apply lookup_insert_eq|done].
  - intros [Hc Hh]. split; [done|]. cbn. intros y p. rewrite lookup_insert_Some.
    intros [[_ <-]|[Hne Hp]]; [apply refill_range; cbn; unfold HTTP2_DEFAULT_WINDOW_SIZE; lia|].
    rewrite lookup_insert_ne in Hp by done. by eapply Hh.
Qed.

Lemma unlock_write_local a b w :
  write_mutex (conn w) = false →
  upd_conn (set_write_mutex false) (upd_conn (set_local a) (upd_conn (set_local b)
    (upd_conn (set_write_mutex true) w))) = upd_conn (set_local a) w.
Proof. destruct w as [[] ???]; cbn. by intros ->. Qed.

(** The part of the call that works on the connection. *)
Lemma consume_recv_conn_run {A} n w (k : () → M world A) :
  conn_ok w → 0 ≤ n ≤ local_window_size (conn w) →
  local_window_size (conn w) ≤ HTTP2_DEFAULT_WINDOW_SIZE →
  let l := local_window_size (conn w) in
  (_ ← modify (upd_conn (set_local (window_sub l n)));
   _ ← refill_connection; _ ← unlock_write; k ()) (upd_conn (set_write_mutex true) w) =
    if bool_decide (l - n < window_threshold ∧ 0 ≤ socket_fd (conn w)) then Fault Deadlock
    else k () (upd_conn (set_local (refill (l - n))) w).
Proof.
  intros Hok Hn Hl l. unfold HTTP2_DEFAULT_WINDOW_SIZE in Hl.
  rewrite M_bind_modify, window_sub_i32 by (subst l; lia).
  set (w1 := upd_conn (set_local (l - n)) _).
  pose proof (refill_connection_run w1 eq_refl) as E. cbn in E. specialize (E ltac:(subst l; lia)).
  destruct (bool_decide _) eqn:Hb.
  - apply bool_decide_eq_true in Hb as [Hb1%Z.ltb_lt Hb2%Z.leb_le]. rewrite Hb1, Hb2 in E.
    by rewrite (M_bind_Fault _ _ _ _ E).
  - apply bool_decide_eq_false in Hb.
    destruct (_ && _) eqn:Ht; to_prop; [tauto|].
    mstep E. unfold unlock_write. rewrite M_bind_modify.
    subst w1. by rewrite unlock_write_local by apply (ok_write_mutex _ Hok).
Qed.

(** What [n] bytes received on [s] do to the local windows: the test of the connection's
    window comes first, and its bytes stay counted when the stream's window is too small. *)
Definition recv_result (s : positive) (o : http2_stream) (n : Z) (w : world) (r : Z)
    (w' : world) : Prop :=
  let l := local_window_size (conn w) in
  (r = 0 ∨ r = -1) ∧ (r = 0 ↔ n ≤ l ∧ n ≤ s_local_window_size o) ∧
  local_window_size (conn w') = (if n <=? l then refill (l - n) else l) ∧
  ∃ o', heap w' !! s = Some o' ∧ s_local_window_size o' =
    if r =? 0 then refill (s_local_window_size o - n) else s_local_window_size o.

Lemma consume_recv_run s o n w :
  conn_ok w → local_ok w → heap w !! s = Some o → 0 ≤ n < 2 ^ 31 →
  let l := local_window_size (conn w) in
  let result := http2_flow_control_consume_recv_window (Some s) n (Some w) in
  if bool_decide (n ≤ l ∧ l - n < window_threshold ∧ 0 ≤ socket_fd (conn w))
  then result = Fault Deadlock
  else ∃ r w', result = Ret (r, Some w') ∧ conn_ok w' ∧ local_ok w' ∧ recv_result s o n w r w'.
Proof.
  intros Hok Hlok Ho Hn l result. subst result. destruct (id Hlok) as [Hl%window_ok_range Hss].
  pose proof (window_ok_range _ (Hss s o Ho)) as Hs. unfold recv_result. fold l. fold l in Hl.
  unfold http2_flow_control_consume_recv_window, nullable. rewrite i32_small by lia.
  destruct (Z.ltb_spec n 0); [lia|].
  destruct (Z.ltb_spec HTTP2_DEFAULT_WINDOW_SIZE n); cbn [orb].
  { rewrite bool_decide_eq_false_2 by lia. exists (-1), w.
    split_and!; [done|done|done|auto|lia| |by exists o]. destruct (Z.leb_spec n l); [lia|done]. }
  mstep (lock_write_run w (ok_write_mutex _ Hok)); rewrite M_bind_gets.
  change (local_window_size (conn (upd_conn (set_write_mutex true) w))) with l.
  destruct (Z.ltb_spec l n).
  { rewrite bool_decide_eq_false_2 by lia. unfold unlock_write. rewrite M_bind_modify.
    exists (-1), w. rewrite unlock_lock_write by apply (ok_write_mutex _ Hok).
    split_and!; [done|done|done|auto|lia| |by exists o]. destruct (Z.leb_spec n l); [lia|done]. }
  destruct (Z.leb_spec n l); [|lia].
  rewrite (consume_recv_conn_run n w (λ _, _)) by (done || lia). fold l.
  case_bool_decide as Hb1; case_bool_decide as Hb2; try tauto.
  set (w1 := upd_conn _ w).
  assert (conn_ok w1) as Hok1 by by apply conn_ok_windows.
  assert (local_ok w1) as Hl1 by (apply local_ok_local; [done|apply refill_range; lia]).
  mstep (read_stream_run s o w1 Ho).
  destruct (Z.ltb_spec (s_local_window_size o) n).
  - exists (-1), w1. split_and!; [done|done|done|auto|lia|done|by exists o].
  - destruct (consume_recv_stream_run s o n w1 Hok1 Ho) as (w' & E & Hok' & Hc & Ho' & Hw'); [lia|lia|].
    rewrite E. exists 0, w'. split_and!; [done|done|by apply Hw'|auto|lia|by rewrite Hc|done].
Qed.

(** The call sees the low 32 bits of the length only. *)
Lemma consume_recv_i32 stream n cw :
  http2_flow_control_consume_recv_window stream n cw =
    http2_flow_control_consume_recv_window stream (i32 n) cw.
Proof.
  assert (∀ w, window_sub w n = window_sub w (i32 n)) as Hsub.
  { intros w. unfold window_sub. rewrite !i32_u64. unfold i32.
    replace (w - ((n + 2 ^ 31) `mod` 2 ^ 32 - 2 ^ 31) + 2 ^ 31)
      with (w + 2 ^ 31 + 2 ^ 31 - (n + 2 ^ 31) `mod` 2 ^ 32) by lia.
    rewrite Zminus_mod_idemp_r. do 2 f_equal. lia. }
  unfold http2_flow_control_consume_recv_window, nullable. rewrite (i32_small (i32 n)) by apply i32_range.
  destruct cw as [w|], stream as [s|]; try done.
  destruct (_ || _); [done|].
  unfold mbind, M_bind. destruct (lock_write w) as [[[] w1]|]; [|done].
  unfold gets, modify. rewrite Hsub. destruct (_ <? _); [done|]. destruct (refill_connection _) as [[[] w2]|]; [|done].
  destruct (unlock_write w2) as [[[] w3]|]; [|done].
  destruct (read_stream s w3) as [[o w4]|]; [|done]. by rewrite Hsub.
Qed.

(** [consume_recv_window] on every branch: with an open socket it deadlocks exactly when
    the connection window falls below the threshold (the WINDOW_UPDATE is sent with the write
    mutex held); otherwise it returns 0 or -1 with the windows reduced, refused or refilled as
    specified and the connection's invariant kept. *)
Theorem http2_flow_control_consume_recv_window_spec stream n cw :
  0 ≤ n < 2 ^ 31 →
  (∀ w, cw = Some w → conn_ok w ∧ local_ok w ∧ (∀ s, stream = Some s → is_Some (heap w !! s))) →
  let result := http2_flow_control_consume_recv_window stream n cw in
  match cw, stream with
  | Some w, Some s =>
      let l := local_window_size (conn w) in
      if bool_decide (n ≤ l ∧ l - n < window_threshold ∧ 0 ≤ socket_fd (conn w))
      then result = Fault Deadlock
      else ∃ o r w', heap w !! s = Some o ∧ result = Ret (r, Some w') ∧ conn_ok w' ∧
        local_ok w' ∧ recv_result s o n w r w'
  | _, _ => result = Ret (-1, cw)
  end.
Proof.
  intros Hn H result. destruct cw as [w|]; [|done]. destruct stream as [s|]; [|done].
  destruct (H w eq_refl) as (Hok & Hl & Hs). destruct (Hs s eq_refl) as [o Ho].
  pose proof (consume_recv_run s o n w Hok Hl Ho Hn) as E. cbn zeta in *.
  destruct (bool_decide _); [done|]. destruct E as (r & w' & E). by exists o, r, w'.
Qed.

(** ** Every connection the code can reach *)

(** The descriptor of the connection.  A new one has -1, and no function of the library connects
    it; whoever does stores the descriptor. *)
Definition set_socket (fd : Z) (c : http2_connection) : http2_connection :=
  mk_connection fd (ssl_ctx c) (ssl c) (is_client c) (next_stream_id c)
    (write_mutex c) (streams_mutex c) (streams c) (streams_capacity c)
    (local_window_size c) (remote_window_size c) (max_frame_size c) (max_concurrent_streams c).

(** One operation on a connection, on any stream object it still has, that returns; or a
    change of the connection's descriptor. *)
Inductive conn_step : world → world → Prop :=
| step_stream_create id r w w' :
    streams_capacity (conn w) < 2 ^ 60 →
    http2_stream_create id (Some w) = Ret (r, Some w') → conn_step w w'
| step_stream_destroy s w w' :
    is_Some (heap w !! s) → http2_stream_destroy (Some s) w = Ret ((), w') → conn_step w w'
| step_send_frame h p r w w' :
    payload_ok h p → http2_connection_send_frame (Some h) p (Some w) = Ret (r, Some w') →
    conn_step w w'
| step_recv_frame b r w w' :
    http2_connection_recv_frame true b (Some w) = Ret (r, Some w') → conn_step w w'
| step_receive_update id n r w w' :
    0 ≤ n < 2 ^ 32 → http2_flow_control_receive_window_update id n (Some w) = Ret (r, Some w') →
    conn_step w w'
| step_can_send s n r w w' :
    is_Some (heap w !! s) → http2_flow_control_can_send (Some s) n (Some w) = Ret (r, Some w') →
    conn_step w w'
| step_consume_send s n r w w' :
    is_Some (heap w !! s) → 
    http2_flow_control_consume_send_window (Some s) n (Some w) = Ret (r, Some w') → conn_step w w'
| step_consume_recv s n r w w' :
    is_Some (heap w !! s) →
    http2_flow_control_consume_recv_window (Some s) n (Some w) = Ret (r, Some w') → conn_step w w'
| step_socket fd w : conn_step w (upd_conn (set_socket fd) w).

(** A new connection in a fresh environment. *)
Definition initial (e : env) (w : world) : Prop :=
  ∃ client c e', http2_connection_create client e = Ret (Some c, e') ∧ w = mk_world c ∅ 1 e'.

Lemma initial_ok e w : initial e w → conn_ok w ∧ local_ok w.
Proof.
  intros (client & c & e' & E & ->). unfold http2_connection_create in E.
  apply M_bind_inv in E as (b & e1 & _ & E). destruct b; [|done]. cbn [negb] in E.
  apply M_bind_inv in E as (b & e2 & _ & E). destruct b; [|done]. cbn [negb] in E.
  injection E as <- <-. split; [|by split; [apply window_ok_default|]].
  split; cbn; try lia; try done.
  - apply NoDup_nil_2.
  - intros s. rewrite lookup_empty. split; [by intros ?%elem_of_nil|by intros []].
  - by intros s [].
Qed.

(** Programs that touch the environment only. *)
Definition env_only {A} (m : M world A) : Prop :=
  ∀ w a w', m w = Ret (a, w') → ∃ e, w' = upd_env (λ _, e) w.

Lemma env_only_mret {A} (a : A) : env_only (mret a : M world A).
Proof. intros w ? ? [= <- <-]. exists (ev w). by destruct w. Qed.
Lemma env_only_bind {A B} (m : M world A) (k : A → M world B) :
  env_only m → (∀ a, env_only (k a)) → env_only (m ≫= k).
Proof.
  intros Hm Hk w b w' (a & w1 & E1 & E2)%M_bind_inv.
  destruct (Hm _ _ _ E1) as [e1 ->], (Hk _ _ _ _ E2) as [e2 ->]. by exists e2.
Qed.
Lemma env_only_gets {A} (f : world → A) : env_only (gets f).
Proof. intros w ? ? [= <- <-]. exists (ev w). by destruct w. Qed.
Lemma env_only_recv n : env_only (sys_recv n).
Proof. intros w ? ? [= <- <-]. by eexists. Qed.
Lemma env_only_malloc : env_only malloc_world.
Proof.
  intros w a w' E. destruct (malloc_world_run w) as (ok & al & E' & _).
  rewrite E in E'. injection E' as _ ->. by eexists.
Qed.
#[local] Hint Resolve env_only_mret env_only_gets env_only_recv env_only_malloc : grpc.

Lemma recv_frame_env b r w w' :
  http2_connection_recv_frame true b (Some w) = Ret (r, Some w') →
  ∃ e, w' = upd_env (λ _, e) w.
Proof.
  intros E%(nullable_inv None). revert w r w' E. cbn [negb].
  apply env_only_bind; [auto with grpc|]. intros c. split_test; [auto with grpc|].
  apply env_only_bind; [auto with grpc|]. intros bytes.
  destruct (decode_frame_header bytes); [|auto with grpc]. split_test; [|auto with grpc].
  apply env_only_bind; [auto with grpc|]. intros ok. split_test; [auto with grpc|].
  apply env_only_bind; [auto with grpc|]. intros p. split_test; auto with grpc.
Qed.

Lemma env_ok e w : conn_ok w ∧ local_ok w → conn_ok (upd_env (λ _, e) w) ∧ local_ok (upd_env (λ _, e) w).
Proof. intros [[] ?]. by split. Qed.


Lemma local_ok_updated id n w : local_ok w → local_ok (updated id n w).
Proof.
  intros Hw. unfold updated. destruct (id =? 0); [done|].
  destruct (stream_with_id id w) as [s|] eqn:E; [|done].
  destruct (stream_with_id_Some _ _ _ E) as (o & Ho & _).
  unfold upd_heap. rewrite (alter_as_insert _ _ _ _ Ho).
  apply (local_ok_insert s _ w Hw). cbn. by apply (proj2 Hw s).
Qed.

(** The two streams operations, with their effect on the local windows. *)
Lemma step_create_ok id r w w' :
  streams_capacity (conn w) < 2 ^ 60 → http2_stream_create id (Some w) = Ret (r, Some w') →
  conn_ok w ∧ local_ok w → conn_ok w' ∧ local_ok w'.
Proof.
  intros Hcap E [Hok [Hl Hs]].
  destruct (http2_stream_create_run id w Hok Hcap) as (r' & w1 & E' & Hok' & Ht & Hr).
  rewrite E in E'. injection E' as <- <-. split; [done|]. split; [by rewrite Ht|].
  intros s o. destruct r as [x|].
  - destruct Hr as (_ & -> & _). rewrite lookup_insert_Some.
    intros [[_ <-]|[_ ?]]; [apply window_ok_default|by eapply Hs].
  - destruct Hr as (-> & _). apply Hs.
Qed.

Lemma step_destroy_ok s w w' :
  is_Some (heap w !! s) → http2_stream_destroy (Some s) w = Ret ((), w') →
  conn_ok w ∧ local_ok w → conn_ok w' ∧ local_ok w'.
Proof.
  intros Hin E [Hok [Hl Hs]].
  destruct (http2_stream_destroy_run s w Hok Hin) as (w1 & E' & Hok' & Hh & _ & Ht).
  rewrite E in E'. injection E' as <-. split; [done|]. split; [by rewrite Ht|].
  intros x o. rewrite Hh. intros [_ ?]%lookup_delete_Some. by eapply Hs.
Qed.

Lemma step_send_frame_ok h p r w w' :
  payload_ok h p → http2_connection_send_frame (Some h) p (Some w) = Ret (r, Some w') →
  conn_ok w ∧ local_ok w → conn_ok w' ∧ local_ok w'.
Proof.
  intros Hp E [Hok Hl]. destruct (decide (0 ≤ socket_fd (conn w))) as [Hfd|Hfd].
  - destruct (send_frame_run h p w Hfd (ok_write_mutex _ Hok) Hp) as (r' & sent & rest & E' & _).
    rewrite E in E'. injection E' as _ ->.
    split; [by apply (conn_ok_same_but_wire w); [do 2 eexists|]|done].
  - apply (nullable_inv (-1)) in E. rewrite M_bind_gets in E.
    destruct (Z.ltb_spec (socket_fd (conn w)) 0); [by injection E as _ <-|lia].
Qed.

Lemma step_receive_update_ok id n r w w' :
  0 ≤ n < 2 ^ 32 → http2_flow_control_receive_window_update id n (Some w) = Ret (r, Some w') →
  conn_ok w ∧ local_ok w → conn_ok w' ∧ local_ok w'.
Proof.
  intros Hn E [Hok Hl]. destruct (decide (increment_ok n)) as [Hi|Hi].
  - rewrite receive_window_update_run in E by done. injection E as _ <-.
    by split; [apply conn_ok_updated|apply local_ok_updated].
  - rewrite receive_window_update_bad in E by (done || lia). by injection E as _ <-.
Qed.

Lemma step_consume_recv_ok s o n r w w' :
  conn_ok w → local_ok w → heap w !! s = Some o →
  http2_flow_control_consume_recv_window (Some s) n (Some w) = Ret (r, Some w') → conn_ok w' ∧ local_ok w'.
Proof.
  intros Hok Hl Ho. rewrite consume_recv_i32. pose proof (i32_range n) as Hr. destruct (Z.ltb_spec (i32 n) 0) as [Hn|Hn].
  - unfold http2_flow_control_consume_recv_window, nullable. rewrite (i32_small (i32 n)) by done.
    rewrite (proj2 (Z.ltb_lt _ _) Hn). cbn [orb]. by intros [= _ <-].
  - intros E. pose proof (consume_recv_run s o (i32 n) w Hok Hl Ho ltac:(lia)) as Hrun.
    cbn zeta in Hrun. destruct (bool_decide _); [by rewrite E in Hrun|].
    destruct Hrun as (r' & w1 & E' & ? & ? & _). rewrite E in E'. by injection E' as _ <-.
Qed.

Lemma conn_step_ok w w' : conn_step w w' → conn_ok w ∧ local_ok w → conn_ok w' ∧ local_ok w'.
Proof.
  intros Hstep Hinv.
  destruct Hstep as [id r w w' Hcap E|s w w' Hs' E|h p r w w' Hp E|b r w w' E|id n r w w' Hn E|
    s n r w w' [o Ho] E|s n r w w' [o Ho] E|s n r w w' [o Ho] E|fd w].
  - by eapply step_create_ok.
  - by eapply step_destroy_ok.
  - by eapply step_send_frame_ok.
  - destruct (recv_frame_env b r w w' E) as [e ->]. by apply env_ok.
  - by eapply step_receive_update_ok.
  - destruct Hinv as [Hok Hl]. rewrite (can_send_run s o n w Hok Ho) in E. by injection E as _ <-.
  - destruct Hinv as [Hok Hl]. rewrite (consume_send_window_run s o n w Hok Ho) in E.
    injection E as _ <-. split; [by apply conn_ok_after_send|].
    apply (local_ok_insert s _ _ Hl). cbn. by apply (proj2 Hl s).
  - destruct Hinv as [Hok Hl]. by eapply step_consume_recv_ok.
  - destruct Hinv as [[] ?]. by split.
Qed.

(** C26. Every connection reachable from its creation by creating and destroying streams (in a
    table of less than [2^60]), sending and receiving frames, updating the windows and storing
    any descriptor, as far as the calls return, keeps the invariant of its stream table and
    unlocked mutexes, and its local windows stay between the refill threshold and the default
    size, whatever lengths are consumed. *)
Theorem http2_connection_reachable_ok e w0 w :
  initial e w0 → rtc conn_step w0 w → conn_ok w ∧ local_ok w.
Proof.
  intros Hi Hr. pose proof (initial_ok e w0 Hi) as Hok. clear Hi.
  induction Hr as [|? ? ? Hstep _ IH]; [done|]. by apply IH, (conn_step_ok _ _ Hstep).
Qed.

(** ** Witnesses *)

Definition created : world :=
  match http2_connection_create true (ev sender) with
  | Ret (Some c, e) => mk_world c ∅ 1 e
  | _ => sender
  end.

Lemma created_initial : initial (ev sender) created.
Proof. by exists true, (conn created), (ev created). Qed.

(** Evaluation of an operation from a concrete world. *)
Definition world_of {A} (w : world) (o : outcome (A * option world)) : world :=
  match o with Ret (_, Some w') => w' | _ => w end.

(** A stream is made, a socket stored, and 30000 bytes taken in. *)
Definition with_stream : world := world_of created (http2_stream_create 1 (Some created)).
Definition connected : world := upd_conn (set_socket 5) with_stream.
Definition two_steps : world :=
  world_of created (http2_flow_control_consume_recv_window (Some 1%positive) 30000 (Some connected)).

Lemma http2_connection_reachable_witness :
  local_window_size (conn two_steps) = 35535 ∧ conn_ok two_steps ∧ local_ok two_steps.
Proof.
  split; [vm_compute; reflexivity|].
  apply (http2_connection_reachable_ok (ev sender) created); [apply created_initial|].
  apply (rtc_l _ _ with_stream).
  { apply (step_stream_create 1 (Some 1%positive)); [done|]. vm_compute. reflexivity. }
  apply (rtc_l _ _ connected); [apply step_socket|].
  apply rtc_once. apply (step_consume_recv 1%positive 30000 0).
  - vm_compute. eauto.
  - vm_compute. reflexivity.
Defined.

Lemma one_stream_lookup s o : heap one_stream !! s = Some o → s = 1%positive ∧ o = fresh_stream 1.
Proof. cbn. by intros [<- <-]%lookup_singleton_Some. Qed.

Lemma one_stream_windows : local_ok one_stream.
Proof.
  split; [apply window_ok_default|]. intros s o [-> ->]%one_stream_lookup. apply window_ok_default.
Qed.

Lemma http2_flow_control_credit_witness :
  let es := [Send 1 60000; Send 1 60000; Update 0 1000; Update 1 70000; Send 1 6000]%positive in
  (∃ w', fc_run es (Some one_stream) = Ret (66000, Some w') ∧ windows_ok 0 w' ∧
     remote_window_size (conn w') = 535) ∧
  (∃ sent w', fc_run (es ++ [Send 1 (2 ^ 31)]) (Some one_stream) = Ret (sent, Some w') ∧ 66535 < sent).
Proof.
  intros es.
  destruct (http2_flow_control_credit es one_stream one_stream_ok) as [(sent & w' & E & _ & Hw & _ & Hr) Hlong].
  - repeat constructor; cbn; try lia; by eexists.
  - repeat constructor.
  - split_and!; [cbn; lia|vm_compute; done|]. intros s o [-> ->]%one_stream_lookup. vm_compute. done.
  - split.
    + exists w'. assert (sent = 66000) as -> by (vm_compute in E; congruence).
      split; [done|]. by rewrite Hr.
    + apply Hlong; [by eexists|lia|vm_compute; discriminate].
Defined.

Lemma http2_flow_control_receive_window_update_witness :
  http2_flow_control_receive_window_update 0 5 (Some one_stream) =
    Ret (0, Some (updated 0 5 one_stream)) ∧
  http2_flow_control_receive_window_update 0 0 (Some one_stream) = Ret (-1, Some one_stream).
Proof.
  split; rewrite http2_flow_control_receive_window_update_spec; try done; try lia.
  all: intros w [= <-]; apply one_stream_ok.
Defined.

Lemma http2_flow_control_window_overflow_witness :
  ∃ w', http2_flow_control_receive_window_update 0 0x7FFFFFFF (Some one_stream) = Ret (0, Some w') ∧
    remote_window_size (conn w') = -2147418114.
Proof.
  destruct (http2_flow_control_window_overflow_accepted 0x7FFFFFFF one_stream one_stream_ok)
    as (w' & E & Hw & _); [done|done|done|done|].
  exists w'. split; [done|]. by rewrite Hw.
Defined.

Lemma http2_flow_control_can_send_witness :
  (∃ r, http2_flow_control_can_send (Some 1%positive) 65536 (Some one_stream) =
    Ret (r, Some one_stream) ∧ r ≠ 1) ∧
  http2_flow_control_can_send (Some 1%positive) (2 ^ 31) (Some one_stream) = Ret (1, Some one_stream).
Proof.
  split.
  - destruct (http2_flow_control_can_send_spec 1 (fresh_stream 1) 65536 one_stream one_stream_ok)
      as (r & E & Hr & _); [done|lia|vm_compute; done|vm_compute; done|].
    exists r. split; [done|]. rewrite Hr. cbn. unfold HTTP2_DEFAULT_WINDOW_SIZE. lia.
  - destruct (http2_flow_control_can_send_spec 1 (fresh_stream 1) (2 ^ 31) one_stream one_stream_ok)
      as (r & E & Hr & _); [done|lia|vm_compute; done|vm_compute; done|].
    rewrite E. rewrite (proj2 Hr) by lia. done.
Defined.

Lemma http2_flow_control_consume_recv_window_witness :
  http2_flow_control_consume_recv_window (Some 1%positive) 40000 (Some one_stream) = Fault Deadlock.
Proof.
  assert (0 ≤ 40000 < 2 ^ 31) as Hn by lia.
  pose proof (http2_flow_control_consume_recv_window_spec (Some 1%positive) 40000 (Some one_stream) Hn) as H.
  apply H. intros w [= <-]. split; [apply one_stream_ok|]. split; [apply one_stream_windows|].
  intros s [= <-]. by eexists.
Defined.
