(* ===== verification/Lists.v ===== *)
(** * Singly linked lists in the heap

    The nodes the C code chains through a [next] pointer ([completion_queue_event],
    [grpc_lb_address], [grpc_pooled_connection]): the heap of nodes next to the object
    that holds the list, the accesses to a node, and the chain that a list is. *)

From Stdlib Require Import ZArith Lia.
From stdpp Require Import base tactics list option strings gmap.
From S2P Require Import Prelude.

#[local] Open Scope Z_scope.
#[local] Set Warnings "-clear-no-such-hyp".

(** A node: its data and its [next] pointer. *)
Record cell (A : Type) := mk_cell { data : A; next : option positive }.
Arguments mk_cell {A} _ _.
Arguments data {A} _.
Arguments next {A} _.

(** An object [P] with the nodes its list uses: the nodes that are allocated, the next
    fresh address, and the answers of the coming calls to the allocator. *)
Record heap_of (P A : Type) := mk_heap {
  obj : P;
  cells : gmap positive (cell A);
  fresh_cell : positive;
  cell_answers : allocs
}.
Arguments mk_heap {P A} _ _ _ _.
Arguments obj {P A} _.
Arguments cells {P A} _.
Arguments fresh_cell {P A} _.
Arguments cell_answers {P A} _.

Section accesses.
Context {P A : Type}.
Implicit Types (w : heap_of P A) (a : positive) (c : cell A).

Definition upd_obj (f : P → P) w : heap_of P A :=
  mk_heap (f (obj w)) (cells w) (fresh_cell w) (cell_answers w).
Definition upd_cells (f : gmap positive (cell A) → gmap positive (cell A)) w : heap_of P A :=
  mk_heap (obj w) (f (cells w)) (fresh_cell w) (cell_answers w).

Definition malloc_cell : M (heap_of P A) bool :=
  zoom cell_answers (λ al w, mk_heap (obj w) (cells w) (fresh_cell w) al) malloc.

Definition read_cell a : M (heap_of P A) (cell A) := λ w,
  match cells w !! a with Some c => Ret (c, w) | None => Fault UseAfterFree end.
Definition write_cell a c : M (heap_of P A) () := λ w,
  match cells w !! a with
  | Some _ => Ret ((), upd_cells (insert a c) w)
  | None => Fault UseAfterFree
  end.
Definition new_cell c : M (heap_of P A) positive := λ w,
  Ret (fresh_cell w, mk_heap (obj w) (<[fresh_cell w := c]> (cells w))
                       (Pos.succ (fresh_cell w)) (cell_answers w)).
Definition free_cell a : M (heap_of P A) () := λ w,
  match cells w !! a with
  | Some _ => Ret ((), upd_cells (delete a) w)
  | None => Fault UseAfterFree
  end.

Lemma read_cell_run a c w : cells w !! a = Some c → read_cell a w = Ret (c, w).
Proof. unfold read_cell. by intros ->. Qed.
Lemma write_cell_run a c c' w :
  cells w !! a = Some c → write_cell a c' w = Ret ((), upd_cells (insert a c') w).
Proof. unfold write_cell. by intros ->. Qed.
Lemma free_cell_run a c w :
  cells w !! a = Some c → free_cell a w = Ret ((), upd_cells (delete a) w).
Proof. unfold free_cell. by intros ->. Qed.

Definition set_cell_answers (al : allocs) w : heap_of P A :=
  mk_heap (obj w) (cells w) (fresh_cell w) al.

Lemma malloc_cell_answer w :
  malloc_cell w = Ret ((answer (cell_answers w)).1, set_cell_answers (answer (cell_answers w)).2 w).
Proof. unfold malloc_cell, zoom. by rewrite malloc_answer; destruct (answer _). Qed.

Lemma malloc_cell_run w :
  ∃ ok al, malloc_cell w = Ret (ok, set_cell_answers al w) ∧
    (cell_answers w = [] → ok = true ∧ al = []).
Proof.
  unfold malloc_cell, zoom. destruct (malloc_run (cell_answers w)) as (ok & al & -> & H).
  by exists ok, al.
Qed.

(** [strdup]: a null pointer is dereferenced, a failed allocation gives a null pointer. *)
Definition strdup_cell (s : option (list Z)) : M (heap_of P A) (option (list Z)) :=
  match s with
  | None => fail NullDeref
  | Some s => ok ← malloc_cell; mret (if ok : bool then Some (c_str s ++ [0]) else None)
  end.

Lemma strdup_cell_run s w :
  strdup_cell (Some s) w =
    Ret (if (answer (cell_answers w)).1 then Some (c_str s ++ [0]) else None,
         set_cell_answers (answer (cell_answers w)).2 w).
Proof. unfold strdup_cell. by mstep (malloc_cell_answer w). Qed.
End accesses.

(** A bound on the length of a walk through the nodes: there are no more nodes than that
    to visit. *)
Definition walk_fuel {P A} (w : heap_of P A) : nat := S (size (cells w)).

(** ** Chains *)

Section chain.
Context {A : Type}.
Implicit Types (h : gmap positive (cell A)) (p q : option positive) (a b : positive).
Implicit Types (l : list (positive * A)).

(** [chain h p l q]: the pointers from [p] lead through the nodes of [l] to [q]. *)
Fixpoint chain h p l q : Prop :=
  match l with
  | [] => p = q
  | (a, x) :: l => p = Some a ∧ ∃ r, h !! a = Some (mk_cell x r) ∧ chain h r l q
  end.

Lemma chain_app h p l k q : chain h p (l ++ k) q ↔ ∃ r, chain h p l r ∧ chain h r k q.
Proof.
  revert p. induction l as [|[a x] l IH]; intros p; cbn.
  - naive_solver.
  - setoid_rewrite IH. naive_solver.
Qed.

Lemma chain_snoc h p l a x q :
  chain h p (l ++ [(a, x)]) q ↔ chain h p l (Some a) ∧ h !! a = Some (mk_cell x q).
Proof. rewrite chain_app. cbn. naive_solver. Qed.

(** Changes elsewhere leave a chain alone. *)
Lemma chain_ext h h' p l q :
  (∀ a, a ∈ l.*1 → h' !! a = h !! a) → chain h p l q → chain h' p l q.
Proof.
  revert p. induction l as [|[a x] l IH]; intros p Heq; cbn; [done|].
  intros (-> & r & Ha & Hl). split; [done|]. exists r. rewrite Heq by (cbn; left).
  split; [done|]. apply IH; [|done]. intros b Hb. apply Heq. cbn. by right.
Qed.

Lemma chain_insert_ne h a c p l q :
  a ∉ l.*1 → chain h p l q → chain (<[a := c]> h) p l q.
Proof.
  intros Ha. apply chain_ext. intros b Hb. rewrite lookup_insert_ne; [done|set_solver].
Qed.

Lemma chain_delete_ne h a p l q :
  a ∉ l.*1 → chain h p l q → chain (delete a h) p l q.
Proof.
  intros Ha. apply chain_ext. intros b Hb. rewrite lookup_delete_ne; [done|set_solver].
Qed.

Lemma chain_lookup h p l q a : chain h p l q → a ∈ l.*1 → is_Some (h !! a).
Proof.
  revert p. induction l as [|[b x] l IH]; intros p; cbn.
  - by intros _ ?%elem_of_nil.
  - intros (-> & r & Hb & Hl) [->|Ha]%elem_of_cons; [by eexists|by eapply IH].
Qed.

(** The data of a node changes in place. *)
Lemma chain_set_data h p l a x k q y :
  NoDup (l ++ (a, x) :: k).*1 → chain h p (l ++ (a, x) :: k) q →
  ∃ r, h !! a = Some (mk_cell x r) ∧
    chain (<[a := mk_cell y r]> h) p (l ++ (a, y) :: k) q.
Proof.
  rewrite fmap_app, fmap_cons. intros (_ & Hl & [Hk _]%NoDup_cons)%NoDup_app. cbn in *.
  intros (r0 & H1 & -> & r & Ha & H2)%chain_app. exists r. split; [done|].
  apply chain_app. exists (Some a). split.
  - apply chain_insert_ne; [|done]. intros Hin. apply (Hl a Hin). by left.
  - cbn. split; [done|]. exists r. rewrite lookup_insert_eq. split; [done|].
    by apply chain_insert_ne.
Qed.

(** A heap has one list from a pointer. *)
Lemma chain_functional h p l k :
  chain h p l None → chain h p k None → l = k.
Proof.
  revert p k. induction l as [|[a x] l IH]; intros p [|[b y] k]; cbn; [done|by intros -> [? _]|by intros [-> _] ?|].
  intros (-> & r & Ha & Hl) ([= <-] & r' & Hb & Hk). rewrite Ha in Hb. injection Hb as <- <-. f_equal. by apply (IH r).
Qed.

(** No more nodes than the heap has. *)
Lemma chain_length h p l q : NoDup l.*1 → chain h p l q → (length l ≤ size h)%nat.
Proof.
  intros Hnd Hc. rewrite <- (length_fmap fst l), <- (size_list_to_set (C := gset positive)) by done.
  rewrite <- size_dom. apply subseteq_size. intros a. rewrite elem_of_list_to_set, elem_of_dom.
  by eapply chain_lookup.
Qed.
End chain.

(** ** Lists that own their nodes *)

(** The nodes allocated are those of the list [l], which starts at [p]. *)
Record owns {P A} (w : heap_of P A) (p : option positive) (l : list (positive * A)) : Prop := {
  owns_chain : chain (cells w) p l None;
  owns_nodup : NoDup l.*1;
  owns_all : ∀ a, is_Some (cells w !! a) → a ∈ l.*1;
  owns_fresh : ∀ a, a ∈ l.*1 → (a < fresh_cell w)%positive
}.

Section owns.
Context {P A : Type}.
Implicit Types (w : heap_of P A) (a : positive) (l : list (positive * A)).

Lemma owns_fuel w p l : owns w p l → (length l < walk_fuel w)%nat.
Proof. intros [? ? _ _]. unfold walk_fuel. apply le_n_S. by eapply chain_length. Qed.

Lemma owns_nil (o : P) al b : owns (mk_heap (A := A) o ∅ b al) None [].
Proof. split; [done|constructor|by intros a []|by intros a ?%elem_of_nil]. Qed.

(** The invariant depends on the nodes only. *)
Lemma owns_obj (f : P → P) w p l : owns w p l → owns (upd_obj f w) p l.
Proof. by intros []. Qed.
Lemma owns_answers al w p l : owns w p l → owns (set_cell_answers al w) p l.
Proof. by intros []. Qed.

Lemma owns_same {Q : Type} w (w' : heap_of Q A) p q l :
  cells w' = cells w → fresh_cell w' = fresh_cell w → q = p → owns w p l → owns w' q l.
Proof. intros Hc Hf -> []. split; by rewrite ?Hc, ?Hf. Qed.

Lemma owns_fresh_None w p l : owns w p l → cells w !! fresh_cell w = None.
Proof.
  intros [_ _ Ha Hf]. apply eq_None_not_Some. intros H%Ha%Hf. lia.
Qed.

Lemma owns_set_data w p l a x k y :
  owns w p (l ++ (a, x) :: k) →
  ∃ r, cells w !! a = Some (mk_cell x r) ∧
    owns (upd_cells (insert a (mk_cell y r)) w) p (l ++ (a, y) :: k).
Proof.
  intros [Hc Hnd Hall Hf]. destruct (chain_set_data _ _ _ _ _ _ _ y Hnd Hc) as (r & Ha & Hc').
  exists r. split; [done|].
  assert ((l ++ (a, y) :: k).*1 = (l ++ (a, x) :: k).*1) as E by (by rewrite !fmap_app).
  split; [done|by rewrite E| |by rewrite E].
  intros b. rewrite E. cbn. rewrite lookup_insert_is_Some.
  intros [<-|[_ Hb]]; [rewrite fmap_app; set_solver|by apply Hall].
Qed.

(** The last node of a list gets a successor. *)
Lemma owns_snoc w p l a x y :
  owns w p (l ++ [(a, x)]) →
  cells w !! a = Some (mk_cell x None) ∧
  owns (mk_heap (obj w) (<[a := mk_cell x (Some (fresh_cell w))]>
          (<[fresh_cell w := mk_cell y None]> (cells w)))
          (Pos.succ (fresh_cell w)) (cell_answers w))
    p (l ++ [(a, x)] ++ [(fresh_cell w, y)]).
Proof.
  intros Ho. pose proof (owns_fresh_None _ _ _ Ho) as Hn. destruct Ho as [Hc Hnd Hall Hf].
  apply chain_snoc in Hc as [Hc Ha]. split; [done|].
  assert (a ≠ fresh_cell w) as Hne by (intros ->; congruence).
  assert (fresh_cell w ∉ (l ++ [(a, x)]).*1) as Hni.
  { intros Hin%Hf. lia. }
  rewrite fmap_app in Hnd, Hni, Hf, Hall. cbn in *.
  apply NoDup_app in Hnd as (Hl & Hal & _).
  split; cbn.
  - apply chain_app. exists (Some a). split.
    + apply chain_insert_ne; [set_solver|]. apply chain_insert_ne; [set_solver|done].
    + cbn. split; [done|]. exists (Some (fresh_cell w)). rewrite lookup_insert_eq.
      split; [done|]. split; [done|]. exists None. split; [|done].
      rewrite lookup_insert_ne by done. apply lookup_insert_eq.
  - rewrite fmap_app. cbn. apply NoDup_app. split; [done|]. split; [set_solver|].
    apply NoDup_cons. split; [set_solver|apply NoDup_singleton].
  - intros b. rewrite fmap_app, !lookup_insert_is_Some. cbn. 
    intros [<-|[? [<-|[? Hb%Hall]]]]; set_solver.
  - intros b. rewrite fmap_app. cbn. intros Hb.
    assert (b ∈ l.*1 ++ [a] ∨ b = fresh_cell w) as [Hb'%Hf| ->] by set_solver; lia.
Qed.

(** A new first node. *)
Lemma owns_cons w p l y :
  owns w p l →
  owns (mk_heap (obj w) (<[fresh_cell w := mk_cell y p]> (cells w))
          (Pos.succ (fresh_cell w)) (cell_answers w))
    (Some (fresh_cell w)) ((fresh_cell w, y) :: l).
Proof.
  intros Ho. pose proof (owns_fresh_None _ _ _ Ho) as Hn. destruct Ho as [Hc Hnd Hall Hf].
  assert (fresh_cell w ∉ l.*1) as Hni by (intros Hin%Hf; lia).
  split; cbn.
  - split; [done|]. exists p. rewrite lookup_insert_eq. split; [done|]. by apply chain_insert_ne.
  - by apply NoDup_cons.
  - intros b. rewrite lookup_insert_is_Some. intros [<-|[_ Hb%Hall]]; set_solver.
  - intros b [->|Hb%Hf]%elem_of_cons; lia.
Qed.

(** The first node goes. *)
Lemma owns_tail w p l a x :
  owns w p ((a, x) :: l) →
  ∃ r, p = Some a ∧ cells w !! a = Some (mk_cell x r) ∧ owns (upd_cells (delete a) w) r l.
Proof.
  intros [Hc Hnd Hall Hf]. cbn in *. destruct Hc as (-> & r & Ha & Hc).
  apply NoDup_cons in Hnd as [Hni Hnd]. exists r. split_and!; [done|done|]. split; cbn.
  - by apply chain_delete_ne.
  - done.
  - intros b [Hne Hb]%lookup_delete_is_Some. apply Hall in Hb. set_solver.
  - intros b Hb. apply Hf. by right.
Qed.

(** A node after another goes: the predecessor skips it. *)
Lemma owns_unlink w p l b y a x k :
  owns w p (l ++ (b, y) :: (a, x) :: k) →
  ∃ r, cells w !! b = Some (mk_cell y (Some a)) ∧ cells w !! a = Some (mk_cell x r) ∧
    owns (upd_cells (delete a) (upd_cells (insert b (mk_cell y r)) w)) p (l ++ (b, y) :: k).
Proof.
  intros [Hc Hnd Hall Hf]. apply chain_app in Hc as (q & Hc & -> & q' & Hb & -> & r & Ha & Hk).
  exists r. split_and!; [done|done|].
  rewrite fmap_app in *. cbn in *. apply NoDup_app in Hnd as (Hl & Hlk & Hnd).
  apply NoDup_cons in Hnd as [Hb' Hnd]. apply NoDup_cons in Hnd as [Ha' Hnd].
  split; cbn.
  - apply chain_app. exists (Some b). split.
    + apply chain_delete_ne; [set_solver|]. apply chain_insert_ne; [set_solver|done].
    + cbn. split; [done|]. exists r. rewrite lookup_delete_ne by set_solver.
      rewrite lookup_insert_eq. split; [done|].
      apply chain_delete_ne; [set_solver|]. apply chain_insert_ne; [set_solver|done].
  - rewrite fmap_app. cbn. apply NoDup_app. split; [done|]. split; [set_solver|].
    apply NoDup_cons. split; [set_solver|done].
  - intros c [Hne Hc']%lookup_delete_is_Some. rewrite lookup_insert_is_Some in Hc'.
    rewrite fmap_app. cbn. destruct Hc' as [<-|[_ Hc'%Hall]]; set_solver.
  - intros c. rewrite fmap_app. cbn. intros Hin. apply Hf. set_solver.
Qed.
End owns.

(** ** Lists next to nodes that are not linked yet *)

(** The nodes allocated are those of [l] and the nodes [spare], which have no successor. *)
Record owns_but {P A} (spare : list (positive * A)) (w : heap_of P A) (p : option positive)
    (l : list (positive * A)) : Prop := {
  ob_chain : chain (cells w) p l None;
  ob_nodup : NoDup (l ++ spare).*1;
  ob_all : ∀ a, is_Some (cells w !! a) → a ∈ (l ++ spare).*1;
  ob_fresh : ∀ a, a ∈ (l ++ spare).*1 → (a < fresh_cell w)%positive;
  ob_spare : ∀ a x, (a, x) ∈ spare → cells w !! a = Some (mk_cell x None)
}.

Section owns_but.
Context {P A : Type}.
Implicit Types (w : heap_of P A) (a : positive) (l spare : list (positive * A)).

Lemma owns_but_nil w p l : owns w p l ↔ owns_but [] w p l.
Proof. split; intros [? Hn Ha Hf]; split; rewrite ?app_nil_r in *; try done. by intros a x ?%elem_of_nil. Qed.

Lemma ob_nodup_l spare w p l : owns_but spare w p l → NoDup l.*1.
Proof. intros [_ Hn _ _ _]. rewrite fmap_app in Hn. by apply NoDup_app in Hn as [? _]. Qed.

Lemma owns_but_fuel spare w p l : owns_but spare w p l → (length l < walk_fuel w)%nat.
Proof. intros Ho. apply le_n_S. eapply chain_length; [by eapply ob_nodup_l|apply Ho]. Qed.

Lemma owns_but_same {Q} spare w (w' : heap_of Q A) p q l :
  cells w' = cells w → fresh_cell w' = fresh_cell w → q = p → owns_but spare w p l → owns_but spare w' q l.
Proof. intros Hc Hf -> []. split; by rewrite ?Hc, ?Hf. Qed.

Lemma owns_but_perm spare spare' w p l : spare ≡ₚ spare' → owns_but spare w p l → owns_but spare' w p l.
Proof.
  intros Hp [H1 H2 H3 H4 H5]. split; [done|by rewrite <- Hp| | |].
  - intros a. rewrite <- Hp. apply H3.
  - intros a. rewrite <- Hp. apply H4.
  - intros a x. rewrite <- Hp. apply H5.
Qed.

Lemma owns_but_set_data spare w p l a x k y :
  owns_but spare w p (l ++ (a, x) :: k) →
  ∃ r, cells w !! a = Some (mk_cell x r) ∧
    owns_but spare (upd_cells (insert a (mk_cell y r)) w) p (l ++ (a, y) :: k).
Proof.
  intros Ho. destruct (chain_set_data _ _ _ _ _ _ _ y (ob_nodup_l _ _ _ _ Ho) (ob_chain _ _ _ _ Ho)) as (r & Ha & Hc').
  destruct Ho as [Hc Hnd Hall Hf Hs]. exists r. split; [done|].
  assert (((l ++ (a, y) :: k) ++ spare).*1 = ((l ++ (a, x) :: k) ++ spare).*1) as E by (by rewrite !fmap_app).
  split; [done|by rewrite E| |by rewrite E|].
  - intros b. rewrite E. cbn. rewrite lookup_insert_is_Some.
    intros [<-|[_ Hb]]; [rewrite !fmap_app; set_solver|by apply Hall].
  - intros b z Hin. cbn. rewrite lookup_insert_ne; [by apply Hs|]. intros <-.
    rewrite fmap_app in Hnd. apply NoDup_app in Hnd as (_ & Hd & _). apply (Hd a); [rewrite fmap_app; set_solver|].
    by apply (list_elem_of_fmap_2 fst spare (a, z)).
Qed.

(** A new node is spare. *)
Lemma owns_but_new spare w p l x :
  owns_but spare w p l →
  owns_but ((fresh_cell w, x) :: spare)
    (mk_heap (obj w) (<[fresh_cell w := mk_cell x None]> (cells w)) (Pos.succ (fresh_cell w)) (cell_answers w)) p l.
Proof.
  intros [Hc Hnd Hall Hf Hs].
  assert (fresh_cell w ∉ (l ++ spare).*1) as Hni by (intros Hin%Hf; lia).
  assert ((l ++ (fresh_cell w, x) :: spare).*1 ≡ₚ fresh_cell w :: (l ++ spare).*1) as Hq
    by by rewrite <- Permutation_middle.
  split; cbn [cells fresh_cell]; rewrite ?Hq.
  - apply chain_insert_ne; [|done]. rewrite fmap_app in Hni. set_solver.
  - by apply NoDup_cons.
  - intros a. rewrite Hq, lookup_insert_is_Some. intros [<-|[_ Ha%Hall]]; set_solver.
  - intros a. rewrite Hq. intros [->|Ha%Hf]%elem_of_cons; lia.
  - intros a y [[= -> ->]|Hin]%elem_of_cons; [by rewrite lookup_insert_eq|].
    rewrite lookup_insert_ne; [by apply Hs|]. intros <-. apply Hni. rewrite fmap_app. apply elem_of_app. right.
    by apply (list_elem_of_fmap_2 fst spare (fresh_cell w, y)).
Qed.

(** A spare node becomes the first of an empty list, ... *)
Lemma owns_but_first spare w b x :
  owns_but ((b, x) :: spare) w None [] → owns_but spare w (Some b) [(b, x)].
Proof.
  intros [_ Hnd Hall Hf Hs]. split; try done; [|intros; apply Hs; by right].
  split; [done|]. exists None. split; [apply Hs; by left|done].
Qed.

(** ... or of any list, ... *)
Lemma owns_but_push spare w p l b x :
  owns_but ((b, x) :: spare) w p l →
  cells w !! b = Some (mk_cell x None) ∧
  owns_but spare (upd_cells (insert b (mk_cell x p)) w) (Some b) ((b, x) :: l).
Proof.
  intros [Hc Hnd Hall Hf Hs]. split; [apply Hs; by left|].
  assert ((l ++ (b, x) :: spare).*1 ≡ₚ (((b, x) :: l) ++ spare).*1) as Hq by by rewrite <- Permutation_middle.
  rewrite Hq in Hnd. pose proof Hnd as Hnd'. cbn in Hnd'. apply NoDup_cons in Hnd' as [Hb _]. rewrite fmap_app in Hb.
  split; cbn [cells fresh_cell upd_cells].
  - cbn. split; [done|]. exists p. rewrite lookup_insert_eq. split; [done|]. apply chain_insert_ne; [set_solver|done].
  - done.
  - intros a. rewrite <- Hq, lookup_insert_is_Some. intros [<-|[_ Ha]]; [rewrite Hq; by left|by apply Hall].
  - intros a. rewrite <- Hq. apply Hf.
  - intros a y Hin. rewrite lookup_insert_ne; [apply Hs; by right|]. intros <-. apply Hb, elem_of_app. right.
    by apply (list_elem_of_fmap_2 fst spare (b, y)).
Qed.

(** ... or the last of one. *)
Lemma owns_but_last spare w p l a x b y :
  owns_but ((b, y) :: spare) w p (l ++ [(a, x)]) →
  cells w !! a = Some (mk_cell x None) ∧
  owns_but spare (upd_cells (insert a (mk_cell x (Some b))) w) p (l ++ [(a, x)] ++ [(b, y)]).
Proof.
  intros [Hc Hnd Hall Hf Hs]. apply chain_snoc in Hc as [Hc Ha]. split; [done|].
  assert ((l ++ [(a, x)]) ++ (b, y) :: spare = (l ++ [(a, x)] ++ [(b, y)]) ++ spare) as E by (by rewrite <- !app_assoc).
  rewrite E in *. assert (NoDup (l.*1 ++ a :: b :: spare.*1)) as Hnd' by (by rewrite <- app_assoc, !fmap_app in Hnd).
  apply NoDup_app in Hnd' as (_ & Hl & [Hab [Hb _]%NoDup_cons]%NoDup_cons).
  split; cbn [cells fresh_cell upd_cells]; try done.
  - apply chain_app. exists (Some a). split; [apply chain_insert_ne; [set_solver|done]|]. cbn.
    split; [done|]. exists (Some b). rewrite lookup_insert_eq. split; [done|]. split; [done|]. exists None.
    split; [|done]. rewrite lookup_insert_ne by set_solver. apply Hs. by left.
  - intros c. rewrite lookup_insert_is_Some. intros [<-|[_ Hc']]; [|by apply Hall]. rewrite !fmap_app. set_solver.
  - intros c z Hin. rewrite lookup_insert_ne; [apply Hs; by right|]. intros <-. apply Hab. right.
    by apply (list_elem_of_fmap_2 fst spare (a, z)).
Qed.
End owns_but.

(** ** Freeing a whole list *)

Section free.
Context {P A : Type}.
Implicit Types (w : heap_of P A) (l : list (positive * A)).

(** The loop that frees the nodes one after the other, reading the next pointer first. *)
Fixpoint free_chain (fuel : nat) (p : option positive) : M (heap_of P A) () :=
  match p with
  | None => mret ()
  | Some a =>
      match fuel with
      | O => fail OutOfFuel
      | S fuel =>
          c ← read_cell a;
          _ ← free_cell a;
          free_chain fuel (next c)
      end
  end.

Lemma owns_empty w l : owns w None l → l = [] ∧ cells w = ∅.
Proof.
  intros Ho. destruct l as [|[a x] l]; [|by destruct (owns_chain _ _ _ Ho)]. split; [done|].
  apply map_empty. intros a. apply eq_None_not_Some. by intros ?%(owns_all _ _ _ Ho)%elem_of_nil.
Qed.

Lemma free_chain_run n p l w :
  owns w p l → (length l ≤ n)%nat →
  free_chain n p w = Ret ((), upd_cells (λ _, ∅) w).
Proof.
  revert p l w. induction n as [|n IH]; intros p l w Ho Hn; (destruct l as [|[a x] l]; [|try (cbn in Hn; lia)]).
  1,2: pose proof (owns_chain _ _ _ Ho) as Hp; cbn in Hp; subst p; destruct (owns_empty _ _ Ho) as [_ Hc];
    cbn; unfold upd_cells; rewrite <- Hc; by destruct w.
  destruct (owns_tail _ _ _ _ _ Ho) as (r & -> & Hx & Ho'). cbn [free_chain].
  mstep (read_cell_run _ _ _ Hx).
  mstep (free_cell_run _ _ _ Hx). cbn [next].
  by rewrite (IH _ _ _ Ho' ltac:(cbn in Hn; lia)).
Qed.
(** ... and a list among others. *)
Lemma free_chain_part n p l w :
  chain (cells w) p l None → NoDup l.*1 → (length l ≤ n)%nat →
  ∃ w', free_chain n p w = Ret ((), w') ∧ obj w' = obj w ∧ fresh_cell w' = fresh_cell w ∧
    ∀ a, cells w' !! a = if decide (a ∈ l.*1) then None else cells w !! a.
Proof.
  revert p l w. induction n as [|n IH]; intros p l w Hc Hnd Hn; (destruct l as [|[a x] l]; [|try (cbn in Hn; lia)]).
  1,2: cbn in Hc; subst p; exists w; split_and!; [done..|]; intros a; rewrite decide_False; [done|];
    by intros ?%elem_of_nil.
  destruct Hc as (-> & r & Ha & Hc). cbn in Hnd. apply NoDup_cons in Hnd as [Hni Hnd]. cbn [free_chain].
  mstep (read_cell_run _ _ _ Ha).
  mstep (free_cell_run _ _ _ Ha). cbn [next].
  destruct (IH r l (upd_cells (delete a) w)) as (w' & E & Ho & Hf & Hw); [by apply chain_delete_ne|done|cbn in Hn; lia|].
  exists w'. split_and!; [done|done|done|]. intros b. rewrite Hw. cbn.
  destruct (decide (b = a)) as [->|Hne].
  - rewrite decide_False by done. rewrite decide_True by (by left). apply lookup_delete_eq.
  - rewrite lookup_delete_ne by done. destruct (decide (b ∈ l.*1)).
    + rewrite decide_True by (by right). done.
    + rewrite decide_False by (by apply not_elem_of_cons). done.
Qed.
End free.
