(* ===== verification/CStrings.v ===== *)
(** * The C string functions the address parsers and the reflection names use

    [strchr], [strncpy], [atoi] and [snprintf] of ["%s"] pieces, with the decimal notation
    [atoi] reads back. *)

From Stdlib Require Import ZArith Lia Ascii.
From stdpp Require Import base tactics list option strings gmap.
From S2P Require Import Prelude.

#[local] Open Scope Z_scope.
#[local] Set Warnings "-clear-no-such-hyp".

(** A string literal of the source. *)
Definition lit (s : string) : list Z := ((λ c, Z.of_N (N_of_ascii c)) <$> String.list_ascii_of_string s) ++ [0].

(** ** The functions *)

(** The position of the first [c] before the terminator. *)
Fixpoint strchr (s : list Z) (c : Z) : option nat :=
  match s with
  | [] => None
  | b :: s => if b =? c then Some O else if b =? 0 then None else S <$> strchr s c
  end.

(** [strncpy (dst, src, n)]: the characters of [src], at most [n], then zeros up to [n]. *)
Definition strncpy (dst src : list Z) (n : nat) : outcome (list Z) :=
  if decide (n ≤ length dst)%nat
  then Ret (take n (c_str src ++ replicate n 0) ++ drop n dst)
  else Fault OutOfBounds.

Definition is_space (b : Z) : bool := (b =? 32) || (9 <=? b) && (b <=? 13).
Definition is_digit (b : Z) : bool := (48 <=? b) && (b <=? 57).

Fixpoint skip_space (s : list Z) : list Z :=
  match s with
  | b :: s' => if is_space b then skip_space s' else s
  | [] => []
  end.
Fixpoint read_digits (s : list Z) (acc : Z) : Z :=
  match s with
  | b :: s => if is_digit b then read_digits s (acc * 10 + (b - 48)) else acc
  | [] => acc
  end.

(** The value of a number that is not an [int] is undefined. *)
Definition atoi (s : list Z) : outcome Z :=
  let s := skip_space s in
  let v := match s with
           | 45 :: s => - read_digits s 0
           | 43 :: s => read_digits s 0
           | _ => read_digits s 0
           end in
  if (- 2 ^ 31 <=? v) && (v <? 2 ^ 31) then Ret v else Fault SignedOverflow.

(** What [snprintf] leaves in a block of [len] bytes for the characters [text]. *)
Definition snprintf (len : Z) (text : list Z) : list Z :=
  if 0 <? len then take (Z.to_nat (len - 1)) text ++ [0] else [].

(** ** Facts *)

Lemma strchr_Some pre c tl : nul_free pre → c ∉ pre → strchr (pre ++ c :: tl) c = Some (length pre).
Proof.
  induction 1 as [|b pre Hb _ IH]; intros Hc; cbn; [by rewrite Z.eqb_refl|].
  apply not_elem_of_cons in Hc as [Hbc Hc].
  destruct (Z.eqb_spec b c); [congruence|]. destruct (Z.eqb_spec b 0); [done|]. by rewrite IH.
Qed.

Lemma strchr_None s c tl : nul_free s → c ∉ s → c ≠ 0 → strchr (s ++ 0 :: tl) c = None.
Proof.
  induction 1 as [|b s Hb _ IH]; intros Hc H0; cbn [app strchr].
  - destruct (Z.eqb_spec 0 c); [congruence|done].
  - apply not_elem_of_cons in Hc as [Hbc Hc].
    destruct (Z.eqb_spec b c); [congruence|]. destruct (Z.eqb_spec b 0); [done|]. by rewrite IH.
Qed.

(** Every string is split by its first [c], or has none. *)
Lemma strchr_split s c :
  c ≠ 0 →
  match strchr s c with
  | Some n => ∃ pre tl, s = pre ++ c :: tl ∧ n = length pre ∧ nul_free pre ∧ c ∉ pre
  | None => c ∉ c_str s
  end.
Proof.
  intros Hc. induction s as [|b s IH]; [cbn; by intros ?%elem_of_nil|]. cbn [strchr].
  destruct (Z.eqb_spec b c) as [->|Hb].
  { exists [], s. split_and!; [done|done|constructor|by intros ?%elem_of_nil]. }
  unfold c_str in *. cbn [c_strlen_nat]. destruct (Z.eqb_spec b 0); [by intros ?%elem_of_nil|].
  destruct (strchr s c) as [k|]; cbn.
  - destruct IH as (pre & tl & -> & -> & Hp & Hn). exists (b :: pre), tl.
    split_and!; [done|done|by constructor|by apply not_elem_of_cons].
  - by apply not_elem_of_cons.
Qed.

Lemma strncpy_whole dst s tl n :
  nul_free s → (length s = n)%nat → (n ≤ length dst)%nat →
  strncpy dst (s ++ tl) n = Ret (s ++ drop n dst).
Proof.
  intros Hs Hn Hd. unfold strncpy. rewrite decide_True by done. do 2 f_equal.
  assert (∃ k, c_str (s ++ tl) = s ++ k) as [k ->].
  { clear Hn Hd. exists (c_str tl). unfold c_str. induction Hs as [|b s Hb _ IH]; [done|]. cbn.
    destruct (Z.eqb_spec b 0); [done|]. cbn. by rewrite IH. }
  rewrite <- app_assoc, <- Hn. by rewrite take_app_length.
Qed.

(** With room for [n] characters and a terminator, the copy is the string cut after [n]. *)
Lemma strncpy_cut dst src n :
  length dst = S n →
  ∃ m, strncpy dst src n = Ret m ∧ length m = S n ∧ c_str (<[n := 0]> m) = take n (c_str src).
Proof.
  intros Hd. unfold strncpy. rewrite decide_True by lia. eexists. split; [done|].
  assert (length (take n (c_str src ++ replicate n 0)) = n) as Hl.
  { rewrite length_take, length_app, length_replicate. lia. }
  assert (∃ b, drop n dst = [b]) as [b ->].
  { destruct (drop n dst) as [|b [|b' l]] eqn:E; apply (f_equal length) in E;
      rewrite length_drop in E; cbn in E; [lia|by eexists|lia]. }
  split; [rewrite length_app, Hl; cbn; lia|].
  rewrite insert_app_r_alt, Hl, Nat.sub_diag by lia. cbn.
  pose proof (c_str_nul_free src) as Hn. revert Hn Hl. generalize (c_str src). intros s Hn _.
  destruct (decide (n ≤ length s)%nat) as [Hle|Hlt].
  - rewrite take_app_le by done. apply c_str_terminated. by apply Forall_take.
  - rewrite take_app_ge, (take_ge s n) by lia. rewrite <- app_assoc.
    assert (∃ k, take (n - length s) (replicate n 0) ++ [0] = 0 :: k) as [k ->].
    { destruct (n - length s)%nat as [|j] eqn:Ej; [by eexists|]. destruct n; [lia|]. by eexists. }
    by apply c_str_terminated.
Qed.

(** ** Decimal notation *)

Fixpoint decimal_digits (n : nat) (v : Z) : list Z :=
  match n with
  | O => []
  | S n => if v <? 10 then [48 + v] else decimal_digits n (v / 10) ++ [48 + v mod 10]
  end.
(** Ten digits are enough for an [int]. *)
Definition decimal (v : Z) : list Z := decimal_digits 10 v.

Lemma decimal_digits_ok n v : 0 ≤ v → Forall (λ b, 48 ≤ b ≤ 57) (decimal_digits n v).
Proof.
  revert v. induction n as [|n IH]; intros v Hv; cbn; [constructor|].
  destruct (Z.ltb_spec v 10); [constructor; [lia|constructor]|].
  apply Forall_app. split; [apply IH; apply Z.div_pos; lia|].
  constructor; [|constructor]. pose proof (Z.mod_pos_bound v 10). lia.
Qed.

Lemma read_digits_app ds tl acc :
  Forall (λ b, 48 ≤ b ≤ 57) ds →
  read_digits (ds ++ tl) acc = read_digits tl (fold_left (λ a b, a * 10 + (b - 48)) ds acc).
Proof.
  intros H. revert acc. induction H as [|b ds Hb _ IH]; intros acc; cbn; [done|].
  unfold is_digit. destruct (Z.leb_spec 48 b), (Z.leb_spec b 57); try lia. apply IH.
Qed.

Lemma decimal_digits_value n v :
  0 ≤ v < 10 ^ Z.of_nat n → fold_left (λ a b, a * 10 + (b - 48)) (decimal_digits n v) 0 = v.
Proof.
  revert v. induction n as [|n IH]; intros v Hv; [cbn in *; lia|].
  cbn [decimal_digits]. destruct (Z.ltb_spec v 10); [cbn; lia|].
  rewrite fold_left_app. rewrite Nat2Z.inj_succ, Z.pow_succ_r in Hv by lia.
  rewrite IH.
  - cbn. pose proof (Z.div_mod v 10). lia.
  - split; [apply Z.div_pos; lia|apply Z.div_lt_upper_bound; lia].
Qed.

Lemma decimal_head n v : 0 ≤ v → (0 < n)%nat → ∃ b ds, decimal_digits n v = b :: ds ∧ 48 ≤ b ≤ 57.
Proof.
  intros Hv Hn. pose proof (decimal_digits_ok n v Hv) as H.
  destruct (decimal_digits n v) as [|b ds] eqn:E; [|apply Forall_cons in H as [? _]; by exists b, ds].
  destruct n; [lia|]. cbn in E. destruct (v <? 10); [done|]. by apply app_eq_nil in E as [_ ?].
Qed.

(** [atoi] reads decimal notation back. *)
Lemma atoi_decimal v tl : 0 ≤ v < 2 ^ 31 → atoi (decimal v ++ 0 :: tl) = Ret v.
Proof.
  intros Hv. unfold atoi, decimal. destruct (decimal_head 10 v) as (b & ds & E & Hb); [lia|lia|].
  assert (read_digits (decimal_digits 10 v ++ 0 :: tl) 0 = v) as Hr.
  { rewrite read_digits_app by (apply decimal_digits_ok; lia). rewrite decimal_digits_value by lia. done. }
  rewrite E in *. cbn [app skip_space]. unfold is_space.
  destruct (Z.eqb_spec b 32), (Z.leb_spec 9 b), (Z.leb_spec b 13); try lia; cbn [orb andb].
  all: assert (match b :: ds ++ 0 :: tl with 45 :: s => - read_digits s 0 | 43 :: s => read_digits s 0
    | _ => read_digits (b :: ds ++ 0 :: tl) 0 end = v) as ->
    by (assert (∃ k, b = 48 + k ∧ 0 ≤ k ≤ 9) as (k & -> & Hk) by (exists (b - 48); lia);
        assert (k = 0 ∨ k = 1 ∨ k = 2 ∨ k = 3 ∨ k = 4 ∨ k = 5 ∨ k = 6 ∨ k = 7 ∨ k = 8 ∨ k = 9) as Hk' by lia;
        repeat (destruct Hk' as [->|Hk']; [exact Hr|]); subst k; exact Hr).
  all: destruct (Z.leb_spec (- 2 ^ 31) v), (Z.ltb_spec v (2 ^ 31)); lia || done.
Qed.

Lemma decimal_nul_free v : 0 ≤ v → nul_free (decimal v).
Proof. intros Hv. eapply Forall_impl; [by apply decimal_digits_ok|]. cbn. lia. Qed.

Example atoi_port : atoi [32; 56; 48; 56; 48; 47; 0] = Ret 8080.
Proof. reflexivity. Qed.

(** [snprintf] with room for the text and its terminator. *)
Lemma snprintf_fits len text : zlen text < len → nul_free text → c_str (snprintf len text) = text.
Proof.
  intros Hl Hn. unfold snprintf. destruct (Z.ltb_spec 0 len); [|lia].
  rewrite take_ge by lia. by apply c_str_terminated.
Qed.

(** An address as the parsers expect it: a host without colons, a colon, a port. *)
Definition host_port (host : list Z) (port : Z) : list Z := host ++ 58 :: decimal port ++ [0].

Lemma c_str_host_port host port :
  nul_free host → 0 ≤ port → c_str (host_port host port) ++ [0] = host_port host port.
Proof.
  intros Hn Hp. pose proof (decimal_nul_free port Hp) as Hd. unfold host_port.
  rewrite app_comm_cons, app_assoc, c_str_terminated; [done|].
  apply Forall_app. split; [done|]. by constructor.
Qed.

Lemma drop_host_port host port :
  drop (S (length host)) (host_port host port) = decimal port ++ [0].
Proof. unfold host_port. by rewrite drop_app_ge, Nat.sub_succ_l, Nat.sub_diag by lia. Qed.
