(* ===== verification/HpackTable.v ===== *)
(** * The static table of HPACK (src/src/hpack.c)

    The table of the common header fields, which the file has and its code does not use, and what a
    decoder does with fields that refer to it. *)

From Stdlib Require Import ZArith Lia.
From stdpp Require Import base tactics list option strings gmap.
From S2P Require Import Prelude Metadata Hpack CStrings.

#[local] Open Scope Z_scope.
#[local] Set Warnings "-clear-no-such-hyp".

Definition HPACK_STATIC_TABLE_SIZE : Z := 62.

Record hpack_static_entry := mk_static { static_name : option (list Z); static_value : option (list Z) }.

Definition static (name value : string) : hpack_static_entry := mk_static (Some (lit name)) (Some (lit value)).

Definition hpack_static_table : list hpack_static_entry := [
  mk_static None None;
  static ":authority" EmptyString;
  static ":method" "GET";
  static ":method" "POST";
  static ":path" "/";
  static ":path" "/index.html";
  static ":scheme" "http";
  static ":scheme" "https";
  static ":status" "200";
  static ":status" "204";
  static ":status" "206";
  static ":status" "304";
  static ":status" "400";
  static ":status" "404";
  static ":status" "500";
  static "accept-charset" EmptyString;
  static "accept-encoding" "gzip, deflate";
  static "accept-language" EmptyString;
  static "accept-ranges" EmptyString;
  static "accept" EmptyString;
  static "access-control-allow-origin" EmptyString;
  static "age" EmptyString;
  static "allow" EmptyString;
  static "authorization" EmptyString;
  static "cache-control" EmptyString;
  static "content-disposition" EmptyString;
  static "content-encoding" EmptyString;
  static "content-language" EmptyString;
  static "content-length" EmptyString;
  static "content-location" EmptyString;
  static "content-range" EmptyString;
  static "content-type" EmptyString;
  static "cookie" EmptyString;
  static "date" EmptyString;
  static "etag" EmptyString;
  static "expect" EmptyString;
  static "expires" EmptyString;
  static "from" EmptyString;
  static "host" EmptyString;
  static "if-match" EmptyString;
  static "if-modified-since" EmptyString;
  static "if-none-match" EmptyString;
  static "if-range" EmptyString;
  static "if-unmodified-since" EmptyString;
  static "last-modified" EmptyString;
  static "link" EmptyString;
  static "location" EmptyString;
  static "max-forwards" EmptyString;
  static "proxy-authenticate" EmptyString;
  static "proxy-authorization" EmptyString;
  static "range" EmptyString;
  static "referer" EmptyString;
  static "refresh" EmptyString;
  static "retry-after" EmptyString;
  static "server" EmptyString;
  static "set-cookie" EmptyString;
  static "strict-transport-security" EmptyString;
  static "transfer-encoding" EmptyString;
  static "user-agent" EmptyString;
  static "vary" EmptyString;
  static "via" EmptyString;
  static "www-authenticate" EmptyString
].

(** ** The table is the one of RFC 7541 *)

Definition fields : list (list Z * list Z) :=
  omap (λ e, n ← static_name e; v ← static_value e; Some (n, v)) hpack_static_table.

Definition lower_case (s : list Z) : bool := forallb (λ b, negb ((65 <=? b) && (b <=? 90))) s.

(** All 61 fields of appendix A are there, behind an entry that is not used, once each and with names
    in lower case: the table is complete, and not a part as its comment says. *)
Example static_table_complete :
  zlen hpack_static_table = HPACK_STATIC_TABLE_SIZE ∧ length fields = 61%nat ∧ NoDup fields ∧
  forallb (λ f, lower_case f.1) fields = true.
Proof. split; [reflexivity|]. split; [reflexivity|]. split; [by apply (bool_decide_unpack _)|reflexivity]. Qed.

(** The field that an indexed representation, a byte with its highest bit set, stands for (section
    6.1), as far as it is in the static table. *)
Definition indexed_field (b : Z) : option (list Z * list Z) :=
  if Z.land b 0x80 =? 0 then None else
  e ← hpack_static_table !! Z.to_nat (Z.land b 0x7F); n ← static_name e; v ← static_value e; Some (n, v).

(** ** The decoder does not look at the representation *)

Lemma offset_behind b b' rest k : 1 ≤ k → offset (b' :: rest) k = offset (b :: rest) k.
Proof.
  intros Hk. unfold offset. cbn [length]. destruct (_ || _); [done|].
  by replace (Z.to_nat k) with (S (Z.to_nat (k - 1))) by lia.
Qed.

Lemma offset_cons b rest k : 1 ≤ k ≤ zlen (b :: rest) → offset (b :: rest) k = Ret (drop (Z.to_nat (k - 1)) rest).
Proof.
  intros Hk. unfold offset. destruct (Z.ltb_spec k 0), (Z.ltb_spec (zlen (b :: rest)) k); try lia. cbn [orb].
  by replace (Z.to_nat k) with (S (Z.to_nat (k - 1))) by lia.
Qed.

Lemma decode_string_behind b b' rest n pos al :
  1 ≤ pos ≤ n → bytes_ok rest → n ≤ zlen (b :: rest) → n < 2 ^ 31 →
  decode_string (b' :: rest) n pos al = decode_string (b :: rest) n pos al.
Proof.
  intros Hpos Hb Hn Hmax. unfold decode_string, copy_string.
  rewrite (offset_behind b b') by lia.
  rewrite !(M_bind_lift _ _ _ _ (offset_cons b rest pos ltac:(lia))), u64_small by lia.
  destruct (decode_integer_total (drop (Z.to_nat (pos - 1)) rest) (n - pos) 7) as (r & E & Hr);
    [lia|by apply Forall_drop|rewrite length_drop; cbn in Hn; lia|].
  rewrite !(M_bind_lift _ _ _ _ E). destruct r as [[k v]|]; [|done]. destruct (Z.ltb_spec k 0); [lia|].
  cbv zeta. by rewrite (offset_behind b) by (rewrite u64_small; lia).
Qed.

(** Whatever the first byte of a field, the decoder takes what follows for a literal name and value:
    indexed fields, the only ones of most requests of other libraries, are not recognised. *)
Theorem hpack_representation_ignored b b' rest n al :
  bytes_ok (b :: rest) → n ≤ zlen (b :: rest) → n < 2 ^ 31 →
  hpack_decode_literal_header (Some (b' :: rest)) n al = hpack_decode_literal_header (Some (b :: rest)) n al.
Proof.
  intros Hb Hn Hmax. unfold hpack_decode_literal_header. destruct (Z.ltb_spec n 2); [done|].
  unfold mbind at 1 3, M_bind at 1 3.
  rewrite (decode_string_behind b) by (try apply Forall_cons in Hb as [_ Hb]; done || lia).
  destruct (decode_string_total (b :: rest) n 1 al) as (o & al' & E & Ho); [done|done|lia|lia|]. rewrite E.
  destruct o as [[pos k]|]; [|done]. unfold mbind, M_bind.
  by rewrite (decode_string_behind b) by (try apply Forall_cons in Hb as [_ Hb]; done || lia).
Qed.

(** The block of the field with index 2, [":method"] with the value ["GET"], and two more bytes: the
    decoder's field has an empty name and value. *)
Example indexed_field_misread :
  indexed_field 0x82 = Some (lit ":method", lit "GET") ∧
  hpack_decode_literal_header (Some [0x82; 0; 0]) 3 [] = Ret (Some (3, ([0], [0])), []).
Proof. done. Qed.

Lemma hpack_representation_ignored_witness :
  hpack_decode_literal_header (Some [0x82; 1; 97; 1; 98]) 5 [] = hpack_decode_literal_header (Some [0; 1; 97; 1; 98]) 5 [].
Proof. apply (hpack_representation_ignored 0 0x82 [1; 97; 1; 98] 5 []); [repeat constructor; lia|cbn; lia|lia]. Defined.
