(* ===== verification/CompletionQueue.v ===== *)
(** * Completion queues (src/src/grpc_core.c)

    The queue of events, its blocking [next], and the events other threads bring while a
    call waits. *)

From Stdlib Require Import ZArith Lia.
From stdpp Require Import base tactics list option strings gmap.
From S2P Require Import Prelude Lists.

#[local] Open Scope Z_scope.
#[local] Set Warnings "-clear-no-such-hyp".

(** ** Data *)

(** [grpc_event]: [ev_tag] is the caller's pointer. *)
Record grpc_event := mk_event {
  ev_type : Z;
  ev_success : bool;
  ev_tag : option positive
}.

#[export] Instance grpc_event_eq_dec : EqDecision grpc_event.
Proof. solve_decision. Defined.

Inductive grpc_completion_type := GRPC_CQ_NEXT | GRPC_CQ_PLUCK.

Record grpc_completion_queue := mk_cq {
  cq_type : grpc_completion_type;
  cq_mutex : bool;
  cq_head : option positive;
  cq_tail : option positive;
  cq_shutdown : bool
}.

(** A queue with its [completion_queue_event] nodes. *)
Abbreviation cq_state := (heap_of grpc_completion_queue grpc_event).

Definition set_cq_mutex (b : bool) (c : grpc_completion_queue) : grpc_completion_queue :=
  mk_cq (cq_type c) b (cq_head c) (cq_tail c) (cq_shutdown c).
Definition set_cq_head (h : option positive) (c : grpc_completion_queue) : grpc_completion_queue :=
  mk_cq (cq_type c) (cq_mutex c) h (cq_tail c) (cq_shutdown c).
Definition set_cq_tail (t : option positive) (c : grpc_completion_queue) : grpc_completion_queue :=
  mk_cq (cq_type c) (cq_mutex c) (cq_head c) t (cq_shutdown c).
Definition set_cq_shutdown (c : grpc_completion_queue) : grpc_completion_queue :=
  mk_cq (cq_type c) (cq_mutex c) (cq_head c) (cq_tail c) true.

Definition cq_lock : M cq_state () := λ w,
  if cq_mutex (obj w) then Fault Deadlock else Ret ((), upd_obj (set_cq_mutex true) w).
Definition cq_unlock : M cq_state () := modify (upd_obj (set_cq_mutex false)).

(** ** Operations *)

Definition grpc_completion_queue_create (type : grpc_completion_type)
    : M allocs (option grpc_completion_queue) :=
  ok ← malloc;
  if negb ok then mret None
  else mret (Some (mk_cq type false None None false)).

(** The node of a new event; it is nobody else's yet. *)
Definition new_event (event : grpc_event) : M cq_state (option positive) :=
  ok ← malloc_cell;
  if negb ok then mret None else
  ev ← new_cell (mk_cell event None);
  mret (Some ev).

(** The node becomes the last one. *)
Definition link_event (ev : positive) : M cq_state () :=
  c ← gets obj;
  _ ← match cq_tail c with
      | Some t => last ← read_cell t; write_cell t (mk_cell (data last) (Some ev))
      | None => modify (upd_obj (set_cq_head (Some ev)))
      end;
  modify (upd_obj (set_cq_tail (Some ev))).

(** The event is lost when its node cannot be had. *)
Definition completion_queue_push_event (event : grpc_event) : M (option cq_state) () := nullable () (
  node ← new_event event;
  match node with
  | None => mret ()
  | Some ev =>
      _ ← cq_lock;
      _ ← link_event ev;
      cq_unlock
  end).

Definition grpc_completion_queue_shutdown : M (option cq_state) () := nullable () (
  _ ← cq_lock;
  _ ← modify (upd_obj set_cq_shutdown);
  cq_unlock).

(** What other threads do to the queue while a call waits on its condition variable with
    the mutex released, and how the wait ends: the thread is woken (by a signal, or for no
    reason), or the deadline has passed. *)
Inductive other_op :=
| PushEvent (e : grpc_event)
| Shutdown.
Inductive wait_result :=
| Woken (os : list other_op)
| TimedOut (os : list other_op).

Definition run_other (o : other_op) : M (option cq_state) () :=
  match o with
  | PushEvent e => completion_queue_push_event e
  | Shutdown => grpc_completion_queue_shutdown
  end.
Fixpoint run_others (os : list other_op) : M (option cq_state) () :=
  match os with
  | [] => mret ()
  | o :: os => _ ← run_other o; run_others os
  end.

(** [pthread_cond_timedwait]: the others run between the release of the mutex and its
    acquisition. *)
Definition cond_timedwait (os : list other_op) : M cq_state () :=
  _ ← cq_unlock;
  _ ← deref (run_others os);
  cq_lock.

(** The loop of [grpc_completion_queue_next]: [true] when an event or the shutdown ended
    it, [false] when the deadline did.  Once the given waits are used up, the deadline
    passes. *)
Fixpoint wait_loop (ws : list wait_result) : M cq_state bool :=
  c ← gets obj;
  match cq_head c with
  | None =>
      if cq_shutdown c then mret true else
      match ws with
      | [] => _ ← cond_timedwait []; mret false
      | TimedOut os :: _ => _ ← cond_timedwait os; mret false
      | Woken os :: ws => _ ← cond_timedwait os; wait_loop ws
      end
  | Some _ => mret true
  end.

Definition no_queue_event : grpc_event := mk_event (-1) false None.
Definition timeout_event : grpc_event := mk_event 0 false None.
Definition shutdown_event : grpc_event := mk_event 1 false None.

(** The first node [ev] goes, and its event is returned. *)
Definition take_event (ev : positive) : M cq_state grpc_event :=
  node ← read_cell ev;
  _ ← modify (upd_obj (set_cq_head (next node)));
  _ ← (match next node with
       | None => modify (upd_obj (set_cq_tail None))
       | Some _ => mret ()
       end);
  _ ← free_cell ev;
  mret (data node).

Definition grpc_completion_queue_next (ws : list wait_result) : M (option cq_state) grpc_event :=
  nullable no_queue_event (
  _ ← cq_lock;
  ready ← wait_loop ws;
  if negb ready then _ ← cq_unlock; mret timeout_event else
  c ← gets obj;
  match cq_head c with
  | None => _ ← cq_unlock; mret shutdown_event
  | Some ev =>
      event ← take_event ev;
      _ ← cq_unlock;
      mret event
  end).

Fixpoint free_events (fuel : nat) (ev : option positive) : M cq_state () :=
  match ev with
  | None => mret ()
  | Some ev =>
      match fuel with
      | O => fail OutOfFuel
      | S fuel =>
          node ← read_cell ev;
          _ ← free_cell ev;
          free_events fuel (next node)
      end
  end.

(** The queue is gone afterwards: what is left are nodes nobody freed. *)
Definition grpc_completion_queue_destroy (w : option cq_state)
    : outcome (option (gmap positive (cell grpc_event))) :=
  match w with
  | None => Ret None
  | Some w =>
      let body :=
        _ ← cq_lock;
        c ← gets obj;
        _ ← free_events (walk_fuel w) (cq_head c);
        cq_unlock in
      match body w with
      | Ret (_, w') => Ret (Some (cells w'))
      | Fault f => Fault f
      end
  end.

(** ** What a queue promises *)

(** The events in the order of arrival, whether the queue is shut down, and the answers of
    the allocator. *)
Record queue := mk_queue {
  events : list grpc_event;
  shut : bool;
  queue_answers : allocs
}.

Definition spec_push (e : grpc_event) (q : queue) : queue :=
  match queue_answers q with
  | [] => mk_queue (events q ++ [e]) (shut q) []
  | true :: al => mk_queue (events q ++ [e]) (shut q) al
  | false :: al => mk_queue (events q) (shut q) al
  end.
Definition spec_shutdown (q : queue) : queue := mk_queue (events q) true (queue_answers q).
Definition spec_other (o : other_op) (q : queue) : queue :=
  match o with PushEvent e => spec_push e q | Shutdown => spec_shutdown q end.
Definition spec_others (os : list other_op) (q : queue) : queue :=
  fold_left (λ q o, spec_other o q) os q.

(** A call takes the oldest event at once; without one it reports the shutdown, or waits
    for other threads. *)
Fixpoint spec_next (ws : list wait_result) (q : queue) : grpc_event * queue :=
  match events q with
  | e :: es => (e, mk_queue es (shut q) (queue_answers q))
  | [] =>
      if shut q then (shutdown_event, q) else
      match ws with
      | [] => (timeout_event, q)
      | TimedOut os :: _ => (timeout_event, spec_others os q)
      | Woken os :: ws => spec_next ws (spec_others os q)
      end
  end.

Example shutdown_after_drain :
  spec_next [Woken [PushEvent (mk_event 7 true None); Shutdown]] (mk_queue [] false []) =
    (mk_event 7 true None, mk_queue [] true []).
Proof. reflexivity. Qed.

(** ** The representation *)

Record cq_rel (w : cq_state) (q : queue) : Prop := {
  rel_list : ∃ l, owns w (cq_head (obj w)) l ∧ l.*2 = events q ∧
               cq_tail (obj w) = fst <$> last l;
  rel_shut : cq_shutdown (obj w) = shut q;
  rel_answers : cell_answers w = queue_answers q;
  rel_mutex : cq_mutex (obj w) = false
}.

Implicit Types (w : cq_state) (q : queue).

(** The part that holds while the mutex is held too. *)
Definition rel_nodes (w : cq_state) (es : list grpc_event) : Prop :=
  ∃ l, owns w (cq_head (obj w)) l ∧ l.*2 = es ∧ cq_tail (obj w) = fst <$> last l.

Lemma cq_lock_run w : cq_mutex (obj w) = false → cq_lock w = Ret ((), upd_obj (set_cq_mutex true) w).
Proof. unfold cq_lock. by intros ->. Qed.

Lemma relock w : cq_mutex (obj w) = true → upd_obj (set_cq_mutex true) (upd_obj (set_cq_mutex false) w) = w.
Proof. destruct w as [[] ???]; cbn. by intros ->. Qed.
Lemma reunlock w : cq_mutex (obj w) = false → upd_obj (set_cq_mutex false) (upd_obj (set_cq_mutex true) w) = w.
Proof. destruct w as [[] ???]; cbn. by intros ->. Qed.

Lemma rel_nodes_mutex b w es : rel_nodes w es → rel_nodes (upd_obj (set_cq_mutex b) w) es.
Proof. intros (l & Ho & ? & ?). exists l. split_and!; [by apply owns_obj|done|done]. Qed.

(** [es] are the events of the list that starts and ends where the queue's pointers say. *)
Definition listed (w : cq_state) (l : list (positive * grpc_event)) : Prop :=
  chain (cells w) (cq_head (obj w)) l None ∧ NoDup l.*1 ∧ cq_tail (obj w) = fst <$> last l.

(** A node of its own is linked behind the last one; nothing else changes. *)
Lemma link_event_run ev e w l :
  listed w l → ev ∉ l.*1 → cells w !! ev = Some (mk_cell e None) →
  ∃ w', link_event ev w = Ret ((), w') ∧ listed w' (l ++ [(ev, e)]) ∧
    cq_mutex (obj w') = cq_mutex (obj w) ∧ cq_shutdown (obj w') = cq_shutdown (obj w) ∧
    fresh_cell w' = fresh_cell w ∧ cell_answers w' = cell_answers w ∧
    dom (cells w') = dom (cells w) ∧ (∀ a, a ∉ l.*1 → cells w' !! a = cells w !! a).
Proof.
  intros (Hc & Hnd & Ht) Hni He. unfold link_event. rewrite M_bind_gets, Ht.
  assert (NoDup (l ++ [(ev, e)]).*1) as Hnd'.
  { rewrite fmap_app. apply NoDup_app. split; [done|]. cbn. split; [set_solver|apply NoDup_singleton]. }
  destruct l as [|[t x] l _] using rev_ind.
  - cbn in Hc. cbn [last fmap option_fmap option_map]. rewrite M_bind_modify. eexists. split; [done|].
    split_and!; try done. split; [|by split]. cbn. split; [done|]. by exists None.
  - rewrite last_snoc. cbn [fmap option_fmap option_map fst].
    pose proof Hc as [_ Hx]%chain_snoc.
    rewrite (M_bind_Ret _ _ w () (upd_cells (insert t (mk_cell x (Some ev))) w)).
    2:{ mstep (read_cell_run _ _ _ Hx). by rewrite (write_cell_run _ _ _ _ Hx). }
    eexists. split; [done|]. split_and!; try done.
    + split; [|split; [done|by rewrite last_snoc]]. cbn.
      rewrite fmap_app in Hni, Hnd. cbn in Hni, Hnd. apply NoDup_app in Hnd as (_ & Htl & _).
      apply chain_app. exists (Some ev). apply chain_snoc in Hc as [Hc _]. split.
      * apply chain_snoc. rewrite lookup_insert_eq. split; [|done]. apply chain_insert_ne; [set_solver|done].
      * cbn. split; [done|]. exists None. split; [|done]. rewrite lookup_insert_ne by set_solver. done.
    + cbn. rewrite dom_insert_L. apply elem_of_dom_2 in Hx. set_solver.
    + intros a Ha. cbn. rewrite lookup_insert_ne; [done|]. rewrite fmap_app in Ha. set_solver.
Qed.

(** The first node is unlinked and freed. *)
Lemma take_event_run a e w l :
  listed w ((a, e) :: l) →
  ∃ w', cq_head (obj w) = Some a ∧ take_event a w = Ret (e, w') ∧ listed w' l ∧
    cq_mutex (obj w') = cq_mutex (obj w) ∧ cq_shutdown (obj w') = cq_shutdown (obj w) ∧
    fresh_cell w' = fresh_cell w ∧ cell_answers w' = cell_answers w ∧ cells w' = delete a (cells w).
Proof.
  intros (Hc & Hnd & Ht). cbn in Hc, Hnd. destruct Hc as (Hh & r & Ha & Hc).
  apply NoDup_cons in Hnd as [Hni Hnd]. unfold take_event.
  mstep (read_cell_run _ _ _ Ha); rewrite M_bind_modify. cbn [next data].
  set (w1 := upd_obj (set_cq_head r) w).
  rewrite (M_bind_Ret _ _ w1 () (upd_obj (set_cq_tail (fst <$> last l)) w1)).
  2:{ destruct l as [|[b y] l].
      - cbn in Hc. by subst r.
      - destruct Hc as [-> _]. unfold mret, M_ret. do 2 f_equal. unfold w1, upd_obj, set_cq_tail, set_cq_head.
        cbn. cbn in Ht. by rewrite Ht. }
  set (w2 := upd_obj _ w1). assert (cells w2 !! a = Some (mk_cell e r)) as Ha2 by done.
  mstep (free_cell_run _ _ _ Ha2). eexists. split; [done|]. split; [done|]. split_and!; try done.
  split; [|done]. by apply chain_delete_ne.
Qed.

Lemma owns_listed w l : owns w (cq_head (obj w)) l → cq_tail (obj w) = fst <$> last l → listed w l.
Proof. intros [] ?. by split. Qed.

Lemma new_event_run e w :
  new_event e w =
    Ret (if (answer (cell_answers w)).1 then Some (fresh_cell w) else None,
      if (answer (cell_answers w)).1
      then mk_heap (obj w) (<[fresh_cell w := mk_cell e None]> (cells w)) (Pos.succ (fresh_cell w))
             (answer (cell_answers w)).2
      else set_cell_answers (answer (cell_answers w)).2 w).
Proof. unfold new_event. mstep (malloc_cell_answer w). by destruct (answer _) as [[] al]. Qed.

Lemma push_run e w q :
  cq_rel w q →
  ∃ w', completion_queue_push_event e (Some w) = Ret ((), Some w') ∧ cq_rel w' (spec_push e q).
Proof.
  intros [(l & Ho & Hl & Ht) Hs Ha Hm]. unfold completion_queue_push_event, nullable.
  mstep (new_event_run e w).
  assert (∀ al, cq_rel (set_cell_answers al w) (mk_queue (events q) (shut q) al)) as Hsame.
  { intros al. split; try done. exists l. split_and!; [by apply owns_answers|done..]. }
  destruct (answer (cell_answers w)) as [ok al] eqn:Ea. cbn [fst snd].
  assert (spec_push e q = if ok then mk_queue (events q ++ [e]) (shut q) al
          else mk_queue (events q) (shut q) al) as ->.
  { unfold spec_push. rewrite <- Ha. by destruct (cell_answers w) as [|[] k]; injection Ea as <- <-. }
  destruct ok; [|by eexists].
  set (w1 := mk_heap _ _ _ _). mstep (cq_lock_run w1 Hm).
  assert (fresh_cell w ∉ l.*1) as Hni by (intros Hin%(owns_fresh _ _ _ Ho); lia).
  assert (listed (upd_obj (set_cq_mutex true) w1) l) as Hls.
  { split; [|split; [apply Ho|done]]. apply chain_insert_ne; [done|apply Ho]. }
  destruct (link_event_run (fresh_cell w) e _ l Hls Hni (lookup_insert_eq _ _ _))
    as (w2 & E & (Hc2 & Hnd2 & Ht2) & Hm2 & Hs2 & Hf2 & Ha2 & Hd2 & _).
  mstep E. eexists. split; [done|]. split; try done; cbn.
  - exists (l ++ [(fresh_cell w, e)]). split_and!; [|by rewrite fmap_app, Hl|done].
    split; [done|done| |].
    + intros a Hin. apply elem_of_dom in Hin. cbn in Hin. rewrite Hd2 in Hin. cbn in Hin.
      rewrite dom_insert_L in Hin. rewrite fmap_app. pose proof (owns_all _ _ _ Ho a) as Hall.
      rewrite <- elem_of_dom in Hall. set_solver.
    + intros a. rewrite fmap_app. cbn. rewrite Hf2. cbn. intros Hin.
      assert (a ∈ l.*1 ∨ a = fresh_cell w) as [?%(owns_fresh _ _ _ Ho)| ->] by set_solver; lia.
  - by rewrite Hs2.
Qed.

Lemma shutdown_run w q :
  cq_rel w q →
  ∃ w', grpc_completion_queue_shutdown (Some w) = Ret ((), Some w') ∧ cq_rel w' (spec_shutdown q).
Proof.
  intros [(l & Ho & Hl & Ht) Hs Ha Hm]. unfold grpc_completion_queue_shutdown, nullable.
  mstep (cq_lock_run w Hm); rewrite M_bind_modify.
  eexists. split; [done|]. split; try done. exists l. split_and!; [|done|done].
  by apply (owns_obj (λ _, mk_cq (cq_type (obj w)) false (cq_head (obj w))
        (cq_tail (obj w)) true)) in Ho.
Qed.

Lemma others_run os w q :
  cq_rel w q →
  ∃ w', run_others os (Some w) = Ret ((), Some w') ∧ cq_rel w' (spec_others os q).
Proof.
  revert w q. induction os as [|o os IH]; intros w q Hr; [by exists w|].
  assert (∃ w', run_other o (Some w) = Ret ((), Some w') ∧ cq_rel w' (spec_other o q))
    as (w1 & E & Hr1) by (destruct o; [by apply push_run|by apply shutdown_run]).
  destruct (IH w1 _ Hr1) as (w' & E' & Hr'). exists w'. split; [|done].
  cbn [run_others]. by mstep E.
Qed.

(** The relation while a call holds the mutex. *)
Definition held_rel w q : Prop := ∃ w0, cq_rel w0 q ∧ w = upd_obj (set_cq_mutex true) w0.

Lemma cond_timedwait_run os w q :
  held_rel w q →
  ∃ w', cond_timedwait os w = Ret ((), w') ∧ held_rel w' (spec_others os q).
Proof.
  intros (w0 & Hr & ->). destruct (others_run os w0 q Hr) as (w1 & E & Hr1).
  unfold cond_timedwait, cq_unlock. rewrite M_bind_modify, reunlock by apply Hr.
  rewrite (M_bind_Ret _ _ _ () w1) by (unfold deref; by rewrite E).
  rewrite cq_lock_run by apply Hr1. eexists. split; [done|]. by exists w1.
Qed.

(** The head pointer tells whether there is an event. *)
Lemma rel_head w q :
  cq_rel w q → cq_head (obj w) = None ↔ events q = [].
Proof.
  intros [(l & Ho & <- & _) _ _ _]. destruct l as [|[a x] l]; cbn.
  - by destruct (owns_chain _ _ _ Ho).
  - destruct (owns_chain _ _ _ Ho) as [-> _]. done.
Qed.

Lemma spec_next_ready ws q :
  events q ≠ [] ∨ shut q = true → spec_next ws q = spec_next [] q.
Proof.
  intros H. destruct ws; [done|]. cbn. destruct (events q); [|done].
  destruct H as [H|H]; [done|by rewrite H].
Qed.

Lemma spec_next_wait ws q :
  events q = [] → shut q = false →
  spec_next ws q = match ws with
                   | [] => (timeout_event, q)
                   | TimedOut os :: _ => (timeout_event, spec_others os q)
                   | Woken os :: ws => spec_next ws (spec_others os q)
                   end.
Proof. destruct ws; cbn; by intros -> ->. Qed.

(** Where the loop leaves the queue, and what the specification says from there. *)
Lemma wait_loop_run ws w q :
  held_rel w q →
  ∃ b w' q', wait_loop ws w = Ret (b, w') ∧ held_rel w' q' ∧
    spec_next ws q = (if b then spec_next [] q' else (timeout_event, q')) ∧
    (b = true → events q' ≠ [] ∨ shut q' = true).
Proof.
  revert w q. induction ws as [|r ws IH]; intros w q Hw; pose proof Hw as (w0 & Hr & Ew);
    cbn [wait_loop]; rewrite M_bind_gets, Ew; cbn [obj upd_obj cq_head set_cq_mutex cq_shutdown];
    pose proof (rel_head _ _ Hr) as Hh; rewrite (rel_shut _ _ Hr), <- Ew;
    destruct (cq_head (obj w0)) as [a|];
    (destruct (decide (events q = [])) as [He|He]; [|try (by destruct Hh as [Hh _]; specialize (Hh eq_refl))]);
    try (by destruct Hh as [_ Hh]; specialize (Hh He)).
  - exists true, w, q. auto.
  - destruct (shut q) eqn:Es; [exists true, w, q; auto|].
    destruct (cond_timedwait_run [] w q Hw) as (w' & E & Hw'). mstep E.
    exists false, w', q. rewrite spec_next_wait by done. auto.
  - exists true, w, q. rewrite spec_next_ready by auto. auto.
  - destruct (shut q) eqn:Es; [exists true, w, q; rewrite spec_next_ready by auto; auto|].
    rewrite spec_next_wait by done. destruct r as [os|os];
      destruct (cond_timedwait_run os w q Hw) as (w' & E & Hw'); mstep E.
    + by apply IH.
    + exists false, w', (spec_others os q). auto.
Qed.

(** The removal of the first event. *)
Lemma next_run ws w q :
  cq_rel w q →
  ∃ w', grpc_completion_queue_next ws (Some w) = Ret ((spec_next ws q).1, Some w') ∧
    cq_rel w' (spec_next ws q).2.
Proof.
  intros Hr. unfold grpc_completion_queue_next, nullable.
  mstep (cq_lock_run w (rel_mutex _ _ Hr)).
  destruct (wait_loop_run ws (upd_obj (set_cq_mutex true) w) q) as (b & w1 & q1 & E & (w0 & Hr0 & ->) & -> & Hb);
    [by exists w|].
  mstep E. unfold cq_unlock. destruct b; cbn [negb].
  2:{ rewrite M_bind_modify, reunlock by apply Hr0. by exists w0. }
  rewrite M_bind_gets. cbn [obj upd_obj cq_head set_cq_mutex].
  destruct Hr0 as [(l & Ho & Hl & Ht) Hs Ha Hm]. cbn [spec_next]. rewrite <- Hl in *.
  destruct l as [|[a x] l].
  - pose proof (owns_chain _ _ _ Ho) as Hp. cbn in Hp. rewrite Hp. cbn.
    destruct (Hb eq_refl) as [|Hb']; [done|].
    rewrite M_bind_modify, reunlock by done. rewrite Hb'. exists w0. split; [done|].
    split; try done. by exists [].
  - destruct (owns_tail _ _ _ _ _ Ho) as (r & Hh & Hx & Ho'). cbn [fmap list_fmap snd fst].
    destruct (take_event_run a x (upd_obj (set_cq_mutex true) w0) l) as (w2 & _ & E2 & (Hc2 & _ & Ht2) & _ & Hs2 & Hf2 & Ha2 & Hd2).
    { by apply (owns_listed (upd_obj (set_cq_mutex true) w0)); [apply owns_obj|]. }
    rewrite Hh. mstep E2; rewrite M_bind_modify. eexists. split; [done|]. split; cbn; [|by rewrite ?Hs2|by rewrite Ha2|done].
    exists l. split_and!; [|done|done]. destruct Ho' as [? ? Hall Hf]. split; cbn; [done|done| |].
    + rewrite Hd2. exact Hall.
    + rewrite Hf2. exact Hf.
Qed.

(** The loop of [grpc_completion_queue_destroy] frees every node once. *)
Lemma free_events_run n p l w :
  owns w p l → (length l ≤ n)%nat →
  free_events n p w = Ret ((), upd_cells (λ _, ∅) w).
Proof. exact (free_chain_run n p l w). Qed.

Lemma destroy_run w q : cq_rel w q → grpc_completion_queue_destroy (Some w) = Ret (Some ∅).
Proof.
  intros [(l & Ho & _) _ _ Hm]. unfold grpc_completion_queue_destroy.
  mstep (cq_lock_run w Hm); rewrite M_bind_gets. cbn [obj upd_obj cq_head set_cq_mutex].
  pose proof (owns_fuel _ _ _ Ho) as Hf.
  mstep (free_events_run (walk_fuel w) (cq_head (obj w)) l
    (upd_obj (set_cq_mutex true) w) (owns_obj _ _ _ _ Ho) ltac:(lia)). done.
Qed.

(** ** Histories of calls *)

Inductive cq_call :=
| CallPush (e : grpc_event)
| CallShutdown
| CallNext (ws : list wait_result).

(** The calls one after the other, and the events the [next]s return. *)
Fixpoint run_calls (cs : list cq_call) : M (option cq_state) (list grpc_event) :=
  match cs with
  | [] => mret []
  | CallPush e :: cs => _ ← completion_queue_push_event e; run_calls cs
  | CallShutdown :: cs => _ ← grpc_completion_queue_shutdown; run_calls cs
  | CallNext ws :: cs =>
      e ← grpc_completion_queue_next ws;
      es ← run_calls cs;
      mret (e :: es)
  end.

Fixpoint spec_calls (cs : list cq_call) (q : queue) : list grpc_event * queue :=
  match cs with
  | [] => ([], q)
  | CallPush e :: cs => spec_calls cs (spec_push e q)
  | CallShutdown :: cs => spec_calls cs (spec_shutdown q)
  | CallNext ws :: cs =>
      let r := spec_next ws q in
      let rs := spec_calls cs r.2 in
      (r.1 :: rs.1, rs.2)
  end.

Lemma run_calls_run cs w q :
  cq_rel w q →
  ∃ w', run_calls cs (Some w) = Ret ((spec_calls cs q).1, Some w') ∧ cq_rel w' (spec_calls cs q).2.
Proof.
  revert w q. induction cs as [|[e| |ws] cs IH]; intros w q Hr; cbn [run_calls spec_calls].
  - by exists w.
  - destruct (push_run e w q Hr) as (w1 & E & Hr1). mstep E. by apply IH.
  - destruct (shutdown_run w q Hr) as (w1 & E & Hr1). mstep E. by apply IH.
  - destruct (next_run ws w q Hr) as (w1 & E & Hr1). mstep E.
    destruct (IH w1 _ Hr1) as (w' & E' & Hr'). mstep E'. by exists w'.
Qed.

(** A new queue. *)
Definition new_queue (type : grpc_completion_type) (al : allocs) : cq_state :=
  mk_heap (mk_cq type false None None false) ∅ 1 al.

Lemma new_queue_rel type al : cq_rel (new_queue type al) (mk_queue [] false al).
Proof. split; try done. exists []. split_and!; [apply owns_nil|done|done]. Qed.

Lemma cq_create_run type al c al' :
  grpc_completion_queue_create type al = Ret (Some c, al') →
  mk_heap c ∅ 1 al' = new_queue type al'.
Proof.
  unfold grpc_completion_queue_create. intros (ok & al1 & _ & E)%M_bind_inv.
  destruct ok; [|done]. by injection E as <- <-.
Qed.


(** The events the others push during the waits a call goes through. *)
Definition pushes (os : list other_op) : list grpc_event :=
  omap (λ o, match o with PushEvent e => Some e | Shutdown => None end) os.
Fixpoint arrived_next (ws : list wait_result) (q : queue) : list grpc_event :=
  match events q with
  | _ :: _ => []
  | [] =>
      if shut q then [] else
      match ws with
      | [] => []
      | TimedOut os :: _ => pushes os
      | Woken os :: ws => pushes os ++ arrived_next ws (spec_others os q)
      end
  end.
Fixpoint arrived (cs : list cq_call) (q : queue) : list grpc_event :=
  match cs with
  | [] => []
  | CallPush e :: cs => e :: arrived cs (spec_push e q)
  | CallShutdown :: cs => arrived cs (spec_shutdown q)
  | CallNext ws :: cs => arrived_next ws q ++ arrived cs (spec_next ws q).2
  end.

(** What a [next] returned: an event of the queue, or a report that there is none. *)
Definition outcome_of (r : grpc_event) (d : option grpc_event) : Prop :=
  match d with
  | Some e => r = e
  | None => r = timeout_event ∨ r = shutdown_event
  end.

Lemma spec_others_events os q :
  queue_answers q = [] →
  events (spec_others os q) = events q ++ pushes os ∧ queue_answers (spec_others os q) = [].
Proof.
  revert q. induction os as [|[e|] os IH]; intros q Hq; cbn.
  - by rewrite app_nil_r.
  - fold (spec_others os (spec_push e q)). destruct (IH (spec_push e q)) as [-> ->];
      unfold spec_push; rewrite Hq; [done|]. cbn. by rewrite <- app_assoc.
  - fold (spec_others os (spec_shutdown q)). by destruct (IH (spec_shutdown q)) as [-> ->].
Qed.

Lemma spec_next_events ws q :
  queue_answers q = [] →
  ∃ d, outcome_of (spec_next ws q).1 d ∧ queue_answers (spec_next ws q).2 = [] ∧
    option_list d ++ events (spec_next ws q).2 = events q ++ arrived_next ws q.
Proof.
  revert q. induction ws as [|r ws IH]; intros q Hq; cbn; destruct (events q) as [|e es] eqn:E;
    try (exists (Some e); cbn; by rewrite app_nil_r);
    (destruct (shut q); [exists None; cbn; rewrite E; auto|]).
  - exists None. cbn. rewrite E. auto.
  - destruct r as [os|os]; destruct (spec_others_events os q Hq) as [Ho Ha]; rewrite E in Ho.
    + destruct (IH _ Ha) as (d & Hd & Ha' & Hev). exists d. by rewrite Hev, Ho.
    + exists None. cbn. rewrite Ho. auto.
Qed.

Lemma spec_calls_events cs q :
  queue_answers q = [] →
  ∃ ds, Forall2 outcome_of (spec_calls cs q).1 ds ∧
    omap id ds ++ events (spec_calls cs q).2 = events q ++ arrived cs q.
Proof.
  revert q. induction cs as [|[e| |ws] cs IH]; intros q Hq; cbn [spec_calls arrived].
  - exists []. by rewrite app_nil_r.
  - destruct (IH (spec_push e q)) as (ds & Hds & Hev); [unfold spec_push; by rewrite Hq|].
    exists ds. split; [done|]. rewrite Hev. unfold spec_push. rewrite Hq. cbn. by rewrite <- app_assoc.
  - by apply (IH (spec_shutdown q)).
  - destruct (spec_next_events ws q Hq) as (d & Hd & Ha & Hev).
    destruct (IH _ Ha) as (ds & Hds & Hev'). exists (d :: ds). split; [by constructor|].
    cbn [snd]. rewrite app_assoc, <- Hev, <- app_assoc. 
    destruct d as [x|]; cbn; by rewrite Hev'.
Qed.

(** With an allocator that does not fail, the events the [next]s deliver followed by the
    ones still queued are exactly the events that arrived, in the order of arrival: none is
    lost, duplicated or overtaken, shutdown or not. *)
Theorem completion_queue_exactly_once type al c cs :
  grpc_completion_queue_create type al = Ret (Some c, []) →
  ∃ rs ds w l, run_calls cs (Some (mk_heap c ∅ 1 [])) = Ret (rs, Some w) ∧
    Forall2 outcome_of rs ds ∧
    chain (cells w) (cq_head (obj w)) l None ∧
    omap id ds ++ l.*2 = arrived cs (mk_queue [] false []).
Proof.
  intros E. rewrite (cq_create_run _ _ _ _ E).
  destruct (run_calls_run cs _ _ (new_queue_rel type [])) as (w & Er & Hr).
  destruct (spec_calls_events cs (mk_queue [] false []) eq_refl) as (ds & Hds & Hev).
  destruct Hr as [(l & [] & Hl & _) _ _ _].
  eexists _, ds, w, l. split; [done|]. by rewrite Hl.
Qed.

Definition history : list cq_call :=
  [ CallNext [Woken []; Woken [PushEvent (mk_event 1 true (Some 1%positive));
                               PushEvent (mk_event 1 false (Some 2%positive))]];
    CallPush (mk_event 1 true (Some 3%positive)); CallNext []; CallShutdown; CallNext [];
    CallNext [] ].


Lemma completion_queue_exactly_once_witness :
  ∃ rs ds w l, run_calls history (Some (new_queue GRPC_CQ_NEXT [])) = Ret (rs, Some w) ∧
    Forall2 outcome_of rs ds ∧ omap id ds ++ l.*2 =
      [mk_event 1 true (Some 1%positive); mk_event 1 false (Some 2%positive);
       mk_event 1 true (Some 3%positive)] ∧ chain (cells w) (cq_head (obj w)) l None.
Proof.
  destruct (completion_queue_exactly_once GRPC_CQ_NEXT [] (mk_cq GRPC_CQ_NEXT false None None false)
    history eq_refl) as (rs & ds & w & l & E & Hds & Hc & Hl).
  exists rs, ds, w, l. split_and!; [exact E|exact Hds|exact Hl|exact Hc].
Defined.
