(* ===== verification/Monitors.v ===== *)
(** * Objects with a mutex, and the threads that use them

    The library's policies, pools, chains and registries are objects whose functions take a mutex,
    do their work and release it; what they do before the acquisition (checks, allocations, reads
    of a field) other threads can come between.  This file has the interface such an object offers
    ([Monitor]), the steps of threads that use it, and what follows for any number of threads from
    an invariant that each critical section keeps on its own ([MonitorLaws]).  [Balancers],
    [Pools] and [Meters] are the instances. *)

From Stdlib Require Import ZArith Lia.
From stdpp Require Import base tactics list option relations.
From S2P Require Import Prelude.

#[local] Set Warnings "-clear-no-such-hyp".

(** The state of a mutex within an object, and its acquisition. *)
Class Monitor (S : Type) := { locked : S → bool; acquire : S → S }.

(** Where a thread is: outside the mutex with what it keeps between two steps, before the mutex
    in a call, or behind it. *)
Inductive thread_pc (K C : Type) :=
| Outside (k : K)
| Entering (c : C)
| Within (c : C).
Arguments Outside {K C} k.
Arguments Entering {K C} c.
Arguments Within {K C} c.

Section monitor.
Context {S K C : Type} `{!Monitor S}.

(** What a thread may do outside, which may be the beginning of a call; what it does between the
    acquisition and the release; and what the object asks of the program at that point. *)
Context (outside : S → K → S → K + C → Prop).
Context (critical : C → M S K).
Context (admits : C → S → Prop).

Abbreviation tpc := (thread_pc K C).
Implicit Types (s : S) (ths rest : list tpc).

Record team := mk_team { object : S; members : list tpc }.

Definition after (x : K + C) : tpc := match x with inl k => Outside k | inr c => Entering c end.
Definition within (p : tpc) : bool := match p with Within _ => true | _ => false end.
Definition entering (p : tpc) : bool := match p with Entering _ => true | _ => false end.
Definition is_outside (p : tpc) : Prop := match p with Outside _ => True | _ => False end.

(** The program's steps. *)
Inductive free_step : team → team → Prop :=
| step_outside s k s' x l1 l2 :
    outside s k s' x →
    free_step (mk_team s (l1 ++ Outside k :: l2)) (mk_team s' (l1 ++ after x :: l2)).

(** The steps of a call: the acquisition, and the critical section with the release. *)
Inductive mutex_step : team → team → Prop :=
| step_acquire s c l1 l2 :
    locked s = false →
    mutex_step (mk_team s (l1 ++ Entering c :: l2)) (mk_team (acquire s) (l1 ++ Within c :: l2))
| step_critical s c k s' l1 l2 :
    admits c s → critical c s = Ret (k, s') →
    mutex_step (mk_team s (l1 ++ Within c :: l2)) (mk_team s' (l1 ++ Outside k :: l2)).

Definition team_step (t t' : team) : Prop := free_step t t' ∨ mutex_step t t'.

(** What an instance proves: its invariant does not depend on the mutex or the order of the
    threads, a step outside keeps it whoever holds the mutex, and an admitted critical section
    that returns keeps it and has released the mutex. *)
Class MonitorLaws (inv : S → list tpc → Prop) := {
  inv_perm s ths ths' : ths ≡ₚ ths' → inv s ths → inv s ths';
  inv_acquire s ths : inv s ths → inv (acquire s) ths;
  acquire_locked s : locked (acquire s) = true;
  inv_within s c rest : inv s (Entering c :: rest) → inv s (Within c :: rest);
  inv_outside s k s' x rest :
    inv s (Outside k :: rest) → outside s k s' x → inv s' (after x :: rest) ∧ locked s' = locked s;
  inv_critical s c rest k s' :
    inv s (Within c :: rest) → locked s = true → admits c s → critical c s = Ret (k, s') →
    inv s' (Outside k :: rest) ∧ locked s' = false
}.

(** And, where it is so, that an admitted critical section does return. *)
Class MonitorRuns (inv : S → list tpc → Prop) := {
  critical_returns s c rest :
    inv s (Within c :: rest) → locked s = true → admits c s → ∃ k s', critical c s = Ret (k, s')
}.

Context (inv : S → list tpc → Prop) `{!MonitorLaws inv}.

(** The invariant of the object, and one thread behind the mutex when it is locked. *)
Definition team_ok (t : team) : Prop :=
  inv (object t) (members t) ∧ count_if within (members t) = if locked (object t) then 1%nat else 0%nat.

Lemma team_ok_at s l1 p l2 :
  team_ok (mk_team s (l1 ++ p :: l2)) ↔
  inv s (p :: l1 ++ l2) ∧ ((if within p then 1 else 0) + count_if within (l1 ++ l2) = if locked s then 1 else 0)%nat.
Proof.
  unfold team_ok. cbn [object members].
  assert (count_if within (l1 ++ p :: l2) = count_if within (p :: l1 ++ l2)) as -> by by rewrite Permutation_middle.
  rewrite count_cons. split; intros [Hi ?]; (split; [|done]); (eapply inv_perm; [|exact Hi]); by rewrite Permutation_middle.
Qed.

Lemma free_step_ok t t' : team_ok t → free_step t t' → team_ok t'.
Proof.
  intros Hok H. destruct H as [s k s' x l1 l2 Hx]. apply team_ok_at in Hok as [Hi Hc]. apply team_ok_at.
  destruct (inv_outside _ _ _ _ _ Hi Hx) as [Hi' ->]. split; [done|]. by destruct x.
Qed.

Lemma mutex_step_ok t t' : team_ok t → mutex_step t t' → team_ok t'.
Proof.
  intros Hok H. destruct H as [s c l1 l2 Hl|s c k s' l1 l2 Ha E]; apply team_ok_at in Hok as [Hi Hc]; apply team_ok_at.
  - rewrite Hl in Hc. rewrite acquire_locked. split; [by apply inv_acquire, inv_within|]. cbn in *. lia.
  - assert (locked s = true) as Hl by (destruct (locked s); cbn in Hc; [done|lia]).
    destruct (inv_critical _ _ _ _ _ Hi Hl Ha E) as [Hi' Hl'].
    rewrite Hl'. split; [done|]. rewrite Hl in Hc. cbn in *. lia.
Qed.

Lemma team_steps_ok t t' : team_ok t → rtc team_step t t' → team_ok t'.
Proof. intros Hok. induction 1 as [|t1 t2 t3 [H|H] _ IH]; eauto using free_step_ok, mutex_step_ok. Qed.

(** Mutual exclusion. *)
Lemma team_exclusion t i j c d :
  team_ok t → members t !! i = Some (Within c) → members t !! j = Some (Within d) → i = j.
Proof.
  intros [_ Hc] Hi Hj. apply (count_unique within (members t) i j (Within c) (Within d)); try done.
  destruct (locked (object t)); lia.
Qed.

(** The thread behind the mutex, and the others. *)
Lemma team_within t c :
  team_ok t → Within c ∈ members t → locked (object t) = true ∧ ∃ rest, members t ≡ₚ Within c :: rest.
Proof.
  destruct t as [s ths]. intros Hok (l1 & l2 & Hw)%list_elem_of_split. cbn in Hw |- *. subst ths.
  apply team_ok_at in Hok as [_ Hc]. split; [|exists (l1 ++ l2); by rewrite Permutation_middle].
  destruct (locked s); cbn in Hc; [done|lia].
Qed.

Section runs.
Context `{!MonitorRuns inv}.

(** Whoever is behind the mutex can go on. *)
Lemma critical_runs t c :
  team_ok t → Within c ∈ members t → admits c (object t) → ∃ r, critical c (object t) = Ret r.
Proof.
  intros Hok Hin Ha. destruct (team_within t c Hok Hin) as [Hl (rest & Hp)].
  destruct Hok as [Hi _]. destruct (critical_returns _ c rest (inv_perm _ _ _ Hp Hi) Hl Ha) as (k & s' & E). by eexists.
Qed.

Definition all_admitted (t : team) : Prop := ∀ c, Within c ∈ members t → admits c (object t).

(** Someone can go on with a call, as long as there are calls. *)
Lemma mutex_progress t : team_ok t → all_admitted t → (∃ t', mutex_step t t') ∨ Forall is_outside (members t).
Proof.
  destruct t as [s ths]. intros Hok Hadm. destruct (decide (Exists (λ p, within p = true) ths)) as [Hin|Hno].
  - left. apply Exists_exists in Hin as ([| |c] & Hin & Hw); try done.
    destruct (critical_runs _ c Hok Hin (Hadm c Hin)) as [[k s'] E].
    pose proof (Hadm c Hin) as Ha. apply list_elem_of_split in Hin as (l1 & l2 & ->). eexists. by eapply step_critical.
  - assert (locked s = false) as Hl.
    { destruct Hok as [_ Hc]. cbn [object members] in Hc. rewrite count_none in Hc; [by destruct (locked s)|].
      intros p Hp. destruct (within p) eqn:E; [|done]. destruct Hno. apply Exists_exists. by exists p. }
    destruct (decide (Exists (λ p, entering p = true) ths)) as [Hin|Hout].
    + left. apply Exists_exists in Hin as ([|c|] & Hin & He); try done. apply list_elem_of_split in Hin as (l1 & l2 & ->).
      eexists. by apply step_acquire.
    + right. apply Forall_forall. intros [k|c|c] Hp; [done|..].
      * destruct Hout. apply Exists_exists. by exists (Entering c).
      * destruct Hno. apply Exists_exists. by exists (Within c).
Qed.

End runs.

(** A bound on the steps of the calls that have begun. *)
Definition calls_left ths : nat :=
  (count_if within ths + 2 * count_if entering ths)%nat.

Lemma mutex_step_left t t' : mutex_step t t' → (calls_left (members t') < calls_left (members t))%nat.
Proof.
  unfold calls_left. intros [s c l1 l2 _|s c k s' l1 l2 _ _]; cbn [members];
    rewrite !count_app, !count_cons; cbn; lia.
Qed.

Lemma mutex_steps_left n t t' : nsteps mutex_step n t t' → (n + calls_left (members t') ≤ calls_left (members t))%nat.
Proof. induction 1 as [|n t1 t2 t3 H%mutex_step_left _ IH]; lia. Qed.
End monitor.
Arguments team : clear implicits.
Arguments mk_team {S K C} object members.
Arguments object {S K C} _.
Arguments members {S K C} _.
