(* ===== verification/Threads.v ===== *)
(** * Completion queues under threads (src/src/grpc_core.c)

    Any number of threads that push events, take them, wait on the condition variable and shut the
    queue down.  A step is what one thread does between two points where another can come in: the
    acquisition of the mutex, a critical section up to its release, the beginning or the end of a
    wait.  The critical sections are the code's, as [CompletionQueue] has them. *)

From Stdlib Require Import ZArith Lia.
From stdpp Require Import base tactics list option strings gmap relations.
From S2P Require Import Prelude Lists CompletionQueue.

#[local] Open Scope Z_scope.
#[local] Set Warnings "-clear-no-such-hyp".

(** ** One round of [grpc_completion_queue_next] *)

Inductive round := Delivered (e : grpc_event) | Closed | MustWait.

(** From the test of the loop, with the mutex held, to the return or to the wait; either gives up
    the mutex. *)
Definition next_round : M cq_state round :=
  c ← gets obj;
  match cq_head c with
  | Some ev => e ← take_event ev; _ ← cq_unlock; mret (Delivered e)
  | None => _ ← cq_unlock; mret (if cq_shutdown c then Closed else MustWait)
  end.

(** The rest of a [next] whose wait has ended as [ws] says. *)
Definition after_wait (ws : list wait_result) : M cq_state grpc_event :=
  match ws with
  | Woken os :: ws => _ ← deref (run_others os); deref (grpc_completion_queue_next ws)
  | TimedOut os :: _ => _ ← deref (run_others os); _ ← cq_lock; _ ← cq_unlock; mret timeout_event
  | [] => _ ← cq_lock; _ ← cq_unlock; mret timeout_event
  end.

Definition next_in_rounds (ws : list wait_result) : M cq_state grpc_event :=
  _ ← cq_lock;
  r ← next_round;
  match r with
  | Delivered e => mret e
  | Closed => mret shutdown_event
  | MustWait => after_wait ws
  end.

(** ** Threads *)

(** What a thread does under the mutex: link the node of its event, set the flag, a round of
    [next], or return from a wait whose deadline has passed. *)
Inductive job :=
| JLink (ev : positive) (e : grpc_event)
| JShut
| JRound
| JExpire.

(** Where a thread is: outside of the library, before the acquisition of the mutex, behind it, or
    asleep on the condition variable, signalled or not. *)
Inductive pc :=
| Idle
| Ready (j : job)
| Holding (j : job)
| Sleeping (signalled : bool).

(** The queue, the threads, the events that were linked and, with the thread, the ones that were
    delivered, in the order in which this happened. *)
Record system := mk_system {
  shared : cq_state;
  threads : list pc;
  arrivals : list grpc_event;
  deliveries : list (nat * grpc_event)
}.

#[export] Instance job_eq_dec : EqDecision job.
Proof. solve_decision. Defined.
#[export] Instance pc_eq_dec : EqDecision pc.
Proof. solve_decision. Defined.

(** [pthread_cond_signal] unblocks a thread if one is blocked, [pthread_cond_broadcast] all. *)
Definition signalled (ths ths' : list pc) : Prop :=
  (∃ l1 l2, ths = l1 ++ Sleeping false :: l2 ∧ ths' = l1 ++ Sleeping true :: l2) ∨
  ((Sleeping false ∉ ths) ∧ ths' = ths).
Definition wake (p : pc) : pc := match p with Sleeping _ => Sleeping true | p => p end.

Definition shut_down : M cq_state () := _ ← modify (upd_obj set_cq_shutdown); cq_unlock.
Definition link_and_unlock (ev : positive) : M cq_state () := _ ← link_event ev; cq_unlock.

(** What the program and the clock decide: calls, deadlines that pass, and wake-ups for no reason. *)
Inductive act_step : system → system → Prop :=
| act_push e r w w' l1 l2 xs ds :
    new_event e w = Ret (r, w') →
    act_step (mk_system w (l1 ++ Idle :: l2) xs ds)
      (mk_system w' (l1 ++ match r with Some ev => Ready (JLink ev e) | None => Idle end :: l2) xs ds)
| act_next w l1 l2 xs ds :
    act_step (mk_system w (l1 ++ Idle :: l2) xs ds) (mk_system w (l1 ++ Ready JRound :: l2) xs ds)
| act_shutdown w l1 l2 xs ds :
    act_step (mk_system w (l1 ++ Idle :: l2) xs ds) (mk_system w (l1 ++ Ready JShut :: l2) xs ds)
| act_timeout w l1 l2 xs ds :
    act_step (mk_system w (l1 ++ Sleeping false :: l2) xs ds) (mk_system w (l1 ++ Ready JExpire :: l2) xs ds)
| act_spurious w l1 l2 xs ds :
    act_step (mk_system w (l1 ++ Sleeping false :: l2) xs ds) (mk_system w (l1 ++ Ready JRound :: l2) xs ds).

(** What the library does then. *)
Inductive run_step : system → system → Prop :=
| run_lock j w w' l1 l2 xs ds :
    cq_lock w = Ret ((), w') →
    run_step (mk_system w (l1 ++ Ready j :: l2) xs ds) (mk_system w' (l1 ++ Holding j :: l2) xs ds)
| run_link ev e w w' l1 l2 ths' xs ds :
    link_and_unlock ev w = Ret ((), w') → signalled (l1 ++ Idle :: l2) ths' →
    run_step (mk_system w (l1 ++ Holding (JLink ev e) :: l2) xs ds) (mk_system w' ths' (xs ++ [e]) ds)
| run_shut w w' l1 l2 xs ds :
    shut_down w = Ret ((), w') →
    run_step (mk_system w (l1 ++ Holding JShut :: l2) xs ds)
      (mk_system w' (wake <$> (l1 ++ Idle :: l2)) xs ds)
| run_round r w w' l1 l2 xs ds :
    next_round w = Ret (r, w') →
    run_step (mk_system w (l1 ++ Holding JRound :: l2) xs ds)
      (mk_system w' (l1 ++ match r with MustWait => Sleeping false | _ => Idle end :: l2) xs
         (match r with Delivered e => ds ++ [(length l1, e)] | _ => ds end))
| run_expire w w' l1 l2 xs ds :
    cq_unlock w = Ret ((), w') →
    run_step (mk_system w (l1 ++ Holding JExpire :: l2) xs ds) (mk_system w' (l1 ++ Idle :: l2) xs ds)
| run_woken w l1 l2 xs ds :
    run_step (mk_system w (l1 ++ Sleeping true :: l2) xs ds) (mk_system w (l1 ++ Ready JRound :: l2) xs ds).

Definition thread_step (s s' : system) : Prop := act_step s s' ∨ run_step s s'.

(** [n] threads and a queue that has just been created. *)
Definition start (c : grpc_completion_queue) (al : allocs) (n : nat) : system :=
  mk_system (mk_heap c ∅ 1 al) (replicate n Idle) [] [].

(** Nothing is going on: the threads are outside, or wait for an event. *)
Definition resting (p : pc) : Prop := p = Idle ∨ p = Sleeping false.
#[export] Instance resting_dec p : Decision (resting p).
Proof. unfold resting. apply _. Defined.

(** ** [next] is a sequence of rounds *)

Implicit Types (w : cq_state) (ths rest : list pc).

Lemma lock_run_inv w w' : cq_lock w = Ret ((), w') → cq_mutex (obj w) = false ∧ w' = upd_obj (set_cq_mutex true) w.
Proof. unfold cq_lock. destruct (cq_mutex (obj w)); [done|]. by intros [= <-]. Qed.

(** [grpc_completion_queue_next] is equivalent to taking the mutex, one round of its loop,
    and, if it waits, the end of the wait followed by another [next]: the sequential code is
    composed of the steps that threads interleave. *)
Theorem next_by_rounds ws w :
  grpc_completion_queue_next ws (Some w) = nullable no_queue_event (next_in_rounds ws) (Some w).
Proof.
  unfold grpc_completion_queue_next, nullable, next_in_rounds. destruct (cq_mutex (obj w)) eqn:Em.
  { unfold mbind, M_bind, cq_lock. by rewrite Em. }
  mstep (cq_lock_run w Em). mstep (cq_lock_run w Em). set (w1 := upd_obj (set_cq_mutex true) w).
  unfold next_round. rewrite M_bind_assoc, M_bind_gets.
  assert (wait_loop ws w1 = (match cq_head (obj w1) with
    | None => if cq_shutdown (obj w1) then mret true else
        match ws with
        | [] => _ ← cond_timedwait []; mret false
        | TimedOut os :: _ => _ ← cond_timedwait os; mret false
        | Woken os :: ws => _ ← cond_timedwait os; wait_loop ws
        end
    | Some _ => mret true
    end) w1) as El by (destruct ws; cbn [wait_loop]; by rewrite M_bind_gets).
  unfold mbind at 1, M_bind at 1. rewrite El. clear El. destruct (cq_head (obj w1)) as [ev|] eqn:Eh.
  - unfold mret at 1, M_ret at 1. cbn [negb]. rewrite M_bind_gets, Eh, M_bind_assoc. unfold mbind, M_bind.
    by destruct (take_event ev w1) as [[]|].
  - destruct (cq_shutdown (obj w1)); [unfold mret at 1, M_ret at 1; cbn [negb]; by rewrite M_bind_gets, Eh|].
    change ((_ ← cq_unlock; mret MustWait) w1) with (Ret (MustWait, upd_obj (set_cq_mutex false) w1)).
    rewrite M_bind_assoc.
    destruct ws as [|[os|os] ws]; unfold after_wait, cond_timedwait.
    + unfold cq_unlock, modify, mbind, M_bind, mret, M_ret. cbn [deref run_others mret M_ret].
      by destruct (cq_lock _) as [[[] w3]|].
    + unfold grpc_completion_queue_next. unfold mbind, M_bind.
      change (cq_unlock w1) with (Ret ((), upd_obj (set_cq_mutex false) w1) : outcome (() * cq_state)).
      cbn [mret M_ret]. destruct (deref (run_others os) _) as [[[] w3]|]; [|done].
      rewrite deref_nullable. by destruct (cq_lock w3) as [[[] w4]|].
    + unfold cq_unlock, modify, mbind, M_bind, mret, M_ret.
      destruct (deref (run_others os) _) as [[[] w3]|]; [|done]. by destruct (cq_lock w3) as [[[] w4]|].
Qed.

(** ** The invariant *)

(** The nodes threads have made and not linked yet. *)
Definition node_of (p : pc) : option (positive * grpc_event) :=
  match p with Ready (JLink ev e) | Holding (JLink ev e) => Some (ev, e) | _ => None end.
Definition pending ths : list (positive * grpc_event) := omap node_of ths.

Definition holds (p : pc) : bool := match p with Holding _ => true | _ => false end.
(** The threads that will look at the queue before they sleep. *)
Definition coming (p : pc) : bool :=
  match p with Ready JRound | Holding JRound | Sleeping true => true | _ => false end.

(** [l] are the nodes linked; every other node is one of a thread; one thread holds a locked mutex;
    the events linked are those delivered and those in the queue; and while a thread sleeps without
    a signal, at least as many threads are coming as there are events. *)
Record sys_inv w ths (xs : list grpc_event) (ds : list (nat * grpc_event)) (l : list (positive * grpc_event)) : Prop := {
  si_listed : listed w l;
  si_nodup : NoDup (l ++ pending ths).*1;
  si_cells : ∀ a, is_Some (cells w !! a) ↔ a ∈ (l ++ pending ths).*1;
  si_fresh : ∀ a, a ∈ (l ++ pending ths).*1 → (a < fresh_cell w)%positive;
  si_pending : ∀ ev e, (ev, e) ∈ pending ths → cells w !! ev = Some (mk_cell e None);
  si_mutex : count_if holds ths = if cq_mutex (obj w) then 1%nat else 0%nat;
  si_log : xs = ds.*2 ++ l.*2;
  si_wake : Sleeping false ∈ ths → cq_shutdown (obj w) = false ∧ (length l ≤ count_if coming ths)%nat
}.

#[export] Instance pending_perm : Proper ((≡ₚ) ==> (≡ₚ)) pending.
Proof.
  unfold pending. induction 1 as [|p ? ? _ IH|p q ?|? ? ? _ IH1 _ IH2]; cbn; [done| | |by etrans].
  - destruct (node_of p); cbn; by rewrite IH.
  - destruct (node_of p), (node_of q); cbn; try done. apply perm_swap.
Qed.

(** The order of the threads does not matter. *)
Lemma sys_inv_perm w ths ths' xs ds l : ths ≡ₚ ths' → sys_inv w ths xs ds l → sys_inv w ths' xs ds l.
Proof.
  intros Hp [Hl Hnd Hc Hf Hpe Hm Hlog Hw]. assert (pending ths ≡ₚ pending ths') as Hpp by by rewrite Hp.
  assert ((l ++ pending ths).*1 ≡ₚ (l ++ pending ths').*1) as Hq by by rewrite Hpp.
  split; try done.
  - by rewrite <- Hq.
  - intros a. rewrite <- Hq. apply Hc.
  - intros a. rewrite <- Hq. apply Hf.
  - intros ev e. rewrite <- Hpp. apply Hpe.
  - by rewrite <- Hp.
  - by rewrite <- Hp.
Qed.

Lemma pending_cons p ths : pending (p :: ths) = match node_of p with Some n => n :: pending ths | None => pending ths end.
Proof. unfold pending. cbn. by destruct (node_of p). Qed.
(** A thread goes on without touching the nodes. *)
Lemma sys_inv_move p q w w' rest xs ds l :
  sys_inv w (p :: rest) xs ds l → node_of q = node_of p → cells w' = cells w →
  fresh_cell w' = fresh_cell w → (∃ b, obj w' = set_cq_mutex b (obj w)) →
  count_if holds (q :: rest) = (if cq_mutex (obj w') then 1%nat else 0%nat) →
  (q = Sleeping false → cq_shutdown (obj w) = false ∧ l = []) →
  (if coming p then coming q || bool_decide (l = []) else true) = true →
  sys_inv w' (q :: rest) xs ds l.
Proof.
  intros [Hl Hnd Hce Hf Hp Hm Hlog Hw] Hn Hc Hfr [b Ho] Hh Hsl Hcom.
  rewrite pending_cons in *. rewrite <- Hn in *.
  split; rewrite ?pending_cons, ?Hc, ?Hfr; try done.
  - destruct Hl as (H1 & H2 & H3). split; [by rewrite Hc, Ho|]. split; [done|by rewrite Ho].
  - rewrite Ho. cbn [cq_shutdown set_cq_mutex]. rewrite count_cons in *. intros [<-|Hin]%elem_of_cons.
    + destruct (Hsl eq_refl) as [? ->]. split; [done|]. cbn. lia.
    + destruct Hw as [? Hle]; [by right|]. split; [done|]. destruct (coming p), (coming q); cbn in *; try lia.
      apply bool_decide_eq_true in Hcom as ->. cbn. lia.
Qed.

Definition sys_ok (s : system) : Prop :=
  ∃ l, sys_inv (shared s) (threads s) (arrivals s) (deliveries s) l.

Lemma sys_ok_at w l1 p l2 xs ds :
  sys_ok (mk_system w (l1 ++ p :: l2) xs ds) ↔ ∃ l, sys_inv w (p :: l1 ++ l2) xs ds l.
Proof.
  split; intros [l Hl]; exists l; (eapply sys_inv_perm; [|exact Hl]); cbn; by rewrite Permutation_middle.
Qed.

Lemma listed_head w l : listed w l → cq_head (obj w) = fst <$> head l.
Proof. intros (Hc & _). destruct l as [|[a x] l]; [done|]. by destruct Hc. Qed.

(** A new node belongs to its thread. *)
Lemma new_event_inv e r w w' rest xs ds l :
  sys_inv w (Idle :: rest) xs ds l → new_event e w = Ret (r, w') →
  sys_inv w' (match r with Some ev => Ready (JLink ev e) | None => Idle end :: rest) xs ds l.
Proof.
  intros [Hl Hnd Hc Hf Hp Hm Hlog Hw]. rewrite new_event_run. rewrite pending_cons in *. cbn [node_of] in *.
  destruct (answer (cell_answers w)) as [[] al]; cbn [fst snd]; intros [= <- <-]; [|by split; rewrite ?pending_cons].
  assert (fresh_cell w ∉ (l ++ pending rest).*1) as Hni by (intros Hin%Hf; lia).
  assert ((l ++ pending (Ready (JLink (fresh_cell w) e) :: rest)).*1 ≡ₚ fresh_cell w :: (l ++ pending rest).*1) as Hq.
  { rewrite pending_cons. cbn [node_of]. by rewrite <- Permutation_middle. }
  split; cbn [obj cells fresh_cell]; rewrite ?Hq; try done.
  - destruct Hl as (H1 & H2 & H3). split; [|done]. apply chain_insert_ne; [|done]. rewrite fmap_app in Hni. set_solver.
  - by apply NoDup_cons.
  - intros a. rewrite Hq, lookup_insert_is_Some', Hc. set_solver.
  - intros a. rewrite Hq. intros [->|Hin%Hf]%elem_of_cons; lia.
  - intros ev e0. rewrite pending_cons. cbn [node_of].
    intros [[= -> ->]|Hin]%elem_of_cons; [by rewrite lookup_insert_eq|].
    rewrite lookup_insert_ne; [by apply Hp|]. intros <-. apply Hni. rewrite fmap_app.
    apply elem_of_app. right. apply list_elem_of_fmap. by exists (fresh_cell w, e0).
  - intros Hin. rewrite count_cons. apply Hw. set_solver.
Qed.

Lemma sys_inv_stay p q w rest xs ds l :
  sys_inv w (p :: rest) xs ds l → node_of q = node_of p → holds q = holds p → q ≠ Sleeping false →
  implb (coming p) (coming q) = true → sys_inv w (q :: rest) xs ds l.
Proof.
  intros Hl Hn Hh Hne Hc. pose proof (si_mutex _ _ _ _ _ Hl) as Hm. rewrite count_cons in Hm.
  apply (sys_inv_move p q w w rest xs ds l Hl Hn eq_refl eq_refl).
  - exists (cq_mutex (obj w)). by destruct w as [[]].
  - by rewrite count_cons, Hh.
  - done.
  - destruct (coming p); [|done]. cbn in Hc. by rewrite Hc.
Qed.

Lemma act_inv s s' : sys_ok s → act_step s s' → sys_ok s'.
Proof.
  intros Hok Hstep. destruct Hstep; apply sys_ok_at in Hok as [l Hl]; apply sys_ok_at; exists l;
    [by eapply new_event_inv|by eapply sys_inv_stay..].
Qed.

(** A signal is given to a sleeping thread, if there is one. *)
Lemma signalled_perm ths ths' :
  signalled ths ths' →
  (∃ rest, ths ≡ₚ Sleeping false :: rest ∧ ths' ≡ₚ Sleeping true :: rest) ∨ (Sleeping false ∉ ths) ∧ ths' = ths.
Proof.
  intros [(l1 & l2 & -> & ->)|[H ->]]; [left|by right]. exists (l1 ++ l2).
  split; by rewrite Permutation_middle.
Qed.

(** The queue's part of a critical section that links a node. *)
Lemma link_inv ev e w rest xs ds l :
  sys_inv w (Holding (JLink ev e) :: rest) xs ds l →
  ∃ w', link_and_unlock ev w = Ret ((), w') ∧
    ∀ ths ths', Idle :: rest ≡ₚ ths → signalled ths ths' → sys_inv w' ths' (xs ++ [e]) ds (l ++ [(ev, e)]).
Proof.
  intros [Hl Hnd Hc Hf Hp Hm Hlog Hw]. rewrite pending_cons in *. cbn [node_of] in *.
  assert (cells w !! ev = Some (mk_cell e None)) as He by (apply Hp; left).
  assert (ev ∉ l.*1) as Hni.
  { rewrite fmap_app in Hnd. apply NoDup_app in Hnd as (_ & Hd & _). intros Hin. apply (Hd ev Hin). left. }
  destruct (link_event_run ev e w l Hl Hni He) as (w1 & E & Hl1 & Hm1 & Hs1 & Hf1 & _ & Hd1 & Hx1).
  unfold link_and_unlock. mstep E. eexists. split; [done|]. intros ths ths' Hths Hsig.
  apply signalled_perm in Hsig.
  assert (pending ths' ≡ₚ pending rest ∧ count_if holds ths' = count_if holds rest ∧
    (Sleeping false ∈ ths' → Sleeping false ∈ rest ∧ count_if coming ths' = S (count_if coming rest)))
    as (Hpp & Hhh & Hcc).
  { destruct Hsig as [(r0 & Hr & ->)|[Hno ->]].
    - assert (pending rest ≡ₚ pending (Idle :: rest)) as -> by by rewrite pending_cons.
      assert (count_if holds rest = count_if holds (Idle :: rest)) as -> by by rewrite count_cons.
      assert (count_if coming rest = count_if coming (Idle :: rest)) as -> by by rewrite count_cons.
      split_and!; [by rewrite Hths, Hr, !pending_cons|by rewrite Hths, Hr, !count_cons|]. intros Hin. split.
      + assert (Sleeping false ∈ Idle :: rest) as Hin'; [|set_solver]. rewrite Hths, Hr. left.
      + by rewrite Hths, Hr, !count_cons.
    - split_and!; [by rewrite <- Hths, pending_cons|by rewrite <- Hths, count_cons|done]. }
  clear Hsig. assert ((l ++ [(ev, e)] ++ pending ths').*1 ≡ₚ (l ++ (ev, e) :: pending rest).*1) as Hq
    by by rewrite Hpp.
  rewrite count_cons in Hm. cbn in Hm.
  split; cbn [obj upd_obj cells fresh_cell cq_mutex set_cq_mutex cq_shutdown]; rewrite <- ?app_assoc.
  - exact Hl1.
  - by rewrite Hq.
  - intros a. rewrite Hq, <- Hc, <- !elem_of_dom, Hd1. done.
  - intros a. rewrite Hq, Hf1. apply Hf.
  - intros ev' e' Hin. rewrite Hpp in Hin. rewrite Hx1; [apply Hp; by right|].
    rewrite fmap_app in Hnd. apply NoDup_app in Hnd as (_ & Hd & _). intros Hin'. apply (Hd _ Hin').
    right. apply list_elem_of_fmap. by exists (ev', e').
  - rewrite Hhh. destruct (cq_mutex (obj w)); lia.
  - by rewrite Hlog, fmap_app, app_assoc.
  - intros Hin. destruct (Hcc Hin) as [Hin' Hco]. destruct (Hw ltac:(by right)) as [Hs Hle].
    rewrite Hs1, Hco, length_app. rewrite count_cons in Hle. cbn in Hle |- *. split; [done|lia].
Qed.

Lemma wake_pending ths : pending (wake <$> ths) = pending ths.
Proof. induction ths as [|p ths IH]; [done|]. cbn [fmap list_fmap]. rewrite !pending_cons, IH. by destruct p. Qed.
Lemma wake_holds ths : count_if holds (wake <$> ths) = count_if holds ths.
Proof. induction ths as [|p ths IH]; [done|]. cbn [fmap list_fmap]. rewrite !count_cons, IH. by destruct p. Qed.
Lemma wake_sleeping ths : Sleeping false ∉ wake <$> ths.
Proof. intros ([]&?&?)%list_elem_of_fmap; discriminate. Qed.

Lemma shut_inv w rest xs ds l :
  sys_inv w (Holding JShut :: rest) xs ds l →
  ∃ w', shut_down w = Ret ((), w') ∧ sys_inv w' (wake <$> (Idle :: rest)) xs ds l.
Proof.
  intros [Hl Hnd Hc Hf Hp Hm Hlog Hw]. eexists. split; [done|]. rewrite pending_cons in *. rewrite count_cons in Hm.
  split; cbn [obj upd_obj cells fresh_cell]; rewrite ?wake_pending, ?pending_cons, ?wake_holds, ?count_cons;
    cbn [node_of] in *; try done.
  - cbn in Hm |- *. destruct (cq_mutex (obj w)); lia.
  - by intros ?%wake_sleeping.
Qed.

(** A round: an event, the report of the shutdown, or a wait on an empty queue. *)
Lemma round_inv i w rest xs ds l :
  sys_inv w (Holding JRound :: rest) xs ds l →
  ∃ r w' l', next_round w = Ret (r, w') ∧
    sys_inv w' (match r with MustWait => Sleeping false | _ => Idle end :: rest) xs
      (match r with Delivered e => ds ++ [(i, e)] | _ => ds end) l'.
Proof.
  intros Hinv. pose proof Hinv as [Hl Hnd Hc Hf Hp Hm Hlog Hw]. rewrite pending_cons in *. cbn [node_of] in *.
  rewrite count_cons in Hm. unfold next_round. rewrite M_bind_gets, (listed_head _ _ Hl).
  destruct l as [|[a e] l]; cbn [head fmap option_fmap option_map fst].
  - unfold cq_unlock. rewrite M_bind_modify. do 2 eexists. exists []. split; [done|].
    assert (count_if holds rest = 0%nat) as H0 by (destruct (cq_mutex (obj w)); cbn in Hm; lia).
    assert (match (if cq_shutdown (obj w) then Closed else MustWait) with Delivered e => ds ++ [(i, e)] | _ => ds end = ds)
      as -> by by destruct (cq_shutdown (obj w)).
    destruct (cq_shutdown (obj w)) eqn:Es; (eapply (sys_inv_move _ _ w); [exact Hinv|done..|by eexists|by rewrite count_cons, H0| |]);
      done.
  - destruct (take_event_run a e w l Hl) as (w1 & _ & E & Hl1 & Hm1 & Hs1 & Hf1 & _ & Hc1). mstep E.
    unfold cq_unlock. rewrite M_bind_modify. do 2 eexists. exists l. split; [done|]. cbn [app] in Hnd.
    rewrite fmap_cons in Hnd. cbn [fst] in Hnd. apply NoDup_cons in Hnd as [Hni Hnd].
    split; cbn [obj upd_obj cells fresh_cell cq_mutex set_cq_mutex cq_shutdown]; rewrite ?pending_cons, ?count_cons; cbn [node_of holds coming].
    + exact Hl1.
    + done.
    + intros b. rewrite Hc1, lookup_delete_is_Some, Hc. cbn. set_solver.
    + intros b Hb. rewrite Hf1. apply Hf. cbn. by right.
    + intros ev e' Hin. rewrite Hc1, lookup_delete_ne; [by apply Hp|]. intros ->. apply Hni.
      rewrite fmap_app. apply elem_of_app. right. apply list_elem_of_fmap. by exists (ev, e').
    + destruct (cq_mutex (obj w)); cbn in Hm; lia.
    + rewrite Hlog, fmap_app. cbn. by rewrite <- app_assoc.
    + intros [?|Hin]%elem_of_cons; [done|]. destruct (Hw ltac:(by right)) as [Hs Hle]. rewrite Hs1.
      split; [done|]. rewrite count_cons in Hle. cbn in Hle. lia.
Qed.

Lemma lock_inv j w rest xs ds l :
  sys_inv w (Ready j :: rest) xs ds l → cq_mutex (obj w) = false →
  cq_lock w = Ret ((), upd_obj (set_cq_mutex true) w) ∧
  sys_inv (upd_obj (set_cq_mutex true) w) (Holding j :: rest) xs ds l.
Proof.
  intros Hl Hm. split; [by apply cq_lock_run|]. pose proof (si_mutex _ _ _ _ _ Hl) as Hh. rewrite count_cons, Hm in Hh.
  eapply (sys_inv_move _ _ w); [exact Hl|by destruct j|done|done|by eexists| |done|by destruct j].
  rewrite count_cons. cbn in Hh |- *. lia.
Qed.

Lemma expire_inv w rest xs ds l :
  sys_inv w (Holding JExpire :: rest) xs ds l →
  sys_inv (upd_obj (set_cq_mutex false) w) (Idle :: rest) xs ds l.
Proof.
  intros Hl. pose proof (si_mutex _ _ _ _ _ Hl) as Hh. rewrite count_cons in Hh.
  eapply (sys_inv_move _ _ w); [exact Hl|done..|by eexists| |done|done].
  rewrite count_cons. cbn in Hh |- *. destruct (cq_mutex (obj w)); lia.
Qed.

Lemma run_inv s s' : sys_ok s → run_step s s' → sys_ok s'.
Proof.
  intros Hok Hstep. destruct Hstep as [j w w' l1 l2 xs ds E|ev e w w' l1 l2 ths' xs ds E Hsig|w w' l1 l2 xs ds E
    |r w w' l1 l2 xs ds E|w w' l1 l2 xs ds E|w l1 l2 xs ds]; apply sys_ok_at in Hok as [l Hl].
  - apply lock_run_inv in E as [Hm ->]. apply sys_ok_at. exists l. by apply lock_inv.
  - destruct (link_inv _ _ _ _ _ _ _ Hl) as (w1 & E1 & H1). rewrite E in E1. injection E1 as <-.
    eexists. apply (H1 _ _ (Permutation_middle _ _ _) Hsig).
  - destruct (shut_inv _ _ _ _ _ Hl) as (w1 & E1 & H1). rewrite E in E1. injection E1 as <-.
    exists l. eapply sys_inv_perm; [|exact H1]. apply fmap_Permutation, Permutation_middle.
  - destruct (round_inv (length l1) _ _ _ _ _ Hl) as (r1 & w1 & l' & E1 & H1). rewrite E in E1.
    injection E1 as <- <-. apply sys_ok_at. by exists l'.
  - injection E as <-. apply sys_ok_at. exists l. by apply expire_inv.
  - apply sys_ok_at. exists l. by eapply sys_inv_stay.
Qed.

Lemma start_sys_ok type al c al' n :
  grpc_completion_queue_create type al = Ret (Some c, al') → sys_ok (start c al' n).
Proof.
  intros E. unfold start. rewrite (cq_create_run _ _ _ _ E). exists [].
  assert (pending (replicate n Idle) = []) as Hp by (clear E; induction n; [done|]; cbn [replicate]; by rewrite pending_cons).
  assert (∀ f, f Idle = false → count_if f (replicate n Idle) = 0%nat) as Hc.
  { intros f Hf. clear Hp. induction n; [done|]. cbn [replicate]. by rewrite count_cons, Hf. }
  split; cbn [shared threads arrivals deliveries app]; rewrite ?Hp, ?Hc by done; try done.
  - split; [done|]. by split; [constructor|].
  - constructor.
  - intros a. cbn. rewrite lookup_empty. split; [by intros []|by intros ?%elem_of_nil].
  - by intros a ?%elem_of_nil.
  - by intros ev e' ?%elem_of_nil.
Qed.

Lemma thread_steps_ok s s' : sys_ok s → rtc thread_step s s' → sys_ok s'.
Proof. intros Hok. induction 1 as [|s1 s2 s3 [H|H] _ IH]; eauto using act_inv, run_inv. Qed.

(** No thread has work left, and those asleep wait for an event of an open queue. *)
Definition quiet (s : system) : Prop :=
  Forall resting (threads s) ∧
  (Sleeping false ∈ threads s → cq_head (obj (shared s)) = None ∧ cq_shutdown (obj (shared s)) = false).

(** Someone can always go on, unless all is quiet. *)
Lemma run_progress s : sys_ok s → (∃ s', run_step s s') ∨ quiet s.
Proof.
  destruct s as [w ths xs ds]. intros Hok. pose proof Hok as [l Hl]. cbn in Hl.
  destruct (decide (Exists (λ p, holds p = true) ths)) as [([] & Hin & Hh)%Exists_exists|Hno]; try done.
  { apply list_elem_of_split in Hin as (l1 & l2 & ->). left. clear Hh Hl. apply sys_ok_at in Hok as [l' Hl].
    destruct j as [ev e| | |].
    - destruct (link_inv _ _ _ _ _ _ _ Hl) as (w' & E & _).
      destruct (decide (Sleeping false ∈ l1 ++ Idle :: l2)) as [(k1 & k2 & Hk)%list_elem_of_split|Hk].
      + eexists. eapply run_link; [exact E|]. rewrite Hk. left. by exists k1, k2.
      + eexists. eapply run_link; [exact E|]. by right.
    - eexists. by eapply run_shut.
    - destruct (round_inv (length l1) _ _ _ _ _ Hl) as (r & w' & l'' & E & _). eexists. by eapply run_round.
    - eexists. by eapply run_expire. }
  apply not_Exists_Forall in Hno; [|intros p; apply _]. rewrite Forall_forall in Hno.
  assert (cq_mutex (obj w) = false) as Hm.
  { pose proof (si_mutex _ _ _ _ _ Hl) as Hm. destruct (cq_mutex (obj w)); [|done]. exfalso.
    assert (count_if holds ths = 0%nat) as H0; [|lia]. apply count_none. intros p Hp.
    by apply not_true_is_false, Hno. }
  destruct (decide (Forall resting ths)) as [Hrest|Hbusy].
  - right. split; [done|]. intros Hin. destruct (si_wake _ _ _ _ _ Hl Hin) as [Hs Hle]. split; [|done].
    cbn [shared]. rewrite (listed_head _ _ (si_listed _ _ _ _ _ Hl)). destruct l as [|x l]; [done|]. exfalso.
    assert (count_if coming ths = 0%nat) as H0; [|cbn in Hle; lia]. clear -Hrest.
    induction Hrest as [|p ths [->| ->] _ IH]; [done|by rewrite count_cons, IH..].
  - left. apply not_Forall_Exists in Hbusy; [|apply _]. apply Exists_exists in Hbusy as (p & Hin & Hp).
    pose proof (Hno p Hin) as Hh. apply list_elem_of_split in Hin as (l1 & l2 & ->).
    destruct p as [|j|j|[]]; try (by destruct Hp; (left + right)).
    + eexists. eapply run_lock. by apply cq_lock_run.
    + by destruct Hh.
    + eexists. apply run_woken.
Qed.

(** ** The threads come to rest *)

(** A bound on what a thread among [n] still does, the threads it may wake included. *)
Definition cost (n : nat) (p : pc) : nat :=
  match p with
  | Idle | Sleeping false => 0
  | Sleeping true => 3
  | Ready j | Holding j =>
      (match p with Ready _ => 1 | _ => 0 end) +
      match j with JRound | JExpire => 1 | JLink _ _ => 4 | JShut => 3 * n + 1 end
  end.
Fixpoint total (f : pc → nat) ths : nat :=
  match ths with [] => 0 | p :: ths => f p + total f ths end.
Definition work (s : system) : nat := total (cost (length (threads s))) (threads s).

Lemma total_mid f l1 p l2 : total f (l1 ++ p :: l2) = (f p + total f (l1 ++ l2))%nat.
Proof. induction l1 as [|q l1 IH]; cbn; [done|]. rewrite IH. lia. Qed.

Lemma wake_cost n ths :
  (total (cost n) (wake <$> ths) ≤ total (cost n) ths + 3 * length ths)%nat.
Proof. induction ths as [|p ths IH]; cbn; [lia|]. destruct p as [|[]|[]|[]]; cbn in *; lia. Qed.

Lemma run_step_work s s' : run_step s s' → (work s' < work s)%nat.
Proof.
  unfold work. intros Hstep.
  destruct Hstep as [j w w' l1 l2 xs ds _|ev e w w' l1 l2 ths' xs ds _ Hsig|w w' l1 l2 xs ds _
    |r w w' l1 l2 xs ds _|w w' l1 l2 xs ds _|w l1 l2 xs ds]; cbn [threads].
  1,4,5,6: rewrite !length_app, !total_mid; cbn [length cost]; try (destruct j); try (destruct r); cbn; lia.
  - assert (length ths' = length (l1 ++ Idle :: l2) ∧
      ∀ n, (total (cost n) ths' ≤ total (cost n) (l1 ++ Idle :: l2) + 3)%nat) as [-> Hle].
    { destruct Hsig as [(k1 & k2 & -> & ->)|[_ ->]]; [|split; [done|lia]].
      rewrite !length_app. split; [done|]. intros n. rewrite !total_mid. cbn. lia. }
    rewrite !length_app. cbn [length]. specialize (Hle (length l1 + S (length l2))%nat).
    rewrite !total_mid in *. cbn in *. lia.
  - rewrite length_fmap, !length_app. cbn [length]. set (n := (length l1 + S (length l2))%nat).
    rewrite fmap_app, fmap_cons, total_mid. cbn [wake cost]. rewrite <- fmap_app.
    pose proof (wake_cost n (l1 ++ l2)) as Hw. rewrite total_mid. cbn [cost]. rewrite length_app in Hw. lia.
Qed.

Lemma run_steps_work k s s' : nsteps run_step k s s' → (k + work s' ≤ work s)%nat.
Proof. induction 1 as [|k s1 s2 s3 H%run_step_work _ IH]; lia. Qed.

Lemma run_settles s : sys_ok s → ∃ s', rtc run_step s s' ∧ quiet s'.
Proof.
  remember (work s) as n eqn:Hn. revert s Hn. induction (lt_wf n) as [n _ IH]. intros s -> Hok.
  destruct (run_progress s Hok) as [[s1 H1]|Hq]; [|by exists s].
  destruct (IH (work s1) (run_step_work _ _ H1) s1 eq_refl (run_inv _ _ Hok H1)) as (s' & Hs & Hq).
  exists s'. split; [by eapply rtc_l|done].
Qed.

(** ** What the threads can rely on *)

(** C10. Any number of threads that push, take, wait on and shut down one completion queue,
    interleaved at every acquisition and release of the mutex: the events linked are at every
    moment those delivered, in the order of their delivery, followed by those in the queue, so
    none is lost, duplicated or overtaken; one thread at most is in a critical section; and
    when all threads are outside, destroying the queue frees every node. *)
Theorem queue_threads_exactly_once type al c al' n s :
  grpc_completion_queue_create type al = Ret (Some c, al') → rtc thread_step (start c al' n) s →
  (∃ l, chain (cells (shared s)) (cq_head (obj (shared s))) l None ∧ arrivals s = (deliveries s).*2 ++ l.*2) ∧
  (∀ i j a b, threads s !! i = Some (Holding a) → threads s !! j = Some (Holding b) → i = j) ∧
  (Forall (λ p, p = Idle) (threads s) → grpc_completion_queue_destroy (Some (shared s)) = Ret (Some ∅)).
Proof.
  intros Hc Hs. destruct (thread_steps_ok _ _ (start_sys_ok _ _ _ _ _ Hc) Hs) as [l Hl].
  pose proof Hl as [(Hch & Hnd & Ht) Hn Hce Hf Hp Hm Hlog Hw]. split; [by exists l|]. split.
  - intros i j a b Hi Hj. apply (count_unique holds (threads s) i j (Holding a) (Holding b)); try done.
    destruct (cq_mutex (obj (shared s))); lia.
  - intros Hidle. assert (pending (threads s) = [] ∧ count_if holds (threads s) = 0%nat) as [Hpe Hh].
    { clear -Hidle. induction Hidle as [|p ths -> _ [IH1 IH2]]; [done|]. by rewrite pending_cons, count_cons, IH1, IH2. }
    rewrite Hpe, app_nil_r in *. apply (destroy_run _ (mk_queue l.*2 (cq_shutdown (obj (shared s))) (cell_answers (shared s)))).
    split; [|done|done|by destruct (cq_mutex (obj (shared s))); [lia|]].
    exists l. split_and!; [|done|done]. split; [done|done|by intros a ?%Hce|done].
Qed.

(** C11. Once no new call is made and no deadline passes, the threads of a completion queue
    come to rest after at most [work] steps, and until then one of them can go on: there is no
    deadlock, no fault and no lost wake-up, since at rest every thread is outside or asleep on
    an open, empty queue. *)
Theorem queue_threads_settle type al c al' n s :
  grpc_completion_queue_create type al = Ret (Some c, al') → rtc thread_step (start c al' n) s →
  (∀ k s', nsteps run_step k s s' → (k ≤ work s)%nat) ∧
  (∀ s', rtc run_step s s' → (∃ s2, run_step s' s2) ∨ quiet s') ∧
  ∃ s', rtc run_step s s' ∧ quiet s'.
Proof.
  intros Hc Hs. pose proof (thread_steps_ok _ _ (start_sys_ok _ _ _ _ _ Hc) Hs) as Hok. split_and!.
  - intros k s' Hk%run_steps_work. lia.
  - intros s' Hr. apply run_progress. eapply thread_steps_ok; [exact Hok|].
    eapply rtc_subrel; [|exact Hr]. by right.
  - by apply run_settles.
Qed.

(** A consumer has fallen asleep and a producer is about to link an event. *)
Definition two_threads : system :=
  mk_system (mk_heap (mk_cq GRPC_CQ_NEXT false None None false)
      {[ 1%positive := mk_cell (mk_event 1 true (Some 7%positive)) None ]} 2 [])
    [Sleeping false; Ready (JLink 1 (mk_event 1 true (Some 7%positive)))] [] [].

Lemma two_threads_reachable :
  rtc thread_step (start (mk_cq GRPC_CQ_NEXT false None None false) [] 2) two_threads.
Proof.
  eapply rtc_l; [left; apply (act_next _ [] [Idle])|].
  eapply rtc_l; [right; eapply (run_lock JRound _ _ [] [Idle]); reflexivity|].
  eapply rtc_l; [right; eapply (run_round MustWait _ _ [] [Idle]); reflexivity|].
  eapply rtc_l; [left; eapply (act_push (mk_event 1 true (Some 7%positive)) (Some 1%positive) _ _ [Sleeping false] []); reflexivity|].
  apply rtc_refl.
Defined.

Lemma queue_threads_exactly_once_witness :
  grpc_completion_queue_create GRPC_CQ_NEXT [] = Ret (Some (mk_cq GRPC_CQ_NEXT false None None false), []) ∧
  ∃ l, chain (cells (shared two_threads)) (cq_head (obj (shared two_threads))) l None ∧
    arrivals two_threads = (deliveries two_threads).*2 ++ l.*2.
Proof.
  split; [reflexivity|].
  apply (queue_threads_exactly_once GRPC_CQ_NEXT [] _ [] 2 two_threads eq_refl two_threads_reachable).
Defined.

Lemma queue_threads_settle_witness :
  (∀ k s', nsteps run_step k two_threads s' → (k ≤ 5)%nat) ∧
  ∃ s', rtc run_step two_threads s' ∧ quiet s'.
Proof.
  destruct (queue_threads_settle GRPC_CQ_NEXT [] _ [] 2 two_threads eq_refl two_threads_reachable) as (H1 & _ & H2).
  split; [exact H1|exact H2].
Defined.
