(* ===== verification/LoadBalancer.v ===== *)
(** * Load balancing policies (src/src/load_balancing.c)

    The address list of a policy and its three ways to pick an address. *)

From Stdlib Require Import ZArith Lia.
From stdpp Require Import base tactics list option strings gmap.
From S2P Require Import Prelude Lists.

#[local] Open Scope Z_scope.
#[local] Set Warnings "-clear-no-such-hyp".

(** ** Data *)

(** [grpc_lb_policy_type]; the type of a policy is an [int] the caller chooses. *)
Definition GRPC_LB_POLICY_ROUND_ROBIN : Z := 0.
Definition GRPC_LB_POLICY_PICK_FIRST : Z := 1.
Definition GRPC_LB_POLICY_WEIGHTED : Z := 2.

(** [grpc_lb_address] without its [next] pointer; [address] is the block of the string. *)
Record grpc_lb_address := mk_lb_address {
  address : list Z;
  weight : Z;
  is_available : bool
}.

Record grpc_lb_policy := mk_lb_policy {
  lb_type : Z;
  addresses : option positive;
  address_count : Z;
  current_index : Z;
  lb_mutex : bool
}.

Abbreviation lb_state := (heap_of grpc_lb_policy grpc_lb_address).

Definition set_lb_mutex (b : bool) (p : grpc_lb_policy) : grpc_lb_policy :=
  mk_lb_policy (lb_type p) (addresses p) (address_count p) (current_index p) b.
Definition set_addresses (a : option positive) (p : grpc_lb_policy) : grpc_lb_policy :=
  mk_lb_policy (lb_type p) a (address_count p) (current_index p) (lb_mutex p).
Definition set_address_count (n : Z) (p : grpc_lb_policy) : grpc_lb_policy :=
  mk_lb_policy (lb_type p) (addresses p) n (current_index p) (lb_mutex p).
Definition set_current_index (n : Z) (p : grpc_lb_policy) : grpc_lb_policy :=
  mk_lb_policy (lb_type p) (addresses p) (address_count p) n (lb_mutex p).
Definition set_available (b : bool) (a : grpc_lb_address) : grpc_lb_address :=
  mk_lb_address (address a) (weight a) b.

Definition lb_lock : M lb_state () := λ w,
  if lb_mutex (obj w) then Fault Deadlock else Ret ((), upd_obj (set_lb_mutex true) w).
Definition lb_unlock : M lb_state () := modify (upd_obj (set_lb_mutex false)).

(** ** Addresses *)

(** The object and its copy of the string are allocated; the copy ends at the terminator. *)
Definition grpc_lb_address_create (addr : list Z) (w : Z) : M lb_state (option positive) :=
  ok ← malloc_cell;
  if negb ok then mret None else
  dup ← malloc_cell;            (* strdup *)
  if negb dup then mret None else
  a ← new_cell (mk_cell (mk_lb_address (c_str addr ++ [0]) (if 0 <? w then w else 1) true) None);
  mret (Some a).

(** [free (addr->address); free (addr)]: the string belongs to its node. *)
Definition grpc_lb_address_destroy (addr : option positive) : M lb_state () :=
  match addr with None => mret () | Some a => free_cell a end.

(** ** Picks: the pointer to the picked node's string is the node and its string *)

Abbreviation picked := (option (positive * list Z)).

(** [for (i = 0; i < target_index && addr; i++) addr = addr->next]. *)
Fixpoint advance (n : nat) (addr : option positive) : M lb_state (option positive) :=
  match n, addr with
  | S n, Some a => node ← read_cell a; advance n (next node)
  | _, _ => mret addr
  end.

(** [n] is [address_count - attempts]. *)
Fixpoint round_robin_loop (n : nat) (addr : option positive) : M lb_state picked :=
  match n, addr with
  | S n, Some a =>
      node ← read_cell a;
      if is_available (data node) then
        p ← gets obj;
        _ ← modify (upd_obj (set_current_index
              (u64 (current_index p + 1) mod address_count p)));
        _ ← lb_unlock;
        mret (Some (a, address (data node)))
      else
        p ← gets obj;
        round_robin_loop n (match next node with Some b => Some b | None => addresses p end)
  | _, _ => _ ← lb_unlock; mret None
  end.

(** The function between its [pthread_mutex_lock] and its return, here and below. *)
Definition round_robin_section : M lb_state picked :=
  p ← gets obj;
  addr ← advance (Z.to_nat (current_index p)) (addresses p);
  round_robin_loop (Z.to_nat (address_count p)) addr.
Definition grpc_lb_round_robin_pick : M (option lb_state) picked := nullable None (
  p ← gets obj;
  if bool_decide (addresses p = None) || (address_count p =? 0) then mret None else
  _ ← lb_lock;
  round_robin_section).

Fixpoint pick_first_loop (fuel : nat) (addr : option positive) : M lb_state picked :=
  match addr with
  | None => _ ← lb_unlock; mret None
  | Some a =>
      match fuel with
      | O => fail OutOfFuel
      | S fuel =>
          node ← read_cell a;
          if is_available (data node) then
            _ ← lb_unlock; mret (Some (a, address (data node)))
          else pick_first_loop fuel (next node)
      end
  end.

Definition pick_first_section : M lb_state picked :=
  p ← gets obj;
  fuel ← gets walk_fuel;
  pick_first_loop fuel (addresses p).
Definition grpc_lb_pick_first_pick : M (option lb_state) picked := nullable None (
  p ← gets obj;
  if bool_decide (addresses p = None) then mret None else
  _ ← lb_lock;
  pick_first_section).

Fixpoint total_weight_loop (fuel : nat) (addr : option positive) (total : Z) : M lb_state Z :=
  match addr with
  | None => mret total
  | Some a =>
      match fuel with
      | O => fail OutOfFuel
      | S fuel =>
          node ← read_cell a;
          total ← (if is_available (data node) then lift (int_add total (weight (data node)))
                   else mret total);
          total_weight_loop fuel (next node) total
      end
  end.

Fixpoint weighted_loop (fuel : nat) (addr : option positive) (random_weight current : Z)
    : M lb_state picked :=
  match addr with
  | None => _ ← lb_unlock; mret None
  | Some a =>
      match fuel with
      | O => fail OutOfFuel
      | S fuel =>
          node ← read_cell a;
          if is_available (data node) then
            current ← lift (int_add current (weight (data node)));
            if random_weight <? current then
              _ ← lb_unlock; mret (Some (a, address (data node)))
            else weighted_loop fuel (next node) random_weight current
          else weighted_loop fuel (next node) random_weight current
      end
  end.

(** [rand] is the value the call to [rand ()] returns. *)
Definition weighted_section (rand : Z) : M lb_state picked :=
  p ← gets obj;
  fuel ← gets walk_fuel;
  total_weight ← total_weight_loop fuel (addresses p) 0;
  if total_weight =? 0 then _ ← lb_unlock; mret None else
  let random_weight := Z.rem rand total_weight in
  weighted_loop fuel (addresses p) random_weight 0.
Definition grpc_lb_weighted_pick (rand : Z) : M (option lb_state) picked := nullable None (
  p ← gets obj;
  if bool_decide (addresses p = None) || (address_count p =? 0) then mret None else
  _ ← lb_lock;
  weighted_section rand).

(** ** The policy API *)

Definition grpc_lb_policy_create (type : Z) : M allocs (option grpc_lb_policy) :=
  ok ← malloc;
  if negb ok then mret None else mret (Some (mk_lb_policy type None 0 0 false)).

(** [while (last->next) last = last->next]. *)
Fixpoint last_address (fuel : nat) (last : positive) : M lb_state positive :=
  match fuel with
  | O => fail OutOfFuel
  | S fuel =>
      node ← read_cell last;
      match next node with Some b => last_address fuel b | None => mret last end
  end.

Definition link_section (new_addr : positive) : M lb_state Z :=
  p ← gets obj;
  _ ← match addresses p with
      | None => modify (upd_obj (set_addresses (Some new_addr)))
      | Some first =>
          fuel ← gets walk_fuel;
          last ← last_address fuel first;
          node ← read_cell last;
          write_cell last (mk_cell (data node) (Some new_addr))
      end;
  _ ← modify (upd_obj (set_address_count (u64 (address_count p + 1))));
  _ ← lb_unlock;
  mret 0.
Definition grpc_lb_policy_add_address (addr : option (list Z)) (w : Z) : M (option lb_state) Z :=
  nullable (-1)
  match addr with
  | None => mret (-1)
  | Some s =>
      new ← grpc_lb_address_create s w;
      match new with
      | None => mret (-1)
      | Some new_addr => _ ← lb_lock; link_section new_addr
      end
  end.

Definition grpc_lb_policy_pick (rand : Z) : M (option lb_state) picked := nullable None (
  p ← gets obj;
  if lb_type p =? GRPC_LB_POLICY_ROUND_ROBIN then deref grpc_lb_round_robin_pick
  else if lb_type p =? GRPC_LB_POLICY_PICK_FIRST then deref grpc_lb_pick_first_pick
  else if lb_type p =? GRPC_LB_POLICY_WEIGHTED then deref (grpc_lb_weighted_pick rand)
  else mret None).

Fixpoint mark_loop (b : bool) (fuel : nat) (s : list Z) (addr : option positive) : M lb_state Z :=
  match addr with
  | None => _ ← lb_unlock; mret (-1)
  | Some a =>
      match fuel with
      | O => fail OutOfFuel
      | S fuel =>
          node ← read_cell a;
          if strcmp_eq (address (data node)) s then
            _ ← write_cell a (mk_cell (set_available b (data node)) (next node));
            _ ← lb_unlock;
            mret 0
          else mark_loop b fuel s (next node)
      end
  end.

Definition mark_section (b : bool) (s : list Z) : M lb_state Z :=
  p ← gets obj;
  fuel ← gets walk_fuel;
  mark_loop b fuel s (addresses p).
(** The two functions differ in the flag they store. *)
Definition mark (b : bool) (addr : option (list Z)) : M (option lb_state) Z := nullable (-1)
  match addr with
  | None => mret (-1)
  | Some s =>
      _ ← lb_lock; mark_section b s
  end.
Definition grpc_lb_policy_mark_unavailable : option (list Z) → M (option lb_state) Z := mark false.
Definition grpc_lb_policy_mark_available : option (list Z) → M (option lb_state) Z := mark true.

Fixpoint destroy_addresses (fuel : nat) (addr : option positive) : M lb_state () :=
  match addr with
  | None => mret ()
  | Some a =>
      match fuel with
      | O => fail OutOfFuel
      | S fuel =>
          node ← read_cell a;
          _ ← grpc_lb_address_destroy (Some a);
          destroy_addresses fuel (next node)
      end
  end.

(** The policy is gone afterwards: what is left are the nodes nobody freed. *)
Definition grpc_lb_policy_destroy (w : option lb_state)
    : outcome (option (gmap positive (cell grpc_lb_address))) :=
  match w with
  | None => Ret None
  | Some w =>
      let body :=
        _ ← lb_lock;
        p ← gets obj;
        _ ← destroy_addresses (walk_fuel w) (addresses p);
        lb_unlock in
      match body w with
      | Ret (_, w') => Ret (Some (cells w'))
      | Fault f => Fault f
      end
  end.

(** ** The picks on the list of addresses *)

Implicit Types (w : lb_state) (l s spare : list (positive * grpc_lb_address)).

Definition available (n : positive * grpc_lb_address) : bool := is_available n.2.
Definition result_of (n : positive * grpc_lb_address) : positive * list Z := (n.1, address n.2).

Definition first_available l : picked := result_of <$> List.find available l.

(** The nodes from index [k] on, then those before it. *)
Definition from_index (k : nat) l := drop k l ++ take k l.

(** The total weight of the available addresses, and the address on which the running sum
    of the weights first exceeds [r]. *)
Fixpoint total_weight l : Z :=
  match l with
  | [] => 0
  | n :: l => (if available n then weight n.2 else 0) + total_weight l
  end.
Fixpoint weighted_choice l (r : Z) : picked :=
  match l with
  | [] => None
  | n :: l =>
      if available n then
        if r <? weight n.2 then Some (result_of n) else weighted_choice l (r - weight n.2)
      else weighted_choice l r
  end.

(** The representation: the nodes, their number, an index within them, weights as
    [grpc_lb_address_create] makes them. *)
Record lb_inv spare w l : Prop := {
  lb_owns : owns_but spare w (addresses (obj w)) l;
  lb_count : address_count (obj w) = zlen l;
  lb_index : 0 ≤ current_index (obj w) < Z.max 1 (zlen l);
  lb_weights : Forall (λ n, 0 < weight n.2 < 2 ^ 31) l
}.

(** ... and between two calls there are no other nodes, and nobody holds the mutex. *)
Definition lb_rel w l : Prop := lb_inv [] w l ∧ lb_mutex (obj w) = false.

Lemma lb_lock_run w : lb_mutex (obj w) = false → lb_lock w = Ret ((), upd_obj (set_lb_mutex true) w).
Proof. unfold lb_lock. by intros ->. Qed.

Lemma lb_relock w :
  lb_mutex (obj w) = false → upd_obj (set_lb_mutex false) (upd_obj (set_lb_mutex true) w) = w.
Proof. destruct w as [[] ???]; cbn. by intros ->. Qed.

Lemma lb_inv_mutex b spare w l : lb_inv spare w l → lb_inv spare (upd_obj (set_lb_mutex b) w) l.
Proof. intros [Ho ???]. split; try done. exact (owns_but_same _ w (upd_obj (set_lb_mutex b) w) _ _ _ eq_refl eq_refl eq_refl Ho). Qed.

Lemma lb_inv_index k spare w l :
  0 ≤ k < Z.max 1 (zlen l) → lb_inv spare w l → lb_inv spare (upd_obj (set_current_index k) w) l.
Proof.
  intros Hk [Ho ???]. split; try done.
  exact (owns_but_same _ w (upd_obj (set_current_index k) w) _ _ _ eq_refl eq_refl eq_refl Ho).
Qed.

Lemma lb_rel_new type al : lb_rel (mk_heap (mk_lb_policy type None 0 0 false) ∅ 1 al) [].
Proof. split; [|done]. split; cbn; [apply owns_but_nil, owns_nil|done|lia|done]. Qed.

Lemma head_of_chain (h : gmap positive (cell grpc_lb_address)) p s :
  chain h p s None → p = None ↔ s = [].
Proof. destruct s as [|[a x] s]; cbn; [naive_solver|]. by intros [-> _]. Qed.

Lemma advance_run k p s w :
  chain (cells w) p s None → (k ≤ length s)%nat →
  ∃ q, advance k p w = Ret (q, w) ∧ chain (cells w) q (drop k s) None.
Proof.
  revert p s. induction k as [|k IH]; intros p s Hc Hk; cbn [advance]; [by exists p|].
  destruct s as [|[a x] s]; [cbn in Hk; lia|]. destruct Hc as (-> & r & Ha & Hc).
  mstep (read_cell_run _ _ _ Ha). apply IH; [done|]. cbn in Hk. lia.
Qed.

(** [n] attempts from the nodes [s], wrapping around to the whole list. *)
Lemma round_robin_loop_run n p s l w :
  chain (cells w) (addresses (obj w)) l None → chain (cells w) p s None →
  (n ≤ length l)%nat → l ≠ [] → s ≠ [] →
  round_robin_loop n p w =
    let r := first_available (take n (s ++ l)) in
    Ret (r, upd_obj (set_lb_mutex false) match r with
            | Some _ => upd_obj (set_current_index
                (u64 (current_index (obj w) + 1) mod address_count (obj w))) w
            | None => w
            end).
Proof.
  intros Hl. revert p s. induction n as [|n IH]; intros p s Hs Hn Hl0 Hs0;
    destruct s as [|[a x] s]; try done.
  destruct Hs as (-> & q & Ha & Hs). cbn [round_robin_loop].
  mstep (read_cell_run _ _ _ Ha). cbn [data next].
  unfold first_available. cbn [app take List.find]. unfold available at 1 3. cbn [snd].
  destruct (is_available x); [done|]. rewrite M_bind_gets.
  destruct s as [|[b y] s].
  - cbn in Hs. subst q. rewrite (IH _ l); [|done|lia|done|done].
    cbn [app]. unfold first_available. by rewrite take_app_le by lia.
  - destruct (id Hs) as [-> _]. rewrite (IH _ ((b, y) :: s)); [done|done|lia|done|done].
Qed.

(** Round robin from the current index, which then moves on by one. *)
Definition rr_result w l : picked := first_available (from_index (Z.to_nat (current_index (obj w))) l).
Definition rr_index w l : Z :=
  match rr_result w l with
  | Some _ => (current_index (obj w) + 1) mod zlen l
  | None => current_index (obj w)
  end.

Lemma round_robin_section_run spare w l :
  lb_inv spare w l → zlen l < 2 ^ 64 →
  round_robin_section w =
    Ret (rr_result w l, upd_obj (λ p, set_lb_mutex false (set_current_index (rr_index w l) p)) w).
Proof.
  intros [Ho Hc Hi _] Hlen. unfold round_robin_section. rewrite M_bind_gets.
  pose proof (ob_chain _ _ _ _ Ho) as Hch. destruct l as [|n l].
  { cbn in Hch. rewrite Hch, Hc. unfold rr_index, rr_result, from_index. rewrite drop_nil, take_nil.
    destruct w as [[ty ad cnt ix m] ???]. cbn in *. assert (ix = 0) as -> by lia. by subst. }
  set (l' := n :: l) in *.
  destruct (advance_run (Z.to_nat (current_index (obj w))) (addresses (obj w)) l' w Hch)
    as (q & E & Hq); [cbn in *; lia|].
  mstep E.
  rewrite Hc, Nat2Z.id, (round_robin_loop_run _ _ (drop (Z.to_nat (current_index (obj w))) l') l' w);
    [|done|done|done|done| ].
  2:{ intros Hd%(f_equal length). rewrite length_drop in Hd. cbn in *. lia. }
  assert (take (length l') (drop (Z.to_nat (current_index (obj w))) l' ++ l') =
          from_index (Z.to_nat (current_index (obj w))) l') as ->.
  { unfold from_index. rewrite take_app, length_drop. f_equal.
    - apply take_ge. rewrite length_drop. lia.
    - f_equal. cbn in *. lia. }
  fold (rr_result w l'). unfold rr_index. cbn zeta.
  rewrite u64_small by (cbn in *; lia). rewrite <- Hc.
  destruct (rr_result w l'); cbn; unfold upd_obj; destruct w as [[] ???]; cbn in *; by subst.
Qed.

Lemma round_robin_run w l :
  lb_rel w l → zlen l < 2 ^ 64 →
  grpc_lb_round_robin_pick (Some w) =
    Ret (rr_result w l, Some (upd_obj (set_current_index (rr_index w l)) w)).
Proof.
  intros [Hinv Hm] Hlen. unfold grpc_lb_round_robin_pick, nullable. rewrite M_bind_gets.
  pose proof (head_of_chain _ _ _ (ob_chain _ _ _ _ (lb_owns _ _ _ Hinv))) as Hhd.
  destruct l as [|n l].
  { rewrite bool_decide_eq_true_2 by (by apply Hhd). cbn [orb]. unfold rr_index, rr_result, from_index.
    rewrite drop_nil, take_nil. by destruct w as [[] ???]. }
  rewrite bool_decide_eq_false_2, (lb_count _ _ _ Hinv) by (by rewrite Hhd). cbn [orb].
  rewrite (proj2 (Z.eqb_neq _ _)) by (cbn; lia). mstep (lb_lock_run w Hm).
  rewrite (round_robin_section_run [] _ (n :: l)) by (done || by apply lb_inv_mutex).
  destruct w as [[] ???]. cbn in *. by subst.
Qed.

Lemma pick_first_loop_run n p s w :
  chain (cells w) p s None → (length s ≤ n)%nat →
  pick_first_loop n p w = Ret (first_available s, upd_obj (set_lb_mutex false) w).
Proof.
  revert p s. induction n as [|n IH]; intros p s Hs Hn;
    (destruct s as [|[a x] s]; [by cbn in Hs; subst p|]); [cbn in Hn; lia|].
  destruct Hs as (-> & q & Ha & Hs). cbn [pick_first_loop].
  mstep (read_cell_run _ _ _ Ha). cbn [data next].
  unfold first_available. cbn [List.find]. unfold available at 1. cbn [snd].
  destruct (is_available x); [done|]. apply IH; [done|]. cbn in Hn. lia.
Qed.

Lemma pick_first_section_run spare w l :
  lb_inv spare w l → pick_first_section w = Ret (first_available l, upd_obj (set_lb_mutex false) w).
Proof.
  intros [Ho _ _ _]. unfold pick_first_section. rewrite !M_bind_gets.
  pose proof (owns_but_fuel _ _ _ _ Ho). by rewrite (pick_first_loop_run _ _ l) by (apply Ho || lia).
Qed.

Lemma pick_first_run w l :
  lb_rel w l → grpc_lb_pick_first_pick (Some w) = Ret (first_available l, Some w).
Proof.
  intros [Hinv Hm]. unfold grpc_lb_pick_first_pick, nullable. rewrite M_bind_gets.
  pose proof (head_of_chain _ _ _ (ob_chain _ _ _ _ (lb_owns _ _ _ Hinv))) as Hhd.
  case_bool_decide as Hp; [by rewrite (proj1 Hhd Hp)|].
  mstep (lb_lock_run w Hm). rewrite (pick_first_section_run [] _ l) by by apply lb_inv_mutex.
  by rewrite lb_relock.
Qed.

Lemma total_weight_nonneg l : Forall (λ n, 0 < weight n.2 < 2 ^ 31) l → 0 ≤ total_weight l.
Proof.
  induction 1 as [|n l Hn _ IH]; cbn; [done|]. destruct (available n); lia.
Qed.

(** The sum of the weights, or the overflow of the [int] that holds it. *)
Lemma total_weight_loop_run n p s t w :
  chain (cells w) p s None → (length s ≤ n)%nat → 0 ≤ t →
  Forall (λ n, 0 < weight n.2 < 2 ^ 31) s →
  t < 2 ^ 31 →
  total_weight_loop n p t w =
    if t + total_weight s <? 2 ^ 31 then Ret (t + total_weight s, w) else Fault SignedOverflow.
Proof.
  intros Hs Hn Ht Hw. revert p s t Hs Hn Ht Hw. induction n as [|n IH]; intros p s t Hs Hn Ht Hw Ht2;
    (destruct s as [|[a x] s];
      [cbn in Hs; subst p; cbn; rewrite Z.add_0_r; by destruct (Z.ltb_spec t (2 ^ 31)); [|lia]|]);
    [cbn in Hn; lia|].
  destruct Hs as (-> & q & Ha & Hs). apply Forall_cons in Hw as [Hx Hw]. cbn [snd] in Hx.
  pose proof (total_weight_nonneg s Hw). cbn [total_weight_loop total_weight].
  mstep (read_cell_run _ _ _ Ha). cbn [data next].
  unfold available at 1 2. cbn [snd].
  assert ((length s ≤ n)%nat) as Hn' by (cbn in Hn; lia).
  destruct (is_available x).
  - rewrite int_add_run by lia. destruct (Z.ltb_spec (t + weight x) (2 ^ 31)).
    + mstep eq_refl. rewrite (IH q s) by (done || lia).
      by rewrite Z.add_assoc.
    + destruct (Z.ltb_spec (t + (weight x + total_weight s)) (2 ^ 31)); [lia|done].
  - rewrite M_bind_mret, (IH q s) by (done || lia). done.
Qed.

(** The second walk stops where the running sum first exceeds [r]; it does not overflow
    when the first did not. *)
Lemma weighted_loop_run n p s r c w :
  chain (cells w) p s None → (length s ≤ n)%nat → 0 ≤ c →
  Forall (λ n, 0 < weight n.2 < 2 ^ 31) s → c + total_weight s < 2 ^ 31 →
  weighted_loop n p r c w = Ret (weighted_choice s (r - c), upd_obj (set_lb_mutex false) w).
Proof.
  revert p s c. induction n as [|n IH]; intros p s c Hs Hn Hc Hw Ht;
    (destruct s as [|[a x] s]; [by cbn in Hs; subst p|]); [cbn in Hn; lia|].
  destruct Hs as (-> & q & Ha & Hs). apply Forall_cons in Hw as [Hx Hw]. cbn [snd] in Hx.
  pose proof (total_weight_nonneg s Hw). cbn [weighted_loop weighted_choice total_weight] in *.
  mstep (read_cell_run _ _ _ Ha). cbn [data next].
  unfold available in *. cbn [snd] in *.
  assert ((length s ≤ n)%nat) as Hn' by (cbn in Hn; lia).
  destruct (is_available x).
  - rewrite int_add_run by lia. destruct (Z.ltb_spec (c + weight x) (2 ^ 31)); [|lia].
    mstep eq_refl.
    destruct (Z.ltb_spec r (c + weight x)), (Z.ltb_spec (r - c) (weight x)); try lia; [done|].
    rewrite (IH q s) by (done || lia). by replace (r - c - weight x) with (r - (c + weight x)) by lia.
  - by rewrite (IH q s) by (done || lia).
Qed.

(** The weighted pick: an overflow of the total is undefined behaviour. *)
Definition weighted_result l (rand : Z) : picked :=
  if total_weight l =? 0 then None else weighted_choice l (Z.rem rand (total_weight l)).

Lemma weighted_section_run spare w l rand :
  lb_inv spare w l →
  weighted_section rand w =
    if total_weight l <? 2 ^ 31 then Ret (weighted_result l rand, upd_obj (set_lb_mutex false) w)
    else Fault SignedOverflow.
Proof.
  intros [Ho _ _ Hw]. unfold weighted_section, weighted_result. rewrite !M_bind_gets.
  pose proof (ob_chain _ _ _ _ Ho) as Hch. pose proof (owns_but_fuel _ _ _ _ Ho).
  assert ((length l ≤ walk_fuel w)%nat) as Hf by lia.
  pose proof (total_weight_loop_run (walk_fuel w) (addresses (obj w)) l 0 w Hch Hf
    ltac:(lia) Hw ltac:(lia)) as Et. rewrite Z.add_0_l in Et.
  destruct (Z.ltb_spec (total_weight l) (2 ^ 31)); [|by rewrite (M_bind_Fault _ _ _ _ Et)].
  mstep Et.
  destruct (Z.eqb_spec (total_weight l) 0); [done|].
  rewrite (weighted_loop_run _ _ l _ 0 w) by (done || lia). by rewrite Z.sub_0_r.
Qed.

Lemma weighted_run w l rand :
  lb_rel w l →
  grpc_lb_weighted_pick rand (Some w) =
    if total_weight l <? 2 ^ 31 then Ret (weighted_result l rand, Some w) else Fault SignedOverflow.
Proof.
  intros [Hinv Hm]. unfold grpc_lb_weighted_pick, nullable. rewrite M_bind_gets.
  pose proof (head_of_chain _ _ _ (ob_chain _ _ _ _ (lb_owns _ _ _ Hinv))) as Hhd.
  case_bool_decide as Hp; cbn [orb]; [by rewrite (proj1 Hhd Hp)|].
  rewrite (lb_count _ _ _ Hinv). destruct (Z.eqb_spec (zlen l) 0) as [Hz|Hz]; [by destruct l|].
  mstep (lb_lock_run w Hm). rewrite (weighted_section_run [] _ l) by by apply lb_inv_mutex.
  destruct (_ <? _); [|done]. by rewrite lb_relock.
Qed.

(** ** What a policy promises *)

(** The addresses in the order they were added, each with the identity of its node, the
    round-robin index, the next identity and the answers of the allocator. *)
Record policy := mk_policy {
  entries : list (positive * grpc_lb_address);
  index : Z;
  next_id : positive;
  lb_answers : allocs
}.

Definition made (s : list Z) (wt : Z) : grpc_lb_address :=
  mk_lb_address (c_str s ++ [0]) (if 0 <? wt then wt else 1) true.

Definition spec_add (s : list Z) (wt : Z) (p : policy) : Z * policy :=
  let a1 := answer (lb_answers p) in
  if negb a1.1 then (-1, mk_policy (entries p) (index p) (next_id p) a1.2) else
  let a2 := answer a1.2 in
  if negb a2.1 then (-1, mk_policy (entries p) (index p) (next_id p) a2.2) else
  (0, mk_policy (entries p ++ [(next_id p, made s wt)]) (index p) (Pos.succ (next_id p)) a2.2).

(** The first entry with the string [s] gets the flag [b]. *)
Fixpoint mark_first (b : bool) (s : list Z) l : option (list (positive * grpc_lb_address)) :=
  match l with
  | [] => None
  | (a, x) :: l =>
      if strcmp_eq (address x) s then Some ((a, set_available b x) :: l)
      else cons (a, x) <$> mark_first b s l
  end.
Definition spec_mark (b : bool) (s : list Z) (p : policy) : Z * policy :=
  match mark_first b s (entries p) with
  | Some l => (0, mk_policy l (index p) (next_id p) (lb_answers p))
  | None => (-1, p)
  end.

(** The pick of each type: round robin moves the index by one after a pick, and the total
    of the weights must fit an [int]. *)
Definition spec_pick (type rand : Z) (p : policy) : outcome (picked * policy) :=
  if type =? GRPC_LB_POLICY_ROUND_ROBIN then
    let r := first_available (from_index (Z.to_nat (index p)) (entries p)) in
    Ret (r, mk_policy (entries p)
              (match r with Some _ => (index p + 1) mod zlen (entries p) | None => index p end)
              (next_id p) (lb_answers p))
  else if type =? GRPC_LB_POLICY_PICK_FIRST then Ret (first_available (entries p), p)
  else if type =? GRPC_LB_POLICY_WEIGHTED then
    if total_weight (entries p) <? 2 ^ 31 then Ret (weighted_result (entries p) rand, p)
    else Fault SignedOverflow
  else Ret (None, p).

Record policy_rel (type : Z) w (p : policy) : Prop := {
  pol_rel : lb_rel w (entries p);
  pol_type : lb_type (obj w) = type;
  pol_index : current_index (obj w) = index p;
  pol_id : fresh_cell w = next_id p;
  pol_answers : cell_answers w = lb_answers p
}.

Lemma last_address_run n a x l p w :
  chain (cells w) (Some p) (l ++ [(a, x)]) None → (length l < n)%nat →
  last_address n p w = Ret (a, w).
Proof.
  revert p l. induction n as [|n IH]; intros p l Hc Hn; [lia|]. cbn [last_address].
  destruct l as [|[b y] l]; cbn in Hc; destruct Hc as ([= ->] & q & Hb & Hc);
    mstep (read_cell_run _ _ _ Hb); cbn [next].
  - by subst q.
  - destruct q as [q|].
    + apply (IH q l Hc). cbn in Hn. lia.
    + by destruct l as [|[? ?] ?]; destruct Hc as [? _].
Qed.

Lemma lb_inv_answers al spare w l : lb_inv spare w l → lb_inv spare (set_cell_answers al w) l.
Proof.
  intros [Ho ???]. split; try done. exact (owns_but_same _ w (set_cell_answers al w) _ _ _ eq_refl eq_refl eq_refl Ho).
Qed.

(** What [grpc_lb_address_create] does to the nodes. *)
Definition with_address (s : list Z) (wt : Z) (al : allocs) w : lb_state :=
  mk_heap (obj w) (<[fresh_cell w := mk_cell (made s wt) None]> (cells w)) (Pos.succ (fresh_cell w)) al.

Lemma lb_address_create_run (s : list Z) wt w :
  grpc_lb_address_create s wt w =
    let a1 := answer (cell_answers w) in
    let a2 := answer a1.2 in
    if negb a1.1 then Ret (None, set_cell_answers a1.2 w)
    else if negb a2.1 then Ret (None, set_cell_answers a2.2 w)
    else Ret (Some (fresh_cell w), with_address s wt a2.2 w).
Proof.
  unfold grpc_lb_address_create. mstep (malloc_cell_answer w). cbn zeta.
  destruct (answer (cell_answers w)).1; [|done]. cbn [negb].
  mstep (malloc_cell_answer (set_cell_answers (answer (cell_answers w)).2 w)). cbn [cell_answers set_cell_answers].
  by destruct (answer (answer (cell_answers w)).2).1.
Qed.

Lemma lb_inv_new (s : list Z) wt al spare w l :
  lb_inv spare w l → lb_inv ((fresh_cell w, made s wt) :: spare) (with_address s wt al w) l.
Proof.
  intros [Ho ???]. split; try done. pose proof (owns_but_new _ _ _ _ (made s wt) Ho) as Ho'.
  eapply owns_but_same; [| | |exact Ho']; done.
Qed.

Lemma made_weight (s : list Z) wt : wt < 2 ^ 31 → 0 < weight (made s wt) < 2 ^ 31.
Proof. intros H. unfold made. cbn. destruct (Z.ltb_spec 0 wt); lia. Qed.

(** The state of the policy after its list has got a new last node. *)
Definition counted (first : option positive) w : lb_state :=
  upd_obj (λ p, set_lb_mutex false (set_address_count (u64 (address_count p + 1)) (set_addresses first p))) w.

Lemma lb_inv_counted spare w w' l b y first :
  lb_inv ((b, y) :: spare) w l → zlen l + 1 < 2 ^ 64 → 0 < weight y < 2 ^ 31 → obj w' = obj w →
  owns_but spare w' first (l ++ [(b, y)]) → lb_inv spare (counted first w') (l ++ [(b, y)]).
Proof.
  intros [_ Hc Hi Hw] Hlen Hy Hobj Ho. split; cbn; rewrite ?Hobj.
  - exact (owns_but_same _ w' (counted first w') _ _ _ eq_refl eq_refl eq_refl Ho).
  - rewrite Hc, u64_small, length_app by lia. cbn. lia.
  - rewrite length_app. cbn. lia.
  - apply Forall_app. split; [done|]. by constructor.
Qed.

(** The insertion of a new node at the end, under the mutex. *)
Lemma link_section_run spare w l b y :
  lb_inv ((b, y) :: spare) w l → zlen l + 1 < 2 ^ 64 → 0 < weight y < 2 ^ 31 →
  ∃ h first, link_section b w = Ret (0, counted first (upd_cells (λ _, h) w)) ∧
    lb_inv spare (counted first (upd_cells (λ _, h) w)) (l ++ [(b, y)]).
Proof.
  intros Hinv Hlen Hy. pose proof (lb_owns _ _ _ Hinv) as Ho. unfold link_section. rewrite M_bind_gets.
  destruct l as [|[t x] l _] using rev_ind.
  - pose proof (ob_chain _ _ _ _ Ho) as Hp. cbn in Hp. rewrite Hp in Ho |- *.
    unfold lb_unlock. rewrite !M_bind_modify. exists (cells w), (Some b). split; [by destruct w as [[] ???]|].
    apply (lb_inv_counted spare w (upd_cells (λ _, cells w) w) [] b y); [done..|].
    eapply owns_but_same; [| | |by apply owns_but_first]; done.
  - pose proof (owns_but_fuel _ _ _ _ Ho) as Hf. pose proof (ob_chain _ _ _ _ Ho) as Hch.
    destruct (owns_but_last spare w _ l t x b y Ho) as [Hx Ho'].
    destruct (addresses (obj w)) as [first|] eqn:Ef; [|by destruct l as [|[]]; destruct Hch as [? _]].
    assert (length l < walk_fuel w)%nat as Hf' by (rewrite length_app in Hf; lia).
    rewrite (M_bind_Ret _ _ w () (upd_cells (insert t (mk_cell x (Some b))) w)).
    2:{ rewrite M_bind_gets, (M_bind_Ret _ _ _ _ _ (last_address_run _ t x l first w Hch Hf')).
        mstep (read_cell_run _ _ _ Hx). by rewrite (write_cell_run _ _ _ _ Hx). }
    unfold lb_unlock. rewrite !M_bind_modify. exists (<[t := mk_cell x (Some b)]> (cells w)), (Some first).
    split; [destruct w as [[] ???]; cbn in *; by subst|]. rewrite <- app_assoc.
    pose proof (lb_inv_counted spare w (upd_cells (λ _, <[t := mk_cell x (Some b)]> (cells w)) w)
      (l ++ [(t, x)]) b y (Some first) Hinv Hlen Hy eq_refl) as Hfin. rewrite <- app_assoc in Hfin. by apply Hfin.
Qed.

Lemma add_run type (s : list Z) wt w p :
  policy_rel type w p → wt < 2 ^ 31 → zlen (entries p) + 1 < 2 ^ 64 →
  ∃ w', grpc_lb_policy_add_address (Some s) wt (Some w) = Ret ((spec_add s wt p).1, Some w') ∧
    policy_rel type w' (spec_add s wt p).2.
Proof.
  intros [[Hr Hm] Ht Hi Hid Ha] Hwt Hlen. unfold grpc_lb_policy_add_address, nullable, spec_add. rewrite <- Ha.
  unfold mbind at 1, M_bind at 1. rewrite lb_address_create_run. cbn zeta.
  destruct (answer (cell_answers w)).1; cbn [negb].
  2:{ eexists. split; [done|]. split; cbn; try done. split; [|done]. by apply lb_inv_answers. }
  destruct (answer (answer (cell_answers w)).2).1; cbn [negb].
  2:{ eexists. split; [done|]. split; cbn; try done. split; [|done]. by apply lb_inv_answers. }
  set (w1 := with_address _ _ _ w). mstep (lb_lock_run w1 Hm).
  pose proof (lb_inv_new s wt (answer (answer (cell_answers w)).2).2 _ _ _ Hr) as Hn.
  destruct (link_section_run [] _ _ _ _ (lb_inv_mutex true _ _ _ Hn) Hlen (made_weight s wt Hwt)) as (h & f & E & Hr').
  fold w1 in E, Hr'. rewrite E. eexists. split; [done|]. rewrite <- Hid. by split.
Qed.

Lemma mark_loop_run spare b (s : list Z) n q k l1 w :
  owns_but spare w (addresses (obj w)) (l1 ++ k) → chain (cells w) q k None → (length k ≤ n)%nat →
  ∃ h, mark_loop b n s q w =
      Ret (match mark_first b s k with Some _ => 0 | None => -1 end, upd_obj (set_lb_mutex false) (upd_cells (λ _, h) w)) ∧
    owns_but spare (upd_cells (λ _, h) w) (addresses (obj w))
      (l1 ++ match mark_first b s k with Some k' => k' | None => k end).
Proof.
  revert q k l1. induction n as [|n IH]; intros q k l1 Ho Hq Hn;
    (destruct k as [|[a x] k]; [cbn in Hq; subst q; exists (cells w); destruct w; by split|]);
    [cbn in Hn; lia|].
  destruct Hq as (-> & r & Ha & Hq). cbn [mark_loop mark_first].
  mstep (read_cell_run _ _ _ Ha). cbn [data next].
  destruct (strcmp_eq (address x) s).
  - destruct (owns_but_set_data spare w _ l1 a x k (set_available b x) Ho) as (r' & Ha' & Ho').
    rewrite Ha in Ha'. injection Ha' as <-.
    mstep (write_cell_run _ _ _ _ Ha). unfold lb_unlock. rewrite M_bind_modify. by eexists.
  - destruct (IH r k (l1 ++ [(a, x)])) as (h & E & Ho'); [by rewrite <- app_assoc|done|cbn in Hn; lia|].
    exists h. rewrite E. revert Ho'. rewrite <- app_assoc. by destruct (mark_first b s k).
Qed.

Lemma mark_first_same b (s : list Z) l l' :
  mark_first b s l = Some l' → length l' = length l ∧ Forall2 (λ n n', weight n.2 = weight n'.2) l l'.
Proof.
  revert l'. induction l as [|[a x] l IH]; intros l'; cbn; [done|].
  destruct (strcmp_eq (address x) s).
  - intros [= <-]. split; [done|]. constructor; [done|]. clear. by induction l; constructor.
  - destruct (mark_first b s l) as [k|]; [|done]. intros [= <-]. destruct (IH k eq_refl) as [<- ?].
    split; [done|by constructor].
Qed.

Lemma mark_section_run spare b (s : list Z) w l :
  lb_inv spare w l →
  ∃ h, mark_section b s w =
      Ret (match mark_first b s l with Some _ => 0 | None => -1 end, upd_obj (set_lb_mutex false) (upd_cells (λ _, h) w)) ∧
    lb_inv spare (upd_obj (set_lb_mutex false) (upd_cells (λ _, h) w)) (default l (mark_first b s l)).
Proof.
  intros [Ho Hc Hi Hw]. unfold mark_section. rewrite !M_bind_gets.
  pose proof (owns_but_fuel _ _ _ _ Ho) as Hf.
  destruct (mark_loop_run spare b s (walk_fuel w) _ l [] w Ho (ob_chain _ _ _ _ Ho)) as (h & E & Ho'); [lia|].
  rewrite E. exists h. split; [done|]. apply (lb_inv_mutex false). unfold default. cbn [app] in Ho'.
  destruct (mark_first b s l) as [l'|] eqn:El; [|by split].
  destruct (mark_first_same _ _ _ _ El) as [Hl Hw']. split; cbn; rewrite ?Hl; try done.
  apply Forall_lookup. intros i n Hn. destruct (Forall2_lookup_r _ _ _ _ _ Hw' Hn) as (m & Hm' & <-).
  by apply (proj1 (Forall_lookup _ _) Hw i).
Qed.

Lemma mark_run type b (s : list Z) w p :
  policy_rel type w p →
  ∃ w', mark b (Some s) (Some w) = Ret ((spec_mark b s p).1, Some w') ∧
    policy_rel type w' (spec_mark b s p).2.
Proof.
  intros [[Hr Hm] Ht Hix Hid Ha]. unfold mark, nullable, spec_mark. mstep (lb_lock_run w Hm).
  destruct (mark_section_run [] b s _ _ (lb_inv_mutex true _ _ _ Hr)) as (h & E & Hr').
  rewrite E. eexists. destruct (mark_first b s (entries p)) as [l'|]; (split; [done|]); by split.
Qed.

Lemma destroy_addresses_run n q l w :
  owns w q l → (length l ≤ n)%nat →
  destroy_addresses n q w = Ret ((), upd_cells (λ _, ∅) w).
Proof. exact (free_chain_run n q l w). Qed.

Lemma lb_destroy_run w l : lb_rel w l → grpc_lb_policy_destroy (Some w) = Ret (Some ∅).
Proof.
  intros [[Ho%owns_but_nil _ _ _] Hm]. unfold grpc_lb_policy_destroy.
  mstep (lb_lock_run w Hm); rewrite M_bind_gets.
  pose proof (owns_fuel _ _ _ Ho).
  mstep (destroy_addresses_run (walk_fuel w) (addresses (obj w)) l
    (upd_obj (set_lb_mutex true) w) (owns_obj _ _ _ _ Ho) ltac:(lia)). done.
Qed.

Lemma policy_pick_run type rand w p :
  policy_rel type w p → zlen (entries p) < 2 ^ 64 →
  grpc_lb_policy_pick rand (Some w) =
    match spec_pick type rand p with
    | Ret (r, p') => Ret (r, Some (upd_obj (set_current_index (index p')) w))
    | Fault f => Fault f
    end.
Proof.
  intros [Hr Ht Hi Hid Ha] Hlen. unfold grpc_lb_policy_pick, nullable, spec_pick.
  rewrite M_bind_gets, Ht.
  assert (upd_obj (set_current_index (index p)) w = w) as Hsame
    by (destruct w as [[] ???]; cbn in *; by subst).
  destruct (type =? GRPC_LB_POLICY_ROUND_ROBIN); [|destruct (type =? GRPC_LB_POLICY_PICK_FIRST);
    [|destruct (type =? GRPC_LB_POLICY_WEIGHTED)]].
  - unfold deref. rewrite (round_robin_run w _ Hr Hlen). unfold rr_index, rr_result. by rewrite Hi.
  - unfold deref. by rewrite (pick_first_run w _ Hr), Hsame.
  - unfold deref. rewrite (weighted_run w _ rand Hr).
    destruct (total_weight (entries p) <? 2 ^ 31); by rewrite ?Hsame.
  - by rewrite Hsame.
Qed.

(** ** Histories of calls *)

Inductive lb_call :=
| CallAdd (s : list Z) (wt : Z)
| CallMark (b : bool) (s : list Z)
| CallPick (rand : Z).

Inductive lb_answer :=
| Status (r : Z)
| Picked (r : picked).

Definition run_lb_call (c : lb_call) : M (option lb_state) lb_answer :=
  match c with
  | CallAdd s wt => r ← grpc_lb_policy_add_address (Some s) wt; mret (Status r)
  | CallMark true s => r ← grpc_lb_policy_mark_available (Some s); mret (Status r)
  | CallMark false s => r ← grpc_lb_policy_mark_unavailable (Some s); mret (Status r)
  | CallPick rand => r ← grpc_lb_policy_pick rand; mret (Picked r)
  end.
Fixpoint run_lb_calls (cs : list lb_call) : M (option lb_state) (list lb_answer) :=
  match cs with
  | [] => mret []
  | c :: cs => r ← run_lb_call c; rs ← run_lb_calls cs; mret (r :: rs)
  end.

Definition spec_lb_call (type : Z) (c : lb_call) (p : policy) : outcome (lb_answer * policy) :=
  match c with
  | CallAdd s wt => Ret (Status (spec_add s wt p).1, (spec_add s wt p).2)
  | CallMark b s => Ret (Status (spec_mark b s p).1, (spec_mark b s p).2)
  | CallPick rand => r ← spec_pick type rand p; Ret (Picked r.1, r.2)
  end.
Fixpoint spec_lb_calls (type : Z) (cs : list lb_call) (p : policy) : outcome (list lb_answer * policy) :=
  match cs with
  | [] => Ret ([], p)
  | c :: cs =>
      r ← spec_lb_call type c p;
      rs ← spec_lb_calls type cs r.2;
      Ret (r.1 :: rs.1, rs.2)
  end.

Definition lb_call_ok (c : lb_call) : Prop :=
  match c with CallAdd _ wt => wt < 2 ^ 31 | _ => True end.

Lemma policy_rel_index type w p k :
  policy_rel type w p → 0 ≤ k < Z.max 1 (zlen (entries p)) →
  policy_rel type (upd_obj (set_current_index k) w)
    (mk_policy (entries p) k (next_id p) (lb_answers p)).
Proof. intros [[Hr ?] ? ? ? ?] Hk. split; try done. split; [by apply lb_inv_index|done]. Qed.

Lemma first_available_nil : first_available [] = None.
Proof. done. Qed.

Lemma spec_pick_bounds type rand p r p' :
  0 ≤ index p < Z.max 1 (zlen (entries p)) → spec_pick type rand p = Ret (r, p') →
  entries p' = entries p ∧ 0 ≤ index p' < Z.max 1 (zlen (entries p)).
Proof.
  intros Hi. unfold spec_pick. destruct (type =? GRPC_LB_POLICY_ROUND_ROBIN).
  - intros [= _ <-]. split; [done|]. cbn. destruct (first_available _) eqn:E; [|done].
    destruct (entries p) as [|n l] eqn:El.
    + unfold from_index in E. by rewrite drop_nil, take_nil in E.
    + pose proof (Z.mod_pos_bound (index p + 1) (zlen (n :: l))). cbn in *. lia.
  - destruct (type =? GRPC_LB_POLICY_PICK_FIRST); [by intros [= _ <-]|].
    destruct (type =? GRPC_LB_POLICY_WEIGHTED); [|by intros [= _ <-]].
    destruct (_ <? _); [|done]. by intros [= _ <-].
Qed.

Lemma spec_pick_frame type rand p r p' :
  spec_pick type rand p = Ret (r, p') → p' = mk_policy (entries p) (index p') (next_id p) (lb_answers p).
Proof. destruct p. unfold spec_pick. intros H. repeat case_match; by simplify_eq/=. Qed.

Lemma spec_pick_ok type rand p r p' w :
  policy_rel type w p → spec_pick type rand p = Ret (r, p') →
  policy_rel type (upd_obj (set_current_index (index p')) w) p'.
Proof.
  intros Hr Hp. pose proof (lb_index _ _ _ (proj1 (pol_rel _ _ _ Hr))) as Hi. rewrite (pol_index _ _ _ Hr) in Hi.
  destruct (spec_pick_bounds _ _ _ _ _ Hi Hp) as [_ Hb]. pose proof (spec_pick_frame _ _ _ _ _ Hp) as E.
  set (k := index p') in *. rewrite E. by apply policy_rel_index.
Qed.

(** One call: the same answer and related states, or the same fault. *)
Lemma lb_call_run type c w p :
  policy_rel type w p → lb_call_ok c → zlen (entries p) + 1 < 2 ^ 64 →
  match spec_lb_call type c p with
  | Ret (r, p') => ∃ w', run_lb_call c (Some w) = Ret (r, Some w') ∧ policy_rel type w' p' ∧
      zlen (entries p') ≤ zlen (entries p) + 1
  | Fault f => run_lb_call c (Some w) = Fault f
  end.
Proof.
  intros Hr Hc Hlen. destruct c as [s wt|b s|rand]; cbn [run_lb_call spec_lb_call].
  - destruct (add_run type s wt w p Hr Hc Hlen) as (w' & E & Hr').
    exists w'. mstep E. split_and!; [done|done|].
    unfold spec_add. repeat split_test; cbn; rewrite ?length_app; cbn; lia.
  - destruct (mark_run type b s w p Hr) as (w' & E & Hr'). exists w'. split_and!; [|done|].
    + destruct b; unfold grpc_lb_policy_mark_available, grpc_lb_policy_mark_unavailable;
        by mstep E.
    + unfold spec_mark. destruct (mark_first b s (entries p)) eqn:Em; cbn; [|lia].
      destruct (mark_first_same _ _ _ _ Em) as [-> _]. lia.
  - pose proof (policy_pick_run type rand w p Hr ltac:(lia)) as E.
    destruct (spec_pick type rand p) as [[r p']|f] eqn:Es; cbn; [|by rewrite (M_bind_Fault _ _ _ _ E)].
    mstep E. eexists. split; [done|].
    split; [by eapply spec_pick_ok|].
    unfold spec_pick in Es. repeat case_match; simplify_eq/=; lia.
Qed.

(** C7. A load balancing policy of any type refines the list of its addresses: any history of
    registrations, marks and picks returns what the list specification returns (the overflow of
    the weights' [int] sum included), the nodes stay the list, and destroying the policy frees
    them all. *)
Theorem lb_policy_refines type al c al' cs :
  grpc_lb_policy_create type al = Ret (Some c, al') → Forall lb_call_ok cs → zlen cs < 2 ^ 63 →
  match spec_lb_calls type cs (mk_policy [] 0 1 al') with
  | Ret (rs, p) =>
      ∃ w, run_lb_calls cs (Some (mk_heap c ∅ 1 al')) = Ret (rs, Some w) ∧
        chain (cells w) (addresses (obj w)) (entries p) None ∧
        grpc_lb_policy_destroy (Some w) = Ret (Some ∅)
  | Fault f => run_lb_calls cs (Some (mk_heap c ∅ 1 al')) = Fault f
  end.
Proof.
  intros Ec Hok Hlen.
  assert (policy_rel type (mk_heap c ∅ 1 al') (mk_policy [] 0 1 al')) as Hr.
  { unfold grpc_lb_policy_create in Ec. apply M_bind_inv in Ec as (ok & al1 & _ & Ec).
    destruct ok; [|done]. injection Ec as <- <-.
    by split; [apply lb_rel_new|..]. }
  revert Hr. generalize (mk_heap (A := grpc_lb_address) c ∅ 1 al'). intros w Hr.
  assert (zlen (entries (mk_policy [] 0 1 al')) + zlen cs < 2 ^ 63 + 1) as Hb by (cbn; lia).
  revert w Hr Hb. generalize (mk_policy [] 0 1 al'). clear Hlen Ec.
  induction Hok as [|c' cs Hc Hok IH]; intros p w Hr Hb; cbn [spec_lb_calls run_lb_calls].
  - exists w. split; [done|]. destruct Hr as [Hl _ _ _ _].
    split; [by apply (ob_chain _ _ _ _ (lb_owns _ _ _ (proj1 Hl)))|by apply (lb_destroy_run _ _ Hl)].
  - cbn [length] in Hb. pose proof (lb_call_run type c' w p Hr Hc ltac:(lia)) as H1.
    destruct (spec_lb_call type c' p) as [[r p1]|f]; cbn; [|by rewrite (M_bind_Fault _ _ _ _ H1)].
    destruct H1 as (w1 & E1 & Hr1 & Hl1). mstep E1.
    pose proof (IH p1 w1 Hr1 ltac:(lia)) as H2.
    destruct (spec_lb_calls type cs p1) as [[rs p2]|f]; cbn; [|by rewrite (M_bind_Fault _ _ _ _ H2)].
    destruct H2 as (w2 & E2 & ?). exists w2. by mstep E2.
Qed.

(** ** What the picks choose *)

Fixpoint run_picks (n : nat) : M (option lb_state) (list picked) :=
  match n with
  | O => mret []
  | S n => r ← grpc_lb_round_robin_pick; rs ← run_picks n; mret (r :: rs)
  end.

Lemma rr_result_all w l :
  lb_rel w l → Forall (λ n, available n = true) l →
  rr_result w l = result_of <$> l !! Z.to_nat (current_index (obj w)).
Proof.
  intros Hr Hall. unfold rr_result, first_available, from_index.
  destruct (l !! Z.to_nat (current_index (obj w))) as [n|] eqn:E.
  - rewrite (drop_S _ _ _ E). cbn. by rewrite (proj1 (Forall_lookup _ _) Hall _ _ E).
  - apply lookup_ge_None in E. pose proof (lb_index _ _ _ (proj1 Hr)).
    destruct l; [by rewrite drop_nil, take_nil|cbn in *; lia].
Qed.

Lemma run_picks_run n w l :
  lb_rel w l → Forall (λ n, available n = true) l → l ≠ [] → zlen l < 2 ^ 64 →
  ∃ w', run_picks n (Some w) =
    Ret (map (λ j, result_of <$> l !! Z.to_nat ((current_index (obj w) + Z.of_nat j) mod zlen l))
           (seq 0 n), Some w') ∧ lb_rel w' l ∧
    current_index (obj w') = (current_index (obj w) + Z.of_nat n) mod zlen l.
Proof.
  intros Hr Hall Hne Hlen. revert w Hr.
  assert (0 < zlen l) as Hpos by (destruct l; [done|cbn; lia]).
  induction n as [|n IH]; intros w Hr; pose proof (lb_index _ _ _ (proj1 Hr)) as Hi; cbn [run_picks].
  - exists w. split_and!; [done|done|]. rewrite Z.add_0_r, Z.mod_small; lia.
  - mstep (round_robin_run w l Hr Hlen).
    unfold rr_index. rewrite rr_result_all by done.
    destruct (lookup_lt_is_Some_2 l (Z.to_nat (current_index (obj w)))) as [x Hx]; [lia|].
    rewrite Hx. cbn [fmap option_fmap option_map].
    pose proof (Z.mod_pos_bound (current_index (obj w) + 1) (zlen l) Hpos).
    destruct (IH (upd_obj (set_current_index ((current_index (obj w) + 1) mod zlen l)) w))
      as (w' & E & Hr' & Hi').
    { destruct Hr. split; [apply lb_inv_index; [lia|done]|done]. }
    mstep E. exists w'. cbn [obj upd_obj current_index set_current_index] in *.
    split_and!; [|done|].
    + unfold mret, M_ret. cbn [seq map]. change (Z.of_nat 0) with 0. rewrite Z.add_0_r, (Z.mod_small (current_index (obj w))), Hx by lia. cbn [fmap option_fmap option_map].
      do 3 f_equal. rewrite <- seq_shift, map_map. apply map_ext. intros j.
      rewrite Zplus_mod_idemp_l.
      by replace (current_index (obj w) + Z.of_nat (S j)) with (current_index (obj w) + 1 + Z.of_nat j) by lia.
    + rewrite Hi', Zplus_mod_idemp_l. f_equal. lia.
Qed.

Lemma from_index_lookup k l j :
  (k < length l)%nat → (j < length l)%nat →
  from_index k l !! j = l !! Z.to_nat ((Z.of_nat k + Z.of_nat j) mod zlen l).
Proof.
  intros Hk Hj. unfold from_index. destruct (decide (j < length l - k)%nat).
  - rewrite lookup_app_l by (rewrite length_drop; lia). rewrite lookup_drop, Z.mod_small by lia.
    f_equal. lia.
  - rewrite lookup_app_r, length_drop by (rewrite length_drop; lia).
    rewrite lookup_take_lt by lia.
    replace (Z.of_nat k + Z.of_nat j) with (Z.of_nat k + Z.of_nat j - zlen l + 1 * zlen l) by lia.
    rewrite Z_mod_plus_full, Z.mod_small by lia. f_equal. lia.
Qed.

Lemma from_index_perm k l : from_index k l ≡ₚ l.
Proof. unfold from_index. by rewrite Permutation_app_comm, take_drop. Qed.

(** C27. Round robin is fair: when all addresses are available, as many successive picks as
    there are addresses return each of them once, in list order from the current index, and
    leave the index where it was. *)
Theorem grpc_lb_round_robin_fair w l :
  lb_rel w l → Forall (λ n, available n = true) l → l ≠ [] → zlen l < 2 ^ 64 →
  ∃ rs w', run_picks (length l) (Some w) = Ret (Some <$> rs, Some w') ∧
    rs = result_of <$> from_index (Z.to_nat (current_index (obj w))) l ∧
    rs ≡ₚ result_of <$> l ∧
    lb_rel w' l ∧ current_index (obj w') = current_index (obj w).
Proof.
  intros Hr Hall Hne Hlen. destruct (run_picks_run (length l) w l Hr Hall Hne Hlen) as (w' & E & Hr' & Hi').
  pose proof (lb_index _ _ _ (proj1 Hr)) as Hi. assert (0 < zlen l) as Hpos by (destruct l; [done|cbn; lia]).
  eexists _, w'. rewrite E. split_and!; [|done|by rewrite from_index_perm|done|].
  - do 2 f_equal. apply list_eq. intros j. change (map ?f ?x) with (f <$> x).
    rewrite !list_lookup_fmap. destruct (decide (j < length l)%nat) as [Hj|Hj].
    + rewrite from_index_lookup, Z2Nat.id, (lookup_seq_lt 0 (length l) j Hj) by lia. cbn.
      destruct (lookup_lt_is_Some_2 l (Z.to_nat ((current_index (obj w) + Z.of_nat j) mod zlen l))) as [x ->]; [|done].
      pose proof (Z.mod_pos_bound (current_index (obj w) + Z.of_nat j) (zlen l) Hpos). lia.
    + rewrite (lookup_ge_None_2 (seq _ _)) by (rewrite length_seq; lia).
      rewrite (lookup_ge_None_2 (from_index _ _)); [done|].
      rewrite (Permutation_length (from_index_perm _ l)). lia.
  - rewrite Hi'. rewrite <- (Z.mul_1_l (zlen l)) at 1. rewrite Z_mod_plus_full, Z.mod_small; lia.
Qed.

Lemma weighted_choice_app l1 l2 r :
  Forall (λ n, 0 < weight n.2 < 2 ^ 31) l1 → 0 ≤ r →
  weighted_choice (l1 ++ l2) r =
    if r <? total_weight l1 then weighted_choice l1 r else weighted_choice l2 (r - total_weight l1).
Proof.
  intros Hw. revert r. induction Hw as [|n l Hn Hw IH]; intros r Hr; cbn.
  - destruct (Z.ltb_spec r 0); [lia|]. by rewrite Z.sub_0_r.
  - pose proof (total_weight_nonneg l Hw). destruct (available n).
    + destruct (Z.ltb_spec r (weight n.2)), (Z.ltb_spec r (weight n.2 + total_weight l)); try lia;
        [done|..]; rewrite IH by lia.
      * by destruct (Z.ltb_spec (r - weight n.2) (total_weight l)); [|lia].
      * destruct (Z.ltb_spec (r - weight n.2) (total_weight l)); [lia|]. f_equal. lia.
    + rewrite IH by lia. by rewrite Z.add_0_l.
Qed.

Lemma weighted_choice_elem l r x : weighted_choice l r = Some x → ∃ n, n ∈ l ∧ available n = true ∧ x = result_of n.
Proof.
  revert r. induction l as [|n l IH]; intros r; cbn; [done|].
  destruct (available n) eqn:E; [destruct (r <? weight n.2); [intros [= <-]; exists n; set_solver|]|];
    intros (m & ? & ? & ?)%IH; exists m; set_solver.
Qed.

Lemma weighted_choice_total l r :
  Forall (λ n, 0 < weight n.2 < 2 ^ 31) l → 0 ≤ r < total_weight l → is_Some (weighted_choice l r).
Proof.
  intros Hw. revert r. induction Hw as [|n l Hn Hw IH]; intros r; cbn; [lia|].
  destruct (available n); [destruct (Z.ltb_spec r (weight n.2)); [by eexists|]|]; intros; apply IH; lia.
Qed.

Lemma total_weight_app l1 l2 : total_weight (l1 ++ l2) = total_weight l1 + total_weight l2.
Proof. induction l1 as [|n l1 IH]; cbn; [done|]. rewrite IH. lia. Qed.

Lemma total_weight_zero l :
  Forall (λ n, 0 < weight n.2 < 2 ^ 31) l → total_weight l = 0 → Forall (λ n, available n = false) l.
Proof.
  induction 1 as [|n l Hn Hw IH]; cbn; [constructor|].
  pose proof (total_weight_nonneg l Hw). destruct (available n) eqn:E; [lia|]. intros. constructor; auto.
Qed.

(** Which values of [rand ()] below the total pick the address after [l1]. *)
Lemma weighted_choice_iff l1 n l2 r :
  Forall (λ n, 0 < weight n.2 < 2 ^ 31) (l1 ++ n :: l2) → NoDup (l1 ++ n :: l2).*1 →
  available n = true → 0 ≤ r →
  weighted_choice (l1 ++ n :: l2) r = Some (result_of n) ↔
    total_weight l1 ≤ r < total_weight l1 + weight n.2.
Proof.
  intros [Hw1 [Hn Hw2]%Forall_cons]%Forall_app Hnd Ha Hr.
  rewrite fmap_app, fmap_cons in Hnd. apply NoDup_app in Hnd as (_ & Hd & [Hni _]%NoDup_cons).
  rewrite weighted_choice_app by done. cbn. rewrite Ha.
  destruct (Z.ltb_spec r (total_weight l1)).
  - split; [|lia]. intros ([a x] & Hin & _ & E)%weighted_choice_elem. exfalso.
    injection E as E _. apply (Hd a); [apply (list_elem_of_fmap_2 fst _ (a, x)), Hin|].
    rewrite <- E. by left.
  - destruct (Z.ltb_spec (r - total_weight l1) (weight n.2)); [split; [lia|done]|].
    split; [|lia]. intros ([a x] & Hin & _ & E)%weighted_choice_elem. exfalso.
    injection E as E _. apply Hni. rewrite E. apply (list_elem_of_fmap_2 fst _ (a, x)), Hin.
Qed.

(** The pick a value of [rand ()] leads to. *)
Definition weighted_pick_of w (rand : Z) : picked :=
  match grpc_lb_weighted_pick rand (Some w) with Ret (r, _) => r | Fault _ => None end.


(** The weighted pick is proportional: of the possible remainders of [rand ()] by the
    total weight of the available addresses, exactly as many choose an address as its weight
    says. *)
Theorem grpc_lb_weighted_proportional w l1 n l2 :
  lb_rel w (l1 ++ n :: l2) → available n = true → total_weight (l1 ++ n :: l2) < 2 ^ 31 →
  let total := total_weight (l1 ++ n :: l2) in
  0 < total ∧
  zlen (filter (λ rand, weighted_pick_of w rand = Some (result_of n)) (seqZ 0 total)) = weight n.2.
Proof.
  intros Hr Ha Ht total. pose proof (lb_weights _ _ _ (proj1 Hr)) as Hw.
  pose proof (ob_nodup_l _ _ _ _ (lb_owns _ _ _ (proj1 Hr))) as Hnd.
  assert (total = total_weight l1 + (weight n.2 + total_weight l2)) as Etot
    by (unfold total; rewrite total_weight_app; cbn; by rewrite Ha).
  pose proof Hw as [Hw1 [Hn Hw2]%Forall_cons]%Forall_app.
  pose proof (total_weight_nonneg _ Hw1). pose proof (total_weight_nonneg _ Hw2).
  split; [lia|].
  assert (∀ r, 0 ≤ r < total → weighted_pick_of w r = Some (result_of n) ↔
    total_weight l1 ≤ r < total_weight l1 + weight n.2) as Hiff.
  { intros r Hr'. unfold weighted_pick_of. rewrite (weighted_run w _ r Hr). fold total.
    rewrite (proj2 (Z.ltb_lt total _) Ht). unfold weighted_result. fold total.
    rewrite (proj2 (Z.eqb_neq total 0)), Z.rem_small by lia. apply weighted_choice_iff; [done|done|done|lia]. }
  rewrite Etot, !seqZ_app, !filter_app, !length_app by lia. rewrite Z.add_0_l.
  rewrite (filter_none _ (seqZ 0 _)), (filter_all _ (seqZ (total_weight l1) _)),
    (filter_none _ (seqZ (_ + _) _)); [rewrite length_seqZ; cbn; lia|..];
    apply Forall_seqZ; intros r Hr'; rewrite Hiff; lia.
Qed.

(** Every pick is an available address of the list, and there is none exactly when no
    address is available. *)
Lemma first_available_spec l :
  match first_available l with
  | Some x => ∃ n, n ∈ l ∧ available n = true ∧ x = result_of n
  | None => Forall (λ n, available n = false) l
  end.
Proof.
  unfold first_available. destruct (List.find available l) as [n|] eqn:E; cbn.
  - apply find_some in E as [Hin Ha]. exists n. split; [by apply list_elem_of_In|done].
  - apply Forall_forall. intros n Hn. apply (find_none _ _ E n). by apply list_elem_of_In.
Qed.

(** Whatever the policy, a pick that returns returns an available address of the list, and
    returns none only when no address is available. *)
Theorem grpc_lb_policy_pick_available w l rand r cw' :
  lb_rel w l → zlen l < 2 ^ 64 → 0 ≤ rand → 0 ≤ lb_type (obj w) ≤ 2 →
  grpc_lb_policy_pick rand (Some w) = Ret (r, cw') →
  match r with
  | Some x => ∃ n, n ∈ l ∧ available n = true ∧ x = result_of n
  | None => Forall (λ n, available n = false) l
  end.
Proof.
  intros Hr Hlen Hrand Hty E.
  assert (policy_rel (lb_type (obj w)) w (mk_policy l (current_index (obj w)) (fresh_cell w) (cell_answers w)))
    as Hp by done.
  rewrite (policy_pick_run _ rand w _ Hp Hlen) in E. unfold spec_pick in E. cbn [entries index] in E.
  unfold GRPC_LB_POLICY_ROUND_ROBIN, GRPC_LB_POLICY_PICK_FIRST, GRPC_LB_POLICY_WEIGHTED in E.
  destruct (Z.eqb_spec (lb_type (obj w)) 0); [|destruct (Z.eqb_spec (lb_type (obj w)) 1);
    [|destruct (Z.eqb_spec (lb_type (obj w)) 2); [|lia]]].
  - injection E as <- _. pose proof (from_index_perm (Z.to_nat (current_index (obj w))) l) as Hperm.
    pose proof (first_available_spec (from_index (Z.to_nat (current_index (obj w))) l)) as H.
    destruct (first_available _); [|by rewrite Hperm in H].
    destruct H as (n & Hin & ?). exists n. by rewrite Hperm in Hin.
  - injection E as <- _. apply first_available_spec.
  - destruct (_ <? _); [|done]. injection E as <- _. unfold weighted_result.
    pose proof (lb_weights _ _ _ (proj1 Hr)) as Hw. pose proof (total_weight_nonneg _ Hw).
    destruct (Z.eqb_spec (total_weight l) 0); [by apply total_weight_zero|].
    destruct (weighted_choice_total l (Z.rem rand (total_weight l)) Hw) as [x Hx].
    { pose proof (Z.rem_bound_pos rand (total_weight l)). lia. }
    rewrite Hx. by apply weighted_choice_elem in Hx.
Qed.

(** ** Witnesses *)

(** A policy of [type] after the calls [cs]. *)
Definition lb_after (type : Z) (cs : list lb_call) : lb_state :=
  let w0 := mk_heap (mk_lb_policy type None 0 0 false) ∅ 1 [] in
  match run_lb_calls cs (Some w0) with Ret (_, Some w) => w | _ => w0 end.

Definition three : list lb_call := [CallAdd [65; 0] 1; CallAdd [66; 0] 2; CallAdd [67; 0] 3].
Definition three_entries : list (positive * grpc_lb_address) :=
  [(1%positive, mk_lb_address [65; 0] 1 true); (2%positive, mk_lb_address [66; 0] 2 true);
   (3%positive, mk_lb_address [67; 0] 3 true)].

Lemma three_rel type : lb_rel (lb_after type three) three_entries.
Proof.
  assert (dom (cells (lb_after type three)) = {[1; 2; 3]}%positive) as Hdom by (vm_compute; reflexivity).
  split; [split; cbn -[cells]; [apply owns_but_nil; split|done|done|repeat constructor; cbn; lia]|done].
  - split; [done|]. eexists. split; [reflexivity|]. split; [done|].
    eexists. split; [reflexivity|]. split; [done|]. eexists. by split.
  - cbn. repeat (apply NoDup_cons; split; [set_solver|]). apply NoDup_nil_2.
  - intros a Ha. apply elem_of_dom in Ha. rewrite Hdom in Ha. set_solver.
  - intros a Ha. repeat (apply elem_of_cons in Ha as [->|Ha]; [done|]). by apply elem_of_nil in Ha.
Qed.

Definition six_calls : list lb_call :=
  three ++ [CallPick 0; CallPick 0; CallMark false [67; 0]; CallPick 0; CallPick 0].

Lemma six_calls_ok : Forall lb_call_ok six_calls.
Proof. repeat constructor; cbn; lia. Qed.

Lemma lb_policy_refines_witness :
  ∃ w, run_lb_calls six_calls (Some (mk_heap (mk_lb_policy 0 None 0 0 false) ∅ 1 [])) =
    Ret ([Status 0; Status 0; Status 0; Picked (Some (1%positive, [65; 0]));
          Picked (Some (2%positive, [66; 0])); Status 0; Picked (Some (1%positive, [65; 0]));
          Picked (Some (1%positive, [65; 0]))], Some w) ∧
    grpc_lb_policy_destroy (Some w) = Ret (Some ∅).
Proof.
  pose proof (lb_policy_refines 0 [] (mk_lb_policy 0 None 0 0 false) [] six_calls eq_refl
    six_calls_ok ltac:(cbn; lia)) as H.
  remember (spec_lb_calls 0 six_calls (mk_policy [] 0 1 [])) as o eqn:Hs in H.
  vm_compute in Hs. subst o. destruct H as (w & E & _ & Hd).
  exists w. split; [exact E|exact Hd].
Defined.

Lemma grpc_lb_round_robin_fair_witness :
  ∃ w', run_picks 3 (Some (lb_after 0 three)) =
    Ret ([Some (1%positive, [65; 0]); Some (2%positive, [66; 0]); Some (3%positive, [67; 0])], Some w').
Proof.
  destruct (grpc_lb_round_robin_fair (lb_after 0 three) three_entries (three_rel 0))
    as (rs & w' & E & -> & _); [repeat constructor|done|cbn; lia|].
  exists w'. exact E.
Defined.

Lemma grpc_lb_weighted_proportional_witness :
  zlen (filter (λ rand, weighted_pick_of (lb_after 2 three) rand = Some (2%positive, [66; 0]))
          (seqZ 0 6)) = 2.
Proof.
  destruct (grpc_lb_weighted_proportional (lb_after 2 three)
    [(1%positive, mk_lb_address [65; 0] 1 true)] (2%positive, mk_lb_address [66; 0] 2 true)
    [(3%positive, mk_lb_address [67; 0] 3 true)] (three_rel 2)) as [_ H]; [done|cbn; lia|].
  exact H.
Defined.

Lemma grpc_lb_policy_pick_witness :
  ∃ r cw', grpc_lb_policy_pick 4 (Some (lb_after 2 three)) = Ret (Some r, cw') ∧
    ∃ n, n ∈ three_entries ∧ available n = true ∧ r = result_of n.
Proof.
  exists (3%positive, [67; 0]), (Some (lb_after 2 three)).
  assert (grpc_lb_policy_pick 4 (Some (lb_after 2 three)) =
          Ret (Some (3%positive, [67; 0]), Some (lb_after 2 three))) as E by reflexivity.
  assert (lb_type (obj (lb_after 2 three)) = 2) as Ht by (vm_compute; reflexivity).
  split; [exact E|].
  apply (grpc_lb_policy_pick_available (lb_after 2 three) three_entries 4 _ _ (three_rel 2)
    ltac:(cbn; lia) ltac:(lia) ltac:(rewrite Ht; lia) E).
Defined.

(** Round robin stores the index it started from plus one, not the index of the address
    it picked plus one: after an unavailable address the next one is picked twice. *)
Example round_robin_skews :
  ∃ w', run_picks 3 (Some (lb_after 0 (three ++ [CallMark false [66; 0]]))) =
    Ret ([Some (1%positive, [65; 0]); Some (3%positive, [67; 0]); Some (3%positive, [67; 0])], Some w').
Proof. eexists. vm_compute. reflexivity. Qed.
