(* ===== verification/Balancers.v ===== *)
(** * A load balancing policy under threads (src/src/load_balancing.c)

    Any number of threads that add addresses, mark them and pick: the instance of [Monitors] for
    the functions of [LoadBalancer].  A new address is allocated before the mutex is taken, and a
    pick looks at the list's head before, so that other threads come in between; the calls still
    take effect one after the other, each at a moment between its beginning and its return. *)

From Stdlib Require Import ZArith Lia.
From stdpp Require Import base tactics list option strings gmap relations.
From S2P Require Import Prelude Lists CStrings LoadBalancer Monitors.

#[local] Open Scope Z_scope.
#[local] Set Warnings "-clear-no-such-hyp".

Abbreviation entry := (positive * grpc_lb_address)%type.

(** ** The calls in two parts *)

(** What a call has found out when it reaches the mutex: its new node, what to mark, or the kind of
    the pick. *)
Inductive lb_section :=
| SecLink (new_addr : positive) (s : list Z) (wt : Z)
| SecMark (b : bool) (s : list Z)
| SecPick (type rand : Z).

(** Up to the mutex, or to the return of a call that does not come to it. *)
Definition lb_begin (c : lb_call) : M lb_state (lb_answer + lb_section) :=
  match c with
  | CallAdd s wt =>
      new ← grpc_lb_address_create s wt;
      mret (match new with None => inl (Status (-1)) | Some a => inr (SecLink a s wt) end)
  | CallMark b s => mret (inr (SecMark b s))
  | CallPick rand =>
      p ← gets obj;
      let empty := bool_decide (addresses p = None) in
      mret (if lb_type p =? GRPC_LB_POLICY_ROUND_ROBIN then
              if empty || (address_count p =? 0) then inl (Picked None) else inr (SecPick (lb_type p) rand)
            else if lb_type p =? GRPC_LB_POLICY_PICK_FIRST then
              if empty then inl (Picked None) else inr (SecPick (lb_type p) rand)
            else if lb_type p =? GRPC_LB_POLICY_WEIGHTED then
              if empty || (address_count p =? 0) then inl (Picked None) else inr (SecPick (lb_type p) rand)
            else inl (Picked None))
  end.

(** Behind the mutex. *)
Definition lb_behind (c : lb_section) : M lb_state lb_answer :=
  match c with
  | SecLink a _ _ => r ← link_section a; mret (Status r)
  | SecMark b s => r ← mark_section b s; mret (Status r)
  | SecPick type rand =>
      r ← (if type =? GRPC_LB_POLICY_ROUND_ROBIN then round_robin_section
           else if type =? GRPC_LB_POLICY_PICK_FIRST then pick_first_section
           else weighted_section rand);
      mret (Picked r)
  end.

Definition call_of (c : lb_section) : lb_call :=
  match c with SecLink _ s wt => CallAdd s wt | SecMark b s => CallMark b s | SecPick _ rand => CallPick rand end.

(** ** The threads *)

(** The policy with the calls that have taken effect and their answers, in this order. *)
Definition logged : Type := lb_state * list (lb_call * lb_answer).

#[export] Instance lb_monitor : Monitor logged :=
  {| locked := λ s, lb_mutex (obj s.1); acquire := λ s, (upd_obj (set_lb_mutex true) s.1, s.2) |}.

Inductive lb_outside : logged → () → logged → () + lb_section → Prop :=
| out_answered c a w w' log :
    lb_call_ok c → lb_begin c w = Ret (inl a, w') → lb_outside (w, log) () (w', log ++ [(c, a)]) (inl ())
| out_entering c sec w w' log :
    lb_call_ok c → lb_begin c w = Ret (inr sec, w') → lb_outside (w, log) () (w', log) (inr sec).

Definition lb_critical (c : lb_section) : M logged () := λ '(w, log),
  match lb_behind c w with
  | Ret (a, w') => Ret ((), (w', log ++ [(call_of c, a)]))
  | Fault f => Fault f
  end.

(** The number of addresses stays below [2^64]. *)
Definition lb_admits (c : lb_section) (s : logged) : Prop := address_count (obj s.1) + 1 < 2 ^ 64.

Abbreviation lb_pc := (thread_pc () lb_section).
Abbreviation lb_team_step := (team_step lb_outside lb_critical lb_admits).

Definition lb_team_start (n : nat) (c : grpc_lb_policy) (al : allocs) : team logged () lb_section :=
  mk_team (mk_heap c ∅ 1 al, []) (replicate n (Outside ())).

(** ** The sequential specification, with other identities *)

(** One call on the list of addresses: as [spec_lb_call] says, but that an addition may fail, and
    gives the new entry any identity no entry has. *)
Inductive lb_lin (type : Z) : policy → lb_call * lb_answer → policy → Prop :=
| lin_add_fails s wt p : lb_lin type p (CallAdd s wt, Status (-1)) p
| lin_add a s wt p :
    a ∉ (entries p).*1 →
    lb_lin type p (CallAdd s wt, Status 0)
      (mk_policy (entries p ++ [(a, made s wt)]) (index p) (next_id p) (lb_answers p))
| lin_mark b s p : lb_lin type p (CallMark b s, Status (spec_mark b s p).1) (spec_mark b s p).2
| lin_pick rand r p p' : spec_pick type rand p = Ret (r, p') → lb_lin type p (CallPick rand, Picked r) p'.

Inductive lb_history (type : Z) : list (lb_call * lb_answer) → policy → Prop :=
| history_nil : lb_history type [] (mk_policy [] 0 1 [])
| history_snoc log e p p' : lb_history type log p → lb_lin type p e p' → lb_history type (log ++ [e]) p'.

(** ** A call is its two parts *)

Implicit Types (w : lb_state) (l spare : list entry).

(** The functions of [LoadBalancer] are what [lb_begin] does, the acquisition, and [lb_behind]. *)
Lemma lb_call_parts c w :
  run_lb_call c (Some w) =
    nullable (Status 0) (x ← lb_begin c; match x with inl a => mret a | inr sec => _ ← lb_lock; lb_behind sec end) (Some w).
Proof.
  unfold nullable. destruct c as [s wt|b s|rand]; cbn [run_lb_call lb_begin].
  - rewrite M_bind_assoc. unfold grpc_lb_policy_add_address, nullable. unfold mbind, M_bind.
    destruct (grpc_lb_address_create s wt w) as [[[a|] w1]|]; [|done..]. cbn [mret M_ret lb_behind].
    unfold mbind, M_bind. destruct (lb_lock w1) as [[[] w2]|]; [|done]. by destruct (link_section a w2) as [[r w3]|].
  - rewrite M_bind_mret. cbn [lb_behind]. unfold grpc_lb_policy_mark_available, grpc_lb_policy_mark_unavailable, mark, nullable.
    unfold mbind, M_bind. by destruct b, (lb_lock w) as [[[] w1]|]; try destruct (mark_section _ s w1) as [[r w2]|].
  - rewrite M_bind_assoc, M_bind_gets, M_bind_mret. unfold grpc_lb_policy_pick, nullable.
    unfold mbind at 1, M_bind at 1. rewrite M_bind_gets.
    destruct (lb_type (obj w) =? GRPC_LB_POLICY_ROUND_ROBIN) eqn:E1; [|destruct (lb_type (obj w) =? GRPC_LB_POLICY_PICK_FIRST) eqn:E2;
      [|destruct (lb_type (obj w) =? GRPC_LB_POLICY_WEIGHTED) eqn:E3; [|done]]];
      unfold deref, grpc_lb_round_robin_pick, grpc_lb_pick_first_pick, grpc_lb_weighted_pick, nullable; rewrite M_bind_gets;
      (match goal with |- context [if ?b then _ else _] => destruct b end; [done|]);
      cbn [lb_behind]; rewrite ?E1, ?E2; unfold mbind, M_bind; destruct (lb_lock w) as [[[] w1]|]; try done.
    + by destruct (round_robin_section w1) as [[r w2]|].
    + by destruct (pick_first_section w1) as [[r w2]|].
    + by destruct (weighted_section rand w1) as [[r w2]|].
Qed.

(** ** The invariant *)

(** The nodes that threads have made and not linked yet. *)
Definition pending_of (m : lb_pc) : list entry :=
  match m with
  | Entering (SecLink a s wt) | Within (SecLink a s wt) => [(a, made s wt)]
  | _ => []
  end.
Definition pending (ths : list lb_pc) : list entry := ths ≫= pending_of.

Definition section_ok (type : Z) (sec : lb_section) : Prop :=
  match sec with
  | SecLink _ _ wt => wt < 2 ^ 31
  | SecMark _ _ => True
  | SecPick ty _ => ty = type ∧ 0 ≤ ty ≤ 2
  end.
Definition pc_ok (type : Z) (m : lb_pc) : Prop :=
  match m with Outside _ => True | Entering sec | Within sec => section_ok type sec end.

Record lb_sim (type : Z) (s : logged) (ths : list lb_pc) (p : policy) : Prop := {
  sim_history : lb_history type s.2 p;
  sim_inv : lb_inv (pending ths) s.1 (entries p);
  sim_type : lb_type (obj s.1) = type;
  sim_index : current_index (obj s.1) = index p;
  sim_pcs : Forall (pc_ok type) ths
}.

Definition lb_team_inv (type : Z) (s : logged) (ths : list lb_pc) : Prop := ∃ p, lb_sim type s ths p.

Lemma lb_inv_perm spare spare' w l : spare ≡ₚ spare' → lb_inv spare w l → lb_inv spare' w l.
Proof. intros Hp [Ho ???]. split; try done. by eapply owns_but_perm. Qed.

(** A call that is answered before it comes to the mutex has found an empty list, or a type that
    has no pick. *)
Lemma pick_answered type rand (p : policy) :
  entries p = [] ∨ ¬ 0 ≤ type ≤ 2 → spec_pick type rand p = Ret (None, p).
Proof.
  unfold spec_pick, GRPC_LB_POLICY_ROUND_ROBIN, GRPC_LB_POLICY_PICK_FIRST, GRPC_LB_POLICY_WEIGHTED.
  destruct p as [l ix id al]. cbn [entries index next_id lb_answers]. intros [->|Hty].
  - unfold from_index. rewrite drop_nil, take_nil. cbn. by repeat case_match.
  - rewrite !(proj2 (Z.eqb_neq _ _)) by lia. done.
Qed.

Lemma pick_begin w l spare rand x w' :
  lb_inv spare w l → lb_begin (CallPick rand) w = Ret (x, w') →
  w' = w ∧ match x with
           | inl a => a = Picked None ∧ (l = [] ∨ ¬ 0 ≤ lb_type (obj w) ≤ 2)
           | inr sec => sec = SecPick (lb_type (obj w)) rand ∧ 0 ≤ lb_type (obj w) ≤ 2
           end.
Proof.
  intros [Ho Hc _ _]. pose proof (head_of_chain _ _ _ (ob_chain _ _ _ _ Ho)) as Hhd.
  cbn [lb_begin]. rewrite M_bind_gets. intros [= <- <-]. split; [done|]. rewrite Hc.
  unfold GRPC_LB_POLICY_ROUND_ROBIN, GRPC_LB_POLICY_PICK_FIRST, GRPC_LB_POLICY_WEIGHTED.
  destruct (Z.eqb_spec (lb_type (obj w)) 0), (Z.eqb_spec (lb_type (obj w)) 1), (Z.eqb_spec (lb_type (obj w)) 2);
    try lia; try (split; [done|right; lia]); case_bool_decide as Hp; cbn [orb];
    try (split; [done|left; by apply Hhd]); try (split; [done|lia]);
    destruct (Z.eqb_spec (zlen l) 0); try (split; [done|left; by destruct l]); split; (done || lia).
Qed.

(** The pick behind the mutex is the pick of the specification, the overflow included. *)
Lemma pick_behind type rand spare w (p : policy) :
  lb_inv spare w (entries p) → current_index (obj w) = index p → 0 ≤ type ≤ 2 →
  zlen (entries p) < 2 ^ 64 →
  lb_behind (SecPick type rand) w =
    match spec_pick type rand p with
    | Ret (r, p') => Ret (Picked r, upd_obj (λ q, set_lb_mutex false (set_current_index (index p') q)) w)
    | Fault f => Fault f
    end.
Proof.
  intros Hinv Hi Hty Hlen. unfold spec_pick. cbn [lb_behind].
  assert (upd_obj (λ q, set_lb_mutex false (set_current_index (index p) q)) w = upd_obj (set_lb_mutex false) w) as Hsame
    by (rewrite <- Hi; by destruct w as [[] ???]).
  unfold GRPC_LB_POLICY_ROUND_ROBIN, GRPC_LB_POLICY_PICK_FIRST, GRPC_LB_POLICY_WEIGHTED.
  destruct (Z.eqb_spec type 0); [|destruct (Z.eqb_spec type 1); [|destruct (Z.eqb_spec type 2); [|lia]]].
  - mstep (round_robin_section_run _ _ _ Hinv Hlen). unfold rr_index, rr_result. by rewrite Hi.
  - mstep (pick_first_section_run _ _ _ Hinv). by rewrite Hsame.
  - pose proof (weighted_section_run _ _ _ rand Hinv) as E.
    destruct (total_weight (entries p) <? 2 ^ 31); [mstep E; by rewrite Hsame|by rewrite (M_bind_Fault _ _ _ _ E)].
Qed.

Lemma pending_nodes_cons m ths : pending (m :: ths) = pending_of m ++ pending ths.
Proof. done. Qed.

(** A thread moves on without the policy. *)
Lemma sim_move type s m m' rest p :
  lb_sim type s (m :: rest) p → pending_of m' = pending_of m → (pc_ok type m → pc_ok type m') →
  lb_sim type s (m' :: rest) p.
Proof.
  intros [H1 H2 H3 H4 [H5 H6]%Forall_cons] Hp Hok. split; try done; [by rewrite pending_nodes_cons, Hp|].
  constructor; auto.
Qed.

Lemma outside_sim type w x w' log log' y rest p :
  lb_sim type (w, log) (Outside () :: rest) p → lb_outside (w, log) () (w', log') y → x = after y →
  lb_team_inv type (w', log') (x :: rest) ∧ lb_mutex (obj w') = lb_mutex (obj w).
Proof.
  intros Hsim Hout ->. pose proof Hsim as [Hh Hinv Ht Hi [_ Hpcs]%Forall_cons]. cbn [fst snd] in *.
  rewrite pending_nodes_cons in Hinv. cbn [pending_of app] in Hinv.
  inversion Hout as [c a w0 w1 lg Hok E|c sec w0 w1 lg Hok E]; subst; clear Hout;
    destruct c as [s wt|b s|rand]; cbn [after].
  - cbn [lb_begin] in E. unfold mbind, M_bind in E. rewrite lb_address_create_run in E. cbn zeta in E.
    assert (∀ al, lb_team_inv (lb_type (obj w)) (set_cell_answers al w, log ++ [(CallAdd s wt, Status (-1))]) (Outside () :: rest)) as Hfail.
    { intros al. exists p. split; try done; [|by apply lb_inv_answers|by constructor].
      eapply history_snoc; [done|apply lin_add_fails]. }
    destruct (answer (cell_answers w)).1; cbn [negb] in E; [|by injection E as <- <-].
    destruct (answer (answer (cell_answers w)).2).1; cbn [negb] in E; [done|by injection E as <- <-].
  - done.
  - destruct (pick_begin _ _ _ _ _ _ Hinv E) as [-> [-> Hno]]. split; [|done].
    exists p. split; try done; [|by constructor]. eapply history_snoc; [done|]. apply lin_pick. by apply pick_answered.
  - cbn [lb_begin] in E. unfold mbind, M_bind in E. rewrite lb_address_create_run in E. cbn zeta in E.
    destruct (answer (cell_answers w)).1; cbn [negb] in E; [|done].
    destruct (answer (answer (cell_answers w)).2).1; cbn [negb] in E; [|done]. injection E as <- <-.
    split; [|done]. exists p. split; try done; [|by constructor]. by apply lb_inv_new.
  - injection E as <- <-. split; [|done]. exists p. by eapply sim_move.
  - destruct (pick_begin _ _ _ _ _ _ Hinv E) as [-> [-> Hty]]. split; [|done]. exists p. by eapply sim_move.
Qed.

Lemma link_sim type w log a s wt rest p :
  lb_sim type (w, log) (Within (SecLink a s wt) :: rest) p → zlen (entries p) + 1 < 2 ^ 64 →
  ∃ w', lb_critical (SecLink a s wt) (w, log) = Ret ((), (w', log ++ [(CallAdd s wt, Status 0)])) ∧
    lb_team_inv type (w', log ++ [(CallAdd s wt, Status 0)]) (Outside () :: rest) ∧ lb_mutex (obj w') = false.
Proof.
  intros [Hh Hinv Ht Hi [Hok Hpcs]%Forall_cons] Hlen. cbn [fst snd] in *. rewrite pending_nodes_cons in Hinv. cbn in Hinv, Hok.
  destruct (link_section_run _ _ _ _ _ Hinv Hlen (made_weight s wt Hok)) as (h & f & E & Hinv').
  eexists. split; [|split].
  - unfold lb_critical. cbn [lb_behind call_of]. by rewrite (M_bind_Ret _ _ _ _ _ E).
  - eexists. split; [eapply history_snoc; [exact Hh|apply (lin_add type a)]|exact Hinv'|done|done|by constructor].
    pose proof (ob_nodup _ _ _ _ (lb_owns _ _ _ Hinv)) as Hnd. rewrite fmap_app in Hnd.
    apply NoDup_app in Hnd as (_ & Hd & _). intros Ha. apply (Hd a Ha). by left.
  - done.
Qed.

Lemma mark_sim type w log b s rest p :
  lb_sim type (w, log) (Within (SecMark b s) :: rest) p →
  ∃ a w', lb_critical (SecMark b s) (w, log) = Ret ((), (w', log ++ [(CallMark b s, a)])) ∧
    lb_team_inv type (w', log ++ [(CallMark b s, a)]) (Outside () :: rest) ∧ lb_mutex (obj w') = false.
Proof.
  intros [Hh Hinv Ht Hi [_ Hpcs]%Forall_cons]. cbn [fst snd] in *. rewrite pending_nodes_cons in Hinv. cbn in Hinv.
  destruct (mark_section_run _ b s _ _ Hinv) as (h & E & Hinv').
  do 2 eexists. split; [|split].
  - unfold lb_critical. cbn [lb_behind call_of]. by rewrite (M_bind_Ret _ _ _ _ _ E).
  - assert ((match mark_first b s (entries p) with Some _ => 0 | None => -1 end) = (spec_mark b s p).1) as ->
      by (unfold spec_mark; by destruct (mark_first _ _ _)).
    eexists. split; [eapply history_snoc; [exact Hh|apply lin_mark]| |done| |by constructor];
      unfold spec_mark; destruct (mark_first b s (entries p)); done.
  - done.
Qed.

Lemma pick_sim type w log rand rest p :
  lb_sim type (w, log) (Within (SecPick type rand) :: rest) p → zlen (entries p) < 2 ^ 64 →
  match spec_pick type rand p with
  | Ret (r, _) => ∃ w', lb_critical (SecPick type rand) (w, log) = Ret ((), (w', log ++ [(CallPick rand, Picked r)])) ∧
      lb_team_inv type (w', log ++ [(CallPick rand, Picked r)]) (Outside () :: rest) ∧ lb_mutex (obj w') = false
  | Fault f => lb_critical (SecPick type rand) (w, log) = Fault f
  end.
Proof.
  intros [Hh Hinv Ht Hi [Hok Hpcs]%Forall_cons] Hlen. cbn [fst snd] in *. rewrite pending_nodes_cons in Hinv. cbn in Hinv.
  destruct Hok as [_ Hty]. pose proof (lb_index _ _ _ Hinv) as Hb. rewrite Hi in Hb.
  pose proof (pick_behind type rand _ _ _ Hinv Hi Hty Hlen) as E. unfold lb_critical. rewrite E.
  destruct (spec_pick type rand p) as [[r p']|f] eqn:Hp; [|done].
  destruct (spec_pick_bounds _ _ _ _ _ Hb Hp) as [He Hb'].
  eexists. split; [done|]. split; [|done].
  exists p'. split; [eapply history_snoc; [exact Hh|by apply lin_pick]| |done|done|by constructor].
  cbn [fst]. rewrite He. exact (lb_inv_mutex false _ _ _ (lb_inv_index _ _ _ _ Hb' Hinv)).
Qed.

(** The only pick of the specification that fails. *)
Lemma spec_pick_fault type rand p f :
  spec_pick type rand p = Fault f →
  f = SignedOverflow ∧ type = GRPC_LB_POLICY_WEIGHTED ∧ 2 ^ 31 ≤ total_weight (entries p).
Proof.
  unfold spec_pick. destruct (_ =? _); [done|]. destruct (_ =? _); [done|].
  destruct (Z.eqb_spec type GRPC_LB_POLICY_WEIGHTED) as [->|]; [|done].
  destruct (Z.ltb_spec (total_weight (entries p)) (2 ^ 31)); [done|]. by intros [= <-].
Qed.

(** A critical section returns and has the effect of the specification, or is a weighted pick
    whose sum of the weights overflows, and fails. *)
Definition section_outcome (type : Z) (sec : lb_section) (s : logged) (rest : list lb_pc) (p : policy) : Prop :=
  (∃ s', lb_critical sec s = Ret ((), s') ∧ lb_team_inv type s' (Outside () :: rest) ∧ lb_mutex (obj s'.1) = false) ∨
  (∃ rand, sec = SecPick GRPC_LB_POLICY_WEIGHTED rand ∧ 2 ^ 31 ≤ total_weight (entries p) ∧
     lb_critical sec s = Fault SignedOverflow).

Lemma section_run type sec s rest p :
  lb_sim type s (Within sec :: rest) p → lb_admits sec s → section_outcome type sec s rest p.
Proof.
  destruct s as [w log]. intros H Hlen. pose proof H as [_ Hinv _ _ [Hok _]%Forall_cons]. unfold lb_admits in Hlen.
  cbn [fst] in *. rewrite (lb_count _ _ _ Hinv) in Hlen. destruct sec as [a s wt|b s|ty rand].
  - destruct (link_sim _ _ _ _ _ _ _ _ H Hlen) as (w' & Hd). left. eexists. exact Hd.
  - destruct (mark_sim _ _ _ _ _ _ _ H) as (r & w' & Hd). left. eexists. exact Hd.
  - destruct Hok as [-> _]. pose proof (pick_sim _ _ _ _ _ _ H ltac:(lia)) as Hp.
    destruct (spec_pick type rand p) as [[r p']|f] eqn:Hs.
    + destruct Hp as (w' & Hd). left. eexists. exact Hd.
    + destruct (spec_pick_fault _ _ _ _ Hs) as (-> & -> & ?). right. by exists rand.
Qed.

Lemma lb_sim_perm type s ths ths' p : ths ≡ₚ ths' → lb_sim type s ths p → lb_sim type s ths' p.
Proof.
  intros Hp [H1 H2 H3 H4 H5]. split; try done; [|by rewrite <- Hp].
  eapply lb_inv_perm; [|exact H2]. unfold pending. by rewrite Hp.
Qed.

#[export] Instance lb_laws type : MonitorLaws lb_outside lb_critical lb_admits (lb_team_inv type).
Proof.
  split.
  - intros s ths ths' Hp (p & H). exists p. by eapply lb_sim_perm.
  - intros [w log] ths (p & []). exists p. split; try done. by apply lb_inv_mutex.
  - done.
  - intros s c rest (p & H). exists p. by eapply sim_move.
  - intros [w log] [] [w' log'] x rest (p & H) Hout. by eapply outside_sim.
  - intros s c rest [] s' (p & H) _ Ha E.
    destruct (section_run _ _ _ _ _ H Ha) as [(s1 & E1 & ? & ?)|(rand & _ & _ & E1)]; rewrite E in E1; [|done].
    by injection E1 as <-.
Qed.

(** ** What the threads can rely on *)

Section start.
Context (type : Z) (al al' : allocs) (c : grpc_lb_policy) (n : nat) (t : team logged () lb_section).
Context (Hcreate : grpc_lb_policy_create type al = Ret (Some c, al')).
Context (Hsteps : rtc lb_team_step (lb_team_start n c al') t).

Lemma lb_start_ok : team_ok (lb_team_inv type) (lb_team_start n c al').
Proof.
  unfold grpc_lb_policy_create in Hcreate. apply M_bind_inv in Hcreate as (ok & al1 & _ & E).
  destruct ok; [|done]. injection E as <- <-. unfold lb_team_start.
  assert (pending (replicate n (Outside ())) = []) as Hp by (clear; unfold pending; induction n; done).
  split; cbn [object members].
  - exists (mk_policy [] 0 1 []). split; try done; [constructor| |].
    + cbn [fst]. rewrite Hp. apply lb_rel_new.
    + by apply Forall_replicate.
  - apply count_none. by intros q [-> _]%elem_of_replicate.
Qed.

(** C14. Any number of threads that add addresses to a load balancing policy (fewer than [2^64]
    of them), mark them and pick, with each other's steps in between: the policy is what the
    list specification makes of the calls answered so far, in the order of their answers, and
    every answer is the specification's; one thread at most is behind the mutex; what it does
    there returns, unless it is a weighted pick and the weights of the available addresses sum
    up to [2^31] or more, when the [int] sum overflows; and when all threads are out of it the
    destruction frees every node. *)
Theorem lb_threads_linearizable :
  (∃ p, lb_history type (object t).2 p ∧
     chain (cells (object t).1) (addresses (obj (object t).1)) (entries p) None ∧
     current_index (obj (object t).1) = index p ∧
     (∀ d, Within d ∈ members t → zlen (entries p) + 1 < 2 ^ 64 →
        (∃ r, lb_critical d (object t) = Ret r) ∨
        (∃ rand, d = SecPick GRPC_LB_POLICY_WEIGHTED rand ∧ 2 ^ 31 ≤ total_weight (entries p) ∧
           lb_critical d (object t) = Fault SignedOverflow))) ∧
  (∀ i j d e, members t !! i = Some (Within d) → members t !! j = Some (Within e) → i = j) ∧
  (Forall is_outside (members t) → grpc_lb_policy_destroy (Some (object t).1) = Ret (Some ∅)).
Proof.
  pose proof (team_steps_ok lb_outside lb_critical lb_admits (lb_team_inv type) _ _ lb_start_ok Hsteps) as Hok.
  pose proof Hok as [[p Hsim] Hc]. pose proof Hsim as [Hh Hinv _ Hi _]. split_and!.
  - exists p. split; [done|]. split; [apply (ob_chain _ _ _ _ (lb_owns _ _ _ Hinv))|]. split; [done|].
    intros d Hd Hlen. destruct (team_within lb_outside lb_critical lb_admits (lb_team_inv type) t d Hok Hd) as [_ (rest & Hp)].
    destruct (section_run _ d _ rest p (lb_sim_perm _ _ _ _ _ Hp Hsim)) as [(s' & E & _)|Hover]; [|left; by eexists|by right].
    unfold lb_admits. by rewrite (lb_count _ _ _ Hinv).
  - intros i j d e. by apply (team_exclusion (lb_team_inv type)).
  - intros Hout. apply (lb_destroy_run _ (entries p)). split.
    + assert (pending (members t) = []) as <-; [|done]. clear - Hout. unfold pending.
      induction Hout as [|[] ths Hm _ IH]; [done|exact IH|done..].
    + rewrite count_none in Hc; [by cbn in Hc; destruct (lb_mutex _)|].
      intros q Hq. pose proof (proj1 (Forall_forall _ _) Hout q Hq) as Ho. by destruct q.
Qed.
End start.

(** ** Witnesses *)

(** Two threads: the first makes the node of its address, the second adds one before the first
    links its own, and the pick finds the second's. *)
Definition crossed : logged :=
  let w0 := mk_heap (mk_lb_policy GRPC_LB_POLICY_PICK_FIRST None 0 0 false) ∅ 1 [] in
  match (_ ← grpc_lb_address_create [65; 0] 1; _ ← grpc_lb_address_create [66; 0] 1;
         _ ← lb_lock; _ ← link_section 2; _ ← lb_lock; link_section 1) w0 with
  | Ret (_, w) => (w, [(CallAdd [66; 0] 1, Status 0); (CallAdd [65; 0] 1, Status 0);
                       (CallPick 0, Picked (Some (2%positive, [66; 0])))])
  | Fault _ => (w0, [])
  end.

Lemma crossed_reachable :
  rtc lb_team_step (lb_team_start 2 (mk_lb_policy GRPC_LB_POLICY_PICK_FIRST None 0 0 false) [])
    (mk_team crossed [Outside (); Outside ()]).
Proof.
  set (first := SecLink 1 [65; 0] 1). set (second := SecLink 2 [66; 0] 1).
  eapply rtc_l; [left; eapply (step_outside _ _ () _ (inr first) [] [Outside ()]); eapply (out_entering (CallAdd [65; 0] 1)); [cbn; lia|reflexivity]|].
  eapply rtc_l; [left; eapply (step_outside _ _ () _ (inr second) [Entering first] []); eapply (out_entering (CallAdd [66; 0] 1)); [cbn; lia|reflexivity]|].
  eapply rtc_l; [right; by eapply (step_acquire _ _ _ second [Entering first] [])|].
  eapply rtc_l; [right; eapply (step_critical _ _ _ second _ _ [Entering first] []); [done|reflexivity]|].
  eapply rtc_l; [right; by eapply (step_acquire _ _ _ first [] [Outside ()])|].
  eapply rtc_l; [right; eapply (step_critical _ _ _ first _ _ [] [Outside ()]); [done|reflexivity]|].
  eapply rtc_l; [left; eapply (step_outside _ _ () _ (inr (SecPick 1 0)) [] [Outside ()]); eapply (out_entering (CallPick 0)); [done|vm_compute; reflexivity]|].
  eapply rtc_l; [right; by eapply (step_acquire _ _ _ (SecPick 1 0) [] [Outside ()])|].
  eapply rtc_l; [right; eapply (step_critical _ _ _ (SecPick 1 0) _ _ [] [Outside ()]); [done|vm_compute; reflexivity]|].
  apply rtc_refl.
Qed.

Lemma lb_threads_linearizable_witness :
  (∃ p, lb_history GRPC_LB_POLICY_PICK_FIRST crossed.2 p ∧ chain (cells crossed.1) (Some 2%positive) (entries p) None) ∧
  grpc_lb_policy_destroy (Some crossed.1) = Ret (Some ∅).
Proof.
  destruct (lb_threads_linearizable GRPC_LB_POLICY_PICK_FIRST [] [] _ 2 _ eq_refl crossed_reachable)
    as ((p & Hp & Hc & _) & _ & Hd).
  split; [exists p; split; [exact Hp|exact Hc]|]. apply Hd. by repeat constructor.
Defined.
