(* ===== verification/ConnectionPool.v ===== *)
(** * Connection pool (src/src/connection_pool.c)

    The pool's list of connections, the lookup, return and cleanup of connections, and
    one round of the keep-alive thread.  The pool uses HTTP/2 connections through the
    class [Connection]; the transport is its instance. *)

From Stdlib Require Import ZArith Lia.
From stdpp Require Import base tactics list option strings gmap relations.
From S2P Require Import Prelude Metadata Transport FlowControl Lists.

#[local] Open Scope Z_scope.
#[local] Set Warnings "-clear-no-such-hyp".

(** ** What the pool needs of a connection *)

(** [http2_connection_create] and [http2_connection_destroy] as the pool calls them, with
    the promise that a connection nobody has used since its creation can be destroyed. *)
Class Connection (C : Type) := {
  conn_create : M allocs (option C);
  conn_destroy : C → outcome ();
  conn_unused : C → Prop;
  conn_create_run al : ∃ r al', conn_create al = Ret (r, al') ∧ (al = [] → is_Some r ∧ al' = []) ∧
    (∀ c, r = Some c → conn_unused c);
  conn_destroy_unused c : conn_unused c → conn_destroy c = Ret ()
}.

(** The HTTP/2 transport. *)
#[export] Program Instance transport_connection : Connection world := {|
  conn_create := λ al,
    match http2_connection_create true (mk_env al [] [] [] []) with
    | Ret (Some c, e) => Ret (Some (mk_world c ∅ 1 e), answers e)
    | Ret (None, e) => Ret (None, answers e)
    | Fault f => Fault f
    end;
  conn_destroy := λ w,
    match http2_connection_destroy (Some w) with Ret _ => Ret () | Fault f => Fault f end;
  conn_unused := λ w, conn_ok w ∧ streams (conn w) = []
|}.
Next Obligation.
  intros al. cbn.
  destruct (http2_connection_create true (mk_env al [] [] [] [])) as [[[c|] e]|f] eqn:E.
  - do 2 eexists. split; [done|]. split.
    + intros ->. vm_compute in E. injection E as <- <-. by split; [eexists|].
    + intros ? [= <-].
      assert (streams c = []) as Hs
        by (destruct al as [|[] [|[] al]]; vm_compute in E; try done; by injection E as <- _).
      split; [|done]. destruct (initial_ok (mk_env al [] [] [] []) (mk_world c ∅ 1 e)) as [? _]; [|done].
      by exists true, c, e.
  - do 2 eexists. split; [done|]. split; [intros ->; by vm_compute in E|done].
  - exfalso. by destruct al as [|[] [|[] ?]]; vm_compute in E.
Qed.
Next Obligation. intros w [Hok Hs]. by rewrite connection_destroy_empty. Qed.

(** ** Data *)

(** [grpc_pooled_connection] without its [next] pointer; [connection] is the pointer to
    the HTTP/2 connection, times are seconds. *)
Record grpc_pooled_connection := mk_pooled {
  target : list Z;
  connection : option positive;
  last_used : Z;
  last_keepalive : Z;
  active_calls : Z;
  is_healthy : bool
}.

Record grpc_keepalive_config := mk_keepalive {
  interval_ms : Z;
  timeout_ms : Z;
  permit_without_calls : bool
}.

(** [keepalive_thread] tells whether the thread was started.  With the pool's own fields:
    the HTTP/2 connections that exist, by address, and the clock: its value, and how far
    it moves at each of the coming calls to [time]. *)
Record grpc_connection_pool (C : Type) := mk_pool {
  connections : option positive;
  max_connections : Z;
  current_connections : Z;
  idle_timeout_ms : Z;
  keepalive : grpc_keepalive_config;
  pool_mutex : bool;
  keepalive_thread : bool;
  keepalive_running : bool;
  live : gmap positive C;
  fresh_conn : positive;
  clock : Z;
  ticks : list Z
}.
Arguments mk_pool {C} _ _ _ _ _ _ _ _ _ _ _ _.
Arguments connections {C} _.
Arguments max_connections {C} _.
Arguments current_connections {C} _.
Arguments idle_timeout_ms {C} _.
Arguments keepalive {C} _.
Arguments pool_mutex {C} _.
Arguments keepalive_thread {C} _.
Arguments keepalive_running {C} _.
Arguments live {C} _.
Arguments fresh_conn {C} _.
Arguments clock {C} _.
Arguments ticks {C} _.

Section pool.
Context {C : Type} `{!Connection C}.

Abbreviation pool := (grpc_connection_pool C).
Abbreviation pool_state := (heap_of pool grpc_pooled_connection).

Definition set_connections (a : option positive) (p : pool) : pool :=
  mk_pool a (max_connections p) (current_connections p) (idle_timeout_ms p) (keepalive p)
    (pool_mutex p) (keepalive_thread p) (keepalive_running p) (live p) (fresh_conn p)
    (clock p) (ticks p).
Definition set_current (n : Z) (p : pool) : pool :=
  mk_pool (connections p) (max_connections p) n (idle_timeout_ms p) (keepalive p)
    (pool_mutex p) (keepalive_thread p) (keepalive_running p) (live p) (fresh_conn p)
    (clock p) (ticks p).
Definition set_keepalive_config (k : grpc_keepalive_config) (p : pool) : pool :=
  mk_pool (connections p) (max_connections p) (current_connections p) (idle_timeout_ms p) k
    (pool_mutex p) (keepalive_thread p) (keepalive_running p) (live p) (fresh_conn p)
    (clock p) (ticks p).
Definition set_pool_mutex (b : bool) (p : pool) : pool :=
  mk_pool (connections p) (max_connections p) (current_connections p) (idle_timeout_ms p)
    (keepalive p) b (keepalive_thread p) (keepalive_running p) (live p) (fresh_conn p)
    (clock p) (ticks p).
Definition set_keepalive_running (b : bool) (p : pool) : pool :=
  mk_pool (connections p) (max_connections p) (current_connections p) (idle_timeout_ms p)
    (keepalive p) (pool_mutex p) (keepalive_thread p) b (live p) (fresh_conn p)
    (clock p) (ticks p).
Definition set_live (m : gmap positive C) (f : positive) (p : pool) : pool :=
  mk_pool (connections p) (max_connections p) (current_connections p) (idle_timeout_ms p)
    (keepalive p) (pool_mutex p) (keepalive_thread p) (keepalive_running p) m f
    (clock p) (ticks p).
Definition set_clock (t : Z) (l : list Z) (p : pool) : pool :=
  mk_pool (connections p) (max_connections p) (current_connections p) (idle_timeout_ms p)
    (keepalive p) (pool_mutex p) (keepalive_thread p) (keepalive_running p) (live p)
    (fresh_conn p) t l.

Definition set_last_used (t : Z) (c : grpc_pooled_connection) : grpc_pooled_connection :=
  mk_pooled (target c) (connection c) t (last_keepalive c) (active_calls c) (is_healthy c).
Definition set_last_keepalive (t : Z) (c : grpc_pooled_connection) : grpc_pooled_connection :=
  mk_pooled (target c) (connection c) (last_used c) t (active_calls c) (is_healthy c).
Definition set_active_calls (n : Z) (c : grpc_pooled_connection) : grpc_pooled_connection :=
  mk_pooled (target c) (connection c) (last_used c) (last_keepalive c) n (is_healthy c).
Definition set_unhealthy (c : grpc_pooled_connection) : grpc_pooled_connection :=
  mk_pooled (target c) (connection c) (last_used c) (last_keepalive c) (active_calls c) false.

(** ** The environment *)

Definition pool_lock : M pool_state () := λ w,
  if pool_mutex (obj w) then Fault Deadlock else Ret ((), upd_obj (set_pool_mutex true) w).
Definition pool_unlock : M pool_state () := modify (upd_obj (set_pool_mutex false)).

(** [time (NULL)]: the clock moves by the next tick. *)
Definition time : M pool_state Z := λ w,
  match ticks (obj w) with
  | [] => Ret (clock (obj w), w)
  | d :: l => Ret (clock (obj w) + d, upd_obj (set_clock (clock (obj w) + d) l) w)
  end.

Definition create_connection : M pool_state (option positive) :=
  r ← zoom cell_answers (λ al w, mk_heap (obj w) (cells w) (fresh_cell w) al) conn_create;
  match r with
  | None => mret None
  | Some c =>
      p ← gets obj;
      _ ← modify (upd_obj (set_live (<[fresh_conn p := c]> (live p)) (Pos.succ (fresh_conn p))));
      mret (Some (fresh_conn p))
  end.

Definition destroy_connection (a : positive) : M pool_state () :=
  p ← gets obj;
  match live p !! a with
  | None => fail UseAfterFree
  | Some c =>
      _ ← lift (conn_destroy c);
      modify (upd_obj (set_live (delete a (live p)) (fresh_conn p)))
  end.

(** ** Pooled connections *)

Definition grpc_pooled_connection_create (tgt : list Z) (conn : option positive)
    : M pool_state (option positive) :=
  ok ← malloc_cell;
  if negb ok then mret None else
  dup ← malloc_cell;           (* strdup *)
  if negb dup then mret None else
  used ← time;
  kept ← time;
  a ← new_cell (mk_cell (mk_pooled (c_str tgt ++ [0]) conn used kept 0 true) None);
  mret (Some a).

Definition grpc_pooled_connection_destroy (conn : option positive) : M pool_state () :=
  match conn with
  | None => mret ()
  | Some a =>
      node ← read_cell a;
      _ ← match connection (data node) with
          | Some c => destroy_connection c
          | None => mret ()
          end;
      free_cell a
  end.

(** ** The keep-alive thread *)

(** What one round does to a pooled connection at time [now]. *)
Definition keepalive_one (p : pool) (now : Z) (c : grpc_pooled_connection)
    : grpc_pooled_connection :=
  let elapsed := now - last_keepalive c in
  let should_keepalive := interval_ms (keepalive p) <=? elapsed * 1000 in
  let c :=
    if should_keepalive && is_healthy c then
      if permit_without_calls (keepalive p) || (0 <? active_calls c)
      then set_last_keepalive now c else c
    else c in
  if (active_calls c =? 0) && (0 <? idle_timeout_ms p) then
    let idle_time := now - last_used c in
    if idle_timeout_ms p <=? idle_time * 1000 then set_unhealthy c else c
  else c.

Fixpoint keepalive_loop (fuel : nat) (now : Z) (conn : option positive) : M pool_state () :=
  match conn with
  | None => mret ()
  | Some a =>
      match fuel with
      | O => fail OutOfFuel
      | S fuel =>
          node ← read_cell a;
          p ← gets obj;
          _ ← write_cell a (mk_cell (keepalive_one p now (data node)) (next node));
          keepalive_loop fuel now (next node)
      end
  end.

(** What the thread does with the mutex. *)
Definition keepalive_section : M pool_state () :=
  now ← time;
  p ← gets obj;
  fuel ← gets walk_fuel;
  _ ← keepalive_loop fuel now (connections p);
  pool_unlock.

(** One iteration of the loop of [grpc_keepalive_thread_func]. *)
Definition keepalive_round : M pool_state () :=
  p ← gets obj;
  if negb (keepalive_running p) then mret () else
  _ ← pool_lock;
  keepalive_section.

(** ** The pool API *)

(** [thread] tells whether [pthread_create] started the thread. *)
Definition grpc_connection_pool_create (max idle : Z) (thread : bool)
    (now : Z) (tk : list Z) : M allocs (option pool) :=
  ok ← malloc;
  if negb ok then mret None else
  mret (Some (mk_pool None (if 0 <? max then max else 10) 0 (if 0 <? idle then idle else 30000)
    (mk_keepalive 30000 10000 false) false thread thread ∅ 1 now tk)).

(** The function between its [pthread_mutex_lock] and its return, here and below. *)
Definition set_keepalive_section (interval timeout : Z) (permit : bool) : M pool_state Z :=
  _ ← modify (upd_obj (set_keepalive_config (mk_keepalive
        (if 0 <? interval then interval else 30000)
        (if 0 <? timeout then timeout else 10000) permit)));
  _ ← pool_unlock;
  mret 0.
Definition grpc_connection_pool_set_keepalive (interval timeout : Z) (permit : bool)
    : M (option pool_state) Z := nullable (-1) (
  _ ← pool_lock; set_keepalive_section interval timeout permit).

(** "Look for existing healthy connection": its node. *)
Fixpoint find_healthy (fuel : nat) (tgt : list Z) (conn : option positive)
    : M pool_state (option positive) :=
  match conn with
  | None => mret None
  | Some a =>
      match fuel with
      | O => fail OutOfFuel
      | S fuel =>
          node ← read_cell a;
          if is_healthy (data node) && strcmp_eq (target (data node)) tgt then mret (Some a)
          else find_healthy fuel tgt (next node)
      end
  end.

(** "try to reuse oldest idle connection": the node idle for longest, and for how long. *)
Fixpoint find_oldest (fuel : nat) (oldest : option positive) (oldest_time : Z)
    (conn : option positive) : M pool_state (option positive) :=
  match conn with
  | None => mret oldest
  | Some a =>
      match fuel with
      | O => fail OutOfFuel
      | S fuel =>
          node ← read_cell a;
          if active_calls (data node) =? 0 then
            now ← time;
            let idle := now - last_used (data node) in
            if bool_decide (oldest = None) || (oldest_time <? idle)
            then find_oldest fuel (Some a) idle (next node)
            else find_oldest fuel oldest oldest_time (next node)
          else find_oldest fuel oldest oldest_time (next node)
      end
  end.

(** Room for one more connection: the oldest idle one is destroyed when the pool is
    full; [false] when there is none. *)
Definition make_room : M pool_state bool :=
  p ← gets obj;
  if max_connections p <=? current_connections p then
    fuel ← gets walk_fuel;
    oldest ← find_oldest fuel None 0 (connections p);
    match oldest with
    | Some a =>
        _ ← grpc_pooled_connection_destroy (Some a);
        p ← gets obj;
        _ ← modify (upd_obj (set_current (u64 (current_connections p - 1))));
        mret true
    | None => mret false
    end
  else mret true.

(** "Create new connection" and "Add to pool". *)
Definition add_connection (tgt : list Z) : M pool_state (option positive) :=
  new_conn ← create_connection;
  match new_conn with
  | None => _ ← pool_unlock; mret None
  | Some c =>
      pooled ← grpc_pooled_connection_create tgt (Some c);
      match pooled with
      | None =>
          _ ← destroy_connection c;
          _ ← pool_unlock;
          mret None
      | Some a =>
          p ← gets obj;
          node ← read_cell a;
          _ ← write_cell a (mk_cell (data node) (connections p));
          _ ← modify (upd_obj (set_connections (Some a)));
          _ ← modify (upd_obj (set_current (u64 (current_connections p + 1))));
          node ← read_cell a;
          calls ← lift (int_add (active_calls (data node)) 1);
          _ ← write_cell a (mk_cell (set_active_calls calls (data node)) (next node));
          _ ← pool_unlock;
          mret (Some c)
      end
  end.

Definition get_section (tgt : list Z) : M pool_state (option positive) :=
  p ← gets obj;
  fuel ← gets walk_fuel;
  found ← find_healthy fuel tgt (connections p);
  match found with
  | Some a =>
      now ← time;
      node ← read_cell a;
      calls ← lift (int_add (active_calls (data node)) 1);
      _ ← write_cell a (mk_cell (set_active_calls calls (set_last_used now (data node)))
                          (next node));
      _ ← pool_unlock;
      mret (connection (data node))
  | None =>
      room ← make_room;
      if negb room then _ ← pool_unlock; mret None else add_connection tgt
  end.
Definition grpc_connection_pool_get (tgt : option (list Z))
    : M (option pool_state) (option positive) := nullable None
  match tgt with
  | None => mret None
  | Some tgt => _ ← pool_lock; get_section tgt
  end.

Fixpoint return_loop (fuel : nat) (tgt : list Z) (c : positive) (conn : option positive)
    : M pool_state Z :=
  match conn with
  | None => _ ← pool_unlock; mret (-1)
  | Some a =>
      match fuel with
      | O => fail OutOfFuel
      | S fuel =>
          node ← read_cell a;
          if bool_decide (connection (data node) = Some c) && strcmp_eq (target (data node)) tgt
          then
            now ← time;
            let calls := if 0 <? active_calls (data node) then active_calls (data node) - 1
                         else active_calls (data node) in
            _ ← write_cell a (mk_cell (set_last_used now (set_active_calls calls (data node)))
                                (next node));
            _ ← pool_unlock;
            mret 0
          else return_loop fuel tgt c (next node)
      end
  end.

Definition return_section (tgt : list Z) (c : positive) : M pool_state Z :=
  p ← gets obj;
  fuel ← gets walk_fuel;
  return_loop fuel tgt c (connections p).
Definition grpc_connection_pool_return (tgt : option (list Z)) (conn : option positive)
    : M (option pool_state) Z := nullable (-1)
  match tgt, conn with
  | Some tgt, Some c => _ ← pool_lock; return_section tgt c
  | _, _ => mret (-1)
  end.

Fixpoint cleanup_loop (fuel : nat) (prev conn : option positive) : M pool_state () :=
  match conn with
  | None => mret ()
  | Some a =>
      match fuel with
      | O => fail OutOfFuel
      | S fuel =>
          node ← read_cell a;
          if (active_calls (data node) =? 0) && negb (is_healthy (data node)) then
            _ ← match prev with
                | Some b => before ← read_cell b; write_cell b (mk_cell (data before) (next node))
                | None => modify (upd_obj (set_connections (next node)))
                end;
            _ ← grpc_pooled_connection_destroy (Some a);
            p ← gets obj;
            _ ← modify (upd_obj (set_current (u64 (current_connections p - 1))));
            cleanup_loop fuel prev (next node)
          else cleanup_loop fuel (Some a) (next node)
      end
  end.

Definition cleanup_section : M pool_state () :=
  p ← gets obj;
  fuel ← gets walk_fuel;
  _ ← cleanup_loop fuel None (connections p);
  pool_unlock.
Definition grpc_connection_pool_cleanup_idle : M (option pool_state) () := nullable () (
  _ ← pool_lock; cleanup_section).

Fixpoint destroy_loop (fuel : nat) (conn : option positive) : M pool_state () :=
  match conn with
  | None => mret ()
  | Some a =>
      match fuel with
      | O => fail OutOfFuel
      | S fuel =>
          node ← read_cell a;
          _ ← grpc_pooled_connection_destroy (Some a);
          destroy_loop fuel (next node)
      end
  end.

(** The thread is joined first; a thread that was never started cannot be.  What is left
    afterwards: nodes and connections nobody freed. *)
Definition grpc_connection_pool_destroy (w : option pool_state)
    : outcome (option (gmap positive (cell grpc_pooled_connection) * gmap positive C)) :=
  match w with
  | None => Ret None
  | Some w =>
      let body :=
        _ ← modify (upd_obj (set_keepalive_running false));
        p ← gets obj;
        if negb (keepalive_thread p) then fail Uninitialised else
        _ ← pool_lock;
        p ← gets obj;
        fuel ← gets walk_fuel;
        _ ← destroy_loop fuel (connections p);
        pool_unlock in
      match body w with
      | Ret (_, w') => Ret (Some (cells w', live (obj w')))
      | Fault f => Fault f
      end
  end.
End pool.

(** ** The representation of the pool *)

Section pool_proofs.
Context {C : Type} `{!Connection C}.

Abbreviation pool := (grpc_connection_pool C).
Abbreviation pool_state := (heap_of pool grpc_pooled_connection).
Abbreviation entry := (positive * grpc_pooled_connection)%type.
Implicit Types (w : pool_state) (l s : list entry) (e : entry).

(** The addresses of the HTTP/2 connections of a list. *)
Definition conn_ids l : list (option positive) := (λ e, connection e.2) <$> l.

(** The list of the pool is well-formed, each entry has a connection of its own that
    exists and nobody else has touched, there are no other connections, and the count
    is the number of entries. *)
Record pool_inv w l : Prop := {
  pr_owns : owns w (connections (obj w)) l;
  pr_count : current_connections (obj w) = zlen l;
  pr_max : 0 < max_connections (obj w) < 2 ^ 64;
  pr_fits : zlen l ≤ max_connections (obj w);
  pr_ids : conn_ids l ≡ₚ Some <$> (map_to_list (live (obj w))).*1;
  pr_unused : map_Forall (λ _ c, conn_unused c) (live (obj w));
  pr_fresh : ∀ c, is_Some (live (obj w) !! c) → (c < fresh_conn (obj w))%positive;
  pr_active : Forall (λ e, 0 ≤ active_calls e.2) l
}.

(** ... and between two operations nobody holds the mutex. *)
Definition pool_rel w l : Prop := pool_inv w l ∧ pool_mutex (obj w) = false.

Lemma pool_lock_run w :
  pool_mutex (obj w) = false → pool_lock w = Ret ((), upd_obj (set_pool_mutex true) w).
Proof. unfold pool_lock. by intros ->. Qed.

(** Only the clock has moved. *)
Definition clock_only w w' : Prop := ∃ t k, w' = upd_obj (set_clock t k) w.

Lemma clock_only_refl w : clock_only w w.
Proof. exists (clock (obj w)), (ticks (obj w)). by destruct w as [[] ???]. Qed.
Lemma clock_only_trans w1 w2 w3 : clock_only w1 w2 → clock_only w2 w3 → clock_only w1 w3.
Proof. intros (t & k & ->) (t' & k' & ->). by exists t', k'. Qed.

Lemma time_run w : ∃ t w', time w = Ret (t, w') ∧ clock_only w w'.
Proof.
  unfold time. destruct (ticks (obj w)) as [|d k].
  - exists (clock (obj w)), w. split; [done|apply clock_only_refl].
  - do 2 eexists. split; [done|]. by do 2 eexists.
Qed.

Lemma pool_inv_clock w w' l : clock_only w w' → pool_inv w l → pool_inv w' l.
Proof.
  intros (t & k & ->) []. split; try done.
  by apply (owns_obj (set_clock t k)) in pr_owns0.
Qed.
Lemma pool_inv_mutex b w l : pool_inv w l → pool_inv (upd_obj (set_pool_mutex b) w) l.
Proof. intros []. split; try done. by apply (owns_obj (set_pool_mutex b)) in pr_owns0. Qed.

(** An entry changes, but for its connection. *)
Lemma pool_inv_set w l1 a x l2 y :
  pool_inv w (l1 ++ (a, x) :: l2) → connection y = connection x → 0 ≤ active_calls y →
  ∃ r, cells w !! a = Some (mk_cell x r) ∧
    pool_inv (upd_cells (insert a (mk_cell y r)) w) (l1 ++ (a, y) :: l2).
Proof.
  intros [Ho Hc Hm Hf Hi Hu Hfr Ha] Hy Hay.
  destruct (owns_set_data w _ l1 a x l2 y Ho) as (r & Hr & Ho'). exists r. split; [done|].
  rewrite length_app in *. cbn in Hc, Hf. split; try done; cbn; rewrite ?length_app; try done.
  - rewrite <- Hi. unfold conn_ids. rewrite !fmap_app, !fmap_cons. cbn. by rewrite Hy.
  - apply Forall_app in Ha as [? [_ ?]%Forall_cons]. apply Forall_app. split; [done|].
    by apply Forall_cons.
Qed.

(** The list around the first entry that satisfies a test. *)
Lemma find_healthy_run n tgt p s w :
  chain (cells w) p s None → (length s ≤ n)%nat →
  find_healthy n tgt p w =
    Ret (fst <$> List.find (λ e, is_healthy e.2 && strcmp_eq (target e.2) tgt) s, w).
Proof.
  revert p s. induction n as [|n IH]; intros p s Hs Hn;
    (destruct s as [|[a x] s]; [by cbn in Hs; subst p|]); [cbn in Hn; lia|].
  destruct Hs as (-> & q & Ha & Hs). cbn [find_healthy List.find snd].
  mstep (read_cell_run _ _ _ Ha). cbn [data next].
  destruct (_ && _); [done|]. apply IH; [done|cbn in Hn; lia].
Qed.

Lemma find_oldest_run n o ot p s w :
  chain (cells w) p s None → (length s ≤ n)%nat →
  ∃ r w', find_oldest n o ot p w = Ret (r, w') ∧ clock_only w w' ∧
    match r with
    | Some a => o = Some a ∨ ∃ x, (a, x) ∈ s ∧ active_calls x = 0
    | None => o = None ∧ Forall (λ e, active_calls e.2 ≠ 0) s
    end.
Proof.
  revert o ot p s w. induction n as [|n IH]; intros o ot p s w Hs Hn;
    (destruct s as [|[a x] s]; [cbn in Hs; subst p; exists o, w;
      split; [done|]; split; [apply clock_only_refl|]; destruct o; [by left|done]|]);
    [cbn in Hn; lia|].
  destruct Hs as (-> & q & Ha & Hs). cbn [find_oldest]. cbn in Hn.
  mstep (read_cell_run _ _ _ Ha). cbn [data next].
  assert (∀ o' ot' w1, clock_only w w1 → ∃ r w', find_oldest n o' ot' q w1 = Ret (r, w') ∧ clock_only w w' ∧
    match r with
    | Some a => o' = Some a ∨ ∃ x, (a, x) ∈ s ∧ active_calls x = 0
    | None => o' = None ∧ Forall (λ e, active_calls e.2 ≠ 0) s
    end) as IH'.
  { intros o' ot' w1 Hw1. destruct (IH o' ot' q s w1) as (r & w' & E & Hw' & Hr); [|lia|].
    - by destruct Hw1 as (? & ? & ->).
    - exists r, w'. split; [done|]. split; [by eapply clock_only_trans|done]. }
  destruct (Z.eqb_spec (active_calls x) 0) as [Hx|Hx].
  - destruct (time_run w) as (t & w1 & E & Hw1). mstep E.
    split_test.
    + destruct (IH' (Some a) (t - last_used x) w1 Hw1) as (r & w' & E' & Hw' & Hr).
      exists r, w'. split_and!; [done|done|]. destruct r as [b|]; [|by destruct Hr].
      right. destruct Hr as [[= <-]|(y & ? & ?)]; [exists x; split; [left|done]|exists y; split; [by right|done]].
    + destruct (IH' o ot w1 Hw1) as (r & w' & E' & Hw' & Hr).
      exists r, w'. split_and!; [done|done|]. destruct r as [b|].
      * destruct Hr as [|(y & ? & ?)]; [by left|right; exists y; split; [by right|done]].
      * destruct Hr as [-> _]. by to_prop; rewrite bool_decide_eq_true_2 in *.
  - destruct (IH' o ot w (clock_only_refl w)) as (r & w' & E' & Hw' & Hr).
    exists r, w'. split_and!; [done|done|]. destruct r as [b|].
    + destruct Hr as [|(y & ? & ?)]; [by left|right; exists y; split; [by right|done]].
    + destruct Hr as [-> ?]. split; [done|by constructor].
Qed.

(** The entry [x] with one more call, used at time [t]. *)
Definition used (t : Z) (x : grpc_pooled_connection) : grpc_pooled_connection :=
  set_active_calls (active_calls x + 1) (set_last_used t x).

Definition serves (tgt : list Z) e : bool := is_healthy e.2 && strcmp_eq (target e.2) tgt.

Lemma int_succ_run x : 0 ≤ x < 2 ^ 31 - 1 → int_add x 1 = Ret (x + 1).
Proof. intros H. rewrite int_add_run by lia. by destruct (Z.ltb_spec (x + 1) (2 ^ 31)); [|lia]. Qed.

(** A healthy connection to the target is shared. *)
Lemma get_hit_run tgt w l1 a x l2 :
  pool_rel w (l1 ++ (a, x) :: l2) → List.find (serves tgt) (l1 ++ (a, x) :: l2) = Some (a, x) →
  active_calls x < 2 ^ 31 - 1 →
  ∃ t w', grpc_connection_pool_get (Some tgt) (Some w) = Ret (connection x, Some w') ∧
    pool_rel w' (l1 ++ (a, used t x) :: l2).
Proof.
  intros [Hinv Hm] Hf Hx. unfold grpc_connection_pool_get, nullable, get_section.
  mstep (pool_lock_run w Hm); rewrite !M_bind_gets.
  apply (pool_inv_mutex true) in Hinv. set (w1 := upd_obj _ w) in *.
  pose proof (owns_fuel _ _ _ (pr_owns _ _ Hinv)) as Hfu.
  mstep (find_healthy_run (walk_fuel w1) tgt _ _ w1
    (owns_chain _ _ _ (pr_owns _ _ Hinv)) ltac:(lia)).
  fold (serves tgt). change (λ e, is_healthy e.2 && strcmp_eq (target e.2) tgt) with (serves tgt).
  rewrite Hf. cbn [fmap option_fmap option_map fst].
  destruct (time_run w1) as (t & w2 & E & Hw2). mstep E.
  pose proof (pool_inv_clock _ _ _ Hw2 Hinv) as Hinv2.
  assert (0 ≤ active_calls x) as Hx0.
  { pose proof (pr_active _ _ Hinv) as Ha. apply Forall_app in Ha as [_ [? _]%Forall_cons]. done. }
  destruct (pool_inv_set w2 l1 a x l2 (used t x) Hinv2) as (r & Hr & Hinv3); [done|cbn; lia|].
  mstep (read_cell_run _ _ _ Hr). cbn [data next].
  mstep (int_succ_run _ (conj Hx0 Hx)).
  mstep (write_cell_run _ _ _ _ Hr). unfold pool_unlock. rewrite M_bind_modify.
  exists t. eexists. split; [done|]. split; [|done]. by apply pool_inv_mutex.
Qed.

(** A connection created, and one destroyed. *)
Lemma create_connection_run w :
  ∃ r w', create_connection w = Ret (r, w') ∧ (cell_answers w = [] → is_Some r ∧ cell_answers w' = []) ∧
    ∃ al, match r with
    | Some f => f = fresh_conn (obj w) ∧ ∃ c, conn_unused c ∧
        w' = upd_obj (set_live (<[f := c]> (live (obj w))) (Pos.succ f)) (set_cell_answers al w)
    | None => w' = set_cell_answers al w
    end.
Proof.
  unfold create_connection. destruct (conn_create_run (cell_answers w)) as (r & al & E & Hal & Hu).
  rewrite (M_bind_Ret _ _ w r (set_cell_answers al w)) by (unfold zoom; by rewrite E).
  destruct r as [c|].
  - rewrite M_bind_gets, M_bind_modify. do 2 eexists. split; [done|].
    split; [intros Hw; split; [by eexists|by apply Hal]|].
    exists al. split; [done|]. exists c. by split; [apply Hu|].
  - do 2 eexists. split; [done|]. split; [|by exists al].
    intros Hw. destruct (Hal Hw) as [[] _]. done.
Qed.

Lemma destroy_connection_run a c w :
  live (obj w) !! a = Some c → conn_unused c →
  destroy_connection a w =
    Ret ((), upd_obj (set_live (delete a (live (obj w))) (fresh_conn (obj w))) w).
Proof.
  intros Hc Hu. unfold destroy_connection. rewrite M_bind_gets, Hc.
  by mstep (conn_destroy_unused c Hu).
Qed.

Lemma fresh_conn_None w l : pool_inv w l → live (obj w) !! fresh_conn (obj w) = None.
Proof. intros Hinv. apply eq_None_not_Some. intros H%(pr_fresh _ _ Hinv). lia. Qed.

Lemma map_keys_insert (m : gmap positive C) i c :
  m !! i = None → (map_to_list (<[i := c]> m)).*1 ≡ₚ i :: (map_to_list m).*1.
Proof. intros H. by rewrite map_to_list_insert. Qed.

Lemma map_keys_delete (m : gmap positive C) i c :
  m !! i = Some c → i :: (map_to_list (delete i m)).*1 ≡ₚ (map_to_list m).*1.
Proof. intros H. by rewrite <- (map_to_list_delete m i c H). Qed.

(** What the invariant depends on. *)
Lemma pool_inv_frame w w' l :
  pool_inv w l → cells w' = cells w → fresh_cell w' = fresh_cell w →
  connections (obj w') = connections (obj w) →
  current_connections (obj w') = current_connections (obj w) →
  max_connections (obj w') = max_connections (obj w) →
  live (obj w') = live (obj w) → (fresh_conn (obj w) ≤ fresh_conn (obj w'))%positive →
  pool_inv w' l.
Proof.
  intros [[Hch Hnd Hall Hfr] ? ? ? ? ? Hfc ?] E1 E2 E3 E4 E5 E6 E7.
  split; rewrite ?E3, ?E4, ?E5, ?E6; try done.
  - split; rewrite ?E1, ?E2; done.
  - intros c Hc. specialize (Hfc c Hc). lia.
Qed.

(** A new entry in front, with a new connection. *)
Lemma pool_inv_cons w w' l c x :
  pool_inv w l → zlen l < max_connections (obj w) →
  conn_unused c → connection x = Some (fresh_conn (obj w)) → 0 ≤ active_calls x →
  cells w' = <[fresh_cell w := mk_cell x (connections (obj w))]> (cells w) →
  fresh_cell w' = Pos.succ (fresh_cell w) →
  connections (obj w') = Some (fresh_cell w) →
  current_connections (obj w') = u64 (current_connections (obj w) + 1) →
  max_connections (obj w') = max_connections (obj w) →
  live (obj w') = <[fresh_conn (obj w) := c]> (live (obj w)) →
  fresh_conn (obj w') = Pos.succ (fresh_conn (obj w)) →
  pool_inv w' ((fresh_cell w, x) :: l).
Proof.
  intros Hinv Hroom Hc Hx Hx0 E1 E2 E3 E4 E5 E6 E7.
  pose proof (fresh_conn_None _ _ Hinv) as Hn. pose proof (pr_max _ _ Hinv).
  pose proof (pr_count _ _ Hinv) as Hcnt.
  destruct (owns_cons w _ l x (pr_owns _ _ Hinv)) as [O1 O2 O3 O4]. cbn [cells fresh_cell] in *.
  split; rewrite ?E3, ?E4, ?E5, ?E6, ?E7.
  - split; rewrite ?E1, ?E2; done.
  - rewrite u64_small by lia. cbn. lia.
  - done.
  - cbn. lia.
  - rewrite (map_keys_insert _ _ _ Hn). cbn. rewrite Hx. by rewrite (pr_ids _ _ Hinv).
  - apply map_Forall_insert; [done|]. split; [done|apply Hinv].
  - intros d. rewrite lookup_insert_is_Some. intros [<-|[_ Hd%(pr_fresh _ _ Hinv)]]; lia.
  - constructor; [done|apply Hinv].
Qed.

(** The pooled connection of a new connection, or none without memory. *)
Lemma pooled_create_run tgt c w :
  ∃ r w', grpc_pooled_connection_create tgt c w = Ret (r, w') ∧
    (cell_answers w = [] → is_Some r ∧ cell_answers w' = []) ∧
    ∃ al t k t1 t2, match r with
    | Some a => a = fresh_cell w ∧ w' = mk_heap (set_clock t k (obj w))
        (<[a := mk_cell (mk_pooled (c_str tgt ++ [0]) c t1 t2 0 true) None]> (cells w)) (Pos.succ a) al
    | None => w' = set_cell_answers al w
    end.
Proof.
  unfold grpc_pooled_connection_create.
  destruct (malloc_cell_run w) as (ok & al & E & Hal). mstep E.
  destruct ok; cbn [negb].
  2:{ do 2 eexists. split; [done|]. split; [by intros []%Hal|]. by exists al, 0, [], 0, 0. }
  destruct (malloc_cell_run (set_cell_answers al w)) as (ok & al2 & E2 & Hal2).
  mstep E2. destruct ok; cbn [negb].
  2:{ do 2 eexists. split; [done|]. split; [|by exists al2, 0, [], 0, 0].
      intros Hw. destruct (Hal Hw) as [_ Hal']. by destruct (Hal2 Hal'). }
  destruct (time_run (set_cell_answers al2 (set_cell_answers al w))) as (t1 & w1 & E3 & Hw1).
  mstep E3.
  destruct (time_run w1) as (t2 & w2 & E4 & Hw2). mstep E4.
  destruct (clock_only_trans _ _ _ Hw1 Hw2) as (t & k & ->). do 2 eexists. split; [done|]. split.
  - intros Hw. destruct (Hal Hw) as [_ Hal']. destruct (Hal2 Hal') as [_ ->]. by split; [eexists|].
  - by exists al2, t, k, t1, t2.
Qed.

Definition new_entry (tgt : list Z) (c : positive) (x : grpc_pooled_connection) : Prop :=
  connection x = Some c ∧ target x = c_str tgt ++ [0] ∧ active_calls x = 1 ∧ is_healthy x = true.

(** The new state: one more entry in front, or nothing but the clock and the allocator
    has moved. *)
Definition added w w' (c : C) (x : grpc_pooled_connection) : Prop :=
  cells w' = <[fresh_cell w := mk_cell x (connections (obj w))]> (cells w) ∧
  fresh_cell w' = Pos.succ (fresh_cell w) ∧
  connections (obj w') = Some (fresh_cell w) ∧
  current_connections (obj w') = u64 (current_connections (obj w) + 1) ∧
  max_connections (obj w') = max_connections (obj w) ∧
  live (obj w') = <[fresh_conn (obj w) := c]> (live (obj w)) ∧
  fresh_conn (obj w') = Pos.succ (fresh_conn (obj w)).
Definition kept w w' : Prop :=
  cells w' = cells w ∧ fresh_cell w' = fresh_cell w ∧
  connections (obj w') = connections (obj w) ∧
  current_connections (obj w') = current_connections (obj w) ∧
  max_connections (obj w') = max_connections (obj w) ∧
  live (obj w') = live (obj w) ∧ (fresh_conn (obj w) ≤ fresh_conn (obj w'))%positive.

Lemma add_connection_effect tgt w :
  live (obj w) !! fresh_conn (obj w) = None →
  ∃ r w', add_connection tgt w = Ret (r, w') ∧ pool_mutex (obj w') = false ∧
    (cell_answers w = [] → is_Some r) ∧
    match r with
    | Some f => f = fresh_conn (obj w) ∧
        ∃ c x, conn_unused c ∧ new_entry tgt f x ∧ added w w' c x
    | None => kept w w'
    end.
Proof.
  intros Hn. unfold add_connection.
  destruct (create_connection_run w) as (r & w1 & E & Hal & al & Hr).
  mstep E. unfold pool_unlock. destruct r as [f|].
  2:{ subst w1. rewrite M_bind_modify. do 2 eexists. split; [done|].
      split_and!; [done|by intros []%Hal|]. unfold kept. by split_and!. }
  destruct Hr as (-> & c & Hu & ->). set (w1 := upd_obj _ _) in *.
  destruct (pooled_create_run tgt (Some (fresh_conn (obj w))) w1) as (r & w2 & E2 & Hal2 & al2 & t & k & t1 & t2 & Hr).
  mstep E2. destruct r as [a|].
  - destruct Hr as [-> ->]. rewrite M_bind_gets. set (w2 := mk_heap _ _ _ _).
    set (x := mk_pooled _ _ _ _ _ _) in *.
    mstep (read_cell_run (fresh_cell w1) (mk_cell x None) w2 (lookup_insert_eq _ _ _)).
    mstep (write_cell_run (fresh_cell w1) (mk_cell x None) _ w2 (lookup_insert_eq _ _ _)).
    rewrite !M_bind_modify. set (w3 := upd_obj _ _).
    mstep (read_cell_run (fresh_cell w1)
      (mk_cell x (connections (obj w))) w3 (lookup_insert_eq _ _ _)). cbn [data next active_calls x].
    rewrite (M_bind_lift _ _ _ 1) by done.
    mstep (write_cell_run (fresh_cell w1)
      (mk_cell x (connections (obj w))) _ w3 (lookup_insert_eq _ _ _)).
    rewrite M_bind_modify. do 2 eexists. split; [done|]. split_and!; [done|by eexists|done|].
    exists c, (set_active_calls 1 x). split_and!; [done|done|]. unfold added.
    split_and!; try done. cbn. by rewrite !insert_insert_eq.
  - subst w2. mstep (destroy_connection_run (fresh_conn (obj w)) c
      (set_cell_answers al2 w1) (lookup_insert_eq _ _ _) Hu).
    rewrite M_bind_modify. do 2 eexists. split; [done|]. split_and!; [done| |].
    + intros Hw. destruct (Hal Hw) as [_ Hal']. by destruct (Hal2 Hal') as [[] _].
    + unfold kept. split_and!; try done; cbn; [|lia]. by rewrite delete_insert_eq, delete_id.
Qed.

Lemma add_connection_run tgt w l :
  pool_inv w l → zlen l < max_connections (obj w) →
  ∃ r w', add_connection tgt w = Ret (r, w') ∧
    (cell_answers w = [] → is_Some r) ∧
    match r with
    | Some c => ∃ x, new_entry tgt c x ∧ pool_rel w' ((fresh_cell w, x) :: l)
    | None => pool_rel w' l
    end.
Proof.
  intros Hinv Hroom.
  destruct (add_connection_effect tgt w (fresh_conn_None _ _ Hinv)) as (r & w' & E & Hm & Hal & Hr).
  exists r, w'. split_and!; [done|done|]. destruct r as [f|].
  - destruct Hr as (-> & c & x & Hu & Hx & H1 & H2 & H3 & H4 & H5 & H6 & H7).
    exists x. split; [done|]. split; [|done]. pose proof Hx as (Hc & _ & Ha & _).
    apply (pool_inv_cons w w' l c x); try done. lia.
  - destruct Hr as (H1 & H2 & H3 & H4 & H5 & H6 & H7). split; [|done].
    by apply (pool_inv_frame w).
Qed.

(** The lookup on the list; [None] for the entry means that the pool is full and its
    oldest idle connection goes. *)
Lemma get_miss_run tgt w l :
  pool_rel w l → List.find (serves tgt) l = None →
  zlen l < max_connections (obj w) ∨ Forall (λ e, active_calls e.2 ≠ 0) l →
  ∃ r w', grpc_connection_pool_get (Some tgt) (Some w) = Ret (r, Some w') ∧
    (zlen l < max_connections (obj w) → cell_answers w = [] → is_Some r) ∧
    match r with
    | Some c => ∃ x, new_entry tgt c x ∧ pool_rel w' ((fresh_cell w, x) :: l)
    | None => pool_rel w' l
    end.
Proof.
  intros [Hinv Hm] Hf Hcase. unfold grpc_connection_pool_get, nullable, get_section.
  mstep (pool_lock_run w Hm); rewrite !M_bind_gets.
  apply (pool_inv_mutex true) in Hinv. set (w1 := upd_obj _ w) in *.
  pose proof (owns_fuel _ _ _ (pr_owns _ _ Hinv)) as Hfu.
  pose proof (owns_chain _ _ _ (pr_owns _ _ Hinv)) as Hch.
  mstep (find_healthy_run (walk_fuel w1) tgt _ _ w1 Hch ltac:(lia)).
  change (λ e, is_healthy e.2 && strcmp_eq (target e.2) tgt) with (serves tgt). rewrite Hf. cbn [fmap option_fmap option_map].
  unfold make_room. pose proof (pr_count _ _ Hinv) as Hcnt. pose proof (pr_fits _ _ Hinv) as Hfit.
  change (max_connections (obj w1)) with (max_connections (obj w)) in *.
  destruct (Z.leb_spec (max_connections (obj w)) (zlen l)) as [Hfull|Hroom].
  - destruct Hcase as [|Hbusy]; [lia|].
    destruct (find_oldest_run (walk_fuel w1) None 0 _ _ w1 Hch ltac:(lia)) as (r & w2 & E & Hw2 & Hr).
    rewrite (M_bind_Ret _ _ w1 false w2).
    2:{ rewrite M_bind_gets, Hcnt.
        change (max_connections (obj w1)) with (max_connections (obj w)).
        rewrite (proj2 (Z.leb_le _ _) Hfull), M_bind_gets, (M_bind_Ret _ _ _ _ _ E).
        destruct r as [a|]; [|done]. destruct Hr as [|(x & Hin & Hx)]; [done|].
        apply (proj1 (Forall_forall _ _) Hbusy) in Hin. done. }
    cbn [negb]. unfold pool_unlock. rewrite M_bind_modify. do 2 eexists. split; [done|].
    split; [lia|]. split; [|done]. apply pool_inv_mutex. by apply (pool_inv_clock w1).
  - rewrite (M_bind_Ret _ _ w1 true w1).
    2:{ rewrite M_bind_gets, Hcnt. change (max_connections (obj w1)) with (max_connections (obj w)).
        by destruct (Z.leb_spec (max_connections (obj w)) (zlen l)); [lia|]. }
    cbn [negb]. destruct (add_connection_run tgt w1 l Hinv Hroom) as (r & w' & E & Hal & Hr).
    rewrite E. exists r, w'. by split_and!.
Qed.

(** ** The pool that is full *)

(** A walk that comes to a node that is gone. *)
Lemma find_healthy_dangling n tgt p s a w :
  chain (cells w) p s (Some a) → cells w !! a = None →
  Forall (λ e, serves tgt e = false) s → (length s < n)%nat →
  find_healthy n tgt p w = Fault UseAfterFree.
Proof.
  revert p s. induction n as [|n IH]; intros p s Hs Ha Hf Hn; [lia|].
  destruct s as [|[b x] s].
  - cbn in Hs. subst p. cbn [find_healthy]. unfold mbind, M_bind, read_cell. by rewrite Ha.
  - destruct Hs as (-> & q & Hb & Hs). apply Forall_cons in Hf as [Hx Hf]. cbn [find_healthy].
    mstep (read_cell_run _ _ _ Hb). cbn [data next].
    unfold serves in Hx. cbn [snd] in Hx. rewrite Hx. cbn in Hn. apply (IH q s); [done|done|done|lia].
Qed.

(** The eviction leaves the list pointing at the node it has freed. *)
Definition dangling w l1 a : Prop :=
  pool_mutex (obj w) = false ∧ chain (cells w) (connections (obj w)) l1 (Some a) ∧
  cells w !! a = None ∧ NoDup l1.*1.

Lemma pool_entry w l1 a x l2 :
  pool_inv w (l1 ++ (a, x) :: l2) →
  ∃ c v r, connection x = Some c ∧ live (obj w) !! c = Some v ∧ conn_unused v ∧
    cells w !! a = Some (mk_cell x r).
Proof.
  intros Hinv.
  assert (connection x ∈ Some <$> (map_to_list (live (obj w))).*1) as Hin.
  { rewrite <- (pr_ids _ _ Hinv). unfold conn_ids. rewrite fmap_app. apply elem_of_app. right. by left. }
  apply list_elem_of_fmap in Hin as (c & Hc & ([c' v] & -> & Hv)%list_elem_of_fmap).
  apply elem_of_map_to_list in Hv. 
  pose proof (owns_chain _ _ _ (pr_owns _ _ Hinv)) as (r0 & _ & _ & r & Hr & _)%chain_app.
  exists c', v, r. split_and!; [done|done|by apply (pr_unused _ _ Hinv _ _ Hv)|done].
Qed.

Lemma pooled_destroy_run w l1 a x l2 :
  pool_inv w (l1 ++ (a, x) :: l2) →
  ∃ c, connection x = Some c ∧ is_Some (live (obj w) !! c) ∧
  grpc_pooled_connection_destroy (Some a) w =
    Ret ((), upd_cells (delete a) (upd_obj (set_live (delete c (live (obj w))) (fresh_conn (obj w))) w)).
Proof.
  intros Hinv. destruct (pool_entry _ _ _ _ _ Hinv) as (c & v & r & Hc & Hv & Hu & Hr).
  exists c. split; [done|]. split; [by eexists|]. unfold grpc_pooled_connection_destroy.
  mstep (read_cell_run _ _ _ Hr). cbn [data]. rewrite Hc.
  mstep (destroy_connection_run c v w Hv Hu).
  by rewrite (free_cell_run a (mk_cell x r)).
Qed.

Lemma get_evicts tgt w l :
  pool_rel w l → List.find (serves tgt) l = None → max_connections (obj w) ≤ zlen l →
  ¬ Forall (λ e, active_calls e.2 ≠ 0) l → cell_answers w = [] →
  ∃ c w' l1 a l2 y x, grpc_connection_pool_get (Some tgt) (Some w) = Ret (Some c, Some w') ∧
    l = l1 ++ (a, y) :: l2 ∧ new_entry tgt c x ∧ dangling w' ((fresh_cell w, x) :: l1) a.
Proof.
  intros [Hinv Hm] Hf Hfull Hidle Hal. unfold grpc_connection_pool_get, nullable, get_section.
  mstep (pool_lock_run w Hm); rewrite !M_bind_gets.
  apply (pool_inv_mutex true) in Hinv. set (w1 := upd_obj _ w) in *.
  pose proof (owns_fuel _ _ _ (pr_owns _ _ Hinv)) as Hfu.
  pose proof (owns_chain _ _ _ (pr_owns _ _ Hinv)) as Hch.
  mstep (find_healthy_run (walk_fuel w1) tgt _ _ w1 Hch ltac:(lia)).
  change (λ e, is_healthy e.2 && strcmp_eq (target e.2) tgt) with (serves tgt). rewrite Hf. cbn [fmap option_fmap option_map].
  destruct (find_oldest_run (walk_fuel w1) None 0 _ _ w1 Hch ltac:(lia)) as (r & w2 & E & Hw2 & Hr).
  destruct r as [a|]; [|by destruct Hr]. destruct Hr as [|(y & Hin & Hy)]; [done|].
  apply list_elem_of_split in Hin as (l1 & l2 & ->).
  pose proof (pool_inv_clock _ _ _ Hw2 Hinv) as Hinv2.
  destruct (pooled_destroy_run w2 l1 a y l2 Hinv2) as (c & Hc & Hcl & Ed).
  set (w3 := upd_cells _ _) in Ed.
  rewrite (M_bind_Ret _ _ w1 true (upd_obj (set_current (u64 (current_connections (obj w3) - 1))) w3)).
  2:{ unfold make_room. rewrite M_bind_gets, (pr_count _ _ Hinv).
      change (max_connections (obj w1)) with (max_connections (obj w)).
      rewrite (proj2 (Z.leb_le _ _) Hfull), M_bind_gets, (M_bind_Ret _ _ _ _ _ E).
      by rewrite (M_bind_Ret _ _ _ _ _ Ed), M_bind_gets, M_bind_modify. }
  cbn [negb]. set (w4 := upd_obj _ w3).
  pose proof (fresh_conn_None _ _ Hinv2) as Hn.
  destruct (add_connection_effect tgt w4) as (r & w' & E' & Hm' & Hal' & Hr).
  { cbn. rewrite lookup_delete_ne; [done|]. intros ->. by rewrite Hn in Hcl; destruct Hcl. }
  rewrite E'. destruct r as [f|].
  2:{ exfalso. destruct Hal' as [? ?]; [|done]. by destruct Hw2 as (? & ? & ->). }
  destruct Hr as (-> & c' & x & _ & Hx & H1 & H2 & H3 & _).
  assert (fresh_cell w4 = fresh_cell w) as Hfr by (by destruct Hw2 as (? & ? & ->)).
  rewrite Hfr in *.
  exists (fresh_conn (obj w4)), w', l1, a, l2, y, x. split_and!; [done|done|done|].
  pose proof (pr_owns _ _ Hinv2) as [Oc On Oa Of].
  assert (fresh_cell w2 = fresh_cell w) as Hfr2 by done. rewrite Hfr2 in Of.
  rewrite fmap_app, fmap_cons in On, Of. cbn in On, Of.
  apply NoDup_app in On as (On1 & On2 & On3).
  assert (fresh_cell w ∉ l1.*1) as Hni by (intros Hin; specialize (Of (fresh_cell w)); set_solver by lia).
  assert (a ∉ l1.*1) as Hna by set_solver.
  assert (fresh_cell w ≠ a) as Hne by (intros <-; specialize (Of (fresh_cell w)); set_solver by lia).
  split_and!; [done| | |by apply NoDup_cons].
  - rewrite H1, H3. cbn. split; [done|]. exists (connections (obj w2)). rewrite lookup_insert_eq. split; [done|].
    apply chain_insert_ne; [done|]. apply chain_delete_ne; [done|].
    apply chain_app in Oc as (q & Oc & -> & _). done.
  - rewrite H1, lookup_insert_ne by done. apply lookup_delete_eq.
Qed.

(** ** Return *)

Definition lent (tgt : list Z) (c : positive) e : bool :=
  bool_decide (connection e.2 = Some c) && strcmp_eq (target e.2) tgt.
(** The entry [x] with one call less, used at time [t]. *)
Definition returned (t : Z) (x : grpc_pooled_connection) : grpc_pooled_connection :=
  set_last_used t (set_active_calls (Z.max 0 (active_calls x - 1)) x).

Lemma return_loop_run n tgt c p l1 s w :
  pool_inv w (l1 ++ s) → chain (cells w) p s None → (length s ≤ n)%nat →
  ∃ w', return_loop n tgt c p w =
      Ret (match List.find (lent tgt c) s with Some _ => 0 | None => -1 end, w') ∧
    pool_mutex (obj w') = false ∧
    match List.find (lent tgt c) s with
    | Some (a, x) => ∃ t s1 s2, s = s1 ++ (a, x) :: s2 ∧ pool_inv w' (l1 ++ s1 ++ (a, returned t x) :: s2)
    | None => pool_inv w' (l1 ++ s)
    end.
Proof.
  revert p l1 s. induction n as [|n IH]; intros p l1 s Hinv Hs Hn;
    (destruct s as [|[a x] s];
      [cbn in Hs; subst p; exists (upd_obj (set_pool_mutex false) w); split_and!; [done|done|];
       by apply pool_inv_mutex|]); [cbn in Hn; lia|].
  destruct Hs as (-> & q & Ha & Hs). cbn [return_loop List.find]. cbn in Hn.
  mstep (read_cell_run _ _ _ Ha). cbn [data next].
  unfold lent at 1 3. cbn [snd]. destruct (_ && _) eqn:Et.
  - destruct (time_run w) as (t & w1 & E & Hw1). mstep E.
    pose proof (pool_inv_clock _ _ _ Hw1 Hinv) as Hinv1.
    pose proof (pr_active _ _ Hinv) as Hact. apply Forall_app in Hact as [_ [Hx _]%Forall_cons].
    cbn [snd] in Hx.
    destruct (pool_inv_set w1 l1 a x s (returned t x) Hinv1) as (r & Hr & Hinv2); [done|cbn; lia|].
    assert (r = q) as -> by (destruct Hw1 as (? & ? & ->); cbn in Hr; congruence).
    assert ((if 0 <? active_calls x then active_calls x - 1 else active_calls x) =
            Z.max 0 (active_calls x - 1)) as -> by (destruct (Z.ltb_spec 0 (active_calls x)); lia).
    mstep (write_cell_run _ _ _ _ Hr). unfold pool_unlock. rewrite M_bind_modify.
    eexists. split; [done|]. split; [done|]. exists t, [], s. split; [done|]. by apply pool_inv_mutex.
  - destruct (IH q (l1 ++ [(a, x)]) s) as (w' & E & Hm & Hr); [by rewrite <- app_assoc|done|lia|].
    exists w'. split; [done|]. split; [done|]. destruct (List.find _ s) as [[b y]|].
    + destruct Hr as (t & s1 & s2 & -> & Hr). exists t, ((a, x) :: s1), s2. split; [done|].
      by rewrite <- app_assoc in Hr.
    + by rewrite <- app_assoc in Hr.
Qed.

Lemma return_run tgt c w l :
  pool_rel w l →
  ∃ w', grpc_connection_pool_return (Some tgt) (Some c) (Some w) =
      Ret (match List.find (lent tgt c) l with Some _ => 0 | None => -1 end, Some w') ∧
    match List.find (lent tgt c) l with
    | Some (a, x) => ∃ t l1 l2, l = l1 ++ (a, x) :: l2 ∧ pool_rel w' (l1 ++ (a, returned t x) :: l2)
    | None => pool_rel w' l
    end.
Proof.
  intros [Hinv Hm]. unfold grpc_connection_pool_return, nullable, return_section.
  mstep (pool_lock_run w Hm); rewrite !M_bind_gets.
  apply (pool_inv_mutex true) in Hinv. set (w1 := upd_obj _ w) in *.
  pose proof (owns_fuel _ _ _ (pr_owns _ _ Hinv)) as Hfu.
  destruct (return_loop_run (walk_fuel w1) tgt c _ [] l w1 Hinv (owns_chain _ _ _ (pr_owns _ _ Hinv)) ltac:(lia))
    as (w' & E & Hm' & Hr).
  exists w'. rewrite E. split; [done|]. destruct (List.find _ l) as [[a x]|]; [|done].
  destruct Hr as (t & s1 & s2 & -> & Hr). by exists t, s1, s2.
Qed.

(** ** Cleanup *)

(** The entries the cleanup drops: no calls, and marked by the keep-alive thread. *)
Definition stale e : bool := (active_calls e.2 =? 0) && negb (is_healthy e.2).
Definition fresh_entries l : list entry := filter (λ e, stale e = false) l.

(** One entry goes, with its connection. *)
Lemma pool_inv_remove w w' l1 a x l2 c :
  pool_inv w (l1 ++ (a, x) :: l2) → connection x = Some c → is_Some (live (obj w) !! c) →
  owns w' (connections (obj w')) (l1 ++ l2) →
  current_connections (obj w') = u64 (current_connections (obj w) - 1) →
  max_connections (obj w') = max_connections (obj w) →
  live (obj w') = delete c (live (obj w)) → fresh_conn (obj w') = fresh_conn (obj w) →
  pool_inv w' (l1 ++ l2).
Proof.
  intros [Ho Hcnt Hmax Hfit Hids Hun Hfr Hact] Hc [v Hv] Ho' E1 E2 E3 E4.
  rewrite length_app in Hcnt, Hfit. cbn in Hcnt, Hfit.
  split; rewrite ?E1, ?E2, ?E3, ?E4, ?length_app; try done.
  - rewrite u64_small by lia. lia.
  - lia.
  - unfold conn_ids in *. rewrite fmap_app, fmap_cons in Hids. cbn in Hids.
    rewrite <- (map_keys_delete _ _ _ Hv), fmap_cons, Hc in Hids.
    rewrite <- Permutation_middle in Hids. apply Permutation_cons_inv in Hids. by rewrite fmap_app.
  - by apply map_Forall_delete.
  - intros d [_ Hd]%lookup_delete_is_Some. by apply Hfr.
  - apply Forall_app in Hact as [? [_ ?]%Forall_cons]. by apply Forall_app.
Qed.

(** The first entry, or the one after [(b, y)], is unlinked and destroyed. *)
Lemma unlink_run w l1 a x l2 :
  pool_inv w (l1 ++ (a, x) :: l2) →
  ∃ r w', cells w !! a = Some (mk_cell x r) ∧
    (∀ k : M pool_state (),
      (_ ← match fst <$> last l1 with
           | Some b => before ← read_cell b; write_cell b (mk_cell (data before) r)
           | None => modify (upd_obj (set_connections r))
           end;
       _ ← grpc_pooled_connection_destroy (Some a);
       p ← gets obj;
       _ ← modify (upd_obj (set_current (u64 (current_connections p - 1))));
       k) w = k w') ∧
    pool_inv w' (l1 ++ l2) ∧ chain (cells w') r l2 None ∧ pool_mutex (obj w') = pool_mutex (obj w).
Proof.
  intros Hinv. pose proof (pr_owns _ _ Hinv) as Ho.
  destruct (pool_entry _ _ _ _ _ Hinv) as (c & v & r & Hc & Hv & Hu & Hr). exists r.
  assert (∀ w1, obj w1 = obj w ∨ obj w1 = set_connections r (obj w) → cells w1 !! a = Some (mk_cell x r) →
    grpc_pooled_connection_destroy (Some a) w1 =
    Ret ((), upd_cells (delete a) (upd_obj (set_live (delete c (live (obj w))) (fresh_conn (obj w))) w1))) as Hd.
  { intros w1 Hw1 Hr1. unfold grpc_pooled_connection_destroy.
    mstep (read_cell_run _ _ _ Hr1). cbn [data]. rewrite Hc.
    assert (live (obj w1) = live (obj w) ∧ fresh_conn (obj w1) = fresh_conn (obj w)) as [El Ef]
      by by destruct Hw1 as [-> | ->].
    mstep (destroy_connection_run c v w1 ltac:(by rewrite El) Hu); rewrite El, Ef.
    by rewrite (free_cell_run a (mk_cell x r)). }
  destruct l1 as [|[b y] l1 _] using rev_ind.
  - destruct (owns_tail _ _ _ _ _ Ho) as (r' & Hp & Hr' & Ho'). rewrite Hr in Hr'. injection Hr' as <-.
    set (w1 := upd_obj (set_connections r) w).
    exists (upd_obj (set_current (u64 (current_connections (obj w) - 1)))
      (upd_cells (delete a) (upd_obj (set_live (delete c (live (obj w))) (fresh_conn (obj w))) w1))).
    split_and!; [done| | |by apply owns_chain in Ho'|done].
    + intros k. cbn [last fmap option_fmap option_map]. rewrite M_bind_modify.
      mstep (Hd w1 (or_intror eq_refl) Hr). by rewrite M_bind_gets, M_bind_modify.
    + apply (pool_inv_remove w _ [] a x l2 c); try done.
      by apply (owns_obj (λ p, set_current (u64 (current_connections (obj w) - 1))
        (set_live (delete c (live (obj w))) (fresh_conn (obj w)) (set_connections r p)))) in Ho'.
  - rewrite <- app_assoc in Ho, Hinv. cbn [app] in Ho, Hinv.
    destruct (owns_unlink _ _ _ _ _ _ _ _ Ho) as (r' & Hb & Hr' & Ho'). rewrite Hr in Hr'. injection Hr' as <-.
    assert (a ≠ b) as Hne.
    { pose proof (owns_nodup _ _ _ Ho) as Hnd. rewrite fmap_app in Hnd. cbn in Hnd.
      apply NoDup_app in Hnd as (_ & _ & [? _]%NoDup_cons). set_solver. }
    set (w1 := upd_cells (insert b (mk_cell y r)) w).
    assert (cells w1 !! a = Some (mk_cell x r)) as Hr1 by (cbn; by rewrite lookup_insert_ne).
    exists (upd_obj (set_current (u64 (current_connections (obj w) - 1)))
      (upd_cells (delete a) (upd_obj (set_live (delete c (live (obj w))) (fresh_conn (obj w))) w1))).
    split_and!; [done| | | |done].
    + intros k. rewrite last_snoc. cbn [fmap option_fmap option_map fst].
      rewrite (M_bind_Ret _ _ w () w1).
      2:{ mstep (read_cell_run _ _ _ Hb). by rewrite (write_cell_run _ _ _ _ Hb). }
      mstep (Hd w1 (or_introl eq_refl) Hr1). by rewrite M_bind_gets, M_bind_modify.
    + apply (pool_inv_remove w _ (l1 ++ [(b, y)]) a x l2 c); rewrite <- ?app_assoc; try done.
      by apply (owns_obj (λ p, set_current (u64 (current_connections (obj w) - 1))
        (set_live (delete c (live (obj w))) (fresh_conn (obj w)) p))) in Ho'.
    + pose proof (owns_chain _ _ _ Ho') as (q & _ & -> & q' & Hq & Hch)%chain_app.
      cbn in Hq. rewrite lookup_delete_ne, lookup_insert_eq in Hq by done. by injection Hq as <-.
Qed.

Lemma cleanup_loop_run n p l1 s w :
  pool_inv w (l1 ++ s) → chain (cells w) p s None → (length s ≤ n)%nat →
  ∃ w', cleanup_loop n (fst <$> last l1) p w = Ret ((), w') ∧
    pool_inv w' (l1 ++ fresh_entries s) ∧ pool_mutex (obj w') = pool_mutex (obj w).
Proof.
  revert p l1 s w. induction n as [|n IH]; intros p l1 s w Hinv Hs Hn;
    (destruct s as [|[a x] s]; [cbn in Hs; subst p; exists w; unfold fresh_entries; by rewrite filter_nil|]); [cbn in Hn; lia|].
  destruct Hs as (-> & q & Ha & Hs). cbn [cleanup_loop]. cbn in Hn.
  mstep (read_cell_run _ _ _ Ha). cbn [data next].
  unfold fresh_entries. change ((active_calls x =? 0) && negb (is_healthy x)) with (stale (a, x)).
  destruct (stale (a, x)) eqn:Et.
  - rewrite filter_cons_False by (by rewrite Et).
    destruct (unlink_run w l1 a x s Hinv) as (r & w1 & Hr & E & Hinv1 & Hs1 & Hm1).
    rewrite Ha in Hr. injection Hr as <-. rewrite E, <- Hm1. apply IH; [done|done|lia].
  - rewrite filter_cons_True by done.
    destruct (IH q (l1 ++ [(a, x)]) s w) as (w' & E & Hinv' & Hm'); [by rewrite <- app_assoc|done|lia|].
    rewrite last_snoc in E. exists w'. rewrite <- app_assoc in Hinv'. by split_and!.
Qed.

Lemma cleanup_run w l :
  pool_rel w l →
  ∃ w', grpc_connection_pool_cleanup_idle (Some w) = Ret ((), Some w') ∧ pool_rel w' (fresh_entries l).
Proof.
  intros [Hinv Hm]. unfold grpc_connection_pool_cleanup_idle, nullable, cleanup_section.
  mstep (pool_lock_run w Hm); rewrite !M_bind_gets.
  apply (pool_inv_mutex true) in Hinv. set (w1 := upd_obj _ w) in *.
  pose proof (owns_fuel _ _ _ (pr_owns _ _ Hinv)) as Hfu.
  destruct (cleanup_loop_run (walk_fuel w1) _ [] l w1 Hinv (owns_chain _ _ _ (pr_owns _ _ Hinv)) ltac:(lia))
    as (w' & E & Hinv' & Hm').
  mstep E. eexists. split; [done|]. split; [|done]. by apply pool_inv_mutex.
Qed.

(** ** The keep-alive round *)

Lemma keepalive_one_same (p : pool) now x :
  connection (keepalive_one p now x) = connection x ∧
  active_calls (keepalive_one p now x) = active_calls x.
Proof.
  unfold keepalive_one. repeat match goal with |- context [if ?b then _ else _] => destruct b end; done.
Qed.

Lemma keepalive_one_pool (p p' : pool) now x :
  keepalive p' = keepalive p → idle_timeout_ms p' = idle_timeout_ms p →
  keepalive_one p' now x = keepalive_one p now x.
Proof. intros H1 H2. unfold keepalive_one. by rewrite H1, H2. Qed.

Definition keepalive_entry (p : pool) (now : Z) e : entry := (e.1, keepalive_one p now e.2).

Lemma keepalive_loop_run n now p l1 s w :
  pool_inv w (l1 ++ s) → chain (cells w) p s None → (length s ≤ n)%nat →
  ∃ w', keepalive_loop n now p w = Ret ((), w') ∧
    pool_inv w' (l1 ++ (keepalive_entry (obj w) now <$> s)) ∧ obj w' = obj w.
Proof.
  revert p l1 s w. induction n as [|n IH]; intros p l1 s w Hinv Hs Hn;
    (destruct s as [|[a x] s]; [cbn in Hs; subst p; by exists w|]); [cbn in Hn; lia|].
  destruct Hs as (-> & q & Ha & Hs). cbn [keepalive_loop]. cbn in Hn.
  mstep (read_cell_run _ _ _ Ha); rewrite M_bind_gets. cbn [data next].
  set (y := keepalive_one (obj w) now x).
  destruct (keepalive_one_same (obj w) now x) as [Hy1 Hy2].
  pose proof (pr_active _ _ Hinv) as Hact. apply Forall_app in Hact as [_ [Hx _]%Forall_cons].
  destruct (pool_inv_set w l1 a x s y Hinv Hy1) as (r & Hr & Hinv2); [unfold y; cbn in *; lia|].
  rewrite Ha in Hr. injection Hr as <-.
  mstep (write_cell_run _ _ _ _ Ha).
  destruct (IH q (l1 ++ [(a, y)]) s (upd_cells (insert a (mk_cell y q)) w)) as (w' & E & Hinv' & Hobj).
  - by rewrite <- app_assoc.
  - apply chain_insert_ne; [|done]. pose proof (owns_nodup _ _ _ (pr_owns _ _ Hinv)) as Hnd.
    rewrite fmap_app, fmap_cons in Hnd. by apply NoDup_app in Hnd as (_ & _ & [? _]%NoDup_cons).
  - lia.
  - exists w'. rewrite <- app_assoc in Hinv'. by split_and!.
Qed.

Lemma keepalive_section_run w l :
  pool_inv w l →
  ∃ now w2 w', time w = Ret (now, w2) ∧ keepalive_section w = Ret ((), w') ∧
    obj w' = set_pool_mutex false (obj w2) ∧ pool_rel w' (keepalive_entry (obj w) now <$> l).
Proof.
  intros Hinv. unfold keepalive_section.
  destruct (time_run w) as (now & w2 & E & Hw2). mstep E; rewrite !M_bind_gets.
  pose proof (pool_inv_clock _ _ _ Hw2 Hinv) as Hinv2.
  pose proof (owns_fuel _ _ _ (pr_owns _ _ Hinv2)) as Hfu.
  destruct (keepalive_loop_run (walk_fuel w2) now _ [] l w2 Hinv2 (owns_chain _ _ _ (pr_owns _ _ Hinv2)) ltac:(lia))
    as (w' & E' & Hinv' & Hobj).
  mstep E'. exists now, w2. eexists. split; [done|]. split; [done|]. split; [by cbn; rewrite Hobj|].
  split; [|done]. apply pool_inv_mutex. cbn [app] in Hinv'.
  assert (keepalive_entry (obj w2) now <$> l = keepalive_entry (obj w) now <$> l) as <-; [|done].
  apply list_fmap_ext. intros _ e _. unfold keepalive_entry.
  by rewrite (keepalive_one_pool (obj w) (obj w2)) by (by destruct Hw2 as (? & ? & ->)).
Qed.

Lemma keepalive_run w l :
  pool_rel w l → keepalive_running (obj w) = true →
  ∃ now w', keepalive_round w = Ret ((), w') ∧ time w = Ret (now, upd_obj (λ _, obj w') w) ∧
    pool_rel w' (keepalive_entry (obj w) now <$> l).
Proof.
  intros [Hinv Hm] Hrun. unfold keepalive_round. rewrite M_bind_gets, Hrun. cbn [negb].
  mstep (pool_lock_run w Hm).
  destruct (keepalive_section_run _ l (pool_inv_mutex true w l Hinv)) as (now & w2 & w' & E & E' & Hobj & Hr).
  exists now, w'. split_and!; [done| |].
  - rewrite Hobj. unfold time in *. cbn in E. destruct w as [[] ???]. cbn in *. subst.
    destruct ticks0; by injection E as <- <-.
  - exact Hr.
Qed.

(** ** Destruction *)

(** The nodes still to be destroyed, with their connections. *)
Lemma destroy_loop_run n p l w :
  owns w p l → conn_ids l ≡ₚ Some <$> (map_to_list (live (obj w))).*1 →
  map_Forall (λ _ c, conn_unused c) (live (obj w)) → (length l ≤ n)%nat →
  ∃ w', destroy_loop n p w = Ret ((), w') ∧ cells w' = ∅ ∧ live (obj w') = ∅.
Proof.
  assert (∀ w p, owns w p [] → conn_ids [] ≡ₚ Some <$> (map_to_list (live (obj w))).*1 →
    p = None ∧ cells w = ∅ ∧ live (obj w) = ∅) as Hnil.
  { intros w0 p0 Ho Hi. split_and!; [by pose proof (owns_chain _ _ _ Ho)| |].
    - apply map_empty. intros a. apply eq_None_not_Some. by intros ?%(owns_all _ _ _ Ho)%elem_of_nil.
    - apply map_to_list_empty_iff. apply Permutation_nil_l in Hi.
      by destruct (map_to_list (live (obj w0))). }
  revert p l w. induction n as [|n IH]; intros p l w Ho Hids Hun Hn;
    (destruct l as [|[a x] l]; [destruct (Hnil _ _ Ho Hids) as (-> & ? & ?); by exists w|]);
    [cbn in Hn; lia|].
  destruct (owns_tail _ _ _ _ _ Ho) as (r & -> & Hr & Ho'). cbn [destroy_loop]. cbn in Hn.
  mstep (read_cell_run _ _ _ Hr). cbn [next].
  cbn in Hids. assert (connection x ∈ Some <$> (map_to_list (live (obj w))).*1) as Hin
    by (rewrite <- Hids; left).
  apply list_elem_of_fmap in Hin as (c & Hc & ([c' v] & -> & Hv)%list_elem_of_fmap). cbn in Hc.
  apply elem_of_map_to_list in Hv.
  set (w1 := upd_cells (delete a) (upd_obj (set_live (delete c' (live (obj w))) (fresh_conn (obj w))) w)).
  rewrite (M_bind_Ret _ _ w () w1).
  2:{ unfold grpc_pooled_connection_destroy. mstep (read_cell_run _ _ _ Hr).
      cbn [data]. rewrite Hc.
      mstep (destroy_connection_run c' v w Hv (Hun _ _ Hv)).
      by rewrite (free_cell_run a (mk_cell x r)). }
  apply (IH r l w1); [| |by apply map_Forall_delete|lia].
  - by apply (owns_obj (set_live (delete c' (live (obj w))) (fresh_conn (obj w)))) in Ho'.
  - cbn. rewrite Hc, <- (map_keys_delete _ _ _ Hv) in Hids. cbn in Hids. by apply Permutation_cons_inv in Hids.
Qed.

Lemma pool_destroy_run w l :
  pool_rel w l → keepalive_thread (obj w) = true →
  grpc_connection_pool_destroy (Some w) = Ret (Some (∅, ∅)).
Proof.
  intros [Hinv Hm] Ht. unfold grpc_connection_pool_destroy. rewrite M_bind_modify, M_bind_gets.
  set (w0 := upd_obj _ w). change (keepalive_thread (obj w0)) with (keepalive_thread (obj w)).
  rewrite Ht. cbn [negb]. assert (pool_mutex (obj w0) = false) as Hm0 by done.
  mstep (pool_lock_run w0 Hm0); rewrite !M_bind_gets. set (w1 := upd_obj _ w0).
  destruct Hinv. pose proof (owns_fuel _ _ _ pr_owns0) as Hfu.
  destruct (destroy_loop_run (walk_fuel w1) (connections (obj w1)) l w1) as (w' & E & Hc & Hl).
  - by apply (owns_obj (λ p, set_pool_mutex true (set_keepalive_running false p))) in pr_owns0.
  - done.
  - done.
  - unfold walk_fuel in *. cbn. lia.
  - mstep E. unfold pool_unlock, modify. cbn. by rewrite Hc, Hl.
Qed.

(** ** The pool as its users see it *)

(** An operation of the pool, or a round of its keep-alive thread, that does not evict:
    a [get] finds a connection, or room, or nothing idle. *)
Inductive pool_step : pool_state → pool_state → Prop :=
| step_get tgt r w w' l :
    pool_rel w l → Forall (λ e, active_calls e.2 < 2 ^ 31 - 1) l →
    (is_Some (List.find (serves tgt) l) ∨ zlen l < max_connections (obj w) ∨
     Forall (λ e, active_calls e.2 ≠ 0) l) →
    grpc_connection_pool_get (Some tgt) (Some w) = Ret (r, Some w') → pool_step w w'
| step_return tgt c r w w' :
    grpc_connection_pool_return (Some tgt) (Some c) (Some w) = Ret (r, Some w') → pool_step w w'
| step_cleanup w w' :
    grpc_connection_pool_cleanup_idle (Some w) = Ret ((), Some w') → pool_step w w'
| step_set_keepalive i t b r w w' :
    grpc_connection_pool_set_keepalive i t b (Some w) = Ret (r, Some w') → pool_step w w'
| step_keepalive w w' : keepalive_round w = Ret ((), w') → pool_step w w'.

Lemma pool_step_rel w w' : pool_step w w' → (∃ l, pool_rel w l) → ∃ l, pool_rel w' l.
Proof.
  intros Hstep [l Hl]. destruct Hstep as [tgt r w w' l' Hl' Hact Hcase E|tgt c r w w' E|w w' E|i t b r w w' E|w w' E].
  - destruct (List.find (serves tgt) l') as [[a x]|] eqn:Ef.
    + destruct (find_split _ _ _ Ef) as (l1 & l2 & -> & _ & _).
      apply Forall_app in Hact as [_ [Hx _]%Forall_cons].
      destruct (get_hit_run tgt w l1 a x l2 Hl' Ef Hx) as (t & w1 & E' & Hr).
      rewrite E in E'. injection E' as _ <-. by eexists.
    + destruct Hcase as [[? ?]|Hcase]; [done|].
      destruct (get_miss_run tgt w l' Hl' Ef Hcase) as (r' & w1 & E' & _ & Hr).
      rewrite E in E'. injection E' as <- <-. destruct r as [c|]; [|by eexists].
      destruct Hr as (x & _ & ?). by eexists.
  - destruct (return_run tgt c w l Hl) as (w1 & E' & Hr). rewrite E in E'. injection E' as _ <-.
    destruct (List.find _ l) as [[a x]|]; [|by eexists]. destruct Hr as (t & l1 & l2 & _ & ?). by eexists.
  - destruct (cleanup_run w l Hl) as (w1 & E' & ?). rewrite E in E'. injection E' as <-. by eexists.
  - destruct Hl as [Hinv Hm]. unfold grpc_connection_pool_set_keepalive in E.
    apply (nullable_inv (-1)) in E.
    rewrite (M_bind_Ret _ _ _ _ _ (pool_lock_run w Hm)) in E. unfold set_keepalive_section in E. rewrite M_bind_modify in E.
    unfold pool_unlock in E. rewrite M_bind_modify in E. injection E as _ <-.
    exists l. split; [|done]. by apply (pool_inv_frame w).
  - destruct (keepalive_running (obj w)) eqn:Hrun.
    + destruct (keepalive_run w l Hl Hrun) as (now & w1 & E' & _ & ?). rewrite E in E'.
      injection E' as <-. by eexists.
    + unfold keepalive_round in E. rewrite M_bind_gets, Hrun in E. injection E as <-. by eexists.
Qed.

Lemma create_run max idle thread now tk al p al' :
  grpc_connection_pool_create max idle thread now tk al = Ret (Some p, al') →
  max < 2 ^ 64 → pool_rel (mk_heap p ∅ 1 al') [] ∧ keepalive_thread p = thread.
Proof.
  intros E Hmax. unfold grpc_connection_pool_create in E. apply M_bind_inv in E as (ok & al1 & _ & E).
  destruct ok; [|done]. injection E as <- <-. split; [|done]. split; [|done].
  split; cbn; try done.
  - apply owns_nil.
  - destruct (Z.ltb_spec 0 max); lia.
  - destruct (Z.ltb_spec 0 max); lia.
  - intros c [? ?]. done.
Qed.

(** No operation that does not evict faults on the pool [w] with the entries [l]. *)
Definition pool_progress w l : Prop :=
  (∀ tgt, Forall (λ e, active_calls e.2 < 2 ^ 31 - 1) l →
     is_Some (List.find (serves tgt) l) ∨ zlen l < max_connections (obj w) ∨
     Forall (λ e, active_calls e.2 ≠ 0) l →
     ∃ r w', grpc_connection_pool_get (Some tgt) (Some w) = Ret (r, Some w')) ∧
  (∀ tgt c, ∃ r w', grpc_connection_pool_return (Some tgt) (Some c) (Some w) = Ret (r, Some w')) ∧
  (∃ w', grpc_connection_pool_cleanup_idle (Some w) = Ret ((), Some w')) ∧
  (∃ w', keepalive_round w = Ret ((), w')).

Lemma pool_rel_progress w l : pool_rel w l → pool_progress w l.
Proof.
  intros Hl. split_and!.
  - intros tgt Hact Hcase. destruct (List.find (serves tgt) l) as [[a x]|] eqn:Ef.
    + destruct (find_split _ _ _ Ef) as (l1 & l2 & -> & _ & _).
      apply Forall_app in Hact as [_ [Hx _]%Forall_cons].
      destruct (get_hit_run tgt w l1 a x l2 Hl Ef Hx) as (t & w1 & E & _). by do 2 eexists.
    + destruct Hcase as [[? ?]|Hcase]; [done|].
      destruct (get_miss_run tgt w l Hl Ef Hcase) as (r & w1 & E & _). by do 2 eexists.
  - intros tgt c. destruct (return_run tgt c w l Hl) as (w1 & E & _). by do 2 eexists.
  - destruct (cleanup_run w l Hl) as (w1 & E & _). by eexists.
  - destruct (keepalive_running (obj w)) eqn:Hrun.
    + destruct (keepalive_run w l Hl Hrun) as (now & w1 & E & _). by eexists.
    + unfold keepalive_round. rewrite M_bind_gets, Hrun. by eexists.
Qed.


Lemma find_lent tgt c l a x :
  NoDup (conn_ids l) → (a, x) ∈ l → connection x = Some c → strcmp_eq (target x) tgt = true →
  List.find (lent tgt c) l = Some (a, x).
Proof.
  intros Hnd Hin Hc Ht. induction l as [|[b y] l IH]; [by apply elem_of_nil in Hin|].
  cbn in Hnd |- *. apply NoDup_cons in Hnd as [Hni Hnd]. apply elem_of_cons in Hin as [[= <- <-]|Hin].
  - unfold lent. cbn. by rewrite bool_decide_eq_true_2, Ht.
  - unfold lent at 1. cbn. case_bool_decide as Hy; [|by apply IH].
    exfalso. apply Hni. rewrite Hy, <- Hc. by apply (list_elem_of_fmap_2 (λ e : entry, connection e.2) l (a, x)).
Qed.

Lemma conn_ids_NoDup w l : pool_inv w l → NoDup (conn_ids l).
Proof.
  intros Hinv. rewrite (pr_ids _ _ Hinv). apply NoDup_fmap_2; [by intros ? ? [=]|].
  apply NoDup_fst_map_to_list.
Qed.

(** An entry has one place in a list. *)
Lemma split_unique k1 k2 l1 a x l2 :
  NoDup (l1 ++ (a, x) :: l2).*1 → l1 ++ (a, x) :: l2 = k1 ++ (a, x) :: k2 → k1 = l1 ∧ k2 = l2.
Proof.
  intros Hnd. revert k1. induction l1 as [|e l1 IH]; intros [|e' k1] Ek; cbn in *.
  - by injection Ek.
  - injection Ek as <- Ek. apply NoDup_cons in Hnd as [[] _]. rewrite Ek, fmap_app. cbn. set_solver.
  - injection Ek as -> Ek. apply NoDup_cons in Hnd as [[] _]. rewrite fmap_app. cbn. set_solver.
  - injection Ek as <- Ek. apply NoDup_cons in Hnd as [_ Hnd]. by destruct (IH Hnd k1 Ek) as [-> ->].
Qed.

(** A get for a target the pool has a healthy connection for returns the first such
    connection, live, without creating one; returning it afterwards succeeds and leaves the
    pool as it was but for the time of last use of that entry. *)
Theorem grpc_connection_pool_get_return tgt w l1 a x l2 :
  pool_rel w (l1 ++ (a, x) :: l2) → List.find (serves tgt) (l1 ++ (a, x) :: l2) = Some (a, x) →
  active_calls x < 2 ^ 31 - 1 →
  ∃ c w1 w2 t, grpc_connection_pool_get (Some tgt) (Some w) = Ret (Some c, Some w1) ∧
    connection x = Some c ∧ is_Some (live (obj w) !! c) ∧
    grpc_connection_pool_return (Some tgt) (Some c) (Some w1) = Ret (0, Some w2) ∧
    pool_rel w2 (l1 ++ (a, set_last_used t x) :: l2).
Proof.
  intros Hr Hf Hx. destruct (get_hit_run tgt w l1 a x l2 Hr Hf Hx) as (t & w1 & E & Hr1).
  destruct (pool_entry _ _ _ _ _ (proj1 Hr)) as (c & v & _ & Hc & Hv & _ & _).
  rewrite Hc in E. destruct (return_run tgt c w1 _ Hr1) as (w2 & E2 & Hr2).
  assert (serves tgt (a, x) = true) as Hs by (by apply find_some in Hf as [_ ?]).
  apply andb_true_iff in Hs as [_ Hs]. cbn [snd] in Hs.
  assert (NoDup (conn_ids (l1 ++ (a, used t x) :: l2))) as Hnd by (eapply conn_ids_NoDup, Hr1).
  assert (List.find (lent tgt c) (l1 ++ (a, used t x) :: l2) = Some (a, used t x)) as Hl.
  { apply find_lent; [done| |done|done]. apply elem_of_app. right. by left. }
  rewrite Hl in E2, Hr2. destruct Hr2 as (t2 & k1 & k2 & Ek & Hr2).
  exists c, w1, w2, t2. split_and!; [done|done|by eexists|done|].
  destruct (split_unique k1 k2 _ _ _ _ (owns_nodup _ _ _ (pr_owns _ _ (proj1 Hr1))) Ek) as [-> ->].
  assert (returned t2 (used t x) = set_last_used t2 x) as <-; [|done].
  pose proof (pr_active _ _ (proj1 Hr)) as Ha. apply Forall_app in Ha as [_ [Ha _]%Forall_cons]. cbn in Ha.
  unfold returned, used, set_active_calls, set_last_used. cbn. f_equal. lia.
Qed.

(** C28. A get that evicts the oldest idle entry of a full pool frees its node and leaves it
    linked: a following get for another target that walks the list reads the freed node. *)
Theorem grpc_connection_pool_get_evicts_dangling tgt tgt2 w l :
  pool_rel w l → List.find (serves tgt) l = None → max_connections (obj w) ≤ zlen l →
  ¬ Forall (λ e, active_calls e.2 ≠ 0) l → cell_answers w = [] →
  Forall (λ e, serves tgt2 e = false) l → c_str tgt ≠ c_str tgt2 →
  ∃ c w', grpc_connection_pool_get (Some tgt) (Some w) = Ret (Some c, Some w') ∧
    grpc_connection_pool_get (Some tgt2) (Some w') = Fault UseAfterFree.
Proof.
  intros Hr Hf Hfull Hidle Hal Hno Hne.
  destruct (get_evicts tgt w l Hr Hf Hfull Hidle Hal) as (c & w' & l1 & a & l2 & y & x & E & -> & Hx & Hd).
  exists c, w'. split; [done|]. destruct Hd as (Hm & Hch & Ha & Hnd).
  unfold grpc_connection_pool_get, nullable, get_section.
  mstep (pool_lock_run w' Hm); rewrite !M_bind_gets.
  set (w1 := upd_obj _ w').
  rewrite (M_bind_Fault _ _ w1 UseAfterFree); [done|].
  apply (find_healthy_dangling (walk_fuel w1) tgt2 _ ((fresh_cell w, x) :: l1) a w1 Hch); [done| |].
  - apply Forall_app in Hno as [Hno _]. constructor; [|done].
    destruct Hx as (_ & Ht & _ & _). unfold serves, strcmp_eq. cbn. rewrite Ht.
    rewrite c_str_terminated by apply c_str_nul_free. rewrite bool_decide_eq_false_2 by done.
    by rewrite andb_false_r.
  - pose proof (chain_length _ _ _ _ Hnd Hch). unfold walk_fuel. cbn in *. lia.
Qed.

(** What a round makes an entry: stale when it has no calls and its time is over. *)
Definition timed_out (p : pool) (now : Z) (x : grpc_pooled_connection) : bool :=
  bool_decide (active_calls x = 0 ∧
    (is_healthy x = false ∨ idle_timeout_ms p ≤ (now - last_used x) * 1000)).

Lemma keepalive_stale (p : pool) now e :
  0 < idle_timeout_ms p → stale (keepalive_entry p now e) = timed_out p now e.2.
Proof.
  intros Hidle. destruct e as [a x]. unfold stale, keepalive_entry, timed_out. cbn [snd].
  destruct (keepalive_one_same p now x) as [_ ->]. unfold keepalive_one.
  destruct (Z.eqb_spec (active_calls x) 0) as [Hx|Hx]; [|by rewrite bool_decide_eq_false_2 by tauto].
  rewrite Hx. cbn [andb Z.eqb]. cbn zeta.
  match goal with |- context [(active_calls ?c =? 0) && _] => set (y := c) end.
  assert (active_calls y = 0 ∧ is_healthy y = is_healthy x ∧ last_used y = last_used x) as (Hy1 & Hy2 & Hy3)
    by (unfold y; repeat match goal with |- context [if ?b then _ else _] => destruct b end; done).
  rewrite Hy1, Hy3. destruct (Z.ltb_spec 0 (idle_timeout_ms p)); [|lia]. cbn [Z.eqb andb].
  destruct (Z.leb_spec (idle_timeout_ms p) ((now - last_used x) * 1000)); cbn.
  - by rewrite bool_decide_eq_true_2 by auto.
  - rewrite Hy2. destruct (is_healthy x); cbn; [rewrite bool_decide_eq_false_2|rewrite bool_decide_eq_true_2];
      [done|intros [_ [|]]; [done|lia]|done|auto].
Qed.

(** A keep-alive round followed by a clean-up removes exactly the entries that are idle
    and timed out or were unhealthy, and keeps every other entry with its connection and its
    number of active calls. *)
Theorem grpc_connection_pool_drops_idle w l :
  pool_rel w l → keepalive_running (obj w) = true → 0 < idle_timeout_ms (obj w) →
  ∃ now w1 w2 l2, keepalive_round w = Ret ((), w1) ∧
    grpc_connection_pool_cleanup_idle (Some w1) = Ret ((), Some w2) ∧ pool_rel w2 l2 ∧
    ∀ e, e ∈ l →
      if timed_out (obj w) now e.2
      then e.1 ∉ l2.*1
      else ∃ x, (e.1, x) ∈ l2 ∧ connection x = connection e.2 ∧ active_calls x = active_calls e.2.
Proof.
  intros Hr Hrun Hidle. destruct (keepalive_run w l Hr Hrun) as (now & w1 & E & _ & Hr1).
  destruct (cleanup_run w1 _ Hr1) as (w2 & E2 & Hr2).
  exists now, w1, w2, (fresh_entries (keepalive_entry (obj w) now <$> l)). split_and!; [done..|].
  intros e He. set (e' := keepalive_entry (obj w) now e).
  destruct (keepalive_one_same (obj w) now e.2) as [H1 H2].
  rewrite <- (keepalive_stale (obj w) now e Hidle). fold e'. destruct (stale e') eqn:Es.
  - intros ([b y] & Hb & Hin)%list_elem_of_fmap. cbn in Hb. unfold fresh_entries in Hin.
    apply list_elem_of_filter in Hin as [Hst Hin].
    apply list_elem_of_fmap in Hin as (d & Hd & Hdl).
    assert (d = e) as ->; [|by rewrite Hd in Hst; fold e' in Hst; congruence].
    injection Hd as Hd _. 
    pose proof (owns_nodup _ _ _ (pr_owns _ _ (proj1 Hr))) as Hnd.
    apply list_elem_of_lookup in Hdl as [i Hi]. apply list_elem_of_lookup in He as [j Hj].
    assert (i = j) as ->; [|congruence].
    eapply NoDup_lookup; [exact Hnd| |]; rewrite list_lookup_fmap; [by rewrite Hi|rewrite Hj; cbn; congruence].
  - exists e'.2. split; [|done]. unfold fresh_entries. apply list_elem_of_filter. split; [by destruct e'|].
    apply list_elem_of_fmap. by exists e.
Qed.
End pool_proofs.

(** ** Witnesses, with the transport's connections *)

Abbreviation http_pool := (heap_of (grpc_connection_pool world) grpc_pooled_connection).

Definition pool_start (max : Z) (tk : list Z) : http_pool :=
  mk_heap (mk_pool None (if 0 <? max then max else 10) 0 30000 (mk_keepalive 30000 10000 false)
    false true true ∅ 1 1000 tk) ∅ 1 [].

Lemma pool_start_create max tk :
  grpc_connection_pool_create (C := world) max 0 true 1000 tk [] =
    Ret (Some (obj (pool_start max tk)), []).
Proof. done. Qed.

Definition pool_after {A} (w : http_pool) (m : M (option http_pool) A) : http_pool :=
  match m (Some w) with Ret (_, Some w') => w' | _ => w end.

Definition one_entry : http_pool := pool_after (pool_start 1 []) (grpc_connection_pool_get (Some [65; 0])).


Definition idle_entry (tk : list Z) : http_pool :=
  pool_after (pool_after (pool_start 1 tk) (grpc_connection_pool_get (Some [65; 0])))
    (grpc_connection_pool_return (Some [65; 0]) (Some 1%positive)).

Lemma one_entry_rel : ∃ x, new_entry [65; 0] 1 x ∧ pool_rel one_entry [(1%positive, x)].
Proof.
  destruct (create_run 1 0 true 1000 [] [] _ _ (pool_start_create 1 []) ltac:(lia)) as [Hp _].
  destruct (get_miss_run [65; 0] _ _ Hp eq_refl (or_introl eq_refl)) as (r & w' & E & _ & Hr).
  assert (grpc_connection_pool_get (Some [65; 0]) (Some (pool_start 1 [])) =
          Ret (Some 1%positive, Some one_entry)) as E' by (vm_compute; reflexivity).
  assert (Ret (r, Some w') = Ret (Some 1%positive, Some one_entry)) as Er by (by rewrite <- E, <- E').
  injection Er as -> ->. destruct Hr as (x & Hx & Hr). by exists x.
Qed.

Lemma grpc_connection_pool_get_return_witness :
  ∃ w1 w2, grpc_connection_pool_get (Some [65; 0]) (Some one_entry) = Ret (Some 1%positive, Some w1) ∧
    grpc_connection_pool_return (Some [65; 0]) (Some 1%positive) (Some w1) = Ret (0, Some w2).
Proof.
  destruct one_entry_rel as (x & (Hc & Ht & Ha & Hh) & Hr).
  destruct (grpc_connection_pool_get_return [65; 0] one_entry [] 1 x [] Hr) as (c & w1 & w2 & t & E1 & Hc' & _ & E2 & _).
  - unfold serves. cbn. by rewrite Hh, Ht.
  - rewrite Ha. lia.
  - rewrite Hc in Hc'. injection Hc' as <-. exists w1, w2. split; [exact E1|exact E2].
Defined.

(** The pool of one connection, idle, at the times [tk]. *)
Lemma idle_entry_rel tk :
  tk = [] ∨ tk = [0; 0; 0; 60] →
  ∃ x, pool_rel (idle_entry tk) [(1%positive, x)] ∧ target x = [65; 0] ∧ active_calls x = 0 ∧
    is_healthy x = true ∧ last_used x = 1000.
Proof.
  intros Htk.
  destruct (create_run 1 0 true 1000 tk [] _ _ (pool_start_create 1 tk) ltac:(lia)) as [Hp _].
  destruct (get_miss_run [65; 0] _ _ Hp eq_refl (or_introl eq_refl)) as (r & w' & E & _ & Hr).
  set (w1 := pool_after (pool_start 1 tk) (grpc_connection_pool_get (Some [65; 0]))).
  assert (grpc_connection_pool_get (Some [65; 0]) (Some (pool_start 1 tk)) = Ret (Some 1%positive, Some w1)) as E'
    by (destruct Htk as [-> | ->]; vm_compute; reflexivity).
  assert (Ret (r, Some w') = Ret (Some 1%positive, Some w1)) as Er by (by rewrite <- E, <- E').
  injection Er as -> ->. destruct Hr as (x & (Hc & Ht & Ha & Hh) & Hr).
  assert (pool_rel w1 [(1%positive, x)]) as Hr1 by exact Hr.
  destruct (return_run [65; 0] 1 w1 _ Hr1) as (w2 & E2 & Hr2).
  assert (List.find (lent [65; 0] 1) [(1%positive, x)] = Some (1%positive, x)) as Ef.
  { apply find_lent; [apply NoDup_singleton|by left|done|by rewrite Ht]. }
  rewrite Ef in E2, Hr2.
  destruct Hr2 as (t & l1 & l2 & El & Hr2).
  destruct (split_unique l1 l2 [] 1 x [] (NoDup_singleton _) El) as [-> ->].
  assert (idle_entry tk = w2) as Ew.
  { unfold idle_entry. fold w1. unfold pool_after. by rewrite E2. }
  rewrite Ew. exists (returned t x). split; [done|]. rewrite <- Ew in Hr2.
  pose proof (owns_chain _ _ _ (pr_owns _ _ (proj1 Hr2))) as (_ & r & Hcell & _).
  assert (∃ y, cells (idle_entry tk) !! 1%positive = Some (mk_cell y None) ∧ last_used y = 1000) as (y & Hy & Hy').
  { destruct Htk as [-> | ->]; eexists; (split; [vm_compute; reflexivity|reflexivity]). }
  rewrite Hcell in Hy. injection Hy as <- _.
  split_and!; [done|cbn; by rewrite Ha|done|done].
Qed.

Lemma grpc_connection_pool_get_evicts_witness :
  ∃ c w', grpc_connection_pool_get (Some [66; 0]) (Some (idle_entry [])) = Ret (Some c, Some w') ∧
    grpc_connection_pool_get (Some [67; 0]) (Some w') = Fault UseAfterFree.
Proof.
  destruct (idle_entry_rel [] (or_introl eq_refl)) as (x & Hr & Ht & Ha & Hh & _).
  apply (grpc_connection_pool_get_evicts_dangling [66; 0] [67; 0] (idle_entry []) _ Hr).
  - cbn. unfold serves. cbn. by rewrite Hh, Ht.
  - vm_compute. discriminate.
  - intros [H _]%Forall_cons. cbn in H. by rewrite Ha in H.
  - vm_compute. reflexivity.
  - repeat constructor. unfold serves. cbn. by rewrite Hh, Ht.
  - discriminate.
Defined.

Lemma grpc_connection_pool_drops_idle_witness :
  ∃ w1 w2 l2, keepalive_round (idle_entry [0; 0; 0; 60]) = Ret ((), w1) ∧
    grpc_connection_pool_cleanup_idle (Some w1) = Ret ((), Some w2) ∧ pool_rel w2 l2.
Proof.
  destruct (idle_entry_rel [0; 0; 0; 60] (or_intror eq_refl)) as (x & Hr & Ht & Ha & Hh & _).
  destruct (grpc_connection_pool_drops_idle (idle_entry [0; 0; 0; 60]) _ Hr) as (now & w1 & w2 & l2 & E1 & E2 & Hr2 & _).
  - vm_compute. reflexivity.
  - vm_compute. reflexivity.
  - exists w1, w2, l2. split; [exact E1|]. split; [exact E2|exact Hr2].
Defined.
