(* ===== verification/Pools.v ===== *)
(** * A connection pool under threads (src/src/connection_pool.c)

    Any number of threads that take connections from a pool and give them back, clean it up and
    configure it, next to the keep-alive thread of the pool and the thread that stops it: the
    instance of [Monitors] for the functions of [ConnectionPool]. *)

From Stdlib Require Import ZArith Lia.
From stdpp Require Import base tactics list option strings gmap relations.
From S2P Require Import Prelude Lists CStrings Metadata Transport ConnectionPool Monitors.

#[local] Open Scope Z_scope.
#[local] Set Warnings "-clear-no-such-hyp".

Section pools.
Context {C : Type} `{!Connection C}.

Abbreviation pool_state := (heap_of (grpc_connection_pool C) grpc_pooled_connection).
Abbreviation entry := (positive * grpc_pooled_connection)%type.
Implicit Types (w : pool_state) (l : list entry).

(** ** The threads *)

#[export] Instance pool_monitor : Monitor pool_state :=
  {| locked := λ w, pool_mutex (obj w); acquire := upd_obj (set_pool_mutex true) |}.

(** A connection that a thread has got, with the target it asked for. *)
Definition loan : Type := list Z * positive.

(** A user with the connections it holds; the keep-alive thread before the test of its flag and
    at its end; the thread that destroys the pool, which stops that one first. *)
Inductive pool_thread :=
| User (held : list loan)
| KeepaliveTest
| KeepaliveEnded
| Owner (stopping : bool).

Inductive pool_call :=
| CallGet (tgt : list Z) (held : list loan)
| CallReturn (ln : loan) (held : list loan)
| CallCleanup (held : list loan)
| CallSetKeepalive (interval timeout : Z) (permit : bool) (held : list loan)
| CallKeepalive.

(** Between two calls: a user begins a call, and gives back what it holds; the keep-alive thread
    reads its flag, which the owner clears, without the mutex. *)
Inductive pool_outside : pool_state → pool_thread → pool_state → pool_thread + pool_call → Prop :=
| out_get tgt w h : pool_outside w (User h) w (inr (CallGet tgt h))
| out_return ln w h1 h2 : pool_outside w (User (h1 ++ ln :: h2)) w (inr (CallReturn ln (h1 ++ h2)))
| out_cleanup w h : pool_outside w (User h) w (inr (CallCleanup h))
| out_set_keepalive i t b w h : pool_outside w (User h) w (inr (CallSetKeepalive i t b h))
| out_test w :
    pool_outside w KeepaliveTest w
      (if keepalive_running (obj w) then inr CallKeepalive else inl KeepaliveEnded)
| out_stop w :
    pool_outside w (Owner false) (upd_obj (set_keepalive_running false) w) (inl (Owner true)).

(** Behind the mutex. *)
Definition pool_critical (c : pool_call) : M pool_state pool_thread :=
  match c with
  | CallGet tgt h => r ← get_section tgt; mret (User (match r with Some a => (tgt, a) :: h | None => h end))
  | CallReturn ln h => _ ← return_section ln.1 ln.2; mret (User h)
  | CallCleanup h => _ ← cleanup_section; mret (User h)
  | CallSetKeepalive i t b h => _ ← set_keepalive_section i t b; mret (User h)
  | CallKeepalive => _ ← keepalive_section; mret KeepaliveTest
  end.

(** What is asked of a [get], as in [pool_step]: it does not evict, and the counters of calls have
    room. *)
Definition pool_admits (c : pool_call) w : Prop :=
  match c with
  | CallGet tgt _ => ∃ l, chain (cells w) (connections (obj w)) l None ∧
      Forall (λ e, active_calls e.2 < 2 ^ 31 - 1) l ∧
      (is_Some (List.find (serves tgt) l) ∨ zlen l < max_connections (obj w) ∨
       Forall (λ e, active_calls e.2 ≠ 0) l)
  | _ => True
  end.

Abbreviation pool_pc := (thread_pc pool_thread pool_call).
Abbreviation pool_team := (team pool_state pool_thread pool_call).
Abbreviation pool_team_step := (team_step pool_outside pool_critical pool_admits).
Abbreviation pool_mutex_step := (mutex_step (K := pool_thread) pool_critical pool_admits).

(** A pool that has just been created, with [n] users. *)
Definition pool_team_start (n : nat) w : pool_team :=
  mk_team w (replicate n (Outside (User [])) ++
    (if keepalive_thread (obj w) then [Outside KeepaliveTest] else []) ++ [Outside (Owner false)]).

(** The connections of a thread: it holds one until the [return] of it is done. *)
Definition loans_of (p : pool_pc) : list loan :=
  match p with
  | Outside (User h) => h
  | Entering c | Within c =>
      match c with
      | CallGet _ h | CallCleanup h | CallSetKeepalive _ _ _ h => h
      | CallReturn ln h => ln :: h
      | CallKeepalive => []
      end
  | _ => []
  end.
Definition loans (ths : list pool_pc) : list loan := ths ≫= loans_of.

(** ** Loans and entries *)

Definition of_entry (e : entry) (h : loan) : bool := bool_decide (connection e.2 = Some h.2).

(** The call counter of an entry is the number of its loans, and each loan is one of an entry for
    the target. *)
Record lent_ok l (hs : list loan) : Prop := {
  lo_count : ∀ e, e ∈ l → active_calls e.2 = Z.of_nat (count_if (of_entry e) hs);
  lo_entry : ∀ h, h ∈ hs → ∃ e, e ∈ l ∧ connection e.2 = Some h.2 ∧ strcmp_eq (target e.2) h.1 = true
}.

#[local] Instance lent_perm : Proper ((≡ₚ) ==> (≡ₚ) ==> impl) lent_ok.
Proof.
  intros l l' Hl hs hs' Hp [Hc He]. split.
  - intros e. rewrite <- Hl, <- Hp. apply Hc.
  - intros h. rewrite <- Hp. intros (e & Hin & ?)%He. exists e. by rewrite <- Hl.
Qed.

(** The entries change, but for their connections, targets and counters. *)
Lemma lent_map (f : entry → entry) l hs :
  (∀ e, connection (f e).2 = connection e.2 ∧ active_calls (f e).2 = active_calls e.2 ∧ target (f e).2 = target e.2) →
  lent_ok l hs → lent_ok (f <$> l) hs.
Proof.
  intros Hf [Hc He]. split.
  - intros ? (e & -> & Hin)%list_elem_of_fmap. destruct (Hf e) as (Hc1 & -> & _). unfold of_entry. rewrite Hc1. by apply Hc.
  - intros h (e & Hin & H1 & H2)%He. destruct (Hf e) as (H3 & _ & H4). exists (f e). rewrite H3, H4.
    split; [|done]. by apply list_elem_of_fmap_2.
Qed.

(** One entry gets a new counter, in step with its loans. *)
Lemma lent_entry l1 a x y l2 hs hs' :
  NoDup (conn_ids (l1 ++ (a, x) :: l2)) → connection y = connection x → target y = target x →
  lent_ok (l1 ++ (a, x) :: l2) hs →
  (∀ e, connection e.2 ≠ connection x → count_if (of_entry e) hs' = count_if (of_entry e) hs) →
  active_calls y = Z.of_nat (count_if (of_entry (a, x)) hs') →
  (∀ h, h ∈ hs' → h ∈ hs ∨ (connection x = Some h.2 ∧ strcmp_eq (target x) h.1 = true)) →
  lent_ok (l1 ++ (a, y) :: l2) hs'.
Proof.
  intros Hnd Hy Ht Hl Hcnt Hay Hhs'. unfold conn_ids in Hnd. rewrite <- Permutation_middle in Hnd, Hl |- *.
  destruct Hl as [Hc He]. cbn in Hnd. apply NoDup_cons in Hnd as [Hni _]. split.
  - intros e [->|Hin]%elem_of_cons; [cbn; rewrite Hay; unfold of_entry; cbn; by rewrite Hy|].
    rewrite Hcnt; [apply Hc; by right|]. intros Heq. apply Hni. rewrite <- Heq.
    by apply (list_elem_of_fmap_2 (λ e : entry, connection e.2)).
  - intros h Hin%Hhs'. assert (connection x = Some h.2 ∧ strcmp_eq (target x) h.1 = true →
      ∃ e, e ∈ (a, y) :: l1 ++ l2 ∧ connection e.2 = Some h.2 ∧ strcmp_eq (target e.2) h.1 = true) as Hthis.
    { intros [? ?]. exists (a, y). split; [by left|]. cbn. by rewrite Hy, Ht. }
    destruct Hin as [(e & [->|Hin]%elem_of_cons & H1 & H2)%He|H]; [by apply Hthis| |by apply Hthis].
    exists e. split; [by right|done].
Qed.

Lemma lent_counter l1 a x l2 hs :
  lent_ok (l1 ++ (a, x) :: l2) hs → active_calls x = Z.of_nat (count_if (of_entry (a, x)) hs).
Proof. intros Hl. apply (lo_count _ _ Hl (a, x)). apply elem_of_app. right. by left. Qed.

(** A connection is lent once more, ... *)
Lemma lent_get tgt c t l1 a x l2 hs :
  NoDup (conn_ids (l1 ++ (a, x) :: l2)) → connection x = Some c → strcmp_eq (target x) tgt = true →
  lent_ok (l1 ++ (a, x) :: l2) hs → lent_ok (l1 ++ (a, used t x) :: l2) ((tgt, c) :: hs).
Proof.
  intros Hnd Hc Ht Hl. eapply lent_entry; [exact Hnd|done|done|exact Hl|..].
  - intros e He. rewrite count_cons. unfold of_entry at 1. cbn. rewrite bool_decide_eq_false_2 by congruence. lia.
  - pose proof (lent_counter _ _ _ _ _ Hl) as Hx. rewrite count_cons. unfold of_entry at 1. cbn. rewrite bool_decide_eq_true_2 by done. lia.
  - intros h [->|Hin]%elem_of_cons; [by right|by left].
Qed.

(** ... or for the first time, ... *)
Lemma lent_new tgt c a x l hs :
  NoDup (conn_ids ((a, x) :: l)) → new_entry tgt c x → lent_ok l hs → lent_ok ((a, x) :: l) ((tgt, c) :: hs).
Proof.
  intros [Hni _]%NoDup_cons (Hc & Ht & Ha & _) [Hcnt He]. cbn in Hni.
  assert (∀ e, e ∈ l → connection e.2 ≠ Some c) as Hne.
  { intros e Hin Heq. apply Hni. rewrite Hc, <- Heq. by apply (list_elem_of_fmap_2 (λ e : entry, connection e.2)). }
  split.
  - intros e [->|Hin]%elem_of_cons; rewrite count_cons; unfold of_entry at 1; cbn.
    + rewrite bool_decide_eq_true_2, Ha by done. rewrite count_none; [lia|].
      intros h (e & Hin & He1 & _)%He. apply bool_decide_eq_false_2. cbn. rewrite Hc. intros [= ->]. by apply (Hne e).
    + rewrite bool_decide_eq_false_2 by by apply Hne. rewrite (Hcnt e Hin). lia.
  - intros h [->|Hin]%elem_of_cons.
    + exists (a, x). split; [by left|]. split; [done|]. cbn. rewrite Ht. unfold strcmp_eq.
      by rewrite bool_decide_eq_true_2 by by apply c_str_terminated, c_str_nul_free.
    + destruct (He h Hin) as (e & ? & ?). exists e. split; [by right|done].
Qed.

(** ... and given back. *)
Lemma lent_return tgt c t l1 a x l2 hs :
  NoDup (conn_ids (l1 ++ (a, x) :: l2)) → connection x = Some c →
  lent_ok (l1 ++ (a, x) :: l2) ((tgt, c) :: hs) → lent_ok (l1 ++ (a, returned t x) :: l2) hs.
Proof.
  intros Hnd Hc Hl. eapply lent_entry; [exact Hnd|done|done|exact Hl|..].
  - intros e He. rewrite count_cons. unfold of_entry at 2. cbn. rewrite bool_decide_eq_false_2 by congruence. lia.
  - pose proof (lent_counter _ _ _ _ _ Hl) as Hx. rewrite count_cons in Hx. unfold of_entry at 1 in Hx.
    cbn in Hx |- *. rewrite bool_decide_eq_true_2 in Hx by done. lia.
  - intros h Hin. left. by right.
Qed.

(** Stale entries are not lent. *)
Lemma lent_cleanup l hs : lent_ok l hs → lent_ok (fresh_entries l) hs.
Proof.
  intros [Hc He]. unfold fresh_entries. split.
  - intros e [_ Hin]%list_elem_of_filter. by apply Hc.
  - intros h Hh. destruct (He h Hh) as (e & Hin & H1 & H2). exists e. split; [|done].
    apply list_elem_of_filter. split; [|done]. unfold stale. rewrite (Hc e Hin).
    destruct (Z.eqb_spec (Z.of_nat (count_if (of_entry e) hs)) 0) as [H0|]; [|done].
    assert (count_if (of_entry e) hs = 0%nat) as Hf by lia. apply (count_zero _ _ h) in Hf; [|done].
    unfold of_entry in Hf. by rewrite H1, bool_decide_eq_true_2 in Hf.
Qed.

Lemma lent_keepalive (p : grpc_connection_pool C) now l hs : lent_ok l hs → lent_ok (keepalive_entry p now <$> l) hs.
Proof.
  apply lent_map. intros e. cbn. destruct (keepalive_one_same p now e.2) as [-> ->]. split_and!; [done|done|].
  unfold keepalive_one. by repeat match goal with |- context [if ?b then _ else _] => destruct b end.
Qed.

(** The loan that is given back is found. *)
Lemma lent_found l h hs : lent_ok l (h :: hs) → is_Some (List.find (lent h.1 h.2) l).
Proof.
  intros [_ He]. destruct (He h ltac:(left)) as (e & Hin & H1 & H2).
  destruct (List.find (lent h.1 h.2) l) eqn:E; [by eexists|].
  pose proof (find_none _ _ E e (proj1 (list_elem_of_In _ _) Hin)) as Hf. unfold lent in Hf. by rewrite H1, H2, bool_decide_eq_true_2 in Hf.
Qed.

(** ** The laws of the monitor *)

Definition pool_team_inv w (ths : list pool_pc) : Prop := ∃ l, pool_inv w l ∧ lent_ok l (loans ths).

(** Behind the mutex a function does what is left of a whole call of it. *)
Lemma critical_run {A} (dflt : A) (m : M pool_state A) w r w' :
  pool_mutex (obj w) = true →
  nullable dflt (_ ← pool_lock; m) (Some (upd_obj (set_pool_mutex false) w)) = Ret (r, Some w') → m w = Ret (r, w').
Proof.
  intros Hm E%(nullable_inv dflt). unfold mbind, M_bind, pool_lock in E. cbn in E.
  assert (upd_obj (set_pool_mutex true) (upd_obj (set_pool_mutex false) w) = w) as Hw
    by (destruct w as [[] ???]; cbn in *; by subst). by rewrite Hw in E.
Qed.

Lemma get_critical tgt w l hs :
  pool_inv w l → lent_ok l hs → pool_mutex (obj w) = true → pool_admits (CallGet tgt []) w →
  ∃ r w' l', get_section tgt w = Ret (r, w') ∧ pool_rel w' l' ∧
    lent_ok l' (match r with Some c => [(tgt, c)] | None => [] end ++ hs).
Proof.
  intros Hinv Hl Hm (l0 & Hch & Hact & Hcase).
  pose proof (chain_functional _ _ _ _ Hch (owns_chain _ _ _ (pr_owns _ _ Hinv))) as ->.
  set (w0 := upd_obj (set_pool_mutex false) w).
  assert (pool_rel w0 l) as Hr by (split; [by apply pool_inv_mutex|done]).
  destruct (List.find (serves tgt) l) as [[a x]|] eqn:Ef.
  - destruct (find_split _ _ _ Ef) as (l1 & l2 & -> & Hs & _).
    destruct (pool_entry _ _ _ _ _ Hinv) as (c & _ & _ & Hc & _).
    apply andb_true_iff in Hs as [_ Hs]. cbn [snd] in Hs.
    pose proof Hact as [_ [Hx _]%Forall_cons]%Forall_app.
    destruct (get_hit_run tgt w0 l1 a x l2 Hr Ef Hx) as (t & w' & E & Hr').
    exists (connection x), w'. eexists. split; [by apply (critical_run None)|]. split; [exact Hr'|]. rewrite Hc.
    apply lent_get; [by eapply conn_ids_NoDup|done..].
  - destruct Hcase as [[? ?]|Hcase]; [done|].
    destruct (get_miss_run tgt w0 l Hr Ef Hcase) as (r & w' & E & _ & Hr'). exists r, w'.
    apply (critical_run None _ _ _ _ Hm) in E. destruct r as [c|]; [|by exists l].
    destruct Hr' as (x & Hx & Hr'). eexists. split; [done|]. split; [exact Hr'|].
    apply lent_new; [by eapply conn_ids_NoDup, Hr'|done|done].
Qed.

Lemma return_critical h w l hs :
  pool_inv w l → lent_ok l (h :: hs) → pool_mutex (obj w) = true →
  ∃ r w' l', return_section h.1 h.2 w = Ret (r, w') ∧ pool_rel w' l' ∧ lent_ok l' hs.
Proof.
  intros Hinv Hl Hm. set (w0 := upd_obj (set_pool_mutex false) w).
  assert (pool_rel w0 l) as Hr by (split; [by apply pool_inv_mutex|done]).
  destruct (return_run h.1 h.2 w0 l Hr) as (w' & E & Hr'). apply (critical_run (-1) _ _ _ _ Hm) in E.
  destruct (lent_found _ _ _ Hl) as [[a x] Ef]. rewrite Ef in E, Hr'. destruct Hr' as (t & l1 & l2 & -> & Hr').
  do 3 eexists. split; [exact E|]. split; [exact Hr'|].
  apply find_some in Ef as [_ Hlent]. unfold lent in Hlent. apply andb_true_iff in Hlent as [Hc%bool_decide_eq_true _].
  destruct h as [tgt c]. apply (lent_return tgt c); [by eapply conn_ids_NoDup|exact Hc|exact Hl].
Qed.

Lemma cleanup_critical w l :
  pool_inv w l → pool_mutex (obj w) = true →
  ∃ w', cleanup_section w = Ret ((), w') ∧ pool_rel w' (fresh_entries l).
Proof.
  intros Hinv Hm. set (w0 := upd_obj (set_pool_mutex false) w).
  destruct (cleanup_run w0 l) as (w' & E & Hr'); [by split; [apply pool_inv_mutex|]|].
  exists w'. split; [by apply (critical_run () _ _ _ _ Hm)|done].
Qed.

Lemma loans_cons p ths : loans (p :: ths) = loans_of p ++ loans ths.
Proof. done. Qed.

Lemma pool_critical_done w c rest :
  pool_team_inv w (Within c :: rest) → locked w = true → pool_admits c w →
  ∃ k w', pool_critical c w = Ret (k, w') ∧ pool_team_inv w' (Outside k :: rest) ∧ locked w' = false.
Proof.
  intros (l & Hi & Hl) Hm Ha. rewrite loans_cons in Hl.
  assert (∀ A (m : M pool_state A) k a w' l', m w = Ret (a, w') → pool_rel w' l' →
    lent_ok l' (loans_of (Outside (k a)) ++ loans rest) →
    ∃ k' w', (a ← m; mret (k a)) w = Ret (k', w') ∧ pool_team_inv w' (Outside k' :: rest) ∧ locked w' = false) as Hfin.
  { intros A m k a w' l' E [Hi' Hm'] Hl'. exists (k a), w'. split; [by mstep E|]. split; [by exists l'|done]. }
  destruct c as [tgt h|ln h|h|i t b h|]; cbn [pool_critical].
  - destruct (get_critical tgt w l _ Hi Hl Hm Ha) as (r & w' & l' & E & Hr & Hl').
    eapply Hfin; [exact E|exact Hr|]. by destruct r.
  - destruct (return_critical ln w l _ Hi Hl Hm) as (r & w' & l' & E & Hr & Hl').
    by eapply (Hfin _ _ (λ _, User h)).
  - destruct (cleanup_critical w l Hi Hm) as (w' & E & Hr).
    eapply (Hfin _ _ (λ _, User h)); [exact E|exact Hr|by apply lent_cleanup].
  - eapply (Hfin _ _ (λ _, User h)); [reflexivity|split; [by eapply (pool_inv_frame w)|done]|done].
  - destruct (keepalive_section_run w l Hi) as (now & w2 & w' & _ & E & _ & Hr).
    eapply (Hfin _ _ (λ _, KeepaliveTest)); [exact E|exact Hr|by apply lent_keepalive].
Qed.

#[export] Instance pool_runs : MonitorRuns pool_critical pool_admits pool_team_inv.
Proof.
  split. intros w c rest Hi Hl Ha. destruct (pool_critical_done w c rest Hi Hl Ha) as (k & w' & E & _). by exists k, w'.
Qed.

#[export] Instance pool_laws : MonitorLaws pool_outside pool_critical pool_admits pool_team_inv.
Proof.
  split.
  - intros w ths ths' Hp (l & Hi & Hl). exists l. split; [done|]. unfold loans in *. by rewrite <- Hp.
  - intros w ths (l & Hi & Hl). exists l. by split; [apply pool_inv_mutex|].
  - done.
  - intros w c rest (l & Hi & Hl). by exists l.
  - intros w k w' x rest (l & Hi & Hl) Hout. rewrite loans_cons in Hl.
    assert (∀ y, loans_of (after y) ≡ₚ loans_of (Outside k) → pool_team_inv w (after y :: rest)) as Hstay.
    { intros y Hy. exists l. split; [done|]. by rewrite loans_cons, Hy. }
    destruct Hout as [tgt w h|h w h1 h2|w h|i t b w h|w|w]; try (by split; [apply Hstay|]).
    + split; [|done]. apply Hstay. cbn. by rewrite Permutation_middle.
    + split; [|done]. apply Hstay. by destruct (keepalive_running (obj w)).
    + split; [|done]. exists l. split; [by apply (pool_inv_frame w)|done].
  - intros w c rest k w' Hi Hl Ha E. destruct (pool_critical_done w c rest Hi Hl Ha) as (k1 & w1 & E1 & H1).
    rewrite E in E1. by injection E1 as <- <-.
Qed.

(** ** The flags of the keep-alive thread *)

(** No function of the pool but its destruction touches them. *)
Definition flags w : bool * bool := (keepalive_thread (obj w), keepalive_running (obj w)).

#[local] Hint Extern 1 (Keeps flags (modify (upd_obj _))) =>
  (intros ? ? ? [= _ <-]; reflexivity) : typeclass_instances.

#[local] Instance keeps_read a : Keeps flags (read_cell a).
Proof. intros s c s'. unfold read_cell. by destruct (cells s !! a); [intros [= _ <-]|]. Qed.
#[local] Instance keeps_write a c : Keeps flags (write_cell a c).
Proof. intros s b s'. unfold write_cell. by destruct (cells s !! a); [intros [= _ <-]|]. Qed.
#[local] Instance keeps_free a : Keeps flags (free_cell a).
Proof. intros s b s'. unfold free_cell. by destruct (cells s !! a); [intros [= _ <-]|]. Qed.
#[local] Instance keeps_new c : Keeps flags (new_cell c).
Proof. by intros s b s' [= _ <-]. Qed.
#[local] Instance keeps_zoom {A} (m : M allocs A) :
  Keeps flags (zoom cell_answers (λ al w, mk_heap (obj w) (cells w) (fresh_cell w) al) m).
Proof. intros s b s'. unfold zoom. by destruct (m _) as [[? ?]|]; [intros [= _ <-]|]. Qed.
#[local] Instance keeps_malloc : Keeps flags malloc_cell := _.
#[local] Instance keeps_time : Keeps flags time.
Proof. intros s b s'. unfold time. by destruct (ticks (obj s)); intros [= _ <-]. Qed.
#[local] Instance keeps_unlock : Keeps flags pool_unlock.
Proof. unfold pool_unlock. apply _. Qed.
#[local] Instance keeps_destroy a : Keeps flags (destroy_connection a).
Proof. unfold destroy_connection. apply _. Qed.
#[local] Instance keeps_create : Keeps flags create_connection.
Proof. unfold create_connection. apply _. Qed.
#[local] Instance keeps_pooled_destroy a : Keeps flags (grpc_pooled_connection_destroy a).
Proof. unfold grpc_pooled_connection_destroy. apply _. Qed.
#[local] Instance keeps_pooled_create tgt c : Keeps flags (grpc_pooled_connection_create tgt c).
Proof. unfold grpc_pooled_connection_create. apply _. Qed.

(** The loops: by induction on the fuel, with the pointer read or not. *)
Ltac keeps_loop n p f :=
  revert p; induction n as [|n IH]; intros p; destruct p; intros; unfold f; fold f; apply _.

#[local] Instance keeps_find_healthy n tgt p : Keeps flags (find_healthy n tgt p).
Proof. keeps_loop n p @find_healthy. Qed.
#[local] Instance keeps_find_oldest n o t p : Keeps flags (find_oldest n o t p).
Proof. revert o t. keeps_loop n p @find_oldest. Qed.
#[local] Instance keeps_return_loop n tgt c p : Keeps flags (return_loop n tgt c p).
Proof. keeps_loop n p @return_loop. Qed.
#[local] Instance keeps_cleanup_loop n o p : Keeps flags (cleanup_loop n o p).
Proof. revert o. keeps_loop n p @cleanup_loop. Qed.
#[local] Instance keeps_keepalive_loop n now p : Keeps flags (keepalive_loop n now p).
Proof. keeps_loop n p @keepalive_loop. Qed.
#[local] Instance keeps_make_room : Keeps flags make_room.
Proof. unfold make_room. apply _. Qed.
#[local] Instance keeps_add_connection tgt : Keeps flags (add_connection tgt).
Proof. unfold add_connection. apply _. Qed.

Lemma critical_keeps c : Keeps flags (pool_critical c).
Proof.
  destruct c; cbn [pool_critical];
    unfold get_section, return_section, cleanup_section, set_keepalive_section, keepalive_section; apply _.
Qed.

(** The thread stays what it was made, and once the owner has cleared the flag it is clear. *)
Definition flags_ok (th : bool) (t : pool_team) : Prop :=
  keepalive_thread (obj (object t)) = th ∧
  (Outside (Owner true) ∈ members t → keepalive_running (obj (object t)) = false).

Lemma flags_keep th w w' (ths ths' : list pool_pc) :
  flags w' = flags w → (Outside (Owner true) ∈ ths' → Outside (Owner true) ∈ ths) →
  flags_ok th (mk_team w ths) → flags_ok th (mk_team w' ths').
Proof. intros [= H1 H2] Hin [Ht Hf]. cbn in *. split; cbn; [congruence|]. rewrite H2. auto. Qed.

Lemma flags_step th (t t' : pool_team) : flags_ok th t → pool_team_step t t' → flags_ok th t'.
Proof.
  intros Hok [H|H].
  - destruct H as [w k w' x l1 l2 Hout]. destruct Hout as [tgt w h|h w h1 h2|w h|i t b w h|w|w];
      try (eapply flags_keep; [reflexivity| |exact Hok]; set_solver).
    + eapply flags_keep; [reflexivity| |exact Hok]. destruct (keepalive_running (obj w)); set_solver.
    + destruct Hok as [Ht _]. by split.
  - destruct H as [w c l1 l2 _|w c k w' l1 l2 _ E]; eapply flags_keep; try exact Hok; try reflexivity.
    + set_solver.
    + apply (critical_keeps c _ _ _ E).
    + assert (k ≠ Owner true) as Hk; [|set_solver].
      intros ->. destruct c; cbn in E; apply M_bind_inv in E as (? & ? & _ & [=]).
Qed.

Lemma flags_steps th (t t' : pool_team) : flags_ok th t → rtc pool_team_step t t' → flags_ok th t'.
Proof. intros Hok Hs. induction Hs; eauto using flags_step. Qed.

(** ** What the users can rely on *)

Section start.
Context (max idle : Z) (thread : bool) (now : Z) (tk : list Z) (al al' : allocs)
  (p : grpc_connection_pool C) (n : nat).
Context (Hcreate : grpc_connection_pool_create max idle thread now tk al = Ret (Some p, al')) (Hmax : max < 2 ^ 64).

Lemma pool_start_ok :
  team_ok pool_team_inv (pool_team_start n (mk_heap p ∅ 1 al')) ∧
  flags_ok thread (pool_team_start n (mk_heap p ∅ 1 al')).
Proof.
  destruct (create_run _ _ _ _ _ _ _ _ Hcreate Hmax) as [[Hi Hm] Ht]. unfold pool_team_start. cbn [obj].
  split; [|split; [done|]].
  - split; cbn [object members].
    + exists []. split; [done|].
      assert (loans (replicate n (Outside (User [])) ++ (if keepalive_thread p then [Outside KeepaliveTest] else []) ++
        [Outside (Owner false)]) = []) as ->.
      { clear. unfold loans. induction n as [|k IH]; [by destruct (keepalive_thread p)|exact IH]. }
      split; [by intros e ?%elem_of_nil|by intros h ?%elem_of_nil].
    + cbn [locked pool_monitor obj]. cbn in Hm. rewrite Hm. apply count_none. intros q Hq.
      apply elem_of_app in Hq as [[-> _]%elem_of_replicate|Hq]; [done|]. destruct (keepalive_thread p); set_solver.
  - intros Hin. exfalso. cbn in Hin. apply elem_of_app in Hin as [[? _]%elem_of_replicate|Hin]; [done|].
    destruct (keepalive_thread p); set_solver.
Qed.

Context (t : pool_team) (Hsteps : rtc pool_team_step (pool_team_start n (mk_heap p ∅ 1 al')) t).

Lemma pool_team_reachable : team_ok pool_team_inv t ∧ flags_ok thread t.
Proof.
  destruct pool_start_ok as [H1 H2]. split; [|by eapply flags_steps].
  apply (team_steps_ok pool_outside pool_critical pool_admits pool_team_inv _ _ H1 Hsteps).
Qed.

(** C12. Any number of threads that get connections from a pool, return what they have got,
    clean the pool up and configure it, next to its keep-alive thread and the thread that stops
    it, none of them evicting or lending one connection [INT_MAX] times: every connection a
    thread holds is live; the call counter of each entry is the number of connections lent from
    it; one thread at most is behind the mutex; and what it does there returns without a fault. *)
Theorem pool_threads_loans_live :
  (∀ m tgt c, m ∈ members t → (tgt, c) ∈ loans_of m → is_Some (live (obj (object t)) !! c)) ∧
  (∃ l, chain (cells (object t)) (connections (obj (object t))) l None ∧
     ∀ e, e ∈ l → active_calls e.2 = Z.of_nat (count_if (of_entry e) (loans (members t)))) ∧
  (∀ i j c d, members t !! i = Some (Within c) → members t !! j = Some (Within d) → i = j) ∧
  (∀ c, Within c ∈ members t → pool_admits c (object t) → ∃ r, pool_critical c (object t) = Ret r).
Proof.
  destruct pool_team_reachable as [Hok _]. pose proof Hok as [(l & Hi & Hl) _]. split_and!.
  - intros m tgt c Hm Hc. destruct (lo_entry _ _ Hl (tgt, c)) as (e & He & Hce & _).
    { apply list_elem_of_bind. by exists m. }
    apply list_elem_of_split in He as (l1 & l2 & ->). destruct e as [a x].
    destruct (pool_entry _ _ _ _ _ Hi) as (c' & v & _ & Hc' & Hv & _). cbn in Hce. rewrite Hce in Hc'.
    injection Hc' as <-. by exists v.
  - exists l. split; [apply Hi|apply Hl].
  - intros i j c d. by apply (team_exclusion pool_team_inv).
  - intros c. by apply (critical_runs pool_outside pool_critical pool_admits pool_team_inv).
Qed.

(** C13. Once the owner of a pool has cleared its flag, the keep-alive thread ends at its next
    test; the calls under way are over after at most [calls_left] acquisitions and critical
    sections, one of which can always go on as long as none of them evicts; and when all
    threads are out of the mutex the destruction frees every node and every connection. *)
Theorem pool_threads_stop :
  Outside (Owner true) ∈ members t →
  (∀ w' x, pool_outside (object t) KeepaliveTest w' x → x = inl KeepaliveEnded) ∧
  (∀ k t', nsteps pool_mutex_step k t t' → (k ≤ calls_left (members t))%nat) ∧
  (all_admitted pool_admits t → (∃ t', pool_mutex_step t t') ∨ Forall is_outside (members t)) ∧
  (Forall is_outside (members t) → thread = true →
     grpc_connection_pool_destroy (Some (object t)) = Ret (Some (∅, ∅))).
Proof.
  intros Hown. destruct pool_team_reachable as [Hok [Ht Hf]]. specialize (Hf Hown). split_and!.
  - intros w' x Hx. inversion Hx; subst. by rewrite Hf.
  - intros k t' Hk%mutex_steps_left. lia.
  - by apply (mutex_progress pool_outside pool_critical pool_admits pool_team_inv).
  - intros Hout Hth. destruct Hok as [(l & Hi & _) Hc]. apply (pool_destroy_run _ l); [|congruence]. split; [done|].
    rewrite count_none in Hc; [by cbn in Hc; destruct (pool_mutex _)|].
    intros q Hq. pose proof (proj1 (Forall_forall _ _) Hout q Hq) as Ho. by destruct q.
Qed.
End start.
End pools.

(** ** Witnesses *)

Abbreviation http_pool := (heap_of (grpc_connection_pool world) grpc_pooled_connection).

(** Two users of a pool, one of which has got a connection; the owner has cleared the flag. *)
Definition lent_pool : http_pool :=
  match get_section [65; 0] (acquire (pool_start 2 [])) with
  | Ret (_, w) => upd_obj (set_keepalive_running false) w
  | Fault _ => pool_start 2 []
  end.
Definition lent_team : team http_pool pool_thread pool_call :=
  mk_team lent_pool
    [Outside (User [([65; 0], 1%positive)]); Outside (User []); Outside KeepaliveTest; Outside (Owner true)].

Lemma lent_team_reachable :
  rtc (team_step pool_outside pool_critical pool_admits) (pool_team_start 2 (pool_start 2 [])) lent_team.
Proof.
  set (rest := [Outside (User []); Outside KeepaliveTest; Outside (Owner false)] : list (thread_pc pool_thread pool_call)).
  eapply rtc_l; [left; eapply (step_outside _ _ (User []) _ (inr (CallGet [65; 0] [])) [] rest); apply out_get|].
  eapply rtc_l; [right; by eapply (step_acquire _ _ _ (CallGet [65; 0] []) [] rest)|].
  eapply rtc_l.
  { right. eapply (step_critical _ _ _ (CallGet [65; 0] []) _ _ [] rest); [|vm_compute; reflexivity].
    exists []. split; [done|]. split; [constructor|]. right. by left. }
  eapply rtc_l; [left; eapply (step_outside _ _ (Owner false) _ (inl (Owner true))
    [Outside (User [([65; 0], 1%positive)]); Outside (User []); Outside KeepaliveTest] []); apply out_stop|].
  apply rtc_refl.
Qed.

Lemma pool_threads_loans_live_witness :
  is_Some (live (obj lent_pool) !! 1%positive) ∧
  ∃ l, chain (cells lent_pool) (connections (obj lent_pool)) l None ∧
    ∀ e, e ∈ l → active_calls e.2 = Z.of_nat (count_if (of_entry e) [([65; 0], 1%positive)]).
Proof.
  destruct (pool_threads_loans_live (C := world) 2 0 true 1000 [] [] [] _ 2 (pool_start_create 2 []) eq_refl
    lent_team lent_team_reachable) as (H1 & H2 & _).
  split; [|exact H2]. apply (H1 (Outside (User [([65; 0], 1%positive)])) [65; 0]); left.
Defined.

Lemma pool_threads_stop_witness :
  (∀ w' x, pool_outside lent_pool KeepaliveTest w' x → x = inl KeepaliveEnded) ∧
  grpc_connection_pool_destroy (Some lent_pool) = Ret (Some (∅, ∅)).
Proof.
  destruct (pool_threads_stop (C := world) 2 0 true 1000 [] [] [] _ 2 (pool_start_create 2 []) eq_refl
    lent_team lent_team_reachable) as (H1 & _ & _ & H2).
  - do 3 right. left.
  - split; [exact H1|]. apply H2; [|reflexivity]. by repeat constructor.
Defined.
