(* ===== verification/Core.v ===== *)
(** * Core utilities (src/src/grpc_core.c)

    Library initialisation, deadlines, byte buffers and the version string. *)

From Stdlib Require Import ZArith Lia.
From stdpp Require Import base tactics list option strings gmap.
From S2P Require Import Prelude.

#[local] Open Scope Z_scope.

(** ** Library initialisation: the flag [g_grpc_initialized] *)

Definition grpc_init (g_grpc_initialized : bool) : bool :=
  if negb g_grpc_initialized then true else g_grpc_initialized.
Definition grpc_shutdown (g_grpc_initialized : bool) : bool :=
  if g_grpc_initialized then false else g_grpc_initialized.

(** ** Time *)

(** [grpc_timespec]: an [int64_t] and an [int32_t]. *)
Record grpc_timespec := mk_timespec { tv_sec : Z; tv_nsec : Z }.

Definition i64 (x : Z) : Z := (x + 2 ^ 63) mod 2 ^ 64 - 2 ^ 63.

(** [sec] and [usec] are what [gettimeofday] stores. *)
Definition grpc_now (sec usec : Z) : grpc_timespec := mk_timespec sec (i32 (usec * 1000)).

Definition grpc_timeout_milliseconds_to_deadline (sec usec timeout_ms : Z) : grpc_timespec :=
  let now := grpc_now sec usec in
  let tv_sec' := i64 (tv_sec now + Z.quot timeout_ms 1000) in
  let tv_nsec' := i32 (tv_nsec now + Z.rem timeout_ms 1000 * 1000000) in
  if 1000000000 <=? tv_nsec' then
    mk_timespec (i64 (tv_sec' + Z.quot tv_nsec' 1000000000)) (Z.rem tv_nsec' 1000000000)
  else mk_timespec tv_sec' tv_nsec'.

(** The instant a [grpc_timespec] denotes, in nanoseconds. *)
Definition nanoseconds (t : grpc_timespec) : Z := tv_sec t * 1000000000 + tv_nsec t.

Lemma i64_small x : - 2 ^ 63 ≤ x < 2 ^ 63 → i64 x = x.
Proof. intros H. unfold i64. rewrite Z.mod_small; lia. Qed.

(** The deadline of a timeout is the current time plus the timeout to the nanosecond, with
    less than a second of nanoseconds, and not a negative number of them when the timeout is
    not negative. *)
Theorem grpc_timeout_deadline_exact sec usec timeout_ms :
  0 ≤ sec < 2 ^ 61 → 0 ≤ usec < 1000000 → - 2 ^ 61 < timeout_ms < 2 ^ 61 →
  let d := grpc_timeout_milliseconds_to_deadline sec usec timeout_ms in
  nanoseconds d = nanoseconds (grpc_now sec usec) + timeout_ms * 1000000 ∧
  tv_nsec d < 1000000000 ∧ (0 ≤ timeout_ms → 0 ≤ tv_nsec d).
Proof.
  intros Hs Hu Ht. unfold grpc_timeout_milliseconds_to_deadline, grpc_now, nanoseconds.
  rewrite (i32_small (usec * 1000)) by lia. cbn [tv_sec tv_nsec].
  pose proof (Z.quot_rem' timeout_ms 1000) as Hq.
  assert (-1000 < Z.rem timeout_ms 1000 < 1000) as Hr.
  { pose proof (Z.rem_bound_abs timeout_ms 1000). lia. }
  assert (0 ≤ timeout_ms → 0 ≤ Z.rem timeout_ms 1000) as Hp.
  { intros H. pose proof (Z.rem_bound_pos timeout_ms 1000). lia. }
  set (q := Z.quot timeout_ms 1000) in *. set (r := Z.rem timeout_ms 1000) in *.
  rewrite (i64_small (sec + q)), (i32_small (usec * 1000 + r * 1000000)) by lia.
  destruct (Z.leb_spec 1000000000 (usec * 1000 + r * 1000000)); cbn; [|lia].
  pose proof (Z.quot_rem' (usec * 1000 + r * 1000000) 1000000000).
  pose proof (Z.rem_bound_pos (usec * 1000 + r * 1000000) 1000000000).
  rewrite i64_small; lia.
Qed.

Lemma grpc_timeout_deadline_witness :
  nanoseconds (grpc_timeout_milliseconds_to_deadline 10 999999 2500) = 13499999000 ∧
  tv_nsec (grpc_timeout_milliseconds_to_deadline 10 999999 2500) = 499999000.
Proof.
  destruct (grpc_timeout_deadline_exact 10 999999 2500) as [E _]; [lia..|].
  split; [rewrite E; reflexivity|reflexivity].
Defined.

(** A deadline in the past may have a negative [tv_nsec]. *)
Example past_deadline :
  grpc_timeout_milliseconds_to_deadline 10 0 (-1) = mk_timespec 10 (-1000000).
Proof. reflexivity. Qed.

(** ** Byte buffers *)

(** [grpc_byte_buffer]: the address of its block of bytes, or a null pointer. *)
Record grpc_byte_buffer := mk_byte_buffer {
  bb_data : option positive;
  bb_length : Z;
  bb_capacity : Z
}.

(** The memory of the buffers: the blocks of bytes, the structures, and the coming answers of the
    allocator. *)
Record mem := mk_mem {
  blocks : gmap positive (list Z);
  buffers : gmap positive grpc_byte_buffer;
  next_block : positive;
  mem_answers : allocs
}.

Definition set_blocks (h : gmap positive (list Z)) (w : mem) : mem :=
  mk_mem h (buffers w) (next_block w) (mem_answers w).
Definition set_buffers (h : gmap positive grpc_byte_buffer) (w : mem) : mem :=
  mk_mem (blocks w) h (next_block w) (mem_answers w).
Definition malloc_mem : M mem bool := zoom mem_answers (λ al w, mk_mem (blocks w) (buffers w) (next_block w) al) malloc.
Definition next_address : M mem positive := λ w,
  Ret (next_block w, mk_mem (blocks w) (buffers w) (Pos.succ (next_block w)) (mem_answers w)).

(** [malloc (n)] for bytes: what the block holds at first is not read. *)
Definition malloc_block (n : Z) : M mem (option positive) :=
  ok ← malloc_mem;
  if negb ok then mret None else
  a ← next_address;
  _ ← modify (λ w, set_blocks (<[a := replicate (Z.to_nat n) 0]> (blocks w)) w);
  mret (Some a).
Definition read_block (a : positive) : M mem (list Z) := λ w,
  match blocks w !! a with Some bs => Ret (bs, w) | None => Fault UseAfterFree end.
(** [memcpy] to the front of a block. *)
Definition memcpy_block (a : positive) (src : list Z) (n : Z) : M mem () :=
  old ← read_block a;
  bs ← lift (memcpy old 0 src n);
  modify (λ w, set_blocks (<[a := bs]> (blocks w)) w).
(** [free] of a block, or of a null pointer. *)
Definition free_block (a : option positive) : M mem () :=
  match a with
  | None => mret ()
  | Some a => _ ← read_block a; modify (λ w, set_blocks (delete a (blocks w)) w)
  end.

Definition malloc_buffer : M mem (option positive) :=
  ok ← malloc_mem;
  if negb ok then mret None else
  a ← next_address;
  _ ← modify (λ w, set_buffers (<[a := mk_byte_buffer None 0 0]> (buffers w)) w);
  mret (Some a).
Definition read_buffer (a : positive) : M mem grpc_byte_buffer := λ w,
  match buffers w !! a with Some b => Ret (b, w) | None => Fault UseAfterFree end.
Definition write_buffer (a : positive) (b : grpc_byte_buffer) : M mem () :=
  _ ← read_buffer a; modify (λ w, set_buffers (<[a := b]> (buffers w)) w).
Definition free_buffer (a : positive) : M mem () :=
  _ ← read_buffer a; modify (λ w, set_buffers (delete a (buffers w)) w).

Definition grpc_byte_buffer_create (data : list Z) (length : Z) : M mem (option positive) :=
  buffer ← malloc_buffer;
  match buffer with
  | None => mret None
  | Some buffer =>
      block ← malloc_block length;
      match block with
      | None => _ ← free_buffer buffer; mret None
      | Some block =>
          _ ← memcpy_block block data length;
          _ ← write_buffer buffer (mk_byte_buffer (Some block) length length);
          mret (Some buffer)
      end
  end.

Definition grpc_byte_buffer_destroy (buffer : option positive) : M mem () :=
  match buffer with
  | None => mret ()
  | Some buffer =>
      b ← read_buffer buffer;
      _ ← free_block (bb_data b);
      free_buffer buffer
  end.

(** Addresses that are still to be given out are not in use. *)
Definition mem_ok (w : mem) : Prop :=
  ∀ a, is_Some (blocks w !! a) ∨ is_Some (buffers w !! a) → (a < next_block w)%positive.

(** The same blocks and structures; and the allocator has not been given new answers. *)
Definition same_mem (w w' : mem) : Prop := blocks w' = blocks w ∧ buffers w' = buffers w.
Definition fewer_answers (w w' : mem) : Prop := ∀ x, x ∈ mem_answers w' → x ∈ mem_answers w.

(** The buffer [b] of [w'] is new and holds [bs]; the rest of the memory is that of [w]. *)
Definition buffer_made (w w' : mem) (b : positive) (bs : list Z) : Prop :=
  ∃ d, blocks w !! d = None ∧ buffers w !! b = None ∧ blocks w' = <[d := bs]> (blocks w) ∧
    buffers w' = <[b := mk_byte_buffer (Some d) (zlen bs) (zlen bs)]> (buffers w).

#[export] Instance same_mem_equivalence : Equivalence same_mem.
Proof. split; [by intros w|by intros w w' []|intros w1 w2 w3 [] []; split; congruence]. Qed.
#[export] Instance fewer_answers_preorder : PreOrder fewer_answers.
Proof. split; [by intros w x|intros w1 w2 w3 H1 H2 x Hx; by apply H1, H2]. Qed.

Implicit Types (w : mem).

Lemma malloc_mem_run w :
  ∃ ok w', malloc_mem w = Ret (ok, w') ∧ same_mem w w' ∧ next_block w' = next_block w ∧ fewer_answers w w' ∧
    (ok = false → false ∈ mem_answers w).
Proof.
  unfold malloc_mem, zoom. destruct (mem_answers w) as [|ok al] eqn:E; cbn; do 2 eexists; (split; [done|]);
    unfold fewer_answers; rewrite E; cbn; (split; [done|]); (split; [done|]); split; try done.
  - set_solver.
  - intros ->. left.
Qed.

Lemma mem_ok_fresh w : mem_ok w → blocks w !! next_block w = None ∧ buffers w !! next_block w = None.
Proof.
  intros Hok. split; apply eq_None_not_Some; intros H;
    (assert (next_block w < next_block w)%positive by auto); lia.
Qed.

Lemma malloc_block_run n w :
  mem_ok w →
  ∃ r w', malloc_block n w = Ret (r, w') ∧ mem_ok w' ∧ fewer_answers w w' ∧ buffers w' = buffers w ∧
    match r with
    | Some a => blocks w !! a = None ∧ blocks w' = <[a := replicate (Z.to_nat n) 0]> (blocks w)
    | None => blocks w' = blocks w ∧ false ∈ mem_answers w
    end.
Proof.
  intros Hok. unfold malloc_block. destruct (malloc_mem_run w) as (ok & w1 & E & [Hb Hs] & Hn & Hal & Hf). mstep E.
  destruct ok; cbn [negb].
  - eexists (Some (next_block w1)), _. split; [done|]. split; [|split; [exact Hal|split; [done|]]].
    + intros a. cbn. rewrite Hb, Hs, Hn, lookup_insert_is_Some'.
      intros [[<-|?]|?]; [lia| |]; (assert (a < next_block w)%positive by auto); lia.
    + cbn. rewrite Hb, Hn. split; [apply (mem_ok_fresh _ Hok)|done].
  - exists None, w1. split; [done|]. split; [|by auto]. intros a. rewrite Hb, Hs, Hn. apply Hok.
Qed.

Lemma malloc_buffer_run w :
  mem_ok w →
  ∃ r w', malloc_buffer w = Ret (r, w') ∧ mem_ok w' ∧ fewer_answers w w' ∧ blocks w' = blocks w ∧
    match r with
    | Some b => buffers w !! b = None ∧ buffers w' = <[b := mk_byte_buffer None 0 0]> (buffers w)
    | None => buffers w' = buffers w ∧ false ∈ mem_answers w
    end.
Proof.
  intros Hok. unfold malloc_buffer. destruct (malloc_mem_run w) as (ok & w1 & E & [Hb Hs] & Hn & Hal & Hf). mstep E.
  destruct ok; cbn [negb].
  - eexists (Some (next_block w1)), _. split; [done|]. split; [|split; [exact Hal|split; [done|]]].
    + intros a. cbn. rewrite Hb, Hs, Hn, lookup_insert_is_Some'.
      intros [?|[<-|?]]; [|lia|]; (assert (a < next_block w)%positive by auto); lia.
    + cbn. rewrite Hs, Hn. split; [apply (mem_ok_fresh _ Hok)|done].
  - exists None, w1. split; [done|]. split; [|by auto]. intros a. rewrite Hb, Hs, Hn. apply Hok.
Qed.

Lemma read_block_run a bs w : blocks w !! a = Some bs → read_block a w = Ret (bs, w).
Proof. unfold read_block. by intros ->. Qed.
Lemma read_buffer_run a b w : buffers w !! a = Some b → read_buffer a w = Ret (b, w).
Proof. unfold read_buffer. by intros ->. Qed.
Lemma free_block_run a bs w :
  blocks w !! a = Some bs → free_block (Some a) w = Ret ((), set_blocks (delete a (blocks w)) w).
Proof. intros Ha. unfold free_block. by mstep (read_block_run a bs w Ha). Qed.
Lemma free_buffer_run a b w :
  buffers w !! a = Some b → free_buffer a w = Ret ((), set_buffers (delete a (buffers w)) w).
Proof. intros Ha. unfold free_buffer. by mstep (read_buffer_run a b w Ha). Qed.
Lemma memcpy_block_run a old bs tl w :
  blocks w !! a = Some old → length old = length bs →
  memcpy_block a (bs ++ tl) (zlen bs) w = Ret ((), set_blocks (<[a := bs]> (blocks w)) w).
Proof.
  intros Ha Hl. unfold memcpy_block. mstep (read_block_run a old w Ha).
  pose proof (memcpy_app [] old [] bs tl 0 (zlen bs) eq_refl eq_refl Hl) as E.
  rewrite !app_nil_r in E. cbn [app] in E. by mstep E.
Qed.

(** The creation copies the bytes, or leaves the memory as it was. *)
Lemma byte_buffer_create_run bs tl w :
  mem_ok w →
  ∃ r w', grpc_byte_buffer_create (bs ++ tl) (zlen bs) w = Ret (r, w') ∧ mem_ok w' ∧ fewer_answers w w' ∧
    match r with
    | Some b => buffer_made w w' b bs
    | None => same_mem w w' ∧ false ∈ mem_answers w
    end.
Proof.
  intros Hok. unfold grpc_byte_buffer_create.
  destruct (malloc_buffer_run w Hok) as (r & w1 & E & Hok1 & Hal1 & Hb1 & H1). mstep E.
  destruct r as [b|]; [|destruct H1; exists None, w1; by repeat split]. destruct H1 as [Hfb Hs1].
  destruct (malloc_block_run (zlen bs) w1 Hok1) as (r & w2 & E2 & Hok2 & Hal2 & Hs2 & H2). mstep E2.
  assert (buffers w2 !! b = Some (mk_byte_buffer None 0 0)) as Hb2 by by rewrite Hs2, Hs1, lookup_insert_eq.
  assert (fewer_answers w w2) as Hal by by etrans.
  destruct r as [d|].
  - destruct H2 as [Hfd Hd]. assert (blocks w2 !! d = Some (replicate (Z.to_nat (zlen bs)) 0)) as Hd2
      by by rewrite Hd, lookup_insert_eq.
    mstep (memcpy_block_run d _ bs tl w2 Hd2 ltac:(by rewrite length_replicate, Nat2Z.id)).
    set (w3 := set_blocks _ w2). unfold write_buffer. rewrite M_bind_assoc. mstep (read_buffer_run b _ w3 Hb2).
    rewrite M_bind_modify. eexists (Some b), _. split; [done|]. split; [|split; [exact Hal|]].
    + intros a. cbn. rewrite !lookup_insert_is_Some'. intros [[<-|?]|[<-|?]]; apply Hok2; eauto.
    + exists d. rewrite Hb1 in Hfd. split_and!; [done|done|cbn; by rewrite Hd, insert_insert_eq, Hb1|].
      cbn. by rewrite Hs2, Hs1, insert_insert_eq.
  - destruct H2 as [Hd Hf]. mstep (free_buffer_run b _ w2 Hb2). eexists None, _. split; [done|].
    split; [|split; [exact Hal|split; [split|by apply Hal1]]].
    + intros a. cbn. rewrite lookup_delete_is_Some. intros [?|[_ ?]]; apply Hok2; eauto.
    + cbn. by rewrite Hd.
    + cbn. by rewrite Hs2, Hs1, delete_insert_id.
Qed.

(** The destruction gives back exactly what the creation took. *)
Lemma byte_buffer_destroy_run w w' b bs :
  mem_ok w' → buffer_made w w' b bs →
  ∃ w2, grpc_byte_buffer_destroy (Some b) w' = Ret ((), w2) ∧ mem_ok w2 ∧ same_mem w w2 ∧ mem_answers w2 = mem_answers w'.
Proof.
  intros Hok (d & Hd & Hb & Hbl & Hbu). unfold grpc_byte_buffer_destroy.
  assert (buffers w' !! b = Some (mk_byte_buffer (Some d) (zlen bs) (zlen bs))) as Hb' by by rewrite Hbu, lookup_insert_eq.
  assert (blocks w' !! d = Some bs) as Hd' by by rewrite Hbl, lookup_insert_eq.
  mstep (read_buffer_run b _ w' Hb'). cbn [bb_data]. mstep (free_block_run d bs w' Hd'). set (w3 := set_blocks _ w').
  rewrite (free_buffer_run b _ w3 Hb'). eexists. split; [done|]. split; [|split; [split|done]].
  - intros a. cbn. rewrite !lookup_delete_is_Some. intros [[_ ?]|[_ ?]]; apply Hok; eauto.
  - cbn. by rewrite Hbl, delete_insert_id.
  - cbn. by rewrite Hbu, delete_insert_id.
Qed.

(** With the first structure and the second block refused, nothing is left. *)
Example buffer_refused :
  grpc_byte_buffer_create [104; 105; 33] 2 (mk_mem ∅ ∅ 1 [true; false]) = Ret (None, mk_mem ∅ ∅ 2 []).
Proof. reflexivity. Qed.
Example buffer_hello :
  (b ← grpc_byte_buffer_create [104; 105; 33] 2; o ← read_buffer 1; d ← read_block 2; _ ← grpc_byte_buffer_destroy b; mret (o, d))
    (mk_mem ∅ ∅ 1 []) = Ret ((mk_byte_buffer (Some 2%positive) 2 2, [104; 105]), mk_mem ∅ ∅ 3 []).
Proof. reflexivity. Qed.

(** ** Version string: ["%d.%d.%d"] of single digits *)
Definition GRPC_C_VERSION_MAJOR : Z := 1.
Definition GRPC_C_VERSION_MINOR : Z := 1.
Definition GRPC_C_VERSION_PATCH : Z := 0.
Definition grpc_version_string : list Z :=
  [48 + GRPC_C_VERSION_MAJOR; 46; 48 + GRPC_C_VERSION_MINOR; 46; 48 + GRPC_C_VERSION_PATCH; 0].
