(* ===== verification/Channel.v ===== *)
(** * Channels and calls (src/src/grpc_channel.c)

    A channel with its HTTP/2 connection and the calls made on it. *)

From Stdlib Require Import ZArith Lia.
From stdpp Require Import base tactics list option strings gmap relations.
From S2P Require Import Prelude Metadata Transport FlowControl Lists CompletionQueue Core.

#[local] Open Scope Z_scope.
#[local] Set Warnings "-clear-no-such-hyp".

(** ** Data *)

(** [grpc_call_error] and the status codes used here. *)
Definition GRPC_CALL_OK : Z := 0.
Definition GRPC_CALL_ERROR : Z := 1.
Definition GRPC_STATUS_CANCELLED : Z := 1.

(** [grpc_call]: [call_method] and [call_host] are [None] for null pointers, [call_cq] is
    the identity of the completion queue. *)
Record grpc_call := mk_call {
  call_stream : option positive;
  call_cq : option positive;
  call_method : option (list Z);
  call_host : option (list Z);
  deadline : grpc_timespec;
  call_initial_metadata : grpc_metadata_array;
  call_trailing_metadata : grpc_metadata_array;
  send_buffer : option grpc_byte_buffer;
  call_recv_buffer : option grpc_byte_buffer;
  call_status : Z;
  call_status_details : option (list Z);
  cancelled : bool;
  call_mutex : bool
}.

(** [grpc_channel] with its connection (the world of the transport, which also holds the
    allocator's answers) and the calls that exist. *)
Record grpc_channel := mk_channel {
  ch_target : list Z;
  ch_creds : option positive;
  ch_args : option positive;
  ch_mutex : bool;
  ch_conn : world;
  calls : gmap positive grpc_call;
  fresh_call : positive
}.

Definition set_ch_mutex (b : bool) (c : grpc_channel) : grpc_channel :=
  mk_channel (ch_target c) (ch_creds c) (ch_args c) b (ch_conn c) (calls c) (fresh_call c).
Definition set_ch_conn (w : world) (c : grpc_channel) : grpc_channel :=
  mk_channel (ch_target c) (ch_creds c) (ch_args c) (ch_mutex c) w (calls c) (fresh_call c).
Definition set_calls (m : gmap positive grpc_call) (f : positive) (c : grpc_channel) : grpc_channel :=
  mk_channel (ch_target c) (ch_creds c) (ch_args c) (ch_mutex c) (ch_conn c) m f.

Definition set_call_stream (s : option positive) (c : grpc_call) : grpc_call :=
  mk_call s (call_cq c) (call_method c) (call_host c) (deadline c) (call_initial_metadata c)
    (call_trailing_metadata c) (send_buffer c) (call_recv_buffer c) (call_status c)
    (call_status_details c) (cancelled c) (call_mutex c).
Definition set_call_mutex (b : bool) (c : grpc_call) : grpc_call :=
  mk_call (call_stream c) (call_cq c) (call_method c) (call_host c) (deadline c)
    (call_initial_metadata c) (call_trailing_metadata c) (send_buffer c) (call_recv_buffer c)
    (call_status c) (call_status_details c) (cancelled c) b.
Definition set_cancelled (c : grpc_call) : grpc_call :=
  mk_call (call_stream c) (call_cq c) (call_method c) (call_host c) (deadline c)
    (call_initial_metadata c) (call_trailing_metadata c) (send_buffer c) (call_recv_buffer c)
    GRPC_STATUS_CANCELLED (call_status_details c) true (call_mutex c).

(** ** Accesses *)

Definition on_conn {A} (m : M world A) : M grpc_channel A := zoom ch_conn set_ch_conn m.
Definition malloc_channel : M grpc_channel bool := on_conn malloc_world.

Definition lock_channel : M grpc_channel () := λ c,
  if ch_mutex c then Fault Deadlock else Ret ((), set_ch_mutex true c).
Definition unlock_channel : M grpc_channel () := modify (set_ch_mutex false).

Definition read_call (a : positive) : M grpc_channel grpc_call := λ c,
  match calls c !! a with Some o => Ret (o, c) | None => Fault UseAfterFree end.
Definition write_call (a : positive) (o : grpc_call) : M grpc_channel () := λ c,
  match calls c !! a with
  | Some _ => Ret ((), set_calls (<[a := o]> (calls c)) (fresh_call c) c)
  | None => Fault UseAfterFree
  end.
Definition new_call (o : grpc_call) : M grpc_channel positive := λ c,
  Ret (fresh_call c, set_calls (<[fresh_call c := o]> (calls c)) (Pos.succ (fresh_call c)) c).
Definition free_call (a : positive) : M grpc_channel () := λ c,
  match calls c !! a with
  | Some _ => Ret ((), set_calls (delete a (calls c)) (fresh_call c) c)
  | None => Fault UseAfterFree
  end.
Definition lock_call (a : positive) : M grpc_channel () :=
  o ← read_call a;
  if call_mutex o then fail Deadlock else write_call a (set_call_mutex true o).
Definition unlock_call (a : positive) : M grpc_channel () :=
  o ← read_call a; write_call a (set_call_mutex false o).

(** [strdup]: a copy, or a null pointer. *)
Definition strdup_channel (s : list Z) : M grpc_channel (option (list Z)) :=
  ok ← malloc_channel;
  mret (if ok : bool then Some (c_str s ++ [0]) else None).

(** ** Operations *)

Definition grpc_channel_create (tgt : option (list Z)) (creds args : option positive)
    : M allocs (option grpc_channel) :=
  match tgt with
  | None => mret None
  | Some tgt =>
      ok ← malloc;
      if negb ok then mret None else
      dup ← malloc;              (* strdup *)
      if negb dup then mret None else
      λ al, match http2_connection_create true (mk_env al [] [] [] []) with
            | Ret (None, e) => Ret (None, answers e)
            | Ret (Some c, e) =>
                Ret (Some (mk_channel (c_str tgt ++ [0]) creds args false (mk_world c ∅ 1 e) ∅ 1),
                     answers e)
            | Fault f => Fault f
            end
  end.

Definition grpc_insecure_channel_create (tgt : option (list Z)) (args : option positive)
    : M allocs (option grpc_channel) := grpc_channel_create tgt None args.

(** The channel and its connection are gone afterwards: what is left are the streams
    nobody freed and the environment, and the calls, which point to them. *)
Definition grpc_channel_destroy (c : option grpc_channel)
    : outcome (option (gmap positive http2_stream * env * gmap positive grpc_call)) :=
  match c with
  | None => Ret None
  | Some c =>
      if ch_mutex c then Fault Deadlock else
      match http2_connection_destroy (Some (ch_conn c)) with
      | Ret (Some (h, e)) => Ret (Some (h, e, calls c))
      | Ret None => Fault NullDeref
      | Fault f => Fault f
      end
  end.

(** "Create HTTP/2 stream" for the new call [o], which is freed again without a stream. *)
Definition make_call (o : grpc_call) : M grpc_channel (option positive) :=
  call ← new_call o;
  _ ← lock_channel;
  c ← gets ch_conn;
  let stream_id := next_stream_id (conn c) in
  _ ← on_conn (modify (upd_conn (set_next_stream_id (u32 (stream_id + 2)))));
  stream ← on_conn (deref (http2_stream_create stream_id));
  o ← read_call call;
  _ ← write_call call (set_call_stream stream o);
  _ ← match stream with
      | Some s => on_conn (st ← read_stream s; write_stream s (set_stream_call (Some call) st))
      | None => mret ()
      end;
  _ ← unlock_channel;
  match stream with
  | None => _ ← free_call call; mret None
  | Some _ => mret (Some call)
  end.

(** The copies of the strings are not checked: a call may have no method. *)
Definition grpc_channel_create_call (cq : option positive) (method host : option (list Z))
    (dl : grpc_timespec) : M (option grpc_channel) (option positive) := nullable None
  match cq, method with
  | Some q, Some method =>
      ok ← malloc_channel;
      if negb ok then mret None else
      method ← strdup_channel method;
      host ← match host with Some h => strdup_channel h | None => mret None end;
      make_call (mk_call None (Some q) method host dl md_array_zero md_array_zero None None
                   GRPC_STATUS_OK None false false)
  | _, _ => mret None
  end.

(** The operations of the batch are not looked at: the event is all there is. *)
Definition grpc_call_start_batch (call : option grpc_call) (tag : option positive)
    : M (option cq_state) Z :=
  match call with
  | Some c =>
      match call_cq c with
      | Some _ => _ ← completion_queue_push_event (mk_event 1 true tag); mret GRPC_CALL_OK
      | None => mret GRPC_CALL_ERROR
      end
  | None => mret GRPC_CALL_ERROR
  end.

Definition grpc_call_cancel (call : option positive) : M grpc_channel Z :=
  match call with
  | None => mret GRPC_CALL_ERROR
  | Some a =>
      _ ← lock_call a;
      o ← read_call a;
      _ ← write_call a (set_cancelled o);
      _ ← unlock_call a;
      mret GRPC_CALL_OK
  end.

(** [if (a.metadata) free (a.metadata)]. *)
Definition free_call_metadata (a : grpc_metadata_array) : M grpc_channel () :=
  match metadata a with MdFreed => fail UseAfterFree | _ => mret () end.

(** The strings and buffers of the call are freed with it. *)
Definition grpc_call_destroy (call : option positive) : M grpc_channel () :=
  match call with
  | None => mret ()
  | Some a =>
      _ ← lock_call a;
      o ← read_call a;
      _ ← match call_stream o with
          | Some s =>
              _ ← write_call a (set_call_stream None o);
              _ ← unlock_call a;
              _ ← on_conn (http2_stream_destroy (Some s));
              lock_call a
          | None => mret ()
          end;
      _ ← free_call_metadata (call_initial_metadata o);
      _ ← free_call_metadata (call_trailing_metadata o);
      _ ← unlock_call a;
      free_call a
  end.

(** ** The invariant of a channel *)

(** Streams have distinct odd identifiers below the next one; each call has its stream and
    each stream its call; nothing is locked. *)
Record chan_ok (c : grpc_channel) : Prop := {
  co_conn : conn_ok (ch_conn c);
  co_mutex : ch_mutex c = false;
  co_next : Z.odd (next_stream_id (conn (ch_conn c))) = true ∧ 0 < next_stream_id (conn (ch_conn c));
  co_ids : ∀ s o, heap (ch_conn c) !! s = Some o →
    Z.odd (s_id o) = true ∧ 0 < s_id o < next_stream_id (conn (ch_conn c));
  co_distinct : ∀ s1 s2 o1 o2, heap (ch_conn c) !! s1 = Some o1 → heap (ch_conn c) !! s2 = Some o2 →
    s_id o1 = s_id o2 → s1 = s2;
  co_calls : ∀ a call, calls c !! a = Some call →
    call_mutex call = false ∧ metadata (call_initial_metadata call) ≠ MdFreed ∧
    metadata (call_trailing_metadata call) ≠ MdFreed ∧
    ∃ s o, call_stream call = Some s ∧ heap (ch_conn c) !! s = Some o ∧ s_call o = Some a;
  co_streams : ∀ s o, heap (ch_conn c) !! s = Some o →
    ∃ a call, s_call o = Some a ∧ calls c !! a = Some call ∧ call_stream call = Some s;
  co_fresh : ∀ a, is_Some (calls c !! a) → (a < fresh_call c)%positive
}.

(** Only the answers of the allocator have moved. *)
Definition with_answers (al : allocs) (c : grpc_channel) : grpc_channel :=
  set_ch_conn (set_answers al (ch_conn c)) c.

Lemma with_answers_twice a b c : with_answers a (with_answers b c) = with_answers a c.
Proof. done. Qed.

Lemma chan_ok_answers al c : chan_ok c → chan_ok (with_answers al c).
Proof. intros []. split; try done. by apply conn_ok_answers. Qed.

(** The coming answers of the allocator. *)
Definition answers_of (c : grpc_channel) : allocs := answers (ev (ch_conn c)).

Lemma malloc_channel_run c :
  ∃ ok al, malloc_channel c = Ret (ok, with_answers al c) ∧
    (ok = false → false ∈ answers_of c) ∧ (∀ b, b ∈ al → b ∈ answers_of c).
Proof.
  unfold malloc_channel, on_conn, zoom. destruct (malloc_world_run (ch_conn c)) as (ok & al & -> & ? & ?).
  by exists ok, al.
Qed.

Lemma strdup_channel_run s c :
  ∃ r al, strdup_channel s c = Ret (r, with_answers al c) ∧ (∀ b, b ∈ al → b ∈ answers_of c).
Proof.
  unfold strdup_channel. destruct (malloc_channel_run c) as (ok & al & E & _ & Hal).
  mstep E. by do 2 eexists.
Qed.

Lemma strdup_host_run h c :
  ∃ r al, match h with Some s => strdup_channel s | None => mret None end c = Ret (r, with_answers al c) ∧
    (∀ b, b ∈ al → b ∈ answers_of c).
Proof.
  destruct h as [s|]; [apply strdup_channel_run|].
  exists None, (answers (ev (ch_conn c))). split; [by destruct c as [???? [?? ? []] ??]|done].
Qed.

Lemma on_conn_run {A} (m : M world A) c a w :
  m (ch_conn c) = Ret (a, w) → on_conn m c = Ret (a, set_ch_conn w c).
Proof. unfold on_conn, zoom. by intros ->. Qed.

Lemma read_call_run a o c : calls c !! a = Some o → read_call a c = Ret (o, c).
Proof. unfold read_call. by intros ->. Qed.
Lemma write_call_run a o o' c :
  calls c !! a = Some o → write_call a o' c = Ret ((), set_calls (<[a := o']> (calls c)) (fresh_call c) c).
Proof. unfold write_call. by intros ->. Qed.

Lemma lock_channel_run c : ch_mutex c = false → lock_channel c = Ret ((), set_ch_mutex true c).
Proof. unfold lock_channel. by intros ->. Qed.

(** The next odd identifier. *)
Lemma odd_next n : Z.odd n = true → Z.odd (n + 2) = true.
Proof. intros H. by rewrite Z.odd_add, H. Qed.

(** The state after a call has been made: its stream [s] and itself, linked. *)
Definition call_made (c c' : grpc_channel) (a s : positive) (call : grpc_call) : Prop :=
  ∃ w2, conn_ok w2 ∧ next_stream_id (conn w2) = next_stream_id (conn (ch_conn c)) + 2 ∧
    heap (ch_conn c) !! s = None ∧
    heap w2 = <[s := set_stream_call (Some a) (fresh_stream (next_stream_id (conn (ch_conn c))))]> (heap (ch_conn c)) ∧
    c' = mk_channel (ch_target c) (ch_creds c) (ch_args c) false w2 (<[a := call]> (calls c)) (Pos.succ a).

Lemma chan_ok_made c c' s call :
  chan_ok c → call_made c c' (fresh_call c) s call → call_stream call = Some s →
  call_mutex call = false → metadata (call_initial_metadata call) ≠ MdFreed →
  metadata (call_trailing_metadata call) ≠ MdFreed → chan_ok c'.
Proof.
  intros [Hconn Hm [Ho Hp] Hi Hd Hc Hs Hf] (w2 & Hw & Hn & Hs0 & Hh & ->) Hcs Hcm H1 H2.
  assert (calls c !! fresh_call c = None) as Hnew.
  { apply eq_None_not_Some. intros H%Hf. lia. }
  split; cbn; rewrite ?Hn, ?Hh; try done.
  - split; [by apply odd_next|lia].
  - intros x o. rewrite lookup_insert_Some. intros [[_ <-]|[_ Hx]]; [cbn; split; [done|lia]|].
    destruct (Hi x o Hx). split; [done|lia].
  - intros x y ox oy. rewrite !lookup_insert_Some.
    intros [[<- <-]|[Hnx Hx]] [[<- <-]|[Hny Hy]] E; cbn in E; [done| | |by eapply Hd].
    + destruct (Hi y oy Hy). lia.
    + destruct (Hi x ox Hx). lia.
  - intros a call'. rewrite lookup_insert_Some. intros [[<- <-]|[Hna Ha]].
    + split_and!; [done|done|done|]. do 2 eexists. split; [done|]. by rewrite lookup_insert_eq.
    + destruct (Hc a call' Ha) as (? & ? & ? & x & o & ? & Hx & ?). split_and!; [done..|].
      exists x, o. split_and!; [done| |done]. rewrite lookup_insert_ne; [done|]. intros ->. congruence.
  - intros x o. rewrite lookup_insert_Some. intros [[<- <-]|[Hnx Hx]].
    + do 2 eexists. split; [done|]. by rewrite lookup_insert_eq.
    + destruct (Hs x o Hx) as (a & call' & ? & Ha & ?). exists a, call'. split_and!; [done| |done].
      rewrite lookup_insert_ne; [done|]. intros <-. congruence.
  - intros a. rewrite lookup_insert_is_Some. intros [<-|[_ Ha%Hf]]; lia.
Qed.

(** A stream learns the call it belongs to. *)
Lemma attach_run s st a c :
  heap (ch_conn c) !! s = Some st →
  on_conn (st ← read_stream s; write_stream s (set_stream_call (Some a) st)) c =
    Ret ((), set_ch_conn (upd_heap (insert s (set_stream_call (Some a) st)) (ch_conn c)) c).
Proof.
  intros Hst. apply on_conn_run. mstep (read_stream_run s _ _ Hst). by apply (write_stream_run s st).
Qed.

(** A channel whose connection has only used up an identifier. *)
Lemma chan_ok_refused c w f :
  chan_ok c → conn_ok w → heap w = heap (ch_conn c) →
  next_stream_id (conn w) = next_stream_id (conn (ch_conn c)) + 2 →
  (fresh_call c ≤ f)%positive →
  chan_ok (set_calls (calls c) f (set_ch_mutex false (set_ch_conn w c))).
Proof.
  intros [_ _ [Hodd ?] Hi Hd Hc Hs Hf] Hw Hh Hn Hle. split; cbn; rewrite ?Hh, ?Hn; try done.
  - split; [by apply odd_next|lia].
  - intros x ox Hx. destruct (Hi x ox Hx). split; [done|lia].
  - intros a Ha%Hf. lia.
Qed.

Lemma make_call_run o c :
  chan_ok c → streams_capacity (conn (ch_conn c)) < 2 ^ 60 →
  next_stream_id (conn (ch_conn c)) + 2 < 2 ^ 32 →
  call_mutex o = false → metadata (call_initial_metadata o) ≠ MdFreed →
  metadata (call_trailing_metadata o) ≠ MdFreed →
  ∃ r c', make_call o c = Ret (r, c') ∧ chan_ok c' ∧
    match r with
    | Some a => a = fresh_call c ∧ ∃ s, call_made c c' a s (set_call_stream (Some s) o)
    | None => calls c' = calls c ∧ heap (ch_conn c') = heap (ch_conn c) ∧ false ∈ answers_of c
    end.
Proof.
  intros Hok Hcap Hnext Hm H1 H2. unfold make_call.
  assert (calls c !! fresh_call c = None) as Hnew.
  { apply eq_None_not_Some. intros H%(co_fresh _ Hok). lia. }
  set (c1 := set_calls (<[fresh_call c := o]> (calls c)) (Pos.succ (fresh_call c)) c).
  rewrite (M_bind_Ret (new_call o) _ c (fresh_call c) c1 eq_refl).
  mstep (lock_channel_run c1 (co_mutex _ Hok)); rewrite M_bind_gets. cbn zeta.
  set (c2 := set_ch_mutex true c1). change (ch_conn c2) with (ch_conn c).
  pose proof (co_next _ Hok) as [_ Hpos].
  rewrite u32_small by lia. set (id := next_stream_id (conn (ch_conn c))) in *.
  set (w1 := upd_conn (set_next_stream_id (id + 2)) (ch_conn c)).
  rewrite (M_bind_Ret _ _ c2 () (set_ch_conn w1 c2)) by done.
  assert (conn_ok w1) as Hw1 by (by destruct (co_conn _ Hok)).
  destruct (http2_stream_create_run id w1 Hw1 Hcap) as (r & w2 & E & Hw2 & Ht & Hr).
  assert (deref (http2_stream_create id) w1 = Ret (r, w2)) as E' by (unfold deref; by rewrite E).
  mstep (on_conn_run _ (set_ch_conn w1 c2) _ _ E').
  set (c3 := set_ch_conn w2 _).
  assert (calls c3 !! fresh_call c = Some o) as Ho by apply lookup_insert_eq.
  mstep (read_call_run _ _ _ Ho).
  mstep (write_call_run _ _ (set_call_stream r o) _ Ho).
  assert (next_stream_id (conn w2) = id + 2) as Hn2 by (by rewrite Ht).
  destruct r as [s|].
  - destruct Hr as (Hs0 & Hh & _).
    set (st := set_stream_call (Some (fresh_call c)) (fresh_stream id)).
    assert (heap w2 !! s = Some (fresh_stream id)) as Hst by (rewrite Hh; apply lookup_insert_eq).
    set (c4 := set_calls _ _ c3).
    mstep (attach_run s (fresh_stream id) (fresh_call c) c4 Hst).
    unfold unlock_channel. rewrite M_bind_modify. do 2 eexists. split; [done|].
    assert (call_made c (set_ch_mutex false (set_ch_conn (upd_heap (insert s st) w2) c4))
      (fresh_call c) s (set_call_stream (Some s) o)) as Hmade.
    { exists (upd_heap (insert s st) w2). split_and!; [by apply (conn_ok_insert s (fresh_stream id))|done|done| |].
      - cbn. rewrite Hh. by rewrite insert_insert_eq.
      - unfold c4, c3, c2, c1, set_ch_mutex, set_ch_conn, set_calls. cbn. by rewrite insert_insert_eq. }
    split; [|split; [done|by exists s]]. by apply (chan_ok_made c _ s (set_call_stream (Some s) o)).
  - destruct Hr as (Hh & _ & Hfalse). rewrite M_bind_mret. unfold unlock_channel. rewrite M_bind_modify.
    set (c4 := set_ch_mutex false _).
    rewrite (M_bind_Ret (free_call (fresh_call c)) _ c4 () (set_calls (delete (fresh_call c) (calls c4)) (fresh_call c4) c4)).
    2:{ unfold free_call. cbn. by rewrite lookup_insert_eq. }
    assert (delete (fresh_call c) (calls c4) = calls c) as Hdel.
    { cbn. by rewrite insert_insert_eq, delete_insert_eq, delete_id. }
    do 2 eexists. split; [done|]. rewrite Hdel. split; [|done].
    apply (chan_ok_refused c w2); [done..|apply Pos.lt_le_incl, Pos.lt_succ_diag_r].
Qed.

Lemma create_call_run cq method host dl c :
  chan_ok c → streams_capacity (conn (ch_conn c)) < 2 ^ 60 →
  next_stream_id (conn (ch_conn c)) + 2 < 2 ^ 32 →
  ∃ r c', grpc_channel_create_call cq method host dl (Some c) = Ret (r, Some c') ∧ chan_ok c' ∧
    match r with
    | Some a => a = fresh_call c ∧ ∃ s o st, calls c' = <[a := o]> (calls c) ∧
        call_stream o = Some s ∧ call_cq o = cq ∧ heap (ch_conn c) !! s = None ∧
        heap (ch_conn c') = <[s := st]> (heap (ch_conn c)) ∧
        s_id st = next_stream_id (conn (ch_conn c)) ∧
        next_stream_id (conn (ch_conn c')) = next_stream_id (conn (ch_conn c)) + 2
    | None => calls c' = calls c ∧ heap (ch_conn c') = heap (ch_conn c) ∧
        (is_Some cq → is_Some method → false ∈ answers_of c)
    end.
Proof.
  intros Hok Hcap Hnext. unfold grpc_channel_create_call, nullable.
  destruct cq as [q|]; [|exists None, c; by split_and!; [..|intros []]].
  destruct method as [m|]; [|exists None, c; by split_and!; [..|intros _ []]].
  destruct (malloc_channel_run c) as (ok & al & E & Hfail & Hal). mstep E.
  destruct ok; cbn [negb].
  2:{ exists None, (with_answers al c). split; [done|]. split; [by apply chan_ok_answers|by auto]. }
  destruct (strdup_channel_run m (with_answers al c)) as (m' & al2 & E2 & Hal2). mstep E2.
  rewrite with_answers_twice.
  destruct (strdup_host_run host (with_answers al2 c)) as (h' & al3 & E3 & Hal3). mstep E3.
  rewrite with_answers_twice. set (o := mk_call _ _ _ _ _ _ _ _ _ _ _ _ _).
  destruct (make_call_run o (with_answers al3 c)) as (r & c' & E4 & Hok' & Hr);
    [by apply chan_ok_answers|done..|].
  rewrite E4. exists r, c'. split; [done|]. split; [done|]. destruct r as [a|].
  2:{ destruct Hr as (H1 & H2 & H3). split_and!; [done|done|]. intros _ _. by apply Hal, Hal2, Hal3, H3. }
  destruct Hr as [-> (s & w2 & _ & Hn & Hs & Hh & ->)]. split; [done|].
  exists s. do 2 eexists. split_and!; try done.
Qed.

Lemma lock_call_run a o c :
  calls c !! a = Some o → call_mutex o = false →
  lock_call a c = Ret ((), set_calls (<[a := set_call_mutex true o]> (calls c)) (fresh_call c) c).
Proof.
  intros Ha Hm. unfold lock_call. mstep (read_call_run _ _ _ Ha); rewrite Hm.
  by apply (write_call_run a o).
Qed.
Lemma unlock_call_run a o c :
  calls c !! a = Some o →
  unlock_call a c = Ret ((), set_calls (<[a := set_call_mutex false o]> (calls c)) (fresh_call c) c).
Proof.
  intros Ha. unfold unlock_call. mstep (read_call_run _ _ _ Ha).
  by apply (write_call_run a o).
Qed.

Lemma free_call_metadata_run m c : metadata m ≠ MdFreed → free_call_metadata m c = Ret ((), c).
Proof. unfold free_call_metadata. by destruct (metadata m). Qed.

(** A call and its stream go. *)
Lemma chan_ok_delete c w2 a s o so :
  chan_ok c → calls c !! a = Some o → call_stream o = Some s → heap (ch_conn c) !! s = Some so →
  s_call so = Some a →
  conn_ok w2 → heap w2 = delete s (heap (ch_conn c)) →
  next_stream_id (conn w2) = next_stream_id (conn (ch_conn c)) →
  chan_ok (set_calls (delete a (calls c)) (fresh_call c) (set_ch_conn w2 c)).
Proof.
  intros [Hconn Hm Ho Hi Hd Hc Hs Hf] Ha Has Hso Hsa Hw Hh Hn.
  split; cbn; rewrite ?Hn, ?Hh; try done.
  - intros x ox [_ Hx]%lookup_delete_Some. by apply (Hi x).
  - intros x y ox oy [_ Hx]%lookup_delete_Some [_ Hy]%lookup_delete_Some. by apply Hd.
  - intros b call [Hne Hb]%lookup_delete_Some. destruct (Hc b call Hb) as (? & ? & ? & x & ox & Hbx & Hx & Hxb).
    split_and!; [done..|]. exists x, ox. split_and!; [done| |done].
    rewrite lookup_delete_ne; [done|]. intros ->. congruence.
  - intros x ox [Hne Hx]%lookup_delete_Some. destruct (Hs x ox Hx) as (b & call & Hxb & Hb & Hbx).
    exists b, call. split_and!; [done| |done]. rewrite lookup_delete_ne; [done|]. intros ->. congruence.
  - intros b [_ Hb]%lookup_delete_is_Some. by apply Hf.
Qed.

Lemma call_destroy_run a o c :
  chan_ok c → calls c !! a = Some o →
  ∃ c' s, grpc_call_destroy (Some a) c = Ret ((), c') ∧ chan_ok c' ∧ call_stream o = Some s ∧
    calls c' = delete a (calls c) ∧ heap (ch_conn c') = delete s (heap (ch_conn c)) ∧
    next_stream_id (conn (ch_conn c')) = next_stream_id (conn (ch_conn c)).
Proof.
  intros Hok Ha. destruct (co_calls _ Hok a o Ha) as (Hm & Hm1 & Hm2 & s & so & Has & Hso & Hsa).
  unfold grpc_call_destroy. mstep (lock_call_run _ _ _ Ha Hm).
  set (c1 := set_calls _ _ c). set (o1 := set_call_mutex true o).
  assert (calls c1 !! a = Some o1) as Ha1 by apply lookup_insert_eq.
  mstep (read_call_run _ _ _ Ha1). cbn [call_stream o1 set_call_mutex].
  rewrite Has. set (o2 := set_call_stream None o1).
  destruct (http2_stream_destroy_run s (ch_conn c) (co_conn _ Hok)) as (w2 & E & Hw2 & Hh & _ & Ht); [by eexists|].
  assert (next_stream_id (conn w2) = next_stream_id (conn (ch_conn c))) as Hn by (by rewrite Ht).
  set (c2 := set_calls (<[a := o2]> (calls c1)) (fresh_call c1) c1).
  assert (calls c2 !! a = Some o2) as Ha2 by apply lookup_insert_eq.
  set (c3 := set_calls (<[a := set_call_mutex false o2]> (calls c2)) (fresh_call c2) c2).
  set (c4 := set_ch_conn w2 c3).
  assert (calls c4 !! a = Some (set_call_mutex false o2)) as Ha4 by apply lookup_insert_eq.
  set (c5 := set_calls (<[a := set_call_mutex true (set_call_mutex false o2)]> (calls c4)) (fresh_call c4) c4).
  rewrite (M_bind_Ret _ _ c1 () c5).
  2:{ mstep (write_call_run a o1 o2 c1 Ha1).
      mstep (unlock_call_run a o2 c2 Ha2).
      mstep (on_conn_run (http2_stream_destroy (Some s)) c3 () w2 E).
      by apply lock_call_run. }
  cbn [call_initial_metadata call_trailing_metadata o1 set_call_mutex].
  mstep (free_call_metadata_run _ c5 Hm1).
  mstep (free_call_metadata_run _ c5 Hm2).
  assert (calls c5 !! a = Some (set_call_mutex true (set_call_mutex false o2))) as Ha5 by apply lookup_insert_eq.
  mstep (unlock_call_run a _ c5 Ha5).
  unfold free_call. cbn. rewrite lookup_insert_eq. do 2 eexists. split; [done|].
  assert (∀ x, delete a (<[a := x]> (calls c5)) = delete a (calls c)) as Hdel.
  { intros x. cbn. rewrite !insert_insert_eq. apply map_eq. intros b. destruct (decide (a = b)) as [->|].
    - by rewrite !lookup_delete_eq.
    - by rewrite !lookup_delete_ne, lookup_insert_ne. }
  cbn in Hdel |- *. rewrite Hdel.
  split; [|done]. by apply (chan_ok_delete c w2 a s o so).
Qed.

Lemma call_cancel_run a o c :
  chan_ok c → calls c !! a = Some o →
  grpc_call_cancel (Some a) c =
    Ret (GRPC_CALL_OK, set_calls (<[a := set_cancelled o]> (calls c)) (fresh_call c) c).
Proof.
  intros Hok Ha. destruct (co_calls _ Hok a o Ha) as (Hm & _).
  unfold grpc_call_cancel. mstep (lock_call_run _ _ _ Ha Hm).
  set (c1 := set_calls _ _ c). set (o1 := set_call_mutex true o).
  assert (calls c1 !! a = Some o1) as Ha1 by apply lookup_insert_eq.
  mstep (read_call_run _ _ _ Ha1).
  mstep (write_call_run a o1 (set_cancelled o1) c1 Ha1).
  set (c2 := set_calls _ _ c1).
  assert (calls c2 !! a = Some (set_cancelled o1)) as Ha2 by apply lookup_insert_eq.
  mstep (unlock_call_run a _ c2 Ha2).
  unfold mret, M_ret, set_calls. cbn. rewrite !insert_insert_eq. do 4 f_equal.
  unfold set_cancelled, set_call_mutex. cbn. destruct o. cbn in *. by subst.
Qed.

Lemma chan_ok_cancel a o c :
  chan_ok c → calls c !! a = Some o →
  chan_ok (set_calls (<[a := set_cancelled o]> (calls c)) (fresh_call c) c).
Proof.
  intros [Hconn Hm Ho Hi Hd Hc Hs Hf] Ha. split; try done; cbn.
  - intros b call. rewrite lookup_insert_Some. intros [[<- <-]|[_ Hb]]; [exact (Hc a o Ha)|by apply Hc].
  - intros s so Hso. destruct (Hs s so Hso) as (b & call & ? & Hb & ?).
    destruct (decide (a = b)) as [->|Hne].
    + rewrite Ha in Hb. injection Hb as <-. exists b, (set_cancelled o). by rewrite lookup_insert_eq.
    + exists b, call. by rewrite lookup_insert_ne.
  - intros b. rewrite lookup_insert_is_Some. intros [<-|[_ ?]]; [apply Hf; by eexists|by apply Hf].
Qed.

(** ** Channels the code can reach *)

Inductive channel_step : grpc_channel → grpc_channel → Prop :=
| step_create_call cq m h dl r c c' :
    streams_capacity (conn (ch_conn c)) < 2 ^ 60 → next_stream_id (conn (ch_conn c)) + 2 < 2 ^ 32 →
    grpc_channel_create_call cq m h dl (Some c) = Ret (r, Some c') → channel_step c c'
| step_cancel a r c c' :
    is_Some (calls c !! a) → grpc_call_cancel (Some a) c = Ret (r, c') → channel_step c c'
| step_destroy_call a c c' :
    is_Some (calls c !! a) → grpc_call_destroy (Some a) c = Ret ((), c') → channel_step c c'.

Lemma channel_step_ok c c' : channel_step c c' → chan_ok c → chan_ok c'.
Proof.
  intros Hstep Hok. destruct Hstep as [cq m h dl r c c' Hcap Hn E|a r c c' [o Ho] E|a c c' [o Ho] E].
  - destruct (create_call_run cq m h dl c Hok Hcap Hn) as (r' & c1 & E' & ? & _).
    rewrite E in E'. by injection E' as _ <-.
  - rewrite (call_cancel_run a o c Hok Ho) in E. injection E as _ <-. by apply chan_ok_cancel.
  - destruct (call_destroy_run a o c Hok Ho) as (c1 & s & E' & ? & _). rewrite E in E'. by injection E' as <-.
Qed.

Lemma channel_create_ok tgt creds args al c al' :
  grpc_channel_create tgt creds args al = Ret (Some c, al') → chan_ok c ∧ calls c = ∅.
Proof.
  intros E. unfold grpc_channel_create in E. destruct tgt as [t|]; [|done].
  apply M_bind_inv in E as (b & al1 & _ & E). destruct b; [|done]. cbn [negb] in E.
  apply M_bind_inv in E as (b & al2 & _ & E). destruct b; [|done]. cbn [negb] in E.
  destruct (http2_connection_create true (mk_env al2 [] [] [] [])) as [[[h|] e]|f] eqn:Ec; [|done|done].
  injection E as <- _. split; [|done].
  destruct (initial_ok (mk_env al2 [] [] [] []) (mk_world h ∅ 1 e)) as [Hw _]; [by exists true, h, e|].
  assert (next_stream_id h = 1) as Hn.
  { destruct al2 as [|[] [|[] al3]]; vm_compute in Ec; try done; by injection Ec as <- _. }
  split; cbn; rewrite ?Hn; try done.
  - intros a [? ?]. done.
Qed.

(** The creation returns, without a channel only when an allocation failed. *)
Lemma channel_create_run tgt creds args al :
  ∃ o al', grpc_channel_create (Some tgt) creds args al = Ret (o, al') ∧ (∀ b, b ∈ al' → b ∈ al) ∧
    match o with
    | Some c => chan_ok c ∧ calls c = ∅ ∧ streams_capacity (conn (ch_conn c)) < 2 ^ 60 ∧
        next_stream_id (conn (ch_conn c)) = 1
    | None => false ∈ al
    end.
Proof.
  assert (∃ o al', grpc_channel_create (Some tgt) creds args al = Ret (o, al') ∧ (∀ b, b ∈ al' → b ∈ al) ∧
    match o with
    | Some c => streams_capacity (conn (ch_conn c)) < 2 ^ 60 ∧ next_stream_id (conn (ch_conn c)) = 1
    | None => false ∈ al
    end) as ([c|] & al' & E & Hal & H).
  { destruct al as [|[] [|[] [|[] [|[] al]]]]; do 2 eexists; (split; [reflexivity|]); split; try done; set_solver. }
  - destruct (channel_create_ok _ _ _ _ _ _ E) as [? ?]. by exists (Some c), al'.
  - by exists None, al'.
Qed.

(** No operation faults on the channel [c], on any of its calls. *)
Definition channel_progress (c : grpc_channel) : Prop :=
  (∀ cq m h dl, streams_capacity (conn (ch_conn c)) < 2 ^ 60 →
     next_stream_id (conn (ch_conn c)) + 2 < 2 ^ 32 →
     ∃ r c', grpc_channel_create_call cq m h dl (Some c) = Ret (r, Some c')) ∧
  ∀ a, is_Some (calls c !! a) →
    (∃ c', grpc_call_cancel (Some a) c = Ret (GRPC_CALL_OK, c')) ∧
    (∃ c', grpc_call_destroy (Some a) c = Ret ((), c')).

Lemma chan_ok_progress c : chan_ok c → channel_progress c.
Proof.
  intros Hok. split.
  - intros cq m h dl Hcap Hn. destruct (create_call_run cq m h dl c Hok Hcap Hn) as (r & c' & E & _).
    by do 2 eexists.
  - intros a [o Ho]. split; [rewrite (call_cancel_run a o c Hok Ho); by eexists|].
    destruct (call_destroy_run a o c Hok Ho) as (c' & s & E & _). by eexists.
Qed.


(** Without a call the channel has no stream, and its connection goes without a trace. *)
Lemma channel_destroy_run c :
  chan_ok c → calls c = ∅ → ∃ e, grpc_channel_destroy (Some c) = Ret (Some (∅, e, ∅)).
Proof.
  intros Hok E. pose proof (co_conn _ Hok) as Hw. unfold grpc_channel_destroy. rewrite (co_mutex _ Hok).
  assert (streams (conn (ch_conn c)) = []) as Hs.
  { destruct (streams (conn (ch_conn c))) as [|s l] eqn:El; [done|].
    assert (is_Some (heap (ch_conn c) !! s)) as [o Ho] by (apply (ok_listed _ Hw); rewrite El; left).
    destruct (co_streams _ Hok s o Ho) as (a & call & _ & Ha & _). by rewrite E in Ha. }
  rewrite (connection_destroy_empty _ Hw Hs), E. by eexists.
Qed.

(** Destroying a channel in its invariant frees its connection and leaves nothing when it
    has no live call, and deadlocks when it has one, on the stream of that call. *)
Theorem grpc_channel_destroy_spec c :
  chan_ok c →
  if decide (calls c = ∅)
  then ∃ e, grpc_channel_destroy (Some c) = Ret (Some (∅, e, ∅))
  else grpc_channel_destroy (Some c) = Fault Deadlock.
Proof.
  intros Hok. pose proof (co_conn _ Hok) as Hw. unfold grpc_channel_destroy. rewrite (co_mutex _ Hok).
  case_decide as E.
  - destruct (channel_destroy_run c Hok E) as [e He]. unfold grpc_channel_destroy in He.
    rewrite (co_mutex _ Hok) in He. rewrite He. by eexists.
  - rewrite (connection_destroy_deadlock _ Hw); [done|]. intros Hs.
    apply map_choose in E as (a & call & Ha).
    destruct (co_calls _ Hok a call Ha) as (_ & _ & _ & s & o & _ & Ho & _).
    assert (s ∈ streams (conn (ch_conn c))) as Hin by (apply (ok_listed _ Hw); by eexists).
    rewrite Hs in Hin. by apply elem_of_nil in Hin.
Qed.


(** ** The properties at work *)

(** A new channel, and the channel after a call is created on it. *)
Definition new_channel : grpc_channel :=
  match grpc_channel_create (Some [65; 0]) None None [] with
  | Ret (Some c, _) => c
  | _ => mk_channel [] None None false (mk_world (mk_connection (-1) None None true 1 false false [] 0 0 0 0 0) ∅ 1
           (mk_env [] [] [] [] [])) ∅ 1
  end.
Definition busy_channel : grpc_channel :=
  match grpc_channel_create_call (Some 1%positive) (Some [47; 0]) None (mk_timespec 0 0)
          (Some new_channel) with
  | Ret (_, Some c) => c
  | _ => new_channel
  end.

Lemma new_channel_created :
  grpc_channel_create (Some [65; 0]) None None [] = Ret (Some new_channel, []).
Proof. vm_compute. reflexivity. Qed.

Lemma busy_channel_step : channel_step new_channel busy_channel.
Proof.
  apply (step_create_call (Some 1%positive) (Some [47; 0]) None (mk_timespec 0 0) (Some 1%positive));
    vm_compute; reflexivity.
Qed.


Lemma busy_channel_ok : chan_ok busy_channel.
Proof.
  apply (channel_step_ok _ _ busy_channel_step).
  by apply (channel_create_ok (Some [65; 0]) None None [] new_channel [] new_channel_created).
Qed.

Lemma grpc_channel_destroy_witness :
  grpc_channel_destroy (Some busy_channel) = Fault Deadlock ∧
  ∃ e, grpc_channel_destroy (Some new_channel) = Ret (Some (∅, e, ∅)).
Proof.
  split.
  - by apply (grpc_channel_destroy_spec busy_channel busy_channel_ok).
  - apply (grpc_channel_destroy_spec new_channel).
    by apply (channel_create_ok (Some [65; 0]) None None [] new_channel [] new_channel_created).
Defined.
