(* ===== verification/Interceptors.v ===== *)
(** * Interceptor chains (src/src/interceptors.c)

    The chains of client and server interceptors: the nodes, the registration, the run in
    order that the first refusal stops, and the interceptors of the library.  The functions
    of the application are a parameter: what a function pointer does when it is called. *)

From Stdlib Require Import ZArith Lia.
From stdpp Require Import base tactics list option strings gmap.
From S2P Require Import Prelude Lists.

#[local] Open Scope Z_scope.
#[local] Set Warnings "-clear-no-such-hyp".

(** ** Data *)

(** [grpc_interceptor_node], its [next] pointer aside. *)
Record grpc_interceptor_node := mk_inode {
  interceptor_func : positive;
  node_user_data : option positive
}.

(** [grpc_client_interceptor_chain] and [grpc_server_interceptor_chain] have the same fields. *)
Record interceptor_chain := mk_ichain {
  ic_head : option positive;
  ic_tail : option positive;
  ic_count : Z;
  ic_mutex : bool
}.

Record grpc_client_interceptor_context := mk_client_ctx {
  cc_call : option positive;
  cc_method : option (list Z);
  cc_host : option (list Z);
  cc_initial_metadata : option positive;
  cc_send_message : option positive;
  cc_user_data : option positive
}.
Record grpc_server_interceptor_context := mk_server_ctx {
  sc_call : option positive;
  sc_method : option (list Z);
  sc_initial_metadata : option positive;
  sc_recv_message : option positive;
  sc_user_data : option positive
}.

Abbreviation chain_state := (heap_of interceptor_chain grpc_interceptor_node).

(** The chain next to the application's own state [U]. *)
Record iworld (U : Type) := mk_iworld { iw_chain : chain_state; iw_app : U }.
Arguments mk_iworld {U} _ _.
Arguments iw_chain {U} _.
Arguments iw_app {U} _.

Definition set_ic_mutex (b : bool) (c : interceptor_chain) : interceptor_chain :=
  mk_ichain (ic_head c) (ic_tail c) (ic_count c) b.
Definition set_ic_head (h : option positive) (c : interceptor_chain) : interceptor_chain :=
  mk_ichain h (ic_tail c) (ic_count c) (ic_mutex c).
Definition set_ic_tail (t : option positive) (c : interceptor_chain) : interceptor_chain :=
  mk_ichain (ic_head c) t (ic_count c) (ic_mutex c).
Definition incr_ic_count (c : interceptor_chain) : interceptor_chain :=
  mk_ichain (ic_head c) (ic_tail c) (u64 (ic_count c + 1)) (ic_mutex c).

Definition ic_lock : M chain_state () := λ w,
  if ic_mutex (obj w) then Fault Deadlock else Ret ((), upd_obj (set_ic_mutex true) w).
Definition ic_unlock : M chain_state () := modify (upd_obj (set_ic_mutex false)).

(** ** Nodes *)

Definition grpc_interceptor_node_create (func : positive) (user_data : option positive)
    : M chain_state (option positive) :=
  ok ← malloc_cell;
  if negb ok then mret None else
  node ← new_cell (mk_cell (mk_inode func user_data) None);
  mret (Some node).

Definition grpc_interceptor_node_destroy (node : positive) : M chain_state () := free_cell node.

(** ** Chains *)

Definition grpc_client_interceptor_chain_create : M allocs (option interceptor_chain) :=
  ok ← malloc;
  if negb ok then mret None else mret (Some (mk_ichain None None 0 false)).

Definition chain_link (node : positive) : M chain_state () :=
  _ ← ic_lock;
  c ← gets obj;
  _ ← match ic_head c with
      | None =>
          _ ← modify (upd_obj (set_ic_head (Some node)));
          modify (upd_obj (set_ic_tail (Some node)))
      | Some _ =>
          t ← of_option NullDeref (ic_tail c);
          last ← read_cell t;
          _ ← write_cell t (mk_cell (data last) (Some node));
          modify (upd_obj (set_ic_tail (Some node)))
      end;
  _ ← modify (upd_obj incr_ic_count);
  ic_unlock.

Definition grpc_client_interceptor_chain_add (interceptor user_data : option positive)
    : M (option chain_state) Z := nullable (-1)
  match interceptor with
  | None => mret (-1)
  | Some f =>
      node ← grpc_interceptor_node_create f user_data;
      match node with
      | None => mret (-1)
      | Some node => _ ← chain_link node; mret 0
      end
  end.

Fixpoint destroy_nodes (fuel : nat) (node : option positive) : M chain_state () :=
  match node with
  | None => mret ()
  | Some a =>
      match fuel with
      | O => fail OutOfFuel
      | S fuel =>
          c ← read_cell a;
          _ ← grpc_interceptor_node_destroy a;
          destroy_nodes fuel (next c)
      end
  end.

(** What is left of a destroyed chain are nodes nobody freed. *)
Definition grpc_client_interceptor_chain_destroy (chain : option chain_state)
    : outcome (option (gmap positive (cell grpc_interceptor_node))) :=
  match chain with
  | None => Ret None
  | Some w =>
      let body :=
        _ ← ic_lock;
        c ← gets obj;
        _ ← destroy_nodes (walk_fuel w) (ic_head c);
        ic_unlock in
      match body w with
      | Ret (_, w') => Ret (Some (cells w'))
      | Fault f => Fault f
      end
  end.

Definition grpc_server_interceptor_chain_create : M allocs (option interceptor_chain) :=
  grpc_client_interceptor_chain_create.
Definition grpc_server_interceptor_chain_add :
    option positive → option positive → M (option chain_state) Z :=
  grpc_client_interceptor_chain_add.
Definition grpc_server_interceptor_chain_destroy :
    option chain_state → outcome (option (gmap positive (cell grpc_interceptor_node))) :=
  grpc_client_interceptor_chain_destroy.

Section execute.
(** What the call of a function pointer with a context does; it may use the chain. *)
Context {U C : Type} (call_interceptor : positive → option C → M (iworld U) Z).

Definition on_chain {A} (m : M chain_state A) : M (iworld U) A :=
  zoom iw_chain (λ c w, mk_iworld c (iw_app w)) m.

(** The loop of both [execute]s; [ctx] sets the field [user_data] of the context. *)
Fixpoint execute_loop (fuel : nat) (ctx : option positive → C) (node : option positive)
    (result : Z) : M (iworld U) Z :=
  match node with
  | None => mret result
  | Some a =>
      if negb (result =? 0) then mret result else
      match fuel with
      | O => fail OutOfFuel
      | S fuel =>
          c ← on_chain (read_cell a);
          result ← call_interceptor (interceptor_func (data c)) (Some (ctx (node_user_data (data c))));
          c ← on_chain (read_cell a);
          execute_loop fuel ctx (next c) result
      end
  end.

Definition chain_execute (ctx : option positive → C) : M (iworld U) Z :=
  _ ← on_chain ic_lock;
  w ← gets iw_chain;
  result ← execute_loop (walk_fuel w) ctx (ic_head (obj w)) 0;
  _ ← on_chain ic_unlock;
  mret result.
End execute.

Definition grpc_client_interceptor_chain_execute {U}
    (call_interceptor : positive → option grpc_client_interceptor_context → M (iworld U) Z)
    (call : option positive) (method host : option (list Z))
    (initial_metadata send_message : option positive) : M (option (iworld U)) Z := nullable 0
  match call with
  | None => mret 0
  | Some _ =>
      chain_execute call_interceptor
        (mk_client_ctx call method host initial_metadata send_message)
  end.

Definition grpc_server_interceptor_chain_execute {U}
    (call_interceptor : positive → option grpc_server_interceptor_context → M (iworld U) Z)
    (call : option positive) (method : option (list Z))
    (initial_metadata recv_message : option positive) : M (option (iworld U)) Z := nullable 0
  match call with
  | None => mret 0
  | Some _ =>
      chain_execute call_interceptor
        (mk_server_ctx call method initial_metadata recv_message)
  end.

(** The interceptors of the library look at the context pointer only. *)
Definition grpc_logging_client_interceptor {S} (ctx : option grpc_client_interceptor_context) : M S Z :=
  match ctx with None => mret (-1) | Some _ => mret 0 end.
Definition grpc_logging_server_interceptor {S} (ctx : option grpc_server_interceptor_context) : M S Z :=
  match ctx with None => mret (-1) | Some _ => mret 0 end.
Definition grpc_auth_client_interceptor {S} (ctx : option grpc_client_interceptor_context) : M S Z :=
  match ctx with None => mret (-1) | Some _ => mret 0 end.
Definition grpc_auth_server_interceptor {S} (ctx : option grpc_server_interceptor_context) : M S Z :=
  match ctx with None => mret (-1) | Some _ => mret 0 end.

(** ** What a chain promises *)

(** The registered interceptors in order, and the answers of the allocator. *)
Record chain_spec := mk_cspec { nodes : list grpc_interceptor_node; spec_answers : allocs }.

Definition spec_add (f u : option positive) (s : chain_spec) : Z * chain_spec :=
  match f with
  | None => (-1, s)
  | Some f =>
      match spec_answers s with
      | [] => (0, mk_cspec (nodes s ++ [mk_inode f u]) [])
      | true :: al => (0, mk_cspec (nodes s ++ [mk_inode f u]) al)
      | false :: al => (-1, mk_cspec (nodes s) al)
      end
  end.

(** The application's functions in order, up to the first result that is not zero. *)
Fixpoint spec_execute {U C} (app : positive → C → M U Z) (ctx : option positive → C)
    (l : list grpc_interceptor_node) : M U Z :=
  match l with
  | [] => mret 0
  | n :: l =>
      r ← app (interceptor_func n) (ctx (node_user_data n));
      if r =? 0 then spec_execute app ctx l else mret r
  end.

Record chain_rel (w : chain_state) (s : chain_spec) : Prop := {
  ir_list : ∃ l, owns w (ic_head (obj w)) l ∧ l.*2 = nodes s ∧ ic_tail (obj w) = fst <$> last l;
  ir_count : ic_count (obj w) = u64 (zlen (nodes s));
  ir_mutex : ic_mutex (obj w) = false;
  ir_answers : cell_answers w = spec_answers s
}.

Lemma ic_lock_run (w : chain_state) :
  ic_mutex (obj w) = false → ic_lock w = Ret ((), upd_obj (set_ic_mutex true) w).
Proof. unfold ic_lock. by intros ->. Qed.

Lemma ic_reunlock (w : chain_state) :
  ic_mutex (obj w) = false → upd_obj (set_ic_mutex false) (upd_obj (set_ic_mutex true) w) = w.
Proof. destruct w as [[] ???]; cbn. by intros ->. Qed.

(** A node linked in at the end. *)
Lemma chain_link_run (n : grpc_interceptor_node) (w : chain_state) ns :
  (∃ l, owns w (ic_head (obj w)) l ∧ l.*2 = ns ∧ ic_tail (obj w) = fst <$> last l) →
  ic_mutex (obj w) = false →
  ∃ w', (node ← new_cell (mk_cell n None); chain_link node) w = Ret ((), w') ∧
    (∃ l, owns w' (ic_head (obj w')) l ∧ l.*2 = ns ++ [n] ∧ ic_tail (obj w') = fst <$> last l) ∧
    ic_mutex (obj w') = false ∧ ic_count (obj w') = u64 (ic_count (obj w) + 1) ∧
    cell_answers w' = cell_answers w.
Proof.
  intros (l & Ho & <- & Ht) Hm.
  set (w1 := mk_heap (obj w) (<[fresh_cell w := mk_cell n None]> (cells w))
               (Pos.succ (fresh_cell w)) (cell_answers w)).
  rewrite (M_bind_Ret _ _ w (fresh_cell w) w1 eq_refl). unfold chain_link.
  mstep (ic_lock_run w1 Hm); rewrite M_bind_gets.
  cbn [obj upd_obj ic_head ic_tail set_ic_mutex w1].
  destruct l as [|[t x] l _] using rev_ind.
  - pose proof (owns_chain _ _ _ Ho) as Hh. cbn in Hh. rewrite Hh. cbn.
    eexists. split; [done|]. split_and!; try done.
    exists [(fresh_cell w, n)]. split_and!; [|done|done].
    pose proof (owns_cons w _ [] n Ho) as Ho'. rewrite Hh in Ho'.
    by apply (owns_obj (λ _, mk_ichain (Some (fresh_cell w)) (Some (fresh_cell w))
      (u64 (ic_count (obj w) + 1)) false)) in Ho'.
  - rewrite Ht, last_snoc. cbn [fmap option_fmap option_map fst].
    destruct (owns_snoc w _ l t x n Ho) as [Hx Ho'].
    assert (is_Some (ic_head (obj w))) as [h ->].
    { pose proof (owns_chain _ _ _ Ho) as Hh. destruct l as [|[b y] l]; destruct Hh as [-> _]; by eexists. }
    assert (t ≠ fresh_cell w) as Hne.
    { intros ->. by rewrite (owns_fresh_None _ _ _ Ho) in Hx. }
    set (w2 := upd_obj _ w1).
    assert (cells w2 !! t = Some (mk_cell x None)) as Hx2 by (cbn; by rewrite lookup_insert_ne).
    rewrite (M_bind_Ret _ _ w2 () (upd_obj (set_ic_tail (Some (fresh_cell w)))
      (upd_cells (insert t (mk_cell x (Some (fresh_cell w)))) w2))).
    2:{ rewrite (M_bind_Ret _ _ w2 t w2 eq_refl).
        mstep (read_cell_run _ _ _ Hx2).
        by mstep (write_cell_run _ _ _ _ Hx2). }
    rewrite M_bind_modify. eexists. split; [done|]. split_and!; try done.
    exists (l ++ [(t, x)] ++ [(fresh_cell w, n)]). split_and!.
    + by apply (owns_obj (λ _, mk_ichain (ic_head (obj w))
        (Some (fresh_cell w)) (u64 (ic_count (obj w) + 1)) false)) in Ho'.
    + rewrite !fmap_app. by rewrite <- app_assoc.
    + by rewrite app_assoc, last_snoc.
Qed.

Lemma chain_add_run f u w s :
  chain_rel w s →
  ∃ w', grpc_client_interceptor_chain_add f u (Some w) = Ret ((spec_add f u s).1, Some w') ∧
    chain_rel w' (spec_add f u s).2.
Proof.
  intros [Hl Hn Hm Ha]. unfold grpc_client_interceptor_chain_add.
  destruct f as [f|]; [|exists w; split; [done|by split]].
  unfold grpc_interceptor_node_create, malloc_cell, zoom, mbind, M_bind. cbn [nullable].
  rewrite Ha. unfold spec_add.
  destruct (malloc (spec_answers s)) as [[ok al]|] eqn:E; [|by destruct (spec_answers s)].
  set (w1 := mk_heap (obj w) (cells w) (fresh_cell w) al).
  assert (∃ l, owns w1 (ic_head (obj w1)) l ∧ l.*2 = nodes s ∧ ic_tail (obj w1) = fst <$> last l) as Hw1.
  { destruct Hl as (l & Ho & ? & ?). exists l. split_and!; [by apply owns_answers|done..]. }
  destruct ok; cbn [negb].
  - destruct (chain_link_run (mk_inode f u) w1 (nodes s) Hw1 Hm) as (w' & Er & Hn' & Hm' & Hc' & Ha').
    unfold mbind, M_bind in Er. cbn [new_cell] in Er |- *. unfold mret, M_ret. rewrite Er.
    assert (chain_rel w' (mk_cspec (nodes s ++ [mk_inode f u]) al)) as Hr.
    { split; [done| |done|done]. rewrite Hc'. cbn. rewrite Hn, u64_add_l. f_equal. rewrite length_app.
      cbn. lia. }
    clear Ha' Hw1 w1 Er Hc'. exists w'. by destruct (spec_answers s) as [|[] ?]; simplify_eq/=.
  - exists w1. destruct (spec_answers s) as [|[] ?]; simplify_eq/=; (split; [done|by split]).
Qed.

Lemma destroy_nodes_run n p l (w : chain_state) :
  owns w p l → (length l ≤ n)%nat →
  destroy_nodes n p w = Ret ((), upd_cells (λ _, ∅) w).
Proof. exact (free_chain_run n p l w). Qed.

Lemma chain_destroy_run w s :
  chain_rel w s → grpc_client_interceptor_chain_destroy (Some w) = Ret (Some ∅).
Proof.
  intros [(l & Ho & _) _ Hm _]. unfold grpc_client_interceptor_chain_destroy.
  mstep (ic_lock_run w Hm); rewrite M_bind_gets. cbn [obj upd_obj ic_head set_ic_mutex].
  pose proof (owns_fuel _ _ _ Ho) as Hf.
  mstep (destroy_nodes_run (walk_fuel w) (ic_head (obj w)) l
    (upd_obj (set_ic_mutex true) w) (owns_obj _ _ _ _ Ho) ltac:(lia)). done.
Qed.

Section execute_run.
Context {U C : Type}.

(** An application function that works on the application's state only. *)
Definition app_only (app : positive → C → M U Z) (f : positive) (ctx : option C) : M (iworld U) Z :=
  match ctx with
  | None => mret (-1)
  | Some c => zoom iw_app (λ u w, mk_iworld (iw_chain w) u) (app f c)
  end.

Lemma execute_loop_run app (ctx : option positive → C) n p l (c : chain_state) u :
  chain (cells c) p l None → (length l ≤ n)%nat →
  execute_loop (app_only app) n ctx p 0 (mk_iworld c u) =
    match spec_execute app ctx l.*2 u with
    | Ret (r, u') => Ret (r, mk_iworld c u')
    | Fault f => Fault f
    end.
Proof.
  revert p l u. induction n as [|n IH]; intros p l u Hc Hn; destruct l as [|[a x] l]; try (cbn in Hn; lia).
  1,2: by cbn in Hc; subst p.
  destruct Hc as (-> & r & Ha & Hc). cbn [execute_loop Z.eqb negb fmap list_fmap snd spec_execute].
  assert (on_chain (read_cell a) (mk_iworld c u) = Ret (mk_cell x r, mk_iworld c u)) as Hrd.
  { unfold on_chain, zoom. cbn. by rewrite (read_cell_run _ _ _ Ha). }
  mstep Hrd. cbn [data].
  destruct (app (interceptor_func x) (ctx (node_user_data x)) u) as [[z u']|f] eqn:Ea.
  2:{ rewrite (M_bind_Fault (app _ _) _ _ f Ea). apply (M_bind_Fault (app_only app _ _)).
      unfold app_only, zoom. cbn. by rewrite Ea. }
  rewrite (M_bind_Ret (app _ _) _ _ z u' Ea).
  rewrite (M_bind_Ret (app_only app _ _) _ _ z (mk_iworld c u')).
  2:{ unfold app_only, zoom. cbn. by rewrite Ea. }
  assert (on_chain (read_cell a) (mk_iworld c u') = Ret (mk_cell x r, mk_iworld c u')) as Hrd'.
  { unfold on_chain, zoom. cbn. by rewrite (read_cell_run _ _ _ Ha). }
  mstep Hrd'. cbn [next].
  destruct (Z.eqb_spec z 0) as [->|Hz]; [apply (IH r l); [exact Hc|cbn in Hn; lia]|].
  apply Z.eqb_neq in Hz. destruct n, r; cbn [execute_loop]; rewrite ?Hz; done.
Qed.

Lemma chain_execute_run app (ctx : option positive → C) (c : chain_state) u s :
  chain_rel c s →
  chain_execute (app_only app) ctx (mk_iworld c u) =
    match spec_execute app ctx (nodes s) u with
    | Ret (r, u') => Ret (r, mk_iworld c u')
    | Fault f => Fault f
    end.
Proof.
  intros [(l & Ho & <- & _) _ Hm _]. unfold chain_execute.
  set (c1 := upd_obj (set_ic_mutex true) c).
  rewrite (M_bind_Ret _ _ _ () (mk_iworld c1 u)).
  2:{ unfold on_chain, zoom. cbn. by rewrite (ic_lock_run c Hm). }
  rewrite M_bind_gets. cbn [iw_chain].
  assert (owns c1 (ic_head (obj c1)) l) as Ho1 by (by apply (owns_obj (set_ic_mutex true)) in Ho).
  pose proof (owns_fuel _ _ _ Ho1) as Hf. unfold mbind at 1, M_bind at 1.
  rewrite (execute_loop_run app ctx _ _ l c1 u (owns_chain _ _ _ Ho1)) by lia.
  destruct (spec_execute app ctx l.*2 u) as [[r u']|]; [|done].
  exact (f_equal (λ x, Ret (r, mk_iworld x u')) (ic_reunlock c Hm)).
Qed.
End execute_run.

(** ** Histories of calls *)

Section histories.
Context {U : Type} (app : positive → grpc_client_interceptor_context → M U Z).

Inductive chain_call :=
| CallAdd (f u : option positive)
| CallExecute (call : option positive) (method host : option (list Z)) (md msg : option positive).

(** The calls one after the other, with their results. *)
Fixpoint run_chain (cs : list chain_call) : M (iworld U) (list Z) :=
  match cs with
  | [] => mret []
  | CallAdd f u :: cs =>
      r ← on_chain (deref (grpc_client_interceptor_chain_add f u));
      rs ← run_chain cs; mret (r :: rs)
  | CallExecute call m h md msg :: cs =>
      r ← deref (grpc_client_interceptor_chain_execute (app_only app) call m h md msg);
      rs ← run_chain cs; mret (r :: rs)
  end.

Fixpoint spec_chain (cs : list chain_call) (s : chain_spec) : M U (list Z) :=
  match cs with
  | [] => mret []
  | CallAdd f u :: cs =>
      rs ← spec_chain cs (spec_add f u s).2; mret ((spec_add f u s).1 :: rs)
  | CallExecute None _ _ _ _ :: cs => rs ← spec_chain cs s; mret (0 :: rs)
  | CallExecute (Some c) m h md msg :: cs =>
      r ← spec_execute app (mk_client_ctx (Some c) m h md msg) (nodes s);
      rs ← spec_chain cs s; mret (r :: rs)
  end.

Lemma run_chain_run cs w s u :
  chain_rel w s →
  match spec_chain cs s u with
  | Ret (rs, u') => ∃ w', run_chain cs (mk_iworld w u) = Ret (rs, mk_iworld w' u') ∧
                      grpc_client_interceptor_chain_destroy (Some w') = Ret (Some ∅)
  | Fault f => run_chain cs (mk_iworld w u) = Fault f
  end.
Proof.
  revert w s u. induction cs as [|[f v|[c|] m h md msg] cs IH]; intros w s u Hr; cbn [run_chain spec_chain].
  - exists w. split; [done|]. by apply (chain_destroy_run _ s).
  - destruct (chain_add_run f v w s Hr) as (w1 & E & Hr1).
    rewrite (M_bind_Ret _ _ _ (spec_add f v s).1 (mk_iworld w1 u)).
    2:{ unfold on_chain, zoom, deref. cbn [iw_chain]. by rewrite E. }
    specialize (IH w1 _ u Hr1). unfold mbind, M_bind.
    destruct (spec_chain cs (spec_add f v s).2 u) as [[rs u']|]; [|by rewrite IH].
    destruct IH as (w' & -> & ?). by exists w'.
  - pose proof (chain_execute_run app (mk_client_ctx (Some c) m h md msg) w u s Hr) as E.
    unfold mbind, M_bind, deref, grpc_client_interceptor_chain_execute, nullable. rewrite E.
    destruct (spec_execute app _ (nodes s) u) as [[r u1]|]; [|done].
    specialize (IH w s u1 Hr). destruct (spec_chain cs s u1) as [[rs u']|]; [|by rewrite IH].
    destruct IH as (w' & -> & ?). by exists w'.
  - rewrite (M_bind_Ret _ _ _ 0 (mk_iworld w u)) by done.
    specialize (IH w s u Hr). unfold mbind, M_bind.
    destruct (spec_chain cs s u) as [[rs u']|]; [|by rewrite IH].
    destruct IH as (w' & -> & ?). by exists w'.
Qed.
End histories.

Lemma chain_create_rel al c al' :
  grpc_client_interceptor_chain_create al = Ret (Some c, al') →
  chain_rel (mk_heap c ∅ 1 al') (mk_cspec [] al').
Proof.
  unfold grpc_client_interceptor_chain_create. intros (ok & al1 & _ & E)%M_bind_inv.
  destruct ok; [|done]. injection E as <- <-. split; try done. exists []. by split_and!; [apply owns_nil|..].
Qed.

(** C9. An interceptor chain refines the list of what was registered: every history of
    registrations and runs returns what running the application's functions in the order of
    registration, up to the first result that is not zero, returns, with the same effect on the
    application's state; destroying the chain afterwards frees every node. *)
Theorem interceptor_chain_refines {U} (app : positive → grpc_client_interceptor_context → M U Z)
    al c al' cs u :
  grpc_client_interceptor_chain_create al = Ret (Some c, al') →
  match spec_chain app cs (mk_cspec [] al') u with
  | Ret (rs, u') => ∃ w, run_chain app cs (mk_iworld (mk_heap c ∅ 1 al') u) = Ret (rs, mk_iworld w u') ∧
                      grpc_client_interceptor_chain_destroy (Some w) = Ret (Some ∅)
  | Fault f => run_chain app cs (mk_iworld (mk_heap c ∅ 1 al') u) = Fault f
  end.
Proof. intros E. apply run_chain_run. by apply (chain_create_rel al). Qed.

(** An interceptor that registers another on the chain that runs it. *)
Definition registers_itself {U C} (f : positive) (ctx : option C) : M (iworld U) Z :=
  on_chain (deref (grpc_client_interceptor_chain_add (Some f) None)).

(** An interceptor that registers another on the chain that runs it deadlocks the run: the
    functions of the application are called with the chain's mutex held. *)
Theorem interceptor_chain_reentrant_deadlock {U} (w : chain_state) (u : U) n ns al call m md msg :
  chain_rel w (mk_cspec (n :: ns) al) → hd true al = true →
  grpc_server_interceptor_chain_execute registers_itself (Some call) m md msg (Some (mk_iworld w u)) =
    Fault Deadlock.
Proof.
  intros [(l & Ho & Hl & _) _ Hm Ha] Hal. unfold grpc_server_interceptor_chain_execute, nullable, chain_execute.
  set (w1 := upd_obj (set_ic_mutex true) w).
  rewrite (M_bind_Ret _ _ _ () (mk_iworld w1 u)).
  2:{ unfold on_chain, zoom. cbn. by rewrite (ic_lock_run w Hm). }
  rewrite M_bind_gets. cbn [iw_chain]. destruct l as [|[a x] l]; [done|].
  destruct (owns_chain _ _ _ Ho) as (Hh & r & Hx & _).
  change (ic_head (obj w1)) with (ic_head (obj w)). rewrite Hh. unfold walk_fuel.
  cbn [execute_loop Z.eqb negb].
  rewrite (M_bind_Fault _ _ _ Deadlock); [done|].
  rewrite (M_bind_Ret _ _ _ (mk_cell x r) (mk_iworld w1 u)).
  2:{ unfold on_chain, zoom. cbn. by rewrite (read_cell_run _ _ w1 Hx). }
  rewrite (M_bind_Fault _ _ _ Deadlock); [done|].
  unfold registers_itself, on_chain, zoom, deref, grpc_client_interceptor_chain_add, nullable.
  unfold grpc_interceptor_node_create, malloc_cell, zoom, mbind, M_bind. cbn. rewrite Ha. cbn.
  by destruct al as [|[] al].
Qed.

(** ** The properties at work *)

(** Interceptors 1 and 2 count their calls; the second one refuses every other call. *)
Definition counting (f : positive) (ctx : grpc_client_interceptor_context) : M nat Z := λ n,
  Ret (if decide (f = 2%positive) then Z.of_nat n mod 2 else 0, S n).

Definition sample_calls : list chain_call :=
  [CallAdd (Some 1%positive) None; CallAdd (Some 2%positive) None; CallAdd (Some 1%positive) None;
   CallAdd (Some 2%positive) None; CallAdd None None;
   CallExecute (Some 9%positive) None None None None;
   CallExecute (Some 9%positive) None None None None].

(** The fourth allocation of a node fails; the second run stops at interceptor 2. *)
Lemma interceptor_chain_refines_witness :
  ∃ w, run_chain counting sample_calls
    (mk_iworld (mk_heap (mk_ichain None None 0 false) ∅ 1 [true; true; true; false]) 1%nat) =
      Ret ([0; 0; 0; -1; -1; 0; 1], mk_iworld w 6%nat) ∧
    grpc_client_interceptor_chain_destroy (Some w) = Ret (Some ∅).
Proof.
  exact (interceptor_chain_refines counting [true; true; true; true; false] (mk_ichain None None 0 false)
    [true; true; true; false] sample_calls 1%nat eq_refl).
Defined.

(** A chain of one interceptor. *)
Definition one_interceptor : chain_state :=
  mk_heap (mk_ichain (Some 1%positive) (Some 1%positive) 1 false)
    {[1%positive := mk_cell (mk_inode 4 None) None]} 2 [].

Lemma one_interceptor_rel : chain_rel one_interceptor (mk_cspec [mk_inode 4 None] []).
Proof.
  destruct (chain_add_run (Some 4%positive) None (mk_heap (mk_ichain None None 0 false) ∅ 1 [])
    (mk_cspec [] [])) as (w' & E & Hr); [by apply (chain_create_rel [])|].
  vm_compute in E. by injection E as <-.
Qed.

Lemma interceptor_chain_reentrant_witness :
  grpc_server_interceptor_chain_execute registers_itself (Some 9%positive) None None None
    (Some (mk_iworld one_interceptor ())) = Fault Deadlock.
Proof.
  exact (interceptor_chain_reentrant_deadlock one_interceptor () (mk_inode 4 None) [] [] 9%positive
    None None None one_interceptor_rel eq_refl).
Defined.
