(* ===== verification/NameResolver.v ===== *)
(** * Name resolution (src/src/name_resolver.c)

    The parsing of targets into a local buffer, the static and the DNS resolver, and the
    resolver object with its list of addresses.  [getaddrinfo], [inet_ntop] and the custom
    resolver of the application are parameters. *)

From Stdlib Require Import ZArith Lia.
From stdpp Require Import base tactics list option strings gmap.
From S2P Require Import Prelude Lists CStrings.

#[local] Open Scope Z_scope.
#[local] Set Warnings "-clear-no-such-hyp".

(** ** Data *)

Definition GRPC_RESOLVER_DNS : Z := 0.
Definition GRPC_RESOLVER_STATIC : Z := 1.
Definition GRPC_RESOLVER_CUSTOM : Z := 2.

(** [grpc_resolved_address], its [next] pointer aside. *)
Record grpc_resolved_address := mk_resolved {
  ra_address : list Z;
  ra_port : Z
}.

Record grpc_name_resolver := mk_resolver {
  rs_type : Z;
  rs_target : list Z;
  rs_addresses : option positive;
  address_count : Z;
  rs_mutex : bool;
  custom_resolve : option positive;
  rs_user_data : option positive
}.

Abbreviation resolver_state := (heap_of grpc_name_resolver grpc_resolved_address).

Definition set_rs_mutex (b : bool) (r : grpc_name_resolver) : grpc_name_resolver :=
  mk_resolver (rs_type r) (rs_target r) (rs_addresses r) (address_count r) b (custom_resolve r) (rs_user_data r).
Definition set_rs_addresses (p : option positive) (n : Z) (r : grpc_name_resolver) : grpc_name_resolver :=
  mk_resolver (rs_type r) (rs_target r) p n (rs_mutex r) (custom_resolve r) (rs_user_data r).
Definition set_custom (f : positive) (u : option positive) (r : grpc_name_resolver) : grpc_name_resolver :=
  mk_resolver (rs_type r) (rs_target r) (rs_addresses r) (address_count r) (rs_mutex r) (Some f) u.

Definition rs_lock : M resolver_state () := λ w,
  if rs_mutex (obj w) then Fault Deadlock else Ret ((), upd_obj (set_rs_mutex true) w).
Definition rs_unlock : M resolver_state () := modify (upd_obj (set_rs_mutex false)).

(** What the code reads of a [struct addrinfo]: the family and the address. *)
Record addrinfo := mk_addrinfo { ai_family : Z; ai_addr : list Z }.
Definition AF_INET : Z := 2.
Definition AF_INET6 : Z := 10.

(** ** Addresses *)

Definition grpc_resolved_address_create (address : list Z) (port : Z) : M resolver_state (option positive) :=
  ok ← malloc_cell;
  if negb ok then mret None else
  dup ← malloc_cell;                 (* strdup *)
  if negb dup then mret None else
  a ← new_cell (mk_cell (mk_resolved (c_str address ++ [0]) port) None);
  mret (Some a).

Definition grpc_resolved_address_destroy (addr : option positive) : M resolver_state () :=
  match addr with None => mret () | Some a => free_cell a end.

Fixpoint grpc_resolved_address_list_destroy (fuel : nat) (head : option positive) : M resolver_state () :=
  match head with
  | None => mret ()
  | Some a =>
      match fuel with
      | O => fail OutOfFuel
      | S fuel =>
          c ← read_cell a;
          _ ← grpc_resolved_address_destroy (Some a);
          grpc_resolved_address_list_destroy fuel (next c)
      end
  end.

Section resolver.
(** The content a local array of 256 bytes happens to have. *)
Context (locals : list Z).
(** The C library's resolver, and the application's. *)
Context (getaddrinfo : list Z → option (list addrinfo)).
Context (inet_ntop : Z → list Z → option (list Z)).
Context (call_custom : positive → list Z → option positive → M resolver_state (option positive)).

(** The host in the local buffer and the port; [None] when the host does not fit. *)
Definition parse_target (tgt : list Z) : outcome (option (list Z * Z)) :=
  match strchr tgt 58 with
  | Some len =>
      if (length locals <=? len)%nat then Ret None else
      buf ← strncpy locals tgt len;
      buf ← store buf (Z.of_nat len) 0;
      port ← atoi (drop (S len) tgt);
      Ret (Some (buf, port))
  | None =>
      buf ← strncpy locals tgt (length locals - 1);
      buf ← store buf (Z.of_nat (length locals - 1)) 0;
      Ret (Some (buf, 50051))
  end.

(** The loop over the results of [getaddrinfo]. *)
Fixpoint dns_loop (rs : list addrinfo) (port : Z) (head tail : option positive)
    : M resolver_state (option positive) :=
  match rs with
  | [] => mret head
  | rp :: rs =>
      if (ai_family rp =? AF_INET) || (ai_family rp =? AF_INET6) then
        match inet_ntop (ai_family rp) (ai_addr rp) with
        | None => dns_loop rs port head tail
        | Some addr_str =>
            new_addr ← grpc_resolved_address_create addr_str port;
            match new_addr, head with
            | None, _ => dns_loop rs port head tail
            | Some a, None => dns_loop rs port (Some a) (Some a)
            | Some a, Some h =>
                t ← of_option NullDeref tail;
                c ← read_cell t;
                _ ← write_cell t (mk_cell (data c) (Some a));
                dns_loop rs port head (Some a)
            end
        end
      else dns_loop rs port head tail
  end.

Definition grpc_dns_resolve (tgt : option (list Z)) : M resolver_state (option positive) :=
  match tgt with
  | None => mret None
  | Some tgt =>
      parsed ← lift (parse_target tgt);
      match parsed with
      | None => mret None
      | Some (hostname, port) =>
          match getaddrinfo hostname with
          | None => mret None
          | Some result => dns_loop result port None None
          end
      end
  end.

Definition grpc_static_resolve (tgt : option (list Z)) : M resolver_state (option positive) :=
  match tgt with
  | None => mret None
  | Some tgt =>
      parsed ← lift (parse_target tgt);
      match parsed with
      | None => mret None
      | Some (address, port) => grpc_resolved_address_create address port
      end
  end.

(** ** The resolver object *)

Definition grpc_name_resolver_create (type : Z) (tgt : option (list Z))
    : M allocs (option grpc_name_resolver) :=
  match tgt with
  | None => mret None
  | Some tgt =>
      ok ← malloc;
      if negb ok then mret None else
      dup ← malloc;                  (* strdup *)
      if negb dup then mret None else
      mret (Some (mk_resolver type (c_str tgt ++ [0]) None 0 false None None))
  end.

(** The loop that counts the addresses. *)
Fixpoint count_addresses (fuel : nat) (addr : option positive) : M resolver_state () :=
  match addr with
  | None => mret ()
  | Some a =>
      match fuel with
      | O => fail OutOfFuel
      | S fuel =>
          _ ← modify (upd_obj (λ r, set_rs_addresses (rs_addresses r) (u64 (address_count r + 1)) r));
          c ← read_cell a;
          count_addresses fuel (next c)
      end
  end.

(** The switch on the type; [None] is its default branch. *)
Definition resolve_by_type (r : grpc_name_resolver) : M resolver_state (option (option positive)) :=
  if rs_type r =? GRPC_RESOLVER_DNS then
    resolved ← grpc_dns_resolve (Some (rs_target r)); mret (Some resolved)
  else if rs_type r =? GRPC_RESOLVER_STATIC then
    resolved ← grpc_static_resolve (Some (rs_target r)); mret (Some resolved)
  else if rs_type r =? GRPC_RESOLVER_CUSTOM then
    match custom_resolve r with
    | None => mret (Some None)
    | Some f => resolved ← call_custom f (rs_target r) (rs_user_data r); mret (Some resolved)
    end
  else mret None.

Definition grpc_name_resolver_resolve : M (option resolver_state) Z := nullable (-1) (
  _ ← rs_lock;
  w ← get;
  _ ← grpc_resolved_address_list_destroy (walk_fuel w) (rs_addresses (obj w));
  _ ← modify (upd_obj (set_rs_addresses None 0));
  r ← gets obj;
  resolved ← resolve_by_type r;
  match resolved with
  | None | Some None => _ ← rs_unlock; mret (-1)
  | Some (Some p) =>
      _ ← modify (upd_obj (λ r, set_rs_addresses (Some p) (address_count r) r));
      w ← get;
      _ ← count_addresses (walk_fuel w) (Some p);
      _ ← rs_unlock;
      mret 0
  end).

Definition grpc_name_resolver_get_addresses : M (option resolver_state) (option positive) := nullable None (
  _ ← rs_lock;
  addresses ← gets (λ w, rs_addresses (obj w));
  _ ← rs_unlock;
  mret addresses).

Definition grpc_name_resolver_get_address_count : M (option resolver_state) Z := nullable 0 (
  _ ← rs_lock;
  count ← gets (λ w, address_count (obj w));
  _ ← rs_unlock;
  mret count).

Definition grpc_name_resolver_set_custom_resolver (f u : option positive) : M (option resolver_state) Z :=
  nullable (-1)
  match f with
  | None => mret (-1)
  | Some f =>
      _ ← rs_lock;
      _ ← modify (upd_obj (set_custom f u));
      _ ← rs_unlock;
      mret 0
  end.

(** What is left of a destroyed resolver are addresses nobody freed. *)
Definition grpc_name_resolver_destroy (w : option resolver_state)
    : outcome (option (gmap positive (cell grpc_resolved_address))) :=
  match w with
  | None => Ret None
  | Some w =>
      let body :=
        _ ← rs_lock;
        r ← gets obj;
        _ ← grpc_resolved_address_list_destroy (walk_fuel w) (rs_addresses r);
        rs_unlock in
      match body w with
      | Ret (_, w') => Ret (Some (cells w'))
      | Fault f => Fault f
      end
  end.

(** ** What resolution promises *)

(** The host of a target and the number after its first colon. *)
Definition split_target (tgt : list Z) : option (list Z * outcome Z) :=
  match strchr tgt 58 with
  | Some n => if (n <? 256)%nat then Some (take n tgt, atoi (drop (S n) tgt)) else None
  | None => Some (take 255 (c_str tgt), Ret 50051)
  end.

(** An address made of a string and a port, when both allocations succeed. *)
Definition made_address (al : allocs) (s : list Z) (port : Z) : option grpc_resolved_address * allocs :=
  let '(ok, al) := answer al in
  if negb ok then (None, al) else
  let '(dup, al) := answer al in
  if negb dup then (None, al) else (Some (mk_resolved (c_str s ++ [0]) port), al).

(** The results that are IPv4 or IPv6 addresses with a text, in order. *)
Fixpoint dns_addresses (rs : list addrinfo) (port : Z) (al : allocs) : list grpc_resolved_address :=
  match rs with
  | [] => []
  | rp :: rs =>
      if (ai_family rp =? AF_INET) || (ai_family rp =? AF_INET6) then
        match inet_ntop (ai_family rp) (ai_addr rp) with
        | None => dns_addresses rs port al
        | Some s =>
            let '(a, al) := made_address al s port in
            option_list a ++ dns_addresses rs port al
        end
      else dns_addresses rs port al
  end.

(** The list a resolution leaves; of a custom resolver nothing is said. *)
Definition expected (r : grpc_name_resolver) (al : allocs) : list grpc_resolved_address :=
  match split_target (rs_target r) with
  | Some (host, Ret port) =>
      if rs_type r =? GRPC_RESOLVER_DNS then
        match getaddrinfo (host ++ [0]) with
        | None => []
        | Some rs => dns_addresses rs port al
        end
      else if rs_type r =? GRPC_RESOLVER_STATIC then option_list (made_address al (host ++ [0]) port).1
      else []
  | _ => []
  end.

(** The port of the target is an [int]. *)
Definition target_ok (tgt : list Z) : Prop :=
  match split_target tgt with Some (_, Fault _) => False | _ => True end.

(** The list of the resolver owns its addresses and is counted. *)
Record resolver_rel (w : resolver_state) (l : list (positive * grpc_resolved_address)) : Prop := {
  rr_owns : owns w (rs_addresses (obj w)) l;
  rr_count : address_count (obj w) = u64 (zlen l);
  rr_mutex : rs_mutex (obj w) = false
}.

(** ** Parsing *)

Lemma parse_target_run tgt :
  length locals = 256%nat →
  match split_target tgt with
  | None => parse_target tgt = Ret None
  | Some (host, Ret port) =>
      ∃ buf, parse_target tgt = Ret (Some (buf, port)) ∧ c_str buf = host ∧ length buf = 256%nat
  | Some (_, Fault f) => parse_target tgt = Fault f
  end.
Proof.
  intros Hl. unfold split_target, parse_target. pose proof (strchr_split tgt 58 ltac:(lia)) as Hs.
  destruct (strchr tgt 58) as [n|].
  - destruct Hs as (pre & tl & -> & Hn & Hp & Hc). rewrite Hl.
    destruct (Nat.ltb_spec n 256), (Nat.leb_spec 256 n); try lia; [|done].
    rewrite (outcome_bind_Ret _ _ _ (strncpy_whole locals pre (58 :: tl) n Hp (eq_sym Hn) ltac:(lia))).
    destruct (drop n locals) as [|x suf] eqn:Ed.
    { apply (f_equal length) in Ed. rewrite length_drop in Ed. cbn in Ed. lia. }
    rewrite (outcome_bind_Ret _ _ _ (store_app pre x suf (Z.of_nat n) 0 ltac:(lia))).
    replace (take n (pre ++ 58 :: tl)) with pre by (by rewrite Hn, take_app_length).
    destruct (atoi (drop (S n) (pre ++ 58 :: tl))) as [port|f]; [|done].
    exists (pre ++ 0 :: suf). split; [done|]. split; [by apply c_str_terminated|].
    apply (f_equal length) in Ed. rewrite length_drop in Ed. rewrite length_app. cbn in *. lia.
  - rewrite Hl. change (256 - 1)%nat with 255%nat.
    destruct (strncpy_cut locals tgt 255 Hl) as (m & E & Hm & Hcut). rewrite (outcome_bind_Ret _ _ _ E).
    unfold store. rewrite Hm. cbn [Z.of_nat Z.ltb Z.leb Z.compare orb].
    exists (<[255%nat := 0]> m). by rewrite length_insert.
Qed.

(** ** The lists *)

Lemma address_create_run s port (w : resolver_state) :
  grpc_resolved_address_create s port w =
    match made_address (cell_answers w) s port with
    | (None, al) => Ret (None, set_cell_answers al w)
    | (Some x, al) =>
        Ret (Some (fresh_cell w), mk_heap (obj w) (<[fresh_cell w := mk_cell x None]> (cells w))
                                    (Pos.succ (fresh_cell w)) al)
    end.
Proof.
  unfold grpc_resolved_address_create, made_address, malloc_cell, zoom, mbind, M_bind.
  destruct (cell_answers w) as [|[] [|[] al]] eqn:E; cbn; rewrite ?E; done.
Qed.

Lemma list_destroy_run n p l (w : resolver_state) :
  owns w p l → (length l ≤ n)%nat →
  grpc_resolved_address_list_destroy n p w = Ret ((), upd_cells (λ _, ∅) w).
Proof. exact (free_chain_run n p l w). Qed.

Lemma dns_loop_run rs port p l (w : resolver_state) :
  owns w p l →
  ∃ q w' l', dns_loop rs port p (fst <$> last l) w = Ret (q, w') ∧ owns w' q l' ∧
    l'.*2 = l.*2 ++ dns_addresses rs port (cell_answers w) ∧ obj w' = obj w.
Proof.
  revert p l w. induction rs as [|rp rs IH]; intros p l w Ho; cbn [dns_loop dns_addresses].
  { exists p, w, l. by rewrite app_nil_r. }
  destruct (_ || _); [|by apply IH].
  destruct (inet_ntop (ai_family rp) (ai_addr rp)) as [s|]; [|by apply IH].
  pose proof (address_create_run s port w) as E.
  destruct (made_address (cell_answers w) s port) as [[x|] al]; mstep E; cbn [option_list app].
  2:{ destruct (IH p l _ (owns_answers al _ _ _ Ho)) as (q & w' & l' & E' & H). by exists q, w', l'. }
  destruct l as [|[t y] l _] using rev_ind.
  - pose proof (owns_chain _ _ _ Ho) as Hp. cbn in Hp. subst p.
    destruct (IH _ _ _ (owns_answers al _ _ _ (owns_cons w _ [] x Ho))) as (q & w' & l' & E' & H).
    by exists q, w', l'.
  - rewrite last_snoc. cbn [fmap option_fmap option_map fst].
    destruct (owns_snoc w _ l t y x Ho) as [Hy Ho'].
    assert (is_Some p) as [h ->].
    { pose proof (owns_chain _ _ _ Ho) as Hh. destruct l as [|[b z] l]; destruct Hh as [-> _]; by eexists. }
    rewrite (M_bind_Ret (of_option NullDeref (Some t)) _ _ t _ eq_refl).
    assert (t ≠ fresh_cell w) as Hne.
    { intros ->. by rewrite (owns_fresh_None _ _ _ Ho) in Hy. }
    set (w1 := mk_heap _ _ _ al).
    assert (cells w1 !! t = Some (mk_cell y None)) as Hy1 by (cbn; by rewrite lookup_insert_ne).
    mstep (read_cell_run _ _ _ Hy1).
    mstep (write_cell_run _ _ _ _ Hy1).
    destruct (IH _ _ _ (owns_answers al _ _ _ Ho')) as (q & w' & l' & E' & Hl' & Hd & Hobj).
    rewrite app_assoc, last_snoc in E'. exists q, w', l'. split; [exact E'|]. split; [done|].
    split; [|done]. rewrite Hd, !fmap_app. cbn. by rewrite <- !app_assoc.
Qed.

Lemma count_addresses_run n p l (w : resolver_state) :
  chain (cells w) p l None → (length l ≤ n)%nat →
  ∃ c, count_addresses n p w = Ret ((), upd_obj (set_rs_addresses (rs_addresses (obj w)) c) w) ∧
    u64 c = u64 (address_count (obj w) + zlen l) ∧ (l ≠ [] → c = u64 c) ∧ (l = [] → c = address_count (obj w)).
Proof.
  revert p l w. induction n as [|n IH]; intros p l w Hc Hn; (destruct l as [|[a x] l]; [|try (cbn in Hn; lia)]).
  1,2: cbn in Hc; subst p; exists (address_count (obj w)); rewrite Z.add_0_r; split_and!; [|done|done|done];
    cbn; unfold upd_obj, set_rs_addresses; by destruct w as [[] ???].
  destruct Hc as (-> & r & Ha & Hc). cbn [count_addresses]. rewrite M_bind_modify.
  set (w1 := upd_obj _ w).
  mstep (read_cell_run a _ w1 Ha).
  destruct (IH r l w1 Hc ltac:(cbn in Hn; lia)) as (c & E & Hu & Hn0 & H0). cbn [next].
  exists c. split; [exact E|]. split; [|split; [intros _|done]].
  - rewrite Hu. unfold w1. cbn. rewrite u64_add_l. f_equal. lia.
  - destruct l; [rewrite (H0 eq_refl); cbn; unfold u64; by rewrite Zmod_mod|by apply Hn0].
Qed.

Lemma rs_lock_run (w : resolver_state) :
  rs_mutex (obj w) = false → rs_lock w = Ret ((), upd_obj (set_rs_mutex true) w).
Proof. unfold rs_lock. by intros ->. Qed.

(** The local array has the size of the code, [getaddrinfo] looks at the string only, and a
    custom resolver returns a list of addresses it has allocated, and leaves the rest alone. *)
Definition resolver_env : Prop :=
  length locals = 256%nat ∧
  (∀ s t, c_str s = c_str t → getaddrinfo s = getaddrinfo t) ∧
  (∀ f t u w, cells w = ∅ →
     ∃ p w' l, call_custom f t u w = Ret (p, w') ∧ owns w' p l ∧ obj w' = obj w).

(** What the four kinds of resolution leave in a heap without addresses. *)
Lemma resolve_by_type_run (w : resolver_state) :
  resolver_env → owns w None [] → target_ok (rs_target (obj w)) →
  ∃ res w' l, resolve_by_type (obj w) w = Ret (res, w') ∧ owns w' (default None res) l ∧
    obj w' = obj w ∧
    (rs_type (obj w) ≠ GRPC_RESOLVER_CUSTOM → l.*2 = expected (obj w) (cell_answers w)).
Proof.
  intros (Hl & Hgai & Hcustom) Ho Ht. unfold resolve_by_type, expected.
  pose proof (parse_target_run (rs_target (obj w)) Hl) as Hp. unfold target_ok in Ht.
  destruct (rs_type (obj w) =? GRPC_RESOLVER_DNS).
  { unfold grpc_dns_resolve. destruct (split_target (rs_target (obj w))) as [[host [port|f]]|]; [|done|].
    - destruct Hp as (buf & Hp & Hb & _).
      unfold mbind at 1, M_bind at 1. mstep Hp.
      rewrite (Hgai buf (host ++ [0])) by (rewrite c_str_terminated by (rewrite <- Hb; apply c_str_nul_free); done).
      destruct (getaddrinfo (host ++ [0])) as [rs|]; [|by exists (Some None), w, []].
      destruct (dns_loop_run rs port None [] w Ho) as (q & w' & l & E & Hq & Hd & Hobj).
      cbn [last fmap option_fmap option_map] in E. rewrite E. by exists (Some q), w', l.
    - unfold mbind at 1, M_bind at 1. mstep Hp. by exists (Some None), w, []. }
  destruct (rs_type (obj w) =? GRPC_RESOLVER_STATIC).
  { unfold grpc_static_resolve. destruct (split_target (rs_target (obj w))) as [[host [port|f]]|]; [|done|].
    - destruct Hp as (buf & Hp & Hb & _). 
      unfold mbind at 1, M_bind at 1. mstep Hp; rewrite address_create_run.
      replace (made_address (cell_answers w) (host ++ [0]) port) with (made_address (cell_answers w) buf port)
        by (unfold made_address; rewrite c_str_terminated, Hb by (rewrite <- Hb; apply c_str_nul_free); done).
      destruct (made_address (cell_answers w) buf port) as [[x|] al].
      + eexists (Some _), _, [(fresh_cell w, x)]. split; [done|].
        split; [by apply (owns_answers al) in Ho; apply (owns_cons _ _ [] x) in Ho|done].
      + eexists (Some _), _, []. split; [done|]. split; [by apply owns_answers|done].
    - unfold mbind at 1, M_bind at 1. mstep Hp. by exists (Some None), w, []. }
  destruct (Z.eqb_spec (rs_type (obj w)) GRPC_RESOLVER_CUSTOM) as [Hc|_].
  - destruct (custom_resolve (obj w)) as [f|]; [|by exists (Some None), w, []].
    destruct (Hcustom f (rs_target (obj w)) (rs_user_data (obj w)) w) as (p & w' & l & E & H1 & H2).
    { by apply (owns_empty w []). }
    mstep E. exists (Some p), w', l. by rewrite Hc.
  - exists None, w, []. split; [done|]. split; [done|]. split; [done|]. intros _.
    by destruct (split_target _) as [[? []]|].
Qed.

Lemma resolve_run w l :
  resolver_env → resolver_rel w l → target_ok (rs_target (obj w)) →
  ∃ w' l', grpc_name_resolver_resolve (Some w) = Ret (if decide (l' = []) then -1 else 0, Some w') ∧
    resolver_rel w' l' ∧
    (rs_type (obj w) ≠ GRPC_RESOLVER_CUSTOM → l'.*2 = expected (obj w) (cell_answers w)) ∧
    rs_type (obj w') = rs_type (obj w) ∧ rs_target (obj w') = rs_target (obj w) ∧
    custom_resolve (obj w') = custom_resolve (obj w) ∧ rs_user_data (obj w') = rs_user_data (obj w).
Proof.
  intros Henv [Ho Hc Hm] Ht. unfold grpc_name_resolver_resolve, nullable.
  mstep (rs_lock_run w Hm).
  set (w1 := upd_obj _ w). rewrite (M_bind_Ret get _ w1 w1 w1 eq_refl).
  pose proof (owns_fuel _ _ _ Ho) as Hf. change (walk_fuel w) with (walk_fuel w1) in Hf.
  mstep (list_destroy_run (walk_fuel w1) _ l w1 (owns_obj _ _ _ _ Ho) ltac:(lia)).
  rewrite M_bind_modify. set (w2 := upd_obj (set_rs_addresses None 0) _).
  rewrite M_bind_gets.
  assert (owns w2 None []) as Ho2 by (split; [done|constructor|by intros a [? ?]|by intros a ?%elem_of_nil]).
  destruct (resolve_by_type_run w2 Henv Ho2 Ht) as (res & w3 & l' & E & Ho3 & Hobj & Hx).
  mstep E.
  destruct (default None res) as [p|] eqn:Er.
  - destruct res as [[p'|]|]; [|done|done]. injection Er as ->. rewrite M_bind_modify.
    set (w4 := upd_obj _ w3). rewrite (M_bind_Ret get _ w4 w4 w4 eq_refl).
    assert (owns w4 (Some p) l') as Ho4 by (by apply owns_obj).
    pose proof (owns_fuel _ _ _ Ho4) as Hf4.
    destruct (count_addresses_run (walk_fuel w4) (Some p) l' w4 (owns_chain _ _ _ Ho4)) as (c & E' & Hu & Hn & _); [lia|].
    mstep E'. unfold rs_unlock. rewrite M_bind_modify.
    assert (l' ≠ []) as Hne by (intros ->; pose proof (owns_chain _ _ _ Ho3) as Hp; done).
    eexists _, l'. split; [by rewrite decide_False|].
    split; [|unfold w4; cbn; rewrite Hobj; by split].
    split; [by do 2 apply owns_obj| |done].
    cbn. rewrite (Hn Hne), Hu. unfold w4. cbn. by rewrite Hobj.
  - destruct (owns_empty _ _ Ho3) as [-> Hcells].
    assert ((match res with
             | None | Some None => _ ← rs_unlock; mret (-1)
             | Some (Some p) =>
                 _ ← modify (upd_obj (λ r, set_rs_addresses (Some p) (address_count r) r));
                 w ← get;
                 _ ← count_addresses (walk_fuel w) (Some p);
                 _ ← rs_unlock;
                 mret 0
             end) w3 = Ret (-1, upd_obj (set_rs_mutex false) w3)) as -> by (by destruct res as [[p|]|]).
    eexists _, []. split; [done|]. split; [|cbn; rewrite Hobj; by split].
    split; [|cbn; by rewrite Hobj|done]. cbn. rewrite Hobj. by apply owns_obj.
Qed.

Lemma resolver_destroy_run w l :
  resolver_rel w l → grpc_name_resolver_destroy (Some w) = Ret (Some ∅).
Proof.
  intros [Ho _ Hm]. unfold grpc_name_resolver_destroy.
  mstep (rs_lock_run w Hm); rewrite M_bind_gets. cbn [obj upd_obj rs_addresses set_rs_mutex].
  pose proof (owns_fuel _ _ _ Ho) as Hf.
  by mstep (list_destroy_run (walk_fuel w) _ l
    (upd_obj (set_rs_mutex true) w) (owns_obj _ _ _ _ Ho) ltac:(lia)).
Qed.

(** C32. Resolving a target replaces the resolver's list of addresses, freeing the old nodes,
    by what the resolver's type gives (the IPv4 and IPv6 results of [getaddrinfo] in their
    order, or the one static address, as far as the allocations succeed), counts it, and
    releases the mutex; destroying the resolver frees the list. The result is 0 exactly when
    there is an address. *)
Theorem grpc_name_resolver_resolve_spec w l :
  resolver_env → resolver_rel w l → target_ok (rs_target (obj w)) →
  ∃ w' l', grpc_name_resolver_resolve (Some w) = Ret (if decide (l' = []) then -1 else 0, Some w') ∧
    resolver_rel w' l' ∧
    (rs_type (obj w) ≠ GRPC_RESOLVER_CUSTOM → l'.*2 = expected (obj w) (cell_answers w)) ∧
    (∃ w1, grpc_name_resolver_get_address_count (Some w') = Ret (u64 (zlen l'), Some w1)) ∧
    grpc_name_resolver_destroy (Some w') = Ret (Some ∅).
Proof.
  intros Henv Hr Ht. destruct (resolve_run w l Henv Hr Ht) as (w' & l' & E & Hr' & Hx & _).
  exists w', l'. split; [done|]. split; [done|]. split; [done|].
  split; [|by apply (resolver_destroy_run w' l')].
  unfold grpc_name_resolver_get_address_count, nullable.
  mstep (rs_lock_run w' (rr_mutex _ _ Hr')); rewrite M_bind_gets. cbn.
  rewrite (rr_count _ _ Hr'). by eexists.
Qed.

Lemma split_host_port host port :
  nul_free host → 58 ∉ host → (length host < 256)%nat → 0 ≤ port < 2 ^ 31 →
  split_target (c_str (host_port host port) ++ [0]) = Some (host, Ret port).
Proof.
  intros Hn Hc Hl Hp. rewrite c_str_host_port by (done || lia). unfold split_target, host_port.
  rewrite strchr_Some by done.
  destruct (Nat.ltb_spec (length host) 256); [|lia]. rewrite take_app_length.
  fold (host_port host port). rewrite drop_host_port.
  by rewrite atoi_decimal.
Qed.

Lemma get_addresses_run w l :
  resolver_rel w l →
  grpc_name_resolver_get_addresses (Some w) = Ret (rs_addresses (obj w), Some w).
Proof.
  intros [_ _ Hm]. unfold grpc_name_resolver_get_addresses, nullable.
  mstep (rs_lock_run w Hm); rewrite M_bind_gets.
  destruct w as [[] ? ? ?]. cbn in *. by rewrite Hm.
Qed.

(** A static resolver created for [host:port] resolves to the one address with that host
    and that port. *)
Theorem grpc_static_resolve_roundtrip host port al r :
  resolver_env → nul_free host → 58 ∉ host → (length host < 256)%nat → 0 ≤ port < 2 ^ 31 →
  grpc_name_resolver_create GRPC_RESOLVER_STATIC (Some (host_port host port)) al = Ret (Some r, []) →
  ∃ a w', grpc_name_resolver_resolve (Some (mk_heap r ∅ 1 [])) = Ret (0, Some w') ∧
    grpc_name_resolver_get_addresses (Some w') = Ret (Some a, Some w') ∧
    cells w' = {[a := mk_cell (mk_resolved (host ++ [0]) port) None]}.
Proof.
  intros Henv Hn Hc Hl Hp E. unfold grpc_name_resolver_create in E.
  apply M_bind_inv in E as (b1 & al1 & _ & E). destruct b1; [|done].
  apply M_bind_inv in E as (b2 & al2 & _ & E). destruct b2; [|done]. injection E as <- ->.
  pose proof (split_host_port host port Hn Hc Hl Hp) as Hs.
  destruct (resolve_run (mk_heap (mk_resolver GRPC_RESOLVER_STATIC (c_str (host_port host port) ++ [0])
    None 0 false None None) ∅ 1 []) [] Henv) as (w' & l' & E & Hr & Hx & _).
  { split; [apply owns_nil|done|done]. }
  { unfold target_ok. cbn [obj rs_target]. by rewrite Hs. }
  specialize (Hx ltac:(done)). unfold expected in Hx. cbn [obj rs_target rs_type] in Hx. rewrite Hs in Hx.
  cbn in Hx. rewrite c_str_terminated in Hx by done.
  destruct l' as [|[a x] [|? ?]]; [done| |done]. cbn in Hx. injection Hx as ->.
  rewrite decide_False in E by done. pose proof (rr_owns _ _ Hr) as Ho.
  destruct (owns_chain _ _ _ Ho) as (Hh & q & Ha & Hq). cbn in Hq. subst q.
  exists a, w'. split; [exact E|]. rewrite <- Hh. split; [by apply (get_addresses_run _ _ Hr)|].
  apply map_eq. intros b. destruct (decide (b = a)) as [->|Hne].
  - by rewrite Ha, lookup_singleton_eq.
  - rewrite lookup_singleton_ne by done. apply eq_None_not_Some. intros Hb%(owns_all _ _ _ Ho).
    cbn in Hb. set_solver.
Qed.
End resolver.

(** ** The properties at work *)

(** A world with one name, of three results, the second of an unknown family. *)
Definition sample_getaddrinfo (name : list Z) : option (list addrinfo) :=
  if strcmp_eq name [97; 0] then
    Some [mk_addrinfo AF_INET [1; 2; 3; 4]; mk_addrinfo 1 []; mk_addrinfo AF_INET6 [0; 1]]
  else None.
Definition sample_ntop (family : Z) (a : list Z) : option (list Z) :=
  Some (map (λ b, 48 + b) a ++ [0]).
Definition no_custom (f : positive) (t : list Z) (u : option positive) : M resolver_state (option positive) :=
  mret None.
Definition sample_locals : list Z := replicate 256 204.

Lemma sample_env : resolver_env sample_locals sample_getaddrinfo no_custom.
Proof.
  split; [done|]. split.
  - intros s t E. unfold sample_getaddrinfo, strcmp_eq. by rewrite E.
  - intros f t u w Hw. exists None, w, []. split; [done|]. split; [|done].
    split; [done|constructor|intros a; rewrite Hw; by intros [? ?]|by intros a ?%elem_of_nil].
Qed.

(** The target ["a:80"]; the first string of the third result cannot be copied. *)
Definition dns_resolver : resolver_state :=
  mk_heap (mk_resolver GRPC_RESOLVER_DNS [97; 58; 56; 48; 0] None 0 false None None) ∅ 1
    [true; true; true; false].

Lemma grpc_name_resolver_resolve_witness :
  ∃ w' a, grpc_name_resolver_resolve sample_locals sample_getaddrinfo sample_ntop no_custom
      (Some dns_resolver) = Ret (0, Some w') ∧
    resolver_rel w' [(a, mk_resolved [49; 50; 51; 52; 0] 80)] ∧
    grpc_name_resolver_destroy (Some w') = Ret (Some ∅).
Proof.
  destruct (grpc_name_resolver_resolve_spec sample_locals sample_getaddrinfo sample_ntop no_custom
    dns_resolver [] sample_env) as (w' & l' & E & Hr & Hx & _ & Hd).
  - split; [apply owns_nil|done|done].
  - vm_compute. done.
  - specialize (Hx ltac:(done)). vm_compute in Hx. destruct l' as [|[a x] [|? ?]]; [done| |done].
    injection Hx as ->. exists w', a. split; [exact E|]. split; [exact Hr|exact Hd].
Defined.

Lemma grpc_static_resolve_witness :
  ∃ a w', grpc_name_resolver_resolve sample_locals sample_getaddrinfo sample_ntop no_custom
      (Some (mk_heap (mk_resolver GRPC_RESOLVER_STATIC [104; 58; 56; 48; 56; 48; 0] None 0 false None None)
        ∅ 1 [])) = Ret (0, Some w') ∧
    cells w' = {[a := mk_cell (mk_resolved [104; 0] 8080) None]}.
Proof.
  destruct (grpc_static_resolve_roundtrip sample_locals sample_getaddrinfo sample_ntop no_custom
    [104] 8080 [] (mk_resolver GRPC_RESOLVER_STATIC [104; 58; 56; 48; 56; 48; 0] None 0 false None None)
    sample_env) as (a & w' & E & _ & Hw).
  - by repeat constructor.
  - set_solver.
  - cbn. lia.
  - lia.
  - vm_compute. reflexivity.
  - exists a, w'. split; [exact E|exact Hw].
Defined.
