(* ===== verification/Reflection.v ===== *)
(** * The reflection registry (src/src/reflection.c)

    Services with their methods, both as linked lists, and the full names the reflection
    service reports. *)

From Stdlib Require Import ZArith Lia.
From stdpp Require Import base tactics list option strings gmap.
From S2P Require Import Prelude Lists CStrings.

#[local] Open Scope Z_scope.
#[local] Set Warnings "-clear-no-such-hyp".

(** ** Data *)

(** [grpc_method_descriptor] and [grpc_service_descriptor], their [next] pointers aside. *)
Record grpc_method_descriptor := mk_method {
  method_name : list Z;
  input_type : list Z;
  output_type : list Z;
  client_streaming : bool;
  server_streaming : bool
}.
Record grpc_service_descriptor := mk_service {
  service_name : list Z;
  package_name : option (list Z);
  methods : option positive;
  method_count : Z
}.
Record grpc_reflection_registry := mk_registry {
  rg_services : option positive;
  service_count : Z;
  rg_mutex : bool
}.

(** The registry with the nodes of the methods, and both with the nodes of the services;
    the answers of the allocator are those of the outer heap. *)
Abbreviation method_heap := (heap_of grpc_reflection_registry grpc_method_descriptor).
Abbreviation registry_state := (heap_of method_heap grpc_service_descriptor).
Abbreviation registry w := (obj (obj w)).

Definition set_rg_mutex (b : bool) (r : grpc_reflection_registry) : grpc_reflection_registry :=
  mk_registry (rg_services r) (service_count r) b.
Definition push_rg_service (s : positive) (r : grpc_reflection_registry) : grpc_reflection_registry :=
  mk_registry (Some s) (u64 (service_count r + 1)) (rg_mutex r).
Definition push_method (m : positive) (s : grpc_service_descriptor) : grpc_service_descriptor :=
  mk_service (service_name s) (package_name s) (Some m) (u64 (method_count s + 1)).

Definition rg_lock : M registry_state () := λ w,
  if rg_mutex (registry w) then Fault Deadlock
  else Ret ((), upd_obj (upd_obj (set_rg_mutex true)) w).
Definition rg_unlock : M registry_state () := modify (upd_obj (upd_obj (set_rg_mutex false))).

(** Work on the nodes of the methods. *)
Definition on_methods {A} (m : M method_heap A) : M registry_state A :=
  zoom obj (λ o w, upd_obj (λ _, o) w) m.

(** ** Descriptors *)

Definition grpc_method_descriptor_create (name input output : option (list Z)) (cs ss : bool)
    : M registry_state (option positive) :=
  ok ← malloc_cell;
  if negb ok then mret None else
  name ← strdup_cell name;
  match name with
  | None => mret None
  | Some name =>
      input ← strdup_cell input;
      match input with
      | None => mret None
      | Some input =>
          output ← strdup_cell output;
          match output with
          | None => mret None
          | Some output =>
              m ← on_methods (new_cell (mk_cell (mk_method name input output cs ss) None));
              mret (Some m)
          end
      end
  end.

Definition grpc_method_descriptor_destroy (method : option positive) : M method_heap () :=
  match method with None => mret () | Some m => free_cell m end.

Fixpoint grpc_method_descriptor_list_destroy (fuel : nat) (head : option positive) : M method_heap () :=
  match head with
  | None => mret ()
  | Some m =>
      match fuel with
      | O => fail OutOfFuel
      | S fuel =>
          c ← read_cell m;
          _ ← grpc_method_descriptor_destroy (Some m);
          grpc_method_descriptor_list_destroy fuel (next c)
      end
  end.

Definition grpc_service_descriptor_create (name package : option (list Z))
    : M registry_state (option positive) :=
  ok ← malloc_cell;
  if negb ok then mret None else
  name ← strdup_cell name;
  match name with
  | None => mret None
  | Some name =>
      package' ← (match package with Some p => strdup_cell (Some p) | None => mret None end);
      match package, package' with
      | Some _, None => mret None
      | _, _ =>
          s ← new_cell (mk_cell (mk_service name package' None 0) None);
          mret (Some s)
      end
  end.

Definition grpc_service_descriptor_destroy (service : option positive) : M registry_state () :=
  match service with
  | None => mret ()
  | Some s =>
      c ← read_cell s;
      h ← gets obj;
      _ ← on_methods (grpc_method_descriptor_list_destroy (walk_fuel h) (methods (data c)));
      free_cell s
  end.

Fixpoint grpc_service_descriptor_list_destroy (fuel : nat) (head : option positive) : M registry_state () :=
  match head with
  | None => mret ()
  | Some s =>
      match fuel with
      | O => fail OutOfFuel
      | S fuel =>
          c ← read_cell s;
          _ ← grpc_service_descriptor_destroy (Some s);
          grpc_service_descriptor_list_destroy fuel (next c)
      end
  end.

(** ** The registry *)

Definition grpc_reflection_registry_create : M allocs (option grpc_reflection_registry) :=
  ok ← malloc;
  if negb ok then mret None else mret (Some (mk_registry None 0 false)).

Definition grpc_reflection_registry_add_service (name package : option (list Z))
    : M (option registry_state) Z := nullable (-1)
  match name with
  | None => mret (-1)
  | Some name =>
      service ← grpc_service_descriptor_create (Some name) package;
      match service with
      | None => mret (-1)
      | Some s =>
          _ ← rg_lock;
          r ← gets (λ w, registry w);
          c ← read_cell s;
          _ ← write_cell s (mk_cell (data c) (rg_services r));
          _ ← modify (upd_obj (upd_obj (push_rg_service s)));
          _ ← rg_unlock;
          mret 0
      end
  end.

(** The search of a service by its name, in [add_method] and [get_service]. *)
Fixpoint find_service (fuel : nat) (name : list Z) (service : option positive)
    : M registry_state (option positive) :=
  match service with
  | None => mret None
  | Some s =>
      match fuel with
      | O => fail OutOfFuel
      | S fuel =>
          c ← read_cell s;
          if strcmp_eq (service_name (data c)) name then mret (Some s)
          else find_service fuel name (next c)
      end
  end.

(** The method [m] becomes the first of the service [s]. *)
Definition link_method (s m : positive) : M registry_state () :=
  c ← read_cell s;
  mc ← on_methods (read_cell m);
  _ ← on_methods (write_cell m (mk_cell (data mc) (methods (data c))));
  write_cell s (mk_cell (push_method m (data c)) (next c)).

Definition grpc_reflection_registry_add_method (service method input output : option (list Z))
    (cs ss : bool) : M (option registry_state) Z := nullable (-1)
  match service, method with
  | Some service, Some method =>
      _ ← rg_lock;
      w ← get;
      found ← find_service (walk_fuel w) service (rg_services (registry w));
      match found with
      | None => _ ← rg_unlock; mret (-1)
      | Some s =>
          created ← grpc_method_descriptor_create (Some method) input output cs ss;
          match created with
          | None => _ ← rg_unlock; mret (-1)
          | Some m =>
              _ ← link_method s m;
              _ ← rg_unlock;
              mret 0
          end
      end
  | _, _ => mret (-1)
  end.

Definition grpc_reflection_registry_list_services : M (option registry_state) (option positive) :=
  nullable None (
  _ ← rg_lock;
  services ← gets (λ w, rg_services (registry w));
  _ ← rg_unlock;
  mret services).

Definition grpc_reflection_registry_get_service (name : option (list Z))
    : M (option registry_state) (option positive) := nullable None
  match name with
  | None => mret None
  | Some name =>
      _ ← rg_lock;
      w ← get;
      found ← find_service (walk_fuel w) name (rg_services (registry w));
      _ ← rg_unlock;
      mret found
  end.

Definition grpc_reflection_registry_get_service_count : M (option registry_state) Z := nullable 0 (
  _ ← rg_lock;
  count ← gets (λ w, service_count (registry w));
  _ ← rg_unlock;
  mret count).

(** What is left of a destroyed registry: services and methods nobody freed. *)
Definition grpc_reflection_registry_destroy (w : option registry_state)
    : outcome (option (gmap positive (cell grpc_service_descriptor) *
                       gmap positive (cell grpc_method_descriptor))) :=
  match w with
  | None => Ret None
  | Some w =>
      let body :=
        _ ← rg_lock;
        r ← gets (λ w, registry w);
        _ ← grpc_service_descriptor_list_destroy (walk_fuel w) (rg_services r);
        rg_unlock in
      match body w with
      | Ret (_, w') => Ret (Some (cells w', cells (obj w')))
      | Fault f => Fault f
      end
  end.

(** ** Full names *)

(** The characters ['.'] and ['/']. *)
Definition dot : Z := 46.
Definition slash : Z := 47.

Definition grpc_reflection_get_full_service_name (service : option grpc_service_descriptor)
    : M allocs (option (list Z)) :=
  match service with
  | None => mret None
  | Some s =>
      let len := u64 (strlen (service_name s) + 1) in
      let len := match package_name s with Some p => u64 (len + strlen p + 1) | None => len end in
      ok ← malloc;
      if negb ok then mret None else
      mret (Some (match package_name s with
                  | Some p => snprintf len (c_str p ++ [dot] ++ c_str (service_name s))
                  | None => snprintf len (c_str (service_name s))
                  end))
  end.

Definition grpc_reflection_get_full_method_name (service : option grpc_service_descriptor)
    (method : option grpc_method_descriptor) : M allocs (option (list Z)) :=
  match service, method with
  | Some s, Some m =>
      service_name ← grpc_reflection_get_full_service_name (Some s);
      match service_name with
      | None => mret None
      | Some name =>
          let len := u64 (strlen name + strlen (method_name m) + 2) in
          ok ← malloc;
          if negb ok then mret None else
          mret (Some (snprintf len ([slash] ++ c_str name ++ [slash] ++ c_str (method_name m))))
      end
  | _, _ => mret None
  end.

(** ** What a registry promises *)

(** A service with the methods it has, most recent first, and the registry. *)
Record service_spec := mk_sspec {
  sp_name : list Z;
  sp_package : option (list Z);
  sp_methods : list grpc_method_descriptor
}.
Record registry_spec := mk_rspec { sp_services : list service_spec; sp_answers : allocs }.

(** [n] allocations one after the other, up to the first that fails. *)
Fixpoint answers_all (n : nat) (al : allocs) : bool * allocs :=
  match n with
  | O => (true, al)
  | S n => let '(ok, al) := answer al in if ok then answers_all n al else (false, al)
  end.

Definition spec_add_service (name : list Z) (package : option (list Z)) (r : registry_spec)
    : Z * registry_spec :=
  let '(ok, al) := answers_all (match package with Some _ => 3 | None => 2 end) (sp_answers r) in
  if ok then
    (0, mk_rspec (mk_sspec (c_str name) (c_str <$> package) [] :: sp_services r) al)
  else (-1, mk_rspec (sp_services r) al).

(** The first service of the name gets the method. *)
Fixpoint add_to_first (name : list Z) (m : grpc_method_descriptor) (l : list service_spec)
    : option (list service_spec) :=
  match l with
  | [] => None
  | s :: l =>
      if decide (sp_name s = name)
      then Some (mk_sspec (sp_name s) (sp_package s) (m :: sp_methods s) :: l)
      else cons s <$> add_to_first name m l
  end.

Definition spec_add_method (service method input output : list Z) (cs ss : bool) (r : registry_spec)
    : Z * registry_spec :=
  let m := mk_method (c_str method ++ [0]) (c_str input ++ [0]) (c_str output ++ [0]) cs ss in
  match add_to_first (c_str service) m (sp_services r) with
  | None => (-1, r)
  | Some l =>
      let '(ok, al) := answers_all 4 (sp_answers r) in
      if ok then (0, mk_rspec l al) else (-1, mk_rspec (sp_services r) al)
  end.

(** ** The representation *)

Definition services_of (ss : list (positive * grpc_service_descriptor))
    (mss : list (list (positive * grpc_method_descriptor))) : list service_spec :=
  zip_with (λ s ms, mk_sspec (c_str (service_name s.2)) (c_str <$> package_name s.2) ms.*2) ss mss.

(** A service with the list of its methods in the heap of the methods. *)
Definition service_methods (m : method_heap) (s : positive * grpc_service_descriptor)
    (ms : list (positive * grpc_method_descriptor)) : Prop :=
  chain (cells m) (methods s.2) ms None ∧ method_count s.2 = u64 (zlen ms).

(** The lists of methods share no node and are all there is. *)
Record methods_own (m : method_heap) (ss : list (positive * grpc_service_descriptor))
    (mss : list (list (positive * grpc_method_descriptor))) : Prop := {
  mo_lists : Forall2 (service_methods m) ss mss;
  mo_nodup : NoDup (concat mss).*1;
  mo_all : ∀ a, is_Some (cells m !! a) → a ∈ (concat mss).*1;
  mo_fresh : ∀ a, a ∈ (concat mss).*1 → (a < fresh_cell m)%positive
}.

Record reg_inv (w : registry_state) (ss : list (positive * grpc_service_descriptor))
    (mss : list (list (positive * grpc_method_descriptor))) : Prop := {
  ri_owns : owns w (rg_services (registry w)) ss;
  ri_methods : methods_own (obj w) ss mss;
  ri_count : service_count (registry w) = u64 (zlen ss)
}.

Definition reg_rel (w : registry_state) (r : registry_spec) : Prop :=
  ∃ ss mss, reg_inv w ss mss ∧ sp_services r = services_of ss mss ∧
    cell_answers w = sp_answers r ∧ rg_mutex (registry w) = false.

Implicit Types (w : registry_state).

Lemma rg_lock_run w :
  rg_mutex (registry w) = false → rg_lock w = Ret ((), upd_obj (upd_obj (set_rg_mutex true)) w).
Proof. unfold rg_lock. by intros ->. Qed.

(** The invariant does not look at the mutex and the answers. *)
Lemma reg_inv_mutex b w ss mss :
  reg_inv w ss mss → reg_inv (upd_obj (upd_obj (set_rg_mutex b)) w) ss mss.
Proof. intros [Ho [Hl ? ? ?] Hc]. split; [by apply owns_obj|by split|done]. Qed.
Lemma reg_inv_answers al w ss mss : reg_inv w ss mss → reg_inv (set_cell_answers al w) ss mss.
Proof. intros [Ho Hm Hc]. split; [by apply owns_answers|done|done]. Qed.

(** ** Allocations *)

Definition new_service (name : list Z) (package : option (list Z)) : grpc_service_descriptor :=
  mk_service (c_str name ++ [0]) ((λ p, c_str p ++ [0]) <$> package) None 0.

Lemma service_create_run name package w :
  let r := answers_all (match package with Some _ => 3 | None => 2 end) (cell_answers w) in
  grpc_service_descriptor_create (Some name) package w =
    if r.1 then
      Ret (Some (fresh_cell w),
           mk_heap (obj w) (<[fresh_cell w := mk_cell (new_service name package) None]> (cells w))
             (Pos.succ (fresh_cell w)) r.2)
    else Ret (None, set_cell_answers r.2 w).
Proof.
  cbn zeta. unfold grpc_service_descriptor_create.
  mstep (malloc_cell_answer w).
  destruct (answer (cell_answers w)) as [ok1 al1] eqn:E1. cbn [fst snd].
  destruct ok1; cbn [negb]; [|by destruct package; cbn [answers_all]; rewrite E1].
  mstep (strdup_cell_run name _). cbn [cell_answers set_cell_answers].
  destruct (answer al1) as [ok2 al2] eqn:E2. cbn [fst snd].
  destruct ok2; [|by destruct package; cbn [answers_all]; rewrite E1, E2].
  destruct package as [p|]; [|by cbn [answers_all]; rewrite E1, E2].
  mstep (strdup_cell_run p _). cbn [cell_answers set_cell_answers].
  cbn [answers_all]. rewrite E1, E2. by destruct (answer al2) as [[] al3].
Qed.

Definition new_method (name input output : list Z) (cs ss : bool) : grpc_method_descriptor :=
  mk_method (c_str name ++ [0]) (c_str input ++ [0]) (c_str output ++ [0]) cs ss.

Lemma method_create_run name input output cs ss w :
  let r := answers_all 4 (cell_answers w) in
  let o := obj w in
  grpc_method_descriptor_create (Some name) (Some input) (Some output) cs ss w =
    if r.1 then
      Ret (Some (fresh_cell o),
           set_cell_answers r.2 (upd_obj (λ _,
             mk_heap (obj o) (<[fresh_cell o := mk_cell (new_method name input output cs ss) None]> (cells o))
               (Pos.succ (fresh_cell o)) (cell_answers o)) w))
    else Ret (None, set_cell_answers r.2 w).
Proof.
  cbn zeta. unfold grpc_method_descriptor_create. cbn [answers_all].
  mstep (malloc_cell_answer w).
  destruct (answer (cell_answers w)) as [[] al1]; [|done]. cbn [fst snd negb].
  mstep (strdup_cell_run name _). cbn [cell_answers set_cell_answers].
  destruct (answer al1) as [[] al2]; [|done]. cbn [fst snd].
  mstep (strdup_cell_run input _). cbn [cell_answers set_cell_answers].
  destruct (answer al2) as [[] al3]; [|done]. cbn [fst snd].
  mstep (strdup_cell_run output _). cbn [cell_answers set_cell_answers].
  by destruct (answer al3) as [[] al4].
Qed.

(** ** The search *)

Definition named (name : list Z) (s : positive * grpc_service_descriptor) : bool :=
  strcmp_eq (service_name s.2) name.

Lemma find_service_run n name p l w :
  chain (cells w) p l None → (length l ≤ n)%nat →
  find_service n name p w = Ret (fst <$> List.find (named name) l, w).
Proof.
  revert p l. induction n as [|n IH]; intros p l Hc Hn;
    (destruct l as [|[a x] l]; [by cbn in Hc; subst p|]); [cbn in Hn; lia|].
  destruct Hc as (-> & r & Ha & Hc). cbn [find_service].
  mstep (read_cell_run _ _ _ Ha). cbn [data next List.find].
  unfold named at 1. cbn [snd]. destruct (strcmp_eq (service_name x) name); [done|].
  apply IH; [done|]. cbn in Hn. lia.
Qed.

Lemma find_none_forall {A} (f : A → bool) l : List.find f l = None → Forall (λ x, f x = false) l.
Proof. intros H. apply Forall_forall. intros x Hx. apply (List.find_none _ _ H). by apply list_elem_of_In. Qed.

(** ** Services *)

Lemma add_service_run name package w r :
  reg_rel w r →
  ∃ w', grpc_reflection_registry_add_service (Some name) package (Some w) =
      Ret ((spec_add_service name package r).1, Some w') ∧
    reg_rel w' (spec_add_service name package r).2.
Proof.
  intros (ss & mss & [Ho Hm Hc] & Hs & Ha & Hmu).
  unfold grpc_reflection_registry_add_service, nullable, spec_add_service.
  pose proof (service_create_run name package w) as E. cbn zeta in E. rewrite Ha in E.
  destruct (answers_all _ (sp_answers r)) as [[] al]; cbn [fst snd] in E; mstep E.
  2:{ eexists. split; [done|]. exists ss, mss. split; [by apply reg_inv_answers|by split_and!]. }
  set (w1 := mk_heap _ _ _ al).
  assert (rg_mutex (registry w1) = false) as Hmu1 by done.
  mstep (rg_lock_run w1 Hmu1); rewrite M_bind_gets. set (w2 := upd_obj _ w1).
  set (x := new_service name package).
  assert (cells w2 !! fresh_cell w = Some (mk_cell x None)) as Hx by apply lookup_insert_eq.
  mstep (read_cell_run _ _ _ Hx).
  mstep (write_cell_run _ _ _ _ Hx); rewrite M_bind_modify.
  unfold rg_unlock. rewrite M_bind_modify. eexists. split; [done|].
  exists ((fresh_cell w, x) :: ss), ([] :: mss).
  split; [|split_and!; [|done|done]].
  - split.
    + eapply owns_same; [| | |exact (owns_cons w _ ss x Ho)]; [|done|done].
      apply (insert_insert_eq (cells w)).
    + destruct Hm as [Hl Hn Hall Hf]. split; [|done|done|done]. constructor; [by split|]. exact Hl.
    + cbn. rewrite Hc, u64_add_l. f_equal. lia.
  - cbn [sp_services]. rewrite Hs. unfold services_of. cbn [zip_with]. f_equal.
    unfold x, new_service. cbn [snd service_name package_name].
    rewrite c_str_terminated by apply c_str_nul_free. destruct package as [p|]; [|done].
    cbn [fmap option_fmap option_map]. by rewrite c_str_terminated by apply c_str_nul_free.
Qed.

(** ** Methods *)

(** Changes to other nodes leave the lists of methods alone. *)
Lemma methods_ext (m m' : method_heap) ss mss :
  Forall2 (service_methods m) ss mss →
  (∀ a, a ∈ (concat mss).*1 → cells m' !! a = cells m !! a) →
  Forall2 (service_methods m') ss mss.
Proof.
  induction 1 as [|s ms ss mss [Hc Hn] _ IH]; intros Hext; constructor.
  - split; [|done]. apply (chain_ext (cells m)); [|done]. intros a Ha. apply Hext. cbn.
    rewrite fmap_app. set_solver.
  - apply IH. intros a Ha. apply Hext. cbn. rewrite fmap_app. set_solver.
Qed.

(** A method linked in at the front of the list of a service. *)
Lemma methods_own_push (m : method_heap) l1 s x l2 m1 ms m2 md :
  methods_own m (l1 ++ (s, x) :: l2) (m1 ++ ms :: m2) → length l1 = length m1 →
  methods_own (mk_heap (obj m) (<[fresh_cell m := mk_cell md (methods x)]> (cells m))
      (Pos.succ (fresh_cell m)) (cell_answers m))
    (l1 ++ (s, push_method (fresh_cell m) x) :: l2) (m1 ++ ((fresh_cell m, md) :: ms) :: m2).
Proof.
  intros [Hl Hn Hall Hf] Hlen.
  apply Forall2_app_inv in Hl as [H1 H2]; [|done]. apply Forall2_cons in H2 as [[Hc Hcount] H2].
  assert (∀ k, (concat (m1 ++ k :: m2)).*1 ≡ₚ k.*1 ++ (concat (m1 ++ m2)).*1) as Hk.
  { intros k. rewrite !concat_app. cbn. rewrite !fmap_app, !app_assoc. apply Permutation_app_tail.
    apply Permutation_app_comm. }
  assert (fresh_cell m ∉ (concat (m1 ++ ms :: m2)).*1) as Hni by (intros Hin%Hf; lia).
  assert (∀ a, a ∈ (concat (m1 ++ ms :: m2)).*1 → fresh_cell m ≠ a) as Hne by (intros a Ha <-; done).
  setoid_rewrite Hk in Hne.
  assert (∀ mm, mm ⊆ m1 ++ m2 → ∀ a, a ∈ (concat mm).*1 → fresh_cell m ≠ a) as Hsub.
  { intros mm Hmm a Ha. apply Hne. apply elem_of_app. right.
    apply list_elem_of_fmap in Ha as (e & -> & He). apply list_elem_of_fmap. exists e. split; [done|].
    apply list_elem_of_In, in_concat in He as (k & Hk1 & Hk2). apply list_elem_of_In, in_concat.
    exists k. split; [|done]. apply list_elem_of_In, Hmm. by apply list_elem_of_In. }
  split; cbn [cells obj fresh_cell].
  - apply Forall2_app; [|constructor].
    + apply (methods_ext m); [done|]. intros a Ha. cbn. rewrite lookup_insert_ne; [done|].
      apply (Hsub m1); [set_solver|done].
    + cbn in Hcount. split; [|cbn; rewrite Hcount, u64_add_l; f_equal; lia]. cbn. split; [done|].
      exists (methods x). rewrite lookup_insert_eq. split; [done|]. apply chain_insert_ne; [|done].
      intros Hin. apply (Hne (fresh_cell m)); [|done]. set_solver.
    + apply (methods_ext m); [done|]. intros a Ha. cbn. rewrite lookup_insert_ne; [done|].
      apply (Hsub m2); [set_solver|done].
  - rewrite Hk. rewrite Hk in Hn. rewrite Hk in Hni. cbn. apply NoDup_cons. by split.
  - intros a. rewrite lookup_insert_is_Some, Hk. cbn. setoid_rewrite Hk in Hall.
    intros [<-|[_ Ha%Hall]]; [left|right; done].
  - intros a. rewrite Hk. cbn. setoid_rewrite Hk in Hf. intros [->|Ha%Hf]%elem_of_cons; lia.
Qed.

Lemma add_to_first_found name md l1 e e' l2 m1 ms a m2 :
  length l1 = length m1 → named name e = true → Forall (λ s, named name s = false) l1 →
  service_name e'.2 = service_name e.2 → package_name e'.2 = package_name e.2 →
  add_to_first (c_str name) md (services_of (l1 ++ e :: l2) (m1 ++ ms :: m2)) =
    Some (services_of (l1 ++ e' :: l2) (m1 ++ ((a, md) :: ms) :: m2)).
Proof.
  intros Hlen He Hl Hn Hp. revert m1 Hlen. induction Hl as [|s l1 Hs _ IH]; intros [|m0 m1] Hlen; try done;
    unfold services_of; cbn [app zip_with add_to_first sp_name snd].
  - unfold named, strcmp_eq in He. apply bool_decide_eq_true in He. rewrite decide_True by done.
    cbn. by rewrite Hn, Hp.
  - unfold named, strcmp_eq in Hs. apply bool_decide_eq_false in Hs. rewrite decide_False by done.
    unfold services_of in IH. rewrite IH by (cbn in Hlen; lia). done.
Qed.

Lemma add_to_first_none name md ss mss :
  Forall (λ s, named name s = false) ss → add_to_first (c_str name) md (services_of ss mss) = None.
Proof.
  intros H. revert mss. induction H as [|s ss Hs _ IH]; intros [|ms mss]; try done.
  unfold services_of. cbn [zip_with add_to_first sp_name]. unfold named, strcmp_eq in Hs.
  apply bool_decide_eq_false in Hs. rewrite decide_False by done.
  unfold services_of in IH. by rewrite IH.
Qed.

Lemma split_length {A B} (P : A → B → Prop) l1 x l2 mss :
  Forall2 P (l1 ++ x :: l2) mss → ∃ m1 ms m2, mss = m1 ++ ms :: m2 ∧ length l1 = length m1.
Proof.
  intros H. apply Forall2_app_inv_l in H as (m1 & k & H1 & H2 & ->).
  apply Forall2_cons_inv_l in H2 as (ms & m2 & _ & _ & ->). exists m1, ms, m2.
  split; [done|by eapply Forall2_length].
Qed.

(** A new method, allocated with the answers [al] left, is linked to a service. *)
Lemma link_method_run w l1 s x l2 m1 ms m2 md al :
  let f := fresh_cell (obj w) in
  reg_inv w (l1 ++ (s, x) :: l2) (m1 ++ ms :: m2) → length l1 = length m1 →
  ∃ w', link_method s f (set_cell_answers al (upd_obj (λ _,
      mk_heap (obj (obj w)) (<[f := mk_cell md None]> (cells (obj w))) (Pos.succ f) (cell_answers (obj w))) w)) =
      Ret ((), w') ∧
    reg_inv w' (l1 ++ (s, push_method f x) :: l2) (m1 ++ ((f, md) :: ms) :: m2) ∧
    cell_answers w' = al ∧ registry w' = registry w.
Proof.
  intros f Hinv Hlen. set (w2 := set_cell_answers al _). unfold link_method.
  destruct (owns_set_data w _ l1 s x l2 (push_method f x) (ri_owns _ _ _ Hinv)) as (nx & Hsx & Ho).
  assert (cells w2 !! s = Some (mk_cell x nx)) as Hsx2 by done.
  mstep (read_cell_run _ _ _ Hsx2). cbn [data next].
  assert (cells (obj w2) !! f = Some (mk_cell md None)) as Hmd by apply lookup_insert_eq.
  rewrite (M_bind_Ret _ _ w2 (mk_cell md None) w2).
  2:{ unfold on_methods, zoom. by rewrite (read_cell_run _ _ _ Hmd). }
  cbn [data]. set (o3 := upd_cells (insert f (mk_cell md (methods x))) (obj w2)).
  rewrite (M_bind_Ret _ _ w2 () (upd_obj (λ _, o3) w2)).
  2:{ unfold on_methods, zoom. by rewrite (write_cell_run _ _ _ _ Hmd). }
  set (w3 := upd_obj (λ _, o3) w2).
  assert (cells w3 !! s = Some (mk_cell x nx)) as Hsx3 by done.
  rewrite (write_cell_run _ _ _ _ Hsx3). eexists. split; [done|]. split; [|done].
  pose proof (methods_own_push (obj w) l1 s x l2 m1 ms m2 md (ri_methods _ _ _ Hinv) Hlen) as [H1 H2 H3 H4].
  assert (cells o3 = <[f := mk_cell md (methods x)]> (cells (obj w))) as Hc by (cbn; by rewrite insert_insert_eq).
  split.
  - by eapply owns_same; [..|exact Ho].
  - split; [|exact H2| |exact H4].
    + eapply methods_ext; [exact H1|]. intros a _. cbn -[insert] in Hc |- *. by rewrite Hc.
    + intros a. cbn -[insert] in Hc |- *. rewrite Hc. apply H3.
  - cbn. rewrite (ri_count _ _ _ Hinv). by rewrite !length_app.
Qed.

Lemma add_method_run service method input output cs ss w r :
  reg_rel w r →
  ∃ w', grpc_reflection_registry_add_method (Some service) (Some method) (Some input) (Some output)
      cs ss (Some w) = Ret ((spec_add_method service method input output cs ss r).1, Some w') ∧
    reg_rel w' (spec_add_method service method input output cs ss r).2.
Proof.
  intros (sv & mss & Hinv & Hs & Ha & Hmu).
  unfold grpc_reflection_registry_add_method, nullable, spec_add_method. rewrite Hs.
  mstep (rg_lock_run w Hmu).
  pose proof (reg_inv_mutex true w sv mss Hinv) as Hinv1. set (w1 := upd_obj _ w) in *.
  rewrite (M_bind_Ret get _ w1 w1 w1 eq_refl).
  pose proof (owns_fuel _ _ _ (ri_owns _ _ _ Hinv1)) as Hf.
  mstep (find_service_run (walk_fuel w1) service _ sv w1
    (owns_chain _ _ _ (ri_owns _ _ _ Hinv1)) ltac:(lia)).
  assert (∀ al, reg_inv (upd_obj (upd_obj (set_rg_mutex false)) (set_cell_answers al w1)) sv mss ∧
    rg_mutex (registry (upd_obj (upd_obj (set_rg_mutex false)) (set_cell_answers al w1))) = false) as Hback.
  { intros al. split; [|done]. by apply reg_inv_mutex, reg_inv_answers. }
  destruct (List.find (named service) sv) as [[s x]|] eqn:Ef; cbn [fmap option_fmap option_map fst].
  2:{ rewrite add_to_first_none by by apply find_none_forall.
      eexists. split; [done|]. exists sv, mss. destruct (Hback (cell_answers w)) as [H1 H2].
      split; [exact H1|by split_and!]. }
  destruct (find_split _ _ _ Ef) as (l1 & l2 & -> & Hx & Hl1).
  destruct (split_length _ _ _ _ _ (mo_lists _ _ _ (ri_methods _ _ _ Hinv))) as (m1 & ms & m2 & -> & Hlen).
  set (md := new_method method input output cs ss). set (f := fresh_cell (obj w1)).
  change (mk_method (c_str method ++ [0]) (c_str input ++ [0]) (c_str output ++ [0]) cs ss) with md.
  rewrite (add_to_first_found service md l1 (s, x) (s, push_method f x) l2 m1 ms f m2) by done.
  pose proof (method_create_run method input output cs ss w1) as E. cbn zeta in E.
  change (cell_answers w1) with (cell_answers w) in E. rewrite Ha in E. fold md f in E.
  destruct (answers_all 4 (sp_answers r)) as [[] al]; cbn [fst snd] in E; mstep E.
  2:{ eexists. split; [done|]. exists (l1 ++ (s, x) :: l2), (m1 ++ ms :: m2).
      destruct (Hback al) as [H1 H2]. split; [exact H1|by split_and!]. }
  destruct (link_method_run w1 l1 s x l2 m1 ms m2 md al Hinv1 Hlen) as (w2 & El & Hinv2 & Hal & Hm2).
  mstep El. unfold rg_unlock. rewrite M_bind_modify. eexists. split; [done|].
  exists (l1 ++ (s, push_method f x) :: l2), (m1 ++ ((f, md) :: ms) :: m2).
  split; [by apply reg_inv_mutex|]. by split_and!.
Qed.

(** ** Destruction *)

Lemma method_list_destroy_run n p l (m : method_heap) :
  chain (cells m) p l None → NoDup l.*1 → (length l ≤ n)%nat →
  ∃ m', grpc_method_descriptor_list_destroy n p m = Ret ((), m') ∧ obj m' = obj m ∧
    fresh_cell m' = fresh_cell m ∧
    ∀ a, cells m' !! a = if decide (a ∈ l.*1) then None else cells m !! a.
Proof. exact (free_chain_part n p l m). Qed.

(** The methods of the first service gone, the others' are all that is left. *)
Lemma methods_own_tail (m m' : method_heap) s ss ms mss :
  methods_own m (s :: ss) (ms :: mss) → fresh_cell m' = fresh_cell m →
  (∀ a, cells m' !! a = if decide (a ∈ ms.*1) then None else cells m !! a) →
  methods_own m' ss mss.
Proof.
  intros [Hl Hn Hall Hf] Hfr Hm. apply Forall2_cons in Hl as [_ Hl].
  cbn in Hn, Hall, Hf. rewrite fmap_app in Hn, Hall, Hf. apply NoDup_app in Hn as (_ & Hd & Hn).
  split; [|done| |].
  - apply (methods_ext m); [done|]. intros a Ha. rewrite Hm, decide_False; [done|].
    intros Hin. by apply (Hd a).
  - intros a. rewrite Hm. case_decide; [by intros [? ?]|]. intros [?|?]%Hall%elem_of_app; done.
  - intros a Ha. rewrite Hfr. apply Hf. apply elem_of_app. by right.
Qed.

Lemma service_list_destroy_run n p ss mss w :
  owns w p ss → methods_own (obj w) ss mss → (length ss ≤ n)%nat →
  ∃ w', grpc_service_descriptor_list_destroy n p w = Ret ((), w') ∧
    cells w' = ∅ ∧ cells (obj w') = ∅ ∧ registry w' = registry w.
Proof.
  revert p ss mss w. induction n as [|n IH]; intros p ss mss w Ho Hm Hn;
    (destruct ss as [|[s x] ss]; [|try (cbn in Hn; lia)]).
  1,2: pose proof (owns_chain _ _ _ Ho) as Hp; cbn in Hp; subst p; destruct (owns_empty _ _ Ho) as [_ Hc];
    pose proof (Forall2_nil_inv_l _ _ (mo_lists _ _ _ Hm)) as ->; exists w; split_and!; [done|done| |done];
    apply map_empty; intros a; apply eq_None_not_Some; by intros ?%(mo_all _ _ _ Hm)%elem_of_nil.
  pose proof (mo_lists _ _ _ Hm) as Hl. apply Forall2_cons_inv_l in Hl as (ms & mss' & [Hms _] & _ & ->).
  destruct (owns_tail _ _ _ _ _ Ho) as (r & -> & Hx & Ho').
  cbn [grpc_service_descriptor_list_destroy grpc_service_descriptor_destroy].
  mstep (read_cell_run _ _ _ Hx). cbn [next].
  pose proof (mo_nodup _ _ _ Hm) as Hnd. cbn in Hnd. rewrite fmap_app in Hnd.
  apply NoDup_app in Hnd as (Hnd & _ & _).
  destruct (method_list_destroy_run (walk_fuel (obj w)) (methods x) ms (obj w) Hms Hnd)
    as (m' & E & Hreg & Hfr & Hcells).
  { pose proof (chain_length _ _ _ _ Hnd Hms). unfold walk_fuel. lia. }
  set (w1 := upd_obj (λ _, m') w).
  assert (cells w1 !! s = Some (mk_cell x r)) as Hx1 by done.
  rewrite (M_bind_Ret _ _ w () (upd_cells (delete s) w1)).
  2:{ mstep (read_cell_run _ _ _ Hx); rewrite M_bind_gets. cbn [data].
      rewrite (M_bind_Ret _ _ w () w1) by (unfold on_methods, zoom; by rewrite E).
      by rewrite (free_cell_run _ _ _ Hx1). }
  destruct (IH r ss mss' (upd_cells (delete s) w1)) as (w' & E' & H1 & H2 & H3).
  - by eapply owns_same; [..|exact Ho'].
  - by apply (methods_own_tail (obj w) m' (s, x) ss ms mss').
  - cbn in Hn. lia.
  - exists w'. split_and!; [done|done|done|]. rewrite H3. exact Hreg.
Qed.

Lemma registry_destroy_run w r : reg_rel w r → grpc_reflection_registry_destroy (Some w) = Ret (Some (∅, ∅)).
Proof.
  intros (sv & mss & Hinv & _ & _ & Hmu). unfold grpc_reflection_registry_destroy.
  mstep (rg_lock_run w Hmu); rewrite M_bind_gets.
  pose proof (reg_inv_mutex true w sv mss Hinv) as [Ho Hm _]. set (w1 := upd_obj _ w) in *.
  pose proof (owns_fuel _ _ _ Ho) as Hf.
  destruct (service_list_destroy_run (walk_fuel w) _ sv mss w1 Ho Hm) as (w' & E & H1 & H2 & _).
  { change (walk_fuel w) with (walk_fuel w1). lia. }
  mstep E. unfold rg_unlock, modify. cbn. by rewrite H1, H2.
Qed.

(** ** Histories of calls *)

Inductive rg_call :=
| RgAddService (name : list Z) (package : option (list Z))
| RgAddMethod (service method input output : list Z) (cs ss : bool)
| RgGetService (name : list Z)
| RgGetCount
| RgList.

(** What a call reports: a status or a count, or the name and package of a service, or those of
    the services on the list it was given. *)
Inductive rg_answer :=
| RgStatus (r : Z)
| RgFound (s : option (list Z * option (list Z)))
| RgListed (l : list (list Z * option (list Z))).

(** The name and package a caller reads from a descriptor, and from all of a list. *)
Definition described (s : grpc_service_descriptor) : list Z * option (list Z) :=
  (c_str (service_name s), c_str <$> package_name s).
Fixpoint read_services (fuel : nat) (p : option positive) : M registry_state (list (list Z * option (list Z))) :=
  match p, fuel with
  | None, _ => mret []
  | Some _, O => fail OutOfFuel
  | Some s, S fuel => c ← read_cell s; rest ← read_services fuel (next c); mret (described (data c) :: rest)
  end.

Definition on_registry {A} (m : M registry_state A) : M (option registry_state) A := λ o,
  match o with
  | None => Fault NullDeref
  | Some w => match m w with Ret (a, w') => Ret (a, Some w') | Fault f => Fault f end
  end.

Definition run_rg_call (c : rg_call) : M (option registry_state) rg_answer :=
  match c with
  | RgAddService name package =>
      r ← grpc_reflection_registry_add_service (Some name) package; mret (RgStatus r)
  | RgAddMethod service method input output cs ss =>
      r ← grpc_reflection_registry_add_method (Some service) (Some method) (Some input) (Some output) cs ss;
      mret (RgStatus r)
  | RgGetService name =>
      found ← grpc_reflection_registry_get_service (Some name);
      match found with
      | None => mret (RgFound None)
      | Some s =>
          c ← on_registry (read_cell s);
          mret (RgFound (Some (described (data c))))
      end
  | RgGetCount => n ← grpc_reflection_registry_get_service_count; mret (RgStatus n)
  | RgList =>
      p ← grpc_reflection_registry_list_services;
      l ← on_registry (w ← get; read_services (walk_fuel w) p);
      mret (RgListed l)
  end.
Fixpoint run_rg_calls (cs : list rg_call) : M (option registry_state) (list rg_answer) :=
  match cs with
  | [] => mret []
  | c :: cs => a ← run_rg_call c; rest ← run_rg_calls cs; mret (a :: rest)
  end.

Definition spec_rg_call (c : rg_call) (r : registry_spec) : rg_answer * registry_spec :=
  match c with
  | RgAddService name package =>
      (RgStatus (spec_add_service name package r).1, (spec_add_service name package r).2)
  | RgAddMethod service method input output cs ss =>
      (RgStatus (spec_add_method service method input output cs ss r).1,
       (spec_add_method service method input output cs ss r).2)
  | RgGetService name =>
      (RgFound ((λ s, (sp_name s, sp_package s)) <$>
         List.find (λ s, bool_decide (sp_name s = c_str name)) (sp_services r)), r)
  | RgGetCount => (RgStatus (u64 (zlen (sp_services r))), r)
  | RgList => (RgListed ((λ s, (sp_name s, sp_package s)) <$> sp_services r), r)
  end.
Fixpoint spec_rg_calls (cs : list rg_call) (r : registry_spec) : list rg_answer * registry_spec :=
  match cs with
  | [] => ([], r)
  | c :: cs =>
      let a := spec_rg_call c r in
      let rest := spec_rg_calls cs a.2 in
      (a.1 :: rest.1, rest.2)
  end.

(** A call that locks, reads and unlocks leaves the registry as it was. *)
Lemma rg_unlock_run w :
  rg_mutex (registry w) = false → rg_unlock (upd_obj (upd_obj (set_rg_mutex true)) w) = Ret ((), w).
Proof. intros Hm. destruct w as [[[] ? ? ?] ? ? ?]. cbn in *. subst. done. Qed.

Lemma get_service_run name w ss mss :
  reg_inv w ss mss → rg_mutex (registry w) = false →
  grpc_reflection_registry_get_service (Some name) (Some w) =
    Ret (fst <$> List.find (named name) ss, Some w).
Proof.
  intros Hinv Hm. unfold grpc_reflection_registry_get_service, nullable.
  mstep (rg_lock_run w Hm).
  apply (reg_inv_mutex true) in Hinv. set (w1 := upd_obj _ w) in *.
  rewrite (M_bind_Ret get _ w1 w1 w1 eq_refl). pose proof (owns_fuel _ _ _ (ri_owns _ _ _ Hinv)) as Hf.
  mstep (find_service_run (walk_fuel w1) name _ ss w1
    (owns_chain _ _ _ (ri_owns _ _ _ Hinv)) ltac:(lia)).
  by mstep (rg_unlock_run w Hm).
Qed.

Lemma find_services name ss mss :
  length ss = length mss →
  (λ s, (sp_name s, sp_package s)) <$>
    List.find (λ s, bool_decide (sp_name s = c_str name)) (services_of ss mss) =
  (λ s, described s.2) <$> List.find (named name) ss.
Proof.
  revert mss. induction ss as [|s ss IH]; intros [|ms mss] Hl; try done. cbn.
  unfold named at 1, strcmp_eq. unfold c_str. case_bool_decide; [done|]. apply IH. cbn in Hl. lia.
Qed.

Lemma described_services ss mss :
  length ss = length mss →
  (λ s, (sp_name s, sp_package s)) <$> services_of ss mss = (λ s, described s.2) <$> ss.
Proof.
  revert mss. induction ss as [|s ss IH]; intros [|ms mss] Hl; try done. cbn. f_equal. apply IH. by injection Hl.
Qed.

Lemma read_services_run n p l w :
  chain (cells w) p l None → (length l ≤ n)%nat → read_services n p w = Ret ((λ s, described s.2) <$> l, w).
Proof.
  revert n p. induction l as [|[s x] l IH]; intros n p Hc Hn; [by destruct n; cbn in Hc; subst p|].
  destruct Hc as (-> & q & Hs & Hc). destruct n as [|n]; [cbn in Hn; lia|]. cbn [read_services].
  mstep (read_cell_run _ _ _ Hs). mstep (IH n q Hc ltac:(cbn in Hn; lia)). done.
Qed.

Lemma list_services_run w ss mss :
  reg_inv w ss mss → rg_mutex (registry w) = false →
  run_rg_call RgList (Some w) = Ret (RgListed ((λ s, described s.2) <$> ss), Some w).
Proof.
  intros Hinv Hm. cbn [run_rg_call].
  rewrite (M_bind_Ret _ _ _ (rg_services (registry w)) (Some w)).
  2:{ unfold grpc_reflection_registry_list_services, nullable.
      mstep (rg_lock_run w Hm); rewrite M_bind_gets. by mstep (rg_unlock_run w Hm). }
  pose proof (ri_owns _ _ _ Hinv) as Ho. pose proof (owns_fuel _ _ _ Ho) as Hf.
  pose proof (read_services_run (walk_fuel w) _ ss w (owns_chain _ _ _ Ho) ltac:(lia)) as E.
  rewrite (M_bind_Ret _ _ _ ((λ s, described s.2) <$> ss) (Some w)); [done|].
  unfold on_registry. rewrite (M_bind_Ret get _ w w w eq_refl). by rewrite E.
Qed.

Lemma rg_call_run c w r :
  reg_rel w r →
  ∃ w', run_rg_call c (Some w) = Ret ((spec_rg_call c r).1, Some w') ∧ reg_rel w' (spec_rg_call c r).2.
Proof.
  intros Hr. destruct c as [name package|service method input output cs ss|name| |]; cbn [run_rg_call spec_rg_call fst snd].
  - destruct (add_service_run name package w r Hr) as (w' & E & Hr'). exists w'.
    by mstep E.
  - destruct (add_method_run service method input output cs ss w r Hr) as (w' & E & Hr'). exists w'.
    by mstep E.
  - exists w. split; [|done]. destruct Hr as (sv & mss & Hinv & -> & _ & Hm).
    mstep (get_service_run name w sv mss Hinv Hm).
    rewrite find_services by (eapply Forall2_length, (ri_methods _ _ _ Hinv)).
    destruct (List.find (named name) sv) as [[s x]|] eqn:Ef; [|done].
    destruct (find_split _ _ _ Ef) as (l1 & l2 & -> & _). cbn [fmap option_fmap option_map fst].
    destruct (owns_set_data w _ l1 s x l2 x (ri_owns _ _ _ Hinv)) as (q & Hs & _).
    rewrite (M_bind_Ret _ _ _ (mk_cell x q) (Some w)); [done|].
    unfold on_registry. by rewrite (read_cell_run _ _ _ Hs).
  - exists w. split; [|done]. destruct Hr as (sv & mss & Hinv & -> & _ & Hm).
    rewrite (M_bind_Ret _ _ _ (u64 (zlen (services_of sv mss))) (Some w)); [done|].
    unfold grpc_reflection_registry_get_service_count, nullable.
    mstep (rg_lock_run w Hm); rewrite M_bind_gets.
    mstep (rg_unlock_run w Hm). unfold mret, M_ret. cbn.
    rewrite (ri_count _ _ _ Hinv). unfold services_of. rewrite length_zip_with.
    rewrite <- (Forall2_length _ _ _ (mo_lists _ _ _ (ri_methods _ _ _ Hinv))). by rewrite Nat.min_id.
  - exists w. split; [|done]. destruct Hr as (sv & mss & Hinv & -> & _ & Hm).
    pose proof (list_services_run w sv mss Hinv Hm) as E. cbn [run_rg_call] in E. rewrite E. cbn [sp_services].
    by rewrite described_services by (eapply Forall2_length, (ri_methods _ _ _ Hinv)).
Qed.

Lemma registry_create_rel al g al' :
  grpc_reflection_registry_create al = Ret (Some g, al') →
  reg_rel (mk_heap (mk_heap g ∅ 1 []) ∅ 1 al') (mk_rspec [] al').
Proof.
  intros (ok & al1 & _ & E)%M_bind_inv. destruct ok; [|done]. injection E as <- <-.
  exists [], []. split_and!; try done. split; [apply owns_nil| |done].
  split; [constructor|constructor|by intros a [? ?]|by intros a ?%elem_of_nil].
Qed.

(** C31. The registry refines a list of services with their lists of methods: any history of
    registrations, look-ups, counts and listings, whatever the allocator answers, returns what
    the list specification returns, the heaps hold the specification's lists, and destroying
    the registry frees every service and every method. *)
Theorem reflection_registry_refines al g al' cs :
  grpc_reflection_registry_create al = Ret (Some g, al') →
  ∃ w, run_rg_calls cs (Some (mk_heap (mk_heap g ∅ 1 []) ∅ 1 al')) =
      Ret ((spec_rg_calls cs (mk_rspec [] al')).1, Some w) ∧
    reg_rel w (spec_rg_calls cs (mk_rspec [] al')).2 ∧
    grpc_reflection_registry_destroy (Some w) = Ret (Some (∅, ∅)).
Proof.
  intros Hr%registry_create_rel. revert Hr. generalize (mk_rspec [] al').
  generalize (mk_heap (A := grpc_service_descriptor) (mk_heap (A := grpc_method_descriptor) g ∅ 1 []) ∅ 1 al').
  induction cs as [|c cs IH]; intros w r Hr; cbn [run_rg_calls spec_rg_calls fst snd].
  - exists w. split; [done|]. split; [done|]. by apply (registry_destroy_run w r).
  - destruct (rg_call_run c w r Hr) as (w1 & E & Hr1). mstep E.
    destruct (IH w1 _ Hr1) as (w2 & E2 & H2). exists w2. by mstep E2.
Qed.

(** ** Full names *)

(** The service's name as the documentation gives it: the package, a dot, the service. *)
Definition qualified_name (s : grpc_service_descriptor) : list Z :=
  match package_name s with
  | Some p => c_str p ++ [dot] ++ c_str (service_name s)
  | None => c_str (service_name s)
  end.

Lemma qualified_nul_free s : nul_free (qualified_name s).
Proof.
  unfold qualified_name. destruct (package_name s); [|apply c_str_nul_free].
  apply Forall_app. split; [apply c_str_nul_free|]. constructor; [done|apply c_str_nul_free].
Qed.

Lemma full_service_name_run s :
  zlen (qualified_name s) < 2 ^ 62 →
  ∃ b, grpc_reflection_get_full_service_name (Some s) [] = Ret (Some b, []) ∧ c_str b = qualified_name s.
Proof.
  intros Hlen. pose proof (strlen_nonneg (service_name s)) as H0.
  exists (snprintf (zlen (qualified_name s) + 1) (qualified_name s)).
  split; [|apply snprintf_fits; [lia|apply qualified_nul_free]].
  unfold grpc_reflection_get_full_service_name, qualified_name in *. destruct (package_name s) as [p|]; cbn [app] in *.
  - pose proof (strlen_nonneg p). rewrite length_app in *. cbn [length] in *.
    pose proof (length_c_str p). pose proof (length_c_str (service_name s)).
    rewrite (u64_small (strlen (service_name s) + 1)) by lia. rewrite u64_small by lia.
    replace (strlen (service_name s) + 1 + strlen p + 1) with
      (Z.of_nat (length (c_str p) + S (length (c_str (service_name s)))) + 1) by lia. done.
  - pose proof (length_c_str (service_name s)). rewrite u64_small by lia.
    by replace (strlen (service_name s) + 1) with (zlen (c_str (service_name s)) + 1) by lia.
Qed.

(** The full name of a service is its package, a dot and its name, or the name alone
    without a package; the full name of a method is a slash, that name, a slash and the
    method's name, without the last character of this text. *)
Theorem grpc_reflection_full_names s m :
  zlen (qualified_name s) + zlen (c_str (method_name m)) < 2 ^ 62 →
  let text := [slash] ++ qualified_name s ++ [slash] ++ c_str (method_name m) in
  ∃ b1 b2, grpc_reflection_get_full_service_name (Some s) [] = Ret (Some b1, []) ∧
    c_str b1 = qualified_name s ∧
    grpc_reflection_get_full_method_name (Some s) (Some m) [] = Ret (Some b2, []) ∧
    c_str b2 = take (length text - 1) text.
Proof.
  intros Hlen text. destruct (full_service_name_run s ltac:(lia)) as (b1 & E & Hb1).
  assert (strlen b1 = zlen (qualified_name s)) as Hl1 by (by rewrite <- length_c_str, Hb1).
  pose proof (length_c_str (method_name m)) as Hl2.
  exists b1, (snprintf (zlen text) text). split_and!; [done|done| |].
  - unfold grpc_reflection_get_full_method_name. mstep E; rewrite Hb1.
    rewrite u64_small by lia.
    by replace (strlen b1 + strlen (method_name m) + 2) with (zlen text)
      by (unfold text; rewrite !length_app; cbn [length]; lia).
  - unfold snprintf. assert (0 < zlen text) by (unfold text; cbn; lia).
    destruct (Z.ltb_spec 0 (zlen text)); [|lia]. rewrite c_str_terminated; [f_equal; lia|].
    apply Forall_take. unfold text. repeat (apply Forall_app; split);
      [by repeat constructor|apply qualified_nul_free|by repeat constructor|apply c_str_nul_free].
Qed.

(** ** The properties at work *)

Definition sample_service : grpc_service_descriptor := mk_service [71; 0] (Some [104; 105; 0]) None 0.
Definition sample_method : grpc_method_descriptor := mk_method [83; 97; 121; 0] [65; 0] [66; 0] false false.

(** ["/hi.G/Sa"] for the method [Say] of the service [hi.G]. *)
Lemma grpc_reflection_full_names_witness :
  ∃ b2, grpc_reflection_get_full_method_name (Some sample_service) (Some sample_method) [] = Ret (Some b2, []) ∧
    c_str b2 = [47; 104; 105; 46; 71; 47; 83; 97].
Proof.
  destruct (grpc_reflection_full_names sample_service sample_method ltac:(vm_compute; reflexivity))
    as (b1 & b2 & _ & _ & E & Hb). exists b2. split; [exact E|exact Hb].
Defined.

Definition sample_rg_calls : list rg_call :=
  [RgAddService [71; 0] (Some [104; 105; 0]); RgAddService [72; 0] None;
   RgAddMethod [71; 0] [83; 0] [65; 0] [66; 0] false true;
   RgAddMethod [73; 0] [83; 0] [65; 0] [66; 0] false true;
   RgAddService [71; 0] None; RgGetService [71; 0]; RgGetService [73; 0]; RgGetCount; RgList].

(** The third service cannot be allocated. *)
Lemma reflection_registry_refines_witness :
  ∃ w, run_rg_calls sample_rg_calls
      (Some (mk_heap (mk_heap (mk_registry None 0 false) ∅ 1 []) ∅ 1
        [true; true; true; true; true; true; true; true; true; false])) =
      Ret ([RgStatus 0; RgStatus 0; RgStatus 0; RgStatus (-1); RgStatus (-1);
            RgFound (Some ([71], Some [104; 105])); RgFound None; RgStatus 2;
            RgListed [([72], None); ([71], Some [104; 105])]], Some w) ∧
    grpc_reflection_registry_destroy (Some w) = Ret (Some (∅, ∅)).
Proof.
  destruct (reflection_registry_refines [true; true; true; true; true; true; true; true; true; true; false]
    (mk_registry None 0 false) [true; true; true; true; true; true; true; true; true; false]
    sample_rg_calls eq_refl) as (w & E & _ & Hd).
  exists w. split; [exact E|exact Hd].
Defined.
