(* ===== verification/Server.v ===== *)
(** * Servers (src/src/grpc_server.c)

    The tables of ports and completion queues of a server, the sockets it owns, and its life
    cycle.  The operating system is a record of the answers it will give; [inet_pton] is a
    parameter. *)

From Stdlib Require Import ZArith Lia.
From stdpp Require Import base tactics list option strings gmap.
From S2P Require Import Prelude Lists CStrings CompletionQueue.

#[local] Open Scope Z_scope.
#[local] Set Warnings "-clear-no-such-hyp".

Definition GRPC_DEFAULT_WORKER_THREADS : nat := 4.

(** ** Data *)

(** [struct sockaddr_in], as far as it is set. *)
Record sockaddr_in := mk_sockaddr { sin_addr : Z; sin_port : Z }.
Definition INADDR_ANY : Z := 0.

Record server_port := mk_port {
  port_fd : Z;
  port_addr : sockaddr_in;
  port_creds : option positive
}.

(** [worker_threads] tells of each element of the array whether the thread was created. *)
Record grpc_server := mk_server {
  sv_args : option positive;
  ports : list server_port;
  ports_capacity : Z;
  cqs : list positive;
  cqs_capacity : Z;
  started : bool;
  shutdown_called : bool;
  worker_threads : option (list bool);
  worker_count : nat;
  sv_mutex : bool
}.

(** What the process sees of the operating system: the answers of the allocator and of the
    coming calls to [socket], [bind], [listen] and [pthread_create] (past the end of a list
    they succeed), the descriptors not used so far, and the sockets that are open. *)
Record os := mk_os {
  os_answers : allocs;
  socket_results : allocs;
  bind_results : allocs;
  listen_results : allocs;
  thread_results : allocs;
  next_fd : Z;
  open_fds : list Z
}.

Record server_world := mk_sworld { server : grpc_server; sos : os }.

Definition set_ports (l : list server_port) (cap : Z) (s : grpc_server) : grpc_server :=
  mk_server (sv_args s) l cap (cqs s) (cqs_capacity s) (started s) (shutdown_called s)
    (worker_threads s) (worker_count s) (sv_mutex s).
Definition set_cqs (l : list positive) (cap : Z) (s : grpc_server) : grpc_server :=
  mk_server (sv_args s) (ports s) (ports_capacity s) l cap (started s) (shutdown_called s)
    (worker_threads s) (worker_count s) (sv_mutex s).
Definition set_sv_mutex (b : bool) (s : grpc_server) : grpc_server :=
  mk_server (sv_args s) (ports s) (ports_capacity s) (cqs s) (cqs_capacity s) (started s)
    (shutdown_called s) (worker_threads s) (worker_count s) b.
Definition set_started (s : grpc_server) : grpc_server :=
  mk_server (sv_args s) (ports s) (ports_capacity s) (cqs s) (cqs_capacity s) true
    (shutdown_called s) (worker_threads s) (worker_count s) (sv_mutex s).
Definition set_shutdown (s : grpc_server) : grpc_server :=
  mk_server (sv_args s) (ports s) (ports_capacity s) (cqs s) (cqs_capacity s) (started s)
    true (worker_threads s) (worker_count s) (sv_mutex s).
Definition set_workers (t : option (list bool)) (n : nat) (s : grpc_server) : grpc_server :=
  mk_server (sv_args s) (ports s) (ports_capacity s) (cqs s) (cqs_capacity s) (started s)
    (shutdown_called s) t n (sv_mutex s).
Definition upd_server (f : grpc_server → grpc_server) (w : server_world) : server_world :=
  mk_sworld (f (server w)) (sos w).
Definition upd_os (f : os → os) (w : server_world) : server_world :=
  mk_sworld (server w) (f (sos w)).

(** ** Calls to the system *)

Definition malloc_server : M server_world bool := λ w,
  let o := sos w in
  let r := answer (os_answers o) in
  Ret (r.1, upd_os (λ _, mk_os r.2 (socket_results o) (bind_results o) (listen_results o)
                           (thread_results o) (next_fd o) (open_fds o)) w).

(** [socket]: a descriptor that is not open, or -1. *)
Definition sys_socket : M server_world Z := λ w,
  let o := sos w in
  let r := answer (socket_results o) in
  if r.1 then
    Ret (next_fd o, upd_os (λ _, mk_os (os_answers o) r.2 (bind_results o) (listen_results o)
                                   (thread_results o) (next_fd o + 1) (open_fds o ++ [next_fd o])) w)
  else
    Ret (-1, upd_os (λ _, mk_os (os_answers o) r.2 (bind_results o) (listen_results o)
                            (thread_results o) (next_fd o) (open_fds o)) w).
Definition sys_bind : M server_world bool := λ w,
  let o := sos w in
  let r := answer (bind_results o) in
  Ret (r.1, upd_os (λ _, mk_os (os_answers o) (socket_results o) r.2 (listen_results o)
                           (thread_results o) (next_fd o) (open_fds o)) w).
Definition sys_listen : M server_world bool := λ w,
  let o := sos w in
  let r := answer (listen_results o) in
  Ret (r.1, upd_os (λ _, mk_os (os_answers o) (socket_results o) (bind_results o) r.2
                           (thread_results o) (next_fd o) (open_fds o)) w).
Definition sys_close_fd (fd : Z) : M server_world () := modify (upd_os (λ o,
  mk_os (os_answers o) (socket_results o) (bind_results o) (listen_results o) (thread_results o)
    (next_fd o) (filter (λ x, x ≠ fd) (open_fds o)))).
Definition sys_thread_create : M server_world bool := λ w,
  let o := sos w in
  let r := answer (thread_results o) in
  Ret (r.1, upd_os (λ _, mk_os (os_answers o) (socket_results o) (bind_results o) (listen_results o)
                           r.2 (next_fd o) (open_fds o)) w).

Definition sv_lock : M server_world () := λ w,
  if sv_mutex (server w) then Fault Deadlock else Ret ((), upd_server (set_sv_mutex true) w).
Definition sv_unlock : M server_world () := modify (upd_server (set_sv_mutex false)).

(** ** Operations *)

Definition grpc_server_create (args : option positive) : M allocs (option grpc_server) :=
  ok ← malloc;
  if negb ok then mret None else
  ports_ok ← malloc;
  if negb ports_ok then mret None else
  cqs_ok ← malloc;
  if negb cqs_ok then mret None else
  mret (Some (mk_server args [] 4 [] 4 false false None 0 false)).

Section ports.
Context (inet_pton : list Z → option Z).

(** ["0.0.0.0"] and ["[::]"]. *)
Definition any_v4 : list Z := [48; 46; 48; 46; 48; 46; 48; 0].
Definition any_v6 : list Z := [91; 58; 58; 93; 0].

(** The host (the block up to the first colon, which becomes the terminator) and the port. *)
Definition parse_address (host : list Z) : outcome (list Z * Z) :=
  match strchr host 58 with
  | Some colon =>
      cut ← store host (Z.of_nat colon) 0;
      port ← atoi (drop (S colon) host);
      Ret (cut, port)
  | None => Ret (host, 50051)
  end.

Definition address_of (host : list Z) (port : Z) : sockaddr_in :=
  mk_sockaddr
    (if strcmp_eq host any_v4 || strcmp_eq host any_v6 then INADDR_ANY
     else default 0 (inet_pton host))
    (u16 port).

(** The new entry of the table; [false] when the table cannot grow. *)
Definition push_port (p : server_port) : M server_world bool :=
  s ← gets server;
  room ← (if ports_capacity s <=? zlen (ports s) then
            ok ← malloc_server;            (* realloc *)
            if negb ok then mret false else
            _ ← modify (upd_server (set_ports (ports s) (u64 (ports_capacity s * 2))));
            mret true
          else mret true);
  if negb room then mret false else
  s ← gets server;
  if ports_capacity s <=? zlen (ports s) then fail OutOfBounds else
  _ ← modify (upd_server (set_ports (ports s ++ [p]) (ports_capacity s)));
  mret true.

(** From the creation of the socket on. *)
Definition open_port (addr : sockaddr_in) (port : Z) : M server_world Z :=
  fd ← sys_socket;
  if fd <? 0 then _ ← sv_unlock; mret 0 else
  bound ← sys_bind;
  if negb bound then _ ← sys_close_fd fd; _ ← sv_unlock; mret 0 else
  listening ← sys_listen;
  if negb listening then _ ← sys_close_fd fd; _ ← sv_unlock; mret 0 else
  pushed ← push_port (mk_port fd addr None);
  if negb pushed then _ ← sys_close_fd fd; _ ← sv_unlock; mret 0 else
  _ ← sv_unlock;
  mret port.

(** The copy of the address is not checked: a null pointer is dereferenced by [strchr]. *)
Definition grpc_server_add_insecure_http2_port (addr : option (list Z)) : M (option server_world) Z :=
  nullable 0
  match addr with
  | None => mret 0
  | Some addr =>
      _ ← sv_lock;
      s ← gets server;
      if started s then _ ← sv_unlock; mret 0 else
      ok ← malloc_server;                  (* strdup *)
      if negb ok then fail NullDeref else
      parsed ← lift (parse_address (c_str addr ++ [0]));
      open_port (address_of parsed.1 parsed.2) parsed.2
  end.

Definition grpc_server_add_secure_http2_port (addr : option (list Z)) (creds : option positive)
    : M (option server_world) Z := grpc_server_add_insecure_http2_port addr.
End ports.

Definition grpc_server_register_completion_queue (cq : option positive) : M (option server_world) () :=
  nullable ()
  match cq with
  | None => mret ()
  | Some q =>
      _ ← sv_lock;
      s ← gets server;
      room ← (if cqs_capacity s <=? zlen (cqs s) then
                ok ← malloc_server;        (* realloc *)
                if negb ok then mret false else
                _ ← modify (upd_server (set_cqs (cqs s) (u64 (cqs_capacity s * 2))));
                mret true
              else mret true);
      if negb room then sv_unlock else
      s ← gets server;
      if cqs_capacity s <=? zlen (cqs s) then fail OutOfBounds else
      _ ← modify (upd_server (set_cqs (cqs s ++ [q]) (cqs_capacity s)));
      sv_unlock
  end.

(** The creation of the threads; the result of each call is not checked. *)
Fixpoint create_threads (n : nat) : M server_world (list bool) :=
  match n with
  | O => mret []
  | S n => b ← sys_thread_create; bs ← create_threads n; mret (b :: bs)
  end.

Definition grpc_server_start : M (option server_world) () := nullable () (
  _ ← sv_lock;
  s ← gets server;
  if started s then sv_unlock else
  _ ← modify (upd_server set_started);
  ok ← malloc_server;                      (* calloc, not checked *)
  if negb ok then fail NullDeref else
  threads ← create_threads GRPC_DEFAULT_WORKER_THREADS;
  _ ← modify (upd_server (set_workers (Some threads) GRPC_DEFAULT_WORKER_THREADS));
  sv_unlock).

Definition grpc_server_request_call (server_ptr call_ptr cq_ptr : option positive) : Z :=
  match server_ptr, call_ptr, cq_ptr with
  | Some _, Some _, Some _ => 0
  | _, _, _ => 1
  end.

(** The joins: a worker ends when it sees the flag, unless [accept] holds it ([Workers] has the
    threads and says when the joins come to an end); a thread that was never created has no
    identifier. *)
Fixpoint join_threads (ts : list bool) : M server_world () :=
  match ts with
  | [] => mret ()
  | t :: ts =>
      s ← gets server;
      if negb t then fail Uninitialised else
      if negb (shutdown_called s) then fail Deadlock else
      join_threads ts
  end.

Definition request_shutdown : M server_world () :=
  _ ← sv_lock; _ ← modify (upd_server set_shutdown); sv_unlock.
Definition free_workers : M server_world () :=
  s ← gets server; modify (upd_server (set_workers None (worker_count s))).

Definition stop_workers : M (option server_world) () := nullable () (
  _ ← request_shutdown;
  s ← gets server;
  match worker_threads s with
  | None => mret ()
  | Some ts => _ ← join_threads ts; free_workers
  end).

Definition grpc_server_shutdown_and_notify (cq : option positive) (tag : option positive)
    : M (option server_world * option cq_state) () := λ '(w, q),
  match w with
  | None => Ret ((), (w, q))
  | Some _ =>
      match stop_workers w with
      | Fault f => Fault f
      | Ret (_, w) =>
          match cq, tag with
          | Some _, Some t =>
              match completion_queue_push_event (mk_event 1 true (Some t)) q with
              | Ret (_, q) => Ret ((), (w, q))
              | Fault f => Fault f
              end
          | _, _ => Ret ((), (w, q))
          end
      end
  end.

Fixpoint close_ports (l : list server_port) : M server_world () :=
  match l with
  | [] => mret ()
  | p :: l =>
      _ ← (if 0 <=? port_fd p then sys_close_fd (port_fd p) else mret ());
      close_ports l
  end.

(** The server is gone afterwards; workers that were not joined go on reading it. *)
Definition grpc_server_destroy (w : option server_world) : outcome (option os) :=
  match w with
  | None => Ret None
  | Some w =>
      let body :=
        _ ← sv_lock;
        s ← gets server;
        _ ← close_ports (ports s);
        sv_unlock in
      match body w with
      | Fault f => Fault f
      | Ret (_, w') =>
          match worker_threads (server w') with
          | Some ts => if existsb id ts then Fault UseAfterFree else Ret (Some (sos w'))
          | None => Ret (Some (sos w'))
          end
      end
  end.

(** ** The invariant of a server *)

(** The sockets of the table are the open ones, the tables fit their arrays, and there are no
    workers before the start. *)
Record server_inv (w : server_world) : Prop := {
  so_fds : open_fds (sos w) = port_fd <$> ports (server w);
  so_nodup : NoDup (open_fds (sos w));
  so_fresh : Forall (λ fd, 0 ≤ fd < next_fd (sos w)) (open_fds (sos w));
  so_next : 0 ≤ next_fd (sos w);
  so_ports : zlen (ports (server w)) ≤ ports_capacity (server w) ∧ 0 < ports_capacity (server w);
  so_cqs : zlen (cqs (server w)) ≤ cqs_capacity (server w) ∧ 0 < cqs_capacity (server w);
  so_workers : started (server w) = false → worker_threads (server w) = None
}.

(** ... and between two operations nobody holds the mutex. *)
Definition server_ok (w : server_world) : Prop := server_inv w ∧ sv_mutex (server w) = false.

Implicit Types (w : server_world).

Lemma sv_lock_run w :
  sv_mutex (server w) = false → sv_lock w = Ret ((), upd_server (set_sv_mutex true) w).
Proof. unfold sv_lock. by intros ->. Qed.

Lemma server_inv_mutex b w : server_inv w → server_inv (upd_server (set_sv_mutex b) w).
Proof. by intros []. Qed.

Lemma server_relock w :
  sv_mutex (server w) = false → upd_server (set_sv_mutex false) (upd_server (set_sv_mutex true) w) = w.
Proof. destruct w as [[] ?]. cbn. by intros ->. Qed.

(** What a call to the system may change besides the sockets. *)
Definition same_sockets (o o' : os) : Prop := next_fd o' = next_fd o ∧ open_fds o' = open_fds o.

Lemma server_inv_os o' w : same_sockets (sos w) o' → server_inv w → server_inv (upd_os (λ _, o') w).
Proof. intros [Hn Ho] []. split; cbn; by rewrite ?Hn, ?Ho. Qed.

(** Everything succeeds. *)
Definition resources (o : os) : Prop :=
  os_answers o = [] ∧ socket_results o = [] ∧ bind_results o = [] ∧ listen_results o = [].

Lemma malloc_server_run w :
  ∃ b o, malloc_server w = Ret (b, upd_os (λ _, o) w) ∧ same_sockets (sos w) o ∧
    (resources (sos w) → b = true ∧ resources o).
Proof.
  do 2 eexists. split; [done|]. split; [done|]. intros (H1 & H2 & H3 & H4). rewrite H1. by split_and!.
Qed.
Lemma sys_bind_run w :
  ∃ b o, sys_bind w = Ret (b, upd_os (λ _, o) w) ∧ same_sockets (sos w) o ∧
    (resources (sos w) → b = true ∧ resources o).
Proof.
  do 2 eexists. split; [done|]. split; [done|]. intros (H1 & H2 & H3 & H4). rewrite H3. by split_and!.
Qed.
Lemma sys_listen_run w :
  ∃ b o, sys_listen w = Ret (b, upd_os (λ _, o) w) ∧ same_sockets (sos w) o ∧
    (resources (sos w) → b = true ∧ resources o).
Proof.
  do 2 eexists. split; [done|]. split; [done|]. intros (H1 & H2 & H3 & H4). rewrite H4. by split_and!.
Qed.

Lemma same_sockets_trans o1 o2 o3 : same_sockets o1 o2 → same_sockets o2 o3 → same_sockets o1 o3.
Proof. intros [? ?] [? ?]. split; congruence. Qed.

(** The growth of a table that holds [n] elements. *)
Lemma doubled n cap : n ≤ cap → 0 < cap < 2 ^ 60 → n + 1 ≤ u64 (cap * 2) ∧ 0 < u64 (cap * 2).
Proof. intros. rewrite u64_small; lia. Qed.

Lemma push_port_run p w :
  zlen (ports (server w)) ≤ ports_capacity (server w) → 0 < ports_capacity (server w) < 2 ^ 60 →
  ∃ (b : bool) o cap, push_port p w =
      Ret (b, mk_sworld (if b then set_ports (ports (server w) ++ [p]) cap (server w) else server w) o) ∧
    same_sockets (sos w) o ∧ (b = true → zlen (ports (server w)) + 1 ≤ cap ∧ 0 < cap) ∧
    (resources (sos w) → b = true ∧ resources o).
Proof.
  intros Hfit Hcap. unfold push_port. rewrite M_bind_gets. set (s := server w).
  destruct (Z.leb_spec (ports_capacity s) (zlen (ports s))).
  - destruct (malloc_server_run w) as ([] & o & E & Hsame & Hres).
    + set (w1 := upd_server (set_ports (ports s) (u64 (ports_capacity s * 2))) (upd_os (λ _, o) w)).
      rewrite (M_bind_Ret _ _ w true w1) by (by mstep E).
      cbn [negb]. rewrite M_bind_gets.
      destruct (doubled (zlen (ports s)) (ports_capacity s) Hfit Hcap) as [H1 H2].
      unfold w1 at 1 2. cbn [server upd_server set_ports ports ports_capacity].
      destruct (Z.leb_spec (u64 (ports_capacity s * 2)) (zlen (ports s))); [lia|].
      rewrite M_bind_modify. by exists true, o, (u64 (ports_capacity s * 2)).
    + rewrite (M_bind_Ret _ _ w false (upd_os (λ _, o) w)) by (by mstep E).
      by exists false, o, 0.
  - rewrite M_bind_mret. cbn [negb]. rewrite M_bind_gets. fold s.
    destruct (Z.leb_spec (ports_capacity s) (zlen (ports s))); [lia|]. rewrite M_bind_modify.
    exists true, (sos w), (ports_capacity s). split_and!; try done. lia.
Qed.

(** A socket that is closed again leaves no trace. *)
Lemma close_fresh o fds fd : Forall (λ x, 0 ≤ x < fd) fds → open_fds o = fds ++ [fd] →
  filter (λ x, x ≠ fd) (open_fds o) = fds.
Proof.
  intros Hf ->. rewrite filter_app. cbn. rewrite decide_False by tauto. rewrite app_nil_r.
  apply filter_all. eapply Forall_impl; [done|]. cbn. lia.
Qed.

(** What adding a port does: the table has the new port on a fresh socket, or nothing but the
    answers of the system has changed. *)
Definition port_added (w w' : server_world) (addr : sockaddr_in) : Prop :=
  ports (server w') = ports (server w) ++ [mk_port (next_fd (sos w)) addr None] ∧
  open_fds (sos w') = open_fds (sos w) ++ [next_fd (sos w)].
Definition port_refused (w w' : server_world) : Prop :=
  ports (server w') = ports (server w) ∧ open_fds (sos w') = open_fds (sos w).

(** The system with one more socket. *)
Definition opened (w : server_world) (o : os) : Prop :=
  next_fd o = next_fd (sos w) + 1 ∧ open_fds o = open_fds (sos w) ++ [next_fd (sos w)].

Lemma opened_same w o o' : opened w o → same_sockets o o' → opened w o'.
Proof. intros [? ?] [? ?]. split; congruence. Qed.

(** The exit with an error: the socket is closed and the mutex released. *)
Lemma refuse_run w o :
  server_inv w → opened w o →
  ∃ w', (_ ← sys_close_fd (next_fd (sos w)); _ ← sv_unlock; mret 0) (mk_sworld (server w) o) = Ret (0, w') ∧
    server_ok w' ∧ started (server w') = started (server w) ∧ port_refused w w'.
Proof.
  intros Hinv [Hn Ho]. unfold sys_close_fd, sv_unlock. rewrite !M_bind_modify.
  eexists. split; [done|]. pose proof (close_fresh o (open_fds (sos w)) (next_fd (sos w))) as Hc.
  assert (filter (λ x, x ≠ next_fd (sos w)) (open_fds o) = open_fds (sos w)) as Hf.
  { apply Hc; [|done]. eapply Forall_impl; [apply (so_fresh _ Hinv)|]. cbn. lia. }
  split; [|split; [done|by split]]. split; [|done].
  destruct Hinv as [H1 H2 H3 H4 H5 H6 H7]. split; cbn; rewrite ?Hf, ?Hn; try done; [|lia].
  eapply Forall_impl; [done|]. cbn. lia.
Qed.

(** The exit with success. *)
Lemma accept_run w o addr cap :
  server_inv w → opened w o → zlen (ports (server w)) + 1 ≤ cap ∧ 0 < cap →
  let w' := mk_sworld (set_sv_mutex false
    (set_ports (ports (server w) ++ [mk_port (next_fd (sos w)) addr None]) cap (server w))) o in
  server_ok w' ∧ port_added w w' addr.
Proof.
  intros [H1 H2 H3 H4 H5 H6 H7] [Hn Ho] Hcap w'. split; [|by split]. split; [|done].
  split; cbn; rewrite ?Ho, ?Hn.
  - by rewrite H1, fmap_app.
  - apply NoDup_app. split; [done|]. split; [|apply NoDup_singleton].
    intros x Hx ->%list_elem_of_singleton. rewrite Forall_forall in H3. specialize (H3 _ Hx). lia.
  - apply Forall_app. split; [|by constructor; [lia|constructor]]. eapply Forall_impl; [done|]. cbn. lia.
  - lia.
  - rewrite length_app. cbn. lia.
  - done.
  - done.
Qed.

Lemma open_port_run addr port w :
  server_inv w → ports_capacity (server w) < 2 ^ 60 →
  ∃ r w', open_port addr port w = Ret (r, w') ∧ server_ok w' ∧
    started (server w') = started (server w) ∧
    (r = port ∧ port_added w w' addr ∨ r = 0 ∧ port_refused w w') ∧
    (resources (sos w) → r = port ∧ port_added w w' addr).
Proof.
  intros Hinv Hcap. unfold open_port.
  unfold sys_socket at 1, mbind at 1, M_bind at 1. destruct (answer (socket_results (sos w))) as [[] al] eqn:Ea.
  2:{ cbn [fst snd Z.ltb Z.compare]. unfold sv_unlock. rewrite M_bind_modify.
      do 2 eexists. split; [done|]. split; [split; [|done]|].
      { apply server_inv_mutex, server_inv_os; [by split|done]. }
      split; [done|]. split; [by right|]. intros (_ & H & _). rewrite H in Ea. done. }
  cbn [fst snd]. set (o1 := mk_os _ _ _ _ _ _ _). change (upd_os (λ _, o1) w) with (mk_sworld (server w) o1).
  assert (opened w o1) as Hop by by split.
  assert (resources (sos w) → resources o1) as Hres.
  { intros (H1 & H2 & H3 & H4). rewrite H2 in Ea. injection Ea as <-. by split_and!. }
  pose proof (so_next _ Hinv). destruct (Z.ltb_spec (next_fd (sos w)) 0); [lia|]. set (w1 := mk_sworld (server w) o1).
  destruct (sys_bind_run w1) as (b & o2 & E & Hs2 & Hr2). mstep E.
  pose proof (opened_same _ _ _ Hop Hs2) as Hop2. destruct b; cbn [negb].
  2:{ destruct (refuse_run w o2 Hinv Hop2) as (w' & E' & ? & ? & ?). exists 0, w'.
      split_and!; [exact E'|done|done|by right|]. intros Hr. by destruct (Hr2 (Hres Hr)). }
  set (w2 := upd_os _ w1).
  destruct (sys_listen_run w2) as (b & o3 & E3 & Hs3 & Hr3). mstep E3.
  pose proof (opened_same _ _ _ Hop2 Hs3) as Hop3. destruct b; cbn [negb].
  2:{ destruct (refuse_run w o3 Hinv Hop3) as (w' & E' & ? & ? & ?). exists 0, w'.
      split_and!; [exact E'|done|done|by right|]. intros Hr. by destruct (Hr3 (proj2 (Hr2 (Hres Hr)))). }
  set (w3 := upd_os _ w2). destruct (so_ports _ Hinv) as [Hfit Hpos].
  destruct (push_port_run (mk_port (next_fd (sos w)) addr None) w3 Hfit (conj Hpos Hcap))
    as (b & o4 & cap & E4 & Hs4 & Hroom & Hr4).
  mstep E4. pose proof (opened_same _ _ _ Hop3 Hs4) as Hop4. destruct b; cbn [negb].
  2:{ destruct (refuse_run w o4 Hinv Hop4) as (w' & E' & ? & ? & ?). exists 0, w'.
      split_and!; [exact E'|done|done|by right|]. intros Hr.
      by destruct (Hr4 (proj2 (Hr3 (proj2 (Hr2 (Hres Hr)))))). }
  unfold sv_unlock. rewrite M_bind_modify.
  destruct (accept_run w o4 addr cap Hinv Hop4 (Hroom eq_refl)) as [Hok Hadd].
  do 2 eexists. split; [done|]. split; [exact Hok|]. split; [done|]. split; [left|intros _]; by split.
Qed.

(** ** Adding a port *)

(** What a text names: the host before its first colon and the number after it, or the default
    port. *)
Fixpoint split_colon (text : list Z) : list Z * option (list Z) :=
  match text with
  | [] => ([], None)
  | b :: rest => if b =? 58 then ([], Some rest) else ((b :: (split_colon rest).1), (split_colon rest).2)
  end.
Definition named_host (text : list Z) : list Z := (split_colon text).1.
Definition named_port (text : list Z) : outcome Z :=
  match (split_colon text).2 with None => Ret 50051 | Some digits => atoi (digits ++ [0]) end.

Lemma split_colon_app host rest : 58 ∉ host → split_colon (host ++ 58 :: rest) = (host, Some rest).
Proof.
  induction host as [|b host IH]; intros Hc; [done|]. apply not_elem_of_cons in Hc as [Hb Hc].
  cbn [app split_colon]. destruct (Z.eqb_spec b 58); [congruence|]. by rewrite (IH Hc).
Qed.

Lemma split_colon_none text : 58 ∉ text → split_colon text = (text, None).
Proof.
  induction text as [|b text IH]; intros Hc; [done|]. apply not_elem_of_cons in Hc as [Hb Hc].
  cbn [split_colon]. destruct (Z.eqb_spec b 58); [congruence|]. by rewrite (IH Hc).
Qed.

Lemma named_host_port host port :
  58 ∉ host → 0 ≤ port < 2 ^ 31 →
  named_host (host ++ 58 :: decimal port) = host ∧ named_port (host ++ 58 :: decimal port) = Ret port.
Proof.
  intros Hc Hp. unfold named_host, named_port. rewrite split_colon_app by done. split; [done|].
  by apply (atoi_decimal port []).
Qed.

(** The parser cuts the text where [split_colon] does. *)
Lemma parse_address_spec text :
  nul_free text →
  match named_port text with
  | Ret port => ∃ cut, parse_address (text ++ [0]) = Ret (cut, port) ∧ c_str cut = named_host text
  | Fault f => parse_address (text ++ [0]) = Fault f
  end.
Proof.
  intros Hn. unfold parse_address, named_host, named_port. destruct (decide (58 ∈ text)) as [Hin|Hc].
  - apply list_elem_of_split_l in Hin as (host & rest & -> & Hc).
    apply Forall_app in Hn as [Hn _]. rewrite split_colon_app by done. cbn [fst snd].
    rewrite <- app_assoc. cbn [app]. rewrite strchr_Some by done.
    rewrite (outcome_bind_Ret _ _ _ (store_app host 58 (rest ++ [0]) (zlen host) 0 eq_refl)).
    rewrite drop_app_ge, Nat.sub_succ_l, Nat.sub_diag by lia. cbn [drop]. rewrite drop_0.
    destruct (atoi (rest ++ [0])) as [port|f]; cbn [mbind outcome_bind]; [|done].
    eexists. split; [done|]. by apply c_str_terminated.
  - rewrite split_colon_none, strchr_None by done. cbn [fst snd]. eexists. split; [done|]. by apply c_str_terminated.
Qed.

Section add_port.
Context (inet_pton : list Z → option Z).

Lemma add_port_run addr w parsed :
  server_ok w → ports_capacity (server w) < 2 ^ 60 → (answer (os_answers (sos w))).1 = true →
  parse_address (c_str addr ++ [0]) = Ret parsed →
  ∃ r w', grpc_server_add_insecure_http2_port inet_pton (Some addr) (Some w) = Ret (r, Some w') ∧
    server_ok w' ∧ started (server w') = started (server w) ∧
    if started (server w) then r = 0 ∧ w' = w
    else (r = parsed.2 ∧ port_added w w' (address_of inet_pton parsed.1 parsed.2) ∨
          r = 0 ∧ port_refused w w') ∧
         (resources (sos w) → r = parsed.2 ∧ port_added w w' (address_of inet_pton parsed.1 parsed.2)).
Proof.
  intros [Hinv Hm] Hcap Ha Hp. unfold grpc_server_add_insecure_http2_port, nullable.
  mstep (sv_lock_run w Hm); rewrite M_bind_gets.
  change (started (server (upd_server (set_sv_mutex true) w))) with (started (server w)).
  destruct (started (server w)) eqn:Es.
  { unfold sv_unlock. rewrite M_bind_modify, server_relock by done. by exists 0, w. }
  set (w1 := upd_server _ w).
  destruct (malloc_server_run w1) as (b & o & E & Hs & Hr). mstep E.
  assert (b = true) as -> by (unfold malloc_server in E; injection E as <- _; done).
  cbn [negb]. mstep Hp. set (w2 := upd_os _ w1).
  assert (server_inv w2) as Hinv2 by (apply server_inv_os; [done|by apply server_inv_mutex]).
  destruct (open_port_run (address_of inet_pton parsed.1 parsed.2) parsed.2 w2 Hinv2 Hcap)
    as (r & w' & E' & Hok & Hst & Hcase & Hres).
  rewrite E'. exists r, w'. split; [done|]. split; [done|]. split; [by rewrite Hst|].
  destruct Hs as [Hn Ho].
  assert (∀ addr, port_added w2 w' addr → port_added w w' addr) as Hadd
    by (intros ? [H1 H2]; cbn in H1, H2; rewrite Hn in H1, H2; by rewrite Ho in H2).
  assert (port_refused w2 w' → port_refused w w') as Href
    by (intros [H1 H2]; cbn in H1, H2; by rewrite Ho in H2).
  split; [naive_solver|]. intros H. destruct (Hres (proj2 (Hr H))). auto.
Qed.

(** The ports of a started server stay as they are. *)
Lemma add_port_started addr w :
  started (server w) = true → sv_mutex (server w) = false →
  grpc_server_add_insecure_http2_port inet_pton addr (Some w) = Ret (0, Some w).
Proof.
  intros Hs Hm. destruct addr as [addr|]; [|done]. unfold grpc_server_add_insecure_http2_port, nullable.
  mstep (sv_lock_run w Hm); rewrite M_bind_gets.
  change (started (server (upd_server (set_sv_mutex true) w))) with (started (server w)). rewrite Hs.
  unfold sv_unlock. by rewrite M_bind_modify, server_relock.
Qed.

(** The address is copied before it is parsed, and nothing tests the copy; nor is the number tested
    that [atoi] reads. *)
Lemma add_port_no_copy addr w :
  started (server w) = false → sv_mutex (server w) = false → (answer (os_answers (sos w))).1 = false →
  grpc_server_add_insecure_http2_port inet_pton (Some addr) (Some w) = Fault NullDeref.
Proof.
  intros Hs Hm Ea. unfold grpc_server_add_insecure_http2_port, nullable.
  mstep (sv_lock_run w Hm); rewrite M_bind_gets.
  change (started (server (upd_server (set_sv_mutex true) w))) with (started (server w)). rewrite Hs.
  unfold malloc_server at 1, mbind at 1, M_bind at 1. cbn [sos upd_server]. by rewrite Ea.
Qed.

Lemma add_port_bad_number addr w f :
  started (server w) = false → sv_mutex (server w) = false → (answer (os_answers (sos w))).1 = true →
  parse_address (c_str addr ++ [0]) = Fault f →
  grpc_server_add_insecure_http2_port inet_pton (Some addr) (Some w) = Fault f.
Proof.
  intros Hs Hm Ea Ep. unfold grpc_server_add_insecure_http2_port, nullable.
  mstep (sv_lock_run w Hm); rewrite M_bind_gets.
  change (started (server (upd_server (set_sv_mutex true) w))) with (started (server w)). rewrite Hs.
  unfold malloc_server at 1, mbind at 1, M_bind at 1. cbn [sos upd_server]. rewrite Ea.
  unfold mbind, M_bind, lift. by rewrite Ep.
Qed.

Lemma named_host_nul_free text : nul_free text → nul_free (named_host text).
Proof.
  unfold named_host. induction 1 as [|b text Hb _ IH]; [constructor|]. cbn [split_colon].
  destruct (b =? 58); constructor; done.
Qed.

(** C30. Adding a port to a server, for any address text: a started server is left alone with
    result 0; a failed [strdup], or a number that is not an [int], ends in the fault of the
    code; otherwise the text names the host before its first colon and the number after it
    (50051 without one), and the result is that number, with a fresh listening socket and its
    address in the table, or 0 with the table and the open sockets unchanged, and it is the
    number when nothing fails. The address bound has the number's low 16 bits, so that 0 and
    numbers from 65536 on are not the bound port; a decimal port after a host without a colon
    is named as it is written. *)
Theorem grpc_server_add_port_spec addr w :
  server_ok w → ports_capacity (server w) < 2 ^ 60 →
  (∀ s t, c_str s = c_str t → inet_pton s = inet_pton t) →
  let text := c_str addr in
  let result := grpc_server_add_insecure_http2_port inet_pton (Some addr) (Some w) in
  (if started (server w) then result = Ret (0, Some w)
   else if negb (answer (os_answers (sos w))).1 then result = Fault NullDeref
   else match named_port text with
   | Fault f => result = Fault f
   | Ret port =>
       let bound := address_of inet_pton (named_host text ++ [0]) port in
       ∃ r w', result = Ret (r, Some w') ∧ server_ok w' ∧
         (r = port ∧ port_added w w' bound ∨ r = 0 ∧ port_refused w w') ∧
         (resources (sos w) → r = port ∧ port_added w w' bound) ∧
         sin_port bound = port mod 2 ^ 16
   end) ∧
  (∀ host port, text = host ++ 58 :: decimal port → 58 ∉ host → 0 ≤ port < 2 ^ 31 →
     named_host text = host ∧ named_port text = Ret port).
Proof.
  intros Hok Hcap Hpton text result. split; [|intros host port ->; by apply named_host_port].
  destruct (started (server w)) eqn:Es; [by apply add_port_started; [|apply Hok]|].
  destruct (answer (os_answers (sos w))).1 eqn:Ea; cbn [negb]; [|by apply add_port_no_copy; [|apply Hok|]].
  pose proof (parse_address_spec text (c_str_nul_free addr)) as Hparse.
  destruct (named_port text) as [port|f] eqn:Ep.
  - destruct Hparse as (cut & Hparse & Hcut). set (bound := address_of inet_pton (named_host text ++ [0]) port).
    destruct (add_port_run addr w (cut, port) Hok Hcap Ea Hparse) as (r & w' & E & Hok' & _ & Hcase).
    exists r, w'. split; [exact E|]. split; [done|].
    assert (address_of inet_pton cut port = bound) as Haddr.
    { unfold bound, address_of, strcmp_eq. pose proof (named_host_nul_free text (c_str_nul_free addr)).
      rewrite (Hpton cut (named_host text ++ [0])); by rewrite c_str_terminated, Hcut by done. }
    rewrite Es in Hcase. cbn [fst snd] in Hcase. rewrite Haddr in Hcase. destruct Hcase. by split_and!.
  - by apply add_port_bad_number; [|apply Hok| |].
Qed.
End add_port.

(** ** The other operations *)

(** What the workers see of a server. *)
Definition same_service w w' : Prop :=
  ports (server w') = ports (server w) ∧ shutdown_called (server w') = shutdown_called (server w) ∧
  started (server w') = started (server w) ∧ worker_threads (server w') = worker_threads (server w) ∧
  worker_count (server w') = worker_count (server w) ∧ same_sockets (sos w) (sos w').

Lemma register_run cq w :
  server_ok w → cqs_capacity (server w) < 2 ^ 60 →
  ∃ w', grpc_server_register_completion_queue (Some cq) (Some w) = Ret ((), Some w') ∧ server_ok w' ∧
    same_service w w' ∧
    (cqs (server w') = cqs (server w) ++ [cq] ∨ cqs (server w') = cqs (server w)).
Proof.
  intros [Hinv Hm] Hcap. unfold grpc_server_register_completion_queue, nullable.
  mstep (sv_lock_run w Hm); rewrite M_bind_gets. set (w1 := upd_server _ w).
  pose proof (server_inv_mutex true w Hinv) as Hinv1. fold w1 in Hinv1. destruct (so_cqs _ Hinv) as [Hfit Hpos].
  change (cqs_capacity (server w1)) with (cqs_capacity (server w)).
  change (cqs (server w1)) with (cqs (server w)).
  assert (∀ o cap, same_sockets (sos w) o → zlen (cqs (server w)) + 1 ≤ cap → 0 < cap →
    server_ok (mk_sworld (set_sv_mutex false (set_cqs (cqs (server w) ++ [cq]) cap (server w))) o)) as Hadd.
  { intros o cap [Hn Ho] H1 H2. split; [|done]. destruct Hinv. split; cbn; rewrite ?Hn, ?Ho; try done.
    rewrite length_app. cbn. lia. }
  destruct (Z.leb_spec (cqs_capacity (server w)) (zlen (cqs (server w)))).
  - destruct (malloc_server_run w1) as ([] & o & E & Hs & _).
    + destruct (doubled _ _ Hfit (conj Hpos Hcap)) as [Hr1 Hr2]. set (cap := u64 _) in *.
      rewrite (M_bind_Ret _ _ w1 true (upd_server (set_cqs (cqs (server w)) cap) (upd_os (λ _, o) w1)))
        by (by mstep E).
      cbn [negb]. rewrite M_bind_gets. cbn [server upd_server set_cqs cqs cqs_capacity].
      destruct (Z.leb_spec cap (zlen (cqs (server w)))); [lia|]. rewrite M_bind_modify.
      eexists. split; [done|]. split; [exact (Hadd o cap Hs Hr1 Hr2)|]. split; [by split_and!|by left].
    + rewrite (M_bind_Ret _ _ w1 false (upd_os (λ _, o) w1)) by (by mstep E).
      cbn [negb]. eexists. split; [done|]. split; [split; [|done]|split; [by split_and!|by right]].
      by apply server_inv_mutex, server_inv_os.
  - rewrite (M_bind_mret true). cbn [negb]. rewrite M_bind_gets.
    change (cqs_capacity (server w1)) with (cqs_capacity (server w)).
    change (cqs (server w1)) with (cqs (server w)).
    destruct (Z.leb_spec (cqs_capacity (server w)) (zlen (cqs (server w)))); [lia|]. rewrite M_bind_modify.
    eexists. split; [done|]. split; [|split; [by split_and!|by left]]. apply (Hadd (sos w) (cqs_capacity (server w))); [done|lia|lia].
Qed.

Lemma create_threads_run n w :
  ∃ bs o, create_threads n w = Ret (bs, upd_os (λ _, o) w) ∧ same_sockets (sos w) o ∧ length bs = n ∧
    (thread_results (sos w) = [] → bs = replicate n true ∧ thread_results o = []).
Proof.
  revert w. induction n as [|n IH]; intros w; cbn [create_threads].
  { exists [], (sos w). split_and!; [by destruct w|done|done|done]. }
  set (o1 := mk_os (os_answers (sos w)) (socket_results (sos w)) (bind_results (sos w))
    (listen_results (sos w)) (answer (thread_results (sos w))).2 (next_fd (sos w)) (open_fds (sos w))).
  rewrite (M_bind_Ret _ _ w (answer (thread_results (sos w))).1 (upd_os (λ _, o1) w) eq_refl).
  destruct (IH (upd_os (λ _, o1) w)) as (bs & o & E & Hs & Hl & Ht). mstep E.
  do 2 eexists. split; [done|]. split; [done|]. split; [cbn; lia|].
  intros H. cbn [sos upd_os] in Ht. unfold o1 in Ht. cbn in Ht. rewrite H in *. by destruct (Ht eq_refl) as [-> ?].
Qed.

Lemma start_run w :
  server_ok w → (answer (os_answers (sos w))).1 = true →
  ∃ w', grpc_server_start (Some w) = Ret ((), Some w') ∧ server_ok w' ∧
    ports (server w') = ports (server w) ∧ started (server w') = true ∧
    (started (server w) = true → w' = w) ∧
    (started (server w) = false → ∃ ts, worker_threads (server w') = Some ts ∧
       length ts = GRPC_DEFAULT_WORKER_THREADS ∧ worker_count (server w') = GRPC_DEFAULT_WORKER_THREADS ∧
       (thread_results (sos w) = [] → Forall (λ t, t = true) ts)).
Proof.
  intros [Hinv Hm] Ha. unfold grpc_server_start, nullable.
  mstep (sv_lock_run w Hm); rewrite M_bind_gets.
  change (started (server (upd_server (set_sv_mutex true) w))) with (started (server w)).
  destruct (started (server w)) eqn:Es.
  { unfold sv_unlock, modify. rewrite server_relock by done. exists w. by split_and!. }
  rewrite M_bind_modify. set (w1 := upd_server set_started _).
  destruct (malloc_server_run w1) as (b & o & E & Hs & _). mstep E.
  assert (b = true) as -> by (unfold malloc_server in E; injection E as <- _; done). cbn [negb].
  destruct (create_threads_run GRPC_DEFAULT_WORKER_THREADS (upd_os (λ _, o) w1)) as (bs & o2 & E2 & Hs2 & Hl & Ht).
  mstep E2; rewrite M_bind_modify. eexists. split; [done|].
  pose proof (same_sockets_trans _ _ _ Hs Hs2) as [Hn Ho]. cbn in Hn, Ho.
  split; [split; [|done]|]. { destruct Hinv. split; cbn; rewrite ?Hn, ?Ho; done. }
  split_and!; [done|done|done|]. intros _. exists bs. split_and!; [done|done|done|].
  intros Hth. unfold malloc_server in E. injection E as Eo.
  assert (o = mk_os (answer (os_answers (sos w))).2 (socket_results (sos w)) (bind_results (sos w))
    (listen_results (sos w)) (thread_results (sos w)) (next_fd (sos w)) (open_fds (sos w))) as -> by done.
  destruct (Ht Hth) as [-> _]. by repeat constructor.
Qed.

(** The workers that exist, once they are told to stop, are joined. *)
Lemma join_threads_run ts w :
  Forall (λ t, t = true) ts → shutdown_called (server w) = true → join_threads ts w = Ret ((), w).
Proof.
  intros H Hs. induction H as [|t ts -> _ IH]; [done|]. cbn [join_threads].
  rewrite M_bind_gets, Hs. exact IH.
Qed.

Lemma request_shutdown_run w :
  sv_mutex (server w) = false → request_shutdown w = Ret ((), upd_server set_shutdown w).
Proof.
  intros Hm. unfold request_shutdown. mstep (sv_lock_run w Hm); rewrite M_bind_modify.
  destruct w as [[] o]. cbn in Hm. by subst.
Qed.

Definition workers_created (w : server_world) : Prop :=
  ∀ ts, worker_threads (server w) = Some ts → Forall (λ t, t = true) ts.

Lemma stop_workers_run w :
  server_ok w → workers_created w →
  ∃ w', stop_workers (Some w) = Ret ((), Some w') ∧ server_ok w' ∧ shutdown_called (server w') = true ∧
    worker_threads (server w') = None ∧ ports (server w') = ports (server w) ∧ sos w' = sos w.
Proof.
  intros [Hinv Hm] Hts. unfold stop_workers, nullable.
  mstep (request_shutdown_run w Hm); rewrite M_bind_gets. set (w1 := upd_server set_shutdown w). change (worker_threads (server w1)) with (worker_threads (server w)).
  specialize (Hts). unfold workers_created in Hts.
  destruct (worker_threads (server w)) as [ts|] eqn:Et.
  - mstep (join_threads_run ts w1 (Hts ts eq_refl) eq_refl).
    eexists. split; [done|]. split; [split; [|done]|by split_and!].
    destruct Hinv. by split.
  - eexists. split; [done|]. split; [split; [|done]|by split_and!]. destruct Hinv. split; try done.
Qed.

Lemma close_ports_run l w :
  open_fds (sos w) = port_fd <$> l → NoDup (open_fds (sos w)) → Forall (λ fd, 0 ≤ fd) (open_fds (sos w)) →
  ∃ o, close_ports l w = Ret ((), upd_os (λ _, o) w) ∧ open_fds o = [].
Proof.
  revert w. induction l as [|p l IH]; intros w Ho Hnd Hpos; cbn [close_ports].
  { exists (sos w). by destruct w. }
  rewrite Ho in Hnd, Hpos. cbn in Hnd, Hpos. apply NoDup_cons in Hnd as [Hni Hnd].
  apply Forall_cons in Hpos as [Hp Hpos]. destruct (Z.leb_spec 0 (port_fd p)); [|lia].
  unfold sys_close_fd. rewrite M_bind_modify. set (w1 := upd_os _ w).
  assert (open_fds (sos w1) = port_fd <$> l) as Ho1.
  { cbn. rewrite Ho. cbn. rewrite decide_False by tauto. apply filter_all. apply Forall_forall.
    intros x Hx ->. done. }
  destruct (IH w1 Ho1) as (o & E & He); [by rewrite Ho1|by rewrite Ho1|]. by exists o.
Qed.

Lemma server_destroy_run w :
  server_ok w → worker_threads (server w) = None →
  ∃ o, grpc_server_destroy (Some w) = Ret (Some o) ∧ open_fds o = [].
Proof.
  intros [Hinv Hm] Ht. unfold grpc_server_destroy.
  mstep (sv_lock_run w Hm); rewrite M_bind_gets. set (w1 := upd_server _ w).
  destruct (close_ports_run (ports (server w1)) w1 (so_fds _ Hinv) (so_nodup _ Hinv)) as (o & E & He).
  { eapply Forall_impl; [apply (so_fresh _ Hinv)|]. cbn. lia. }
  mstep E. unfold sv_unlock, modify. cbn. rewrite Ht. by exists o.
Qed.

(** ** Reachable servers *)

(** A join that returns has changed nothing. *)
Lemma join_threads_ret ts w w' : join_threads ts w = Ret ((), w') → w' = w.
Proof.
  induction ts as [|t ts IH]; cbn [join_threads]; [by intros [= ->]|].
  rewrite M_bind_gets. destruct t; [|done]. by destruct (shutdown_called (server w)).
Qed.

(** A shutdown that returns leaves no workers. *)
Lemma stop_workers_ret w r : server_ok w → stop_workers (Some w) = Ret r →
  ∃ w', r = ((), Some w') ∧ server_ok w'.
Proof.
  intros [Hinv Hm]. unfold stop_workers, nullable.
  mstep (request_shutdown_run w Hm); rewrite M_bind_gets. set (w1 := upd_server set_shutdown w). assert (server_ok w1) as Hok by (split; [by destruct Hinv|done]).
  destruct (worker_threads (server w1)) as [ts|].
  - unfold mbind, M_bind. destruct (join_threads ts w1) as [[[] w2]|] eqn:E; [|done].
    apply join_threads_ret in E as ->. intros [= <-]. eexists. split; [done|].
    split; [|done]. destruct Hok as [[] _]. by split.
  - intros [= <-]. by eexists.
Qed.

Section reachability.
Context (inet_pton : list Z → option Z).

(** What a program does with a server between its creation and its destruction; the tables
    stay below the size where doubling a capacity wraps. *)
Inductive server_step : server_world → server_world → Prop :=
| step_add_port addr r w w' :
    ports_capacity (server w) < 2 ^ 60 →
    grpc_server_add_insecure_http2_port inet_pton addr (Some w) = Ret (r, Some w') → server_step w w'
| step_register cq w w' :
    cqs_capacity (server w) < 2 ^ 60 →
    grpc_server_register_completion_queue cq (Some w) = Ret ((), Some w') → server_step w w'
| step_start w w' : grpc_server_start (Some w) = Ret ((), Some w') → server_step w w'
| step_shutdown cq tag q q' w w' :
    grpc_server_shutdown_and_notify cq tag (Some w, q) = Ret ((), (Some w', q')) → server_step w w'.

(** A null copy of the address ends the process, so a call that returns had its copy. *)
Lemma add_port_ok addr r w w' :
  server_ok w → ports_capacity (server w) < 2 ^ 60 →
  grpc_server_add_insecure_http2_port inet_pton addr (Some w) = Ret (r, Some w') → server_ok w'.
Proof.
  intros Hok Hcap E. destruct addr as [addr|]; [|by injection E as <- <-].
  destruct (started (server w)) eqn:Es.
  { rewrite add_port_started in E by (done || apply Hok). by injection E as <- <-. }
  destruct ((answer (os_answers (sos w))).1) eqn:Ea; [|by rewrite add_port_no_copy in E by (done || apply Hok)].
  destruct (parse_address (c_str addr ++ [0])) as [parsed|f] eqn:Ep.
  - destruct (add_port_run inet_pton addr w parsed Hok Hcap Ea Ep) as (r' & w2 & E2 & Hok2 & _).
    rewrite E2 in E. by injection E as <- <-.
  - by rewrite (add_port_bad_number inet_pton addr w f) in E by (done || apply Hok).
Qed.

(** A second start does nothing. *)
Lemma start_started w :
  started (server w) = true → sv_mutex (server w) = false → grpc_server_start (Some w) = Ret ((), Some w).
Proof.
  intros Hs Hm. unfold grpc_server_start, nullable. mstep (sv_lock_run w Hm); rewrite M_bind_gets.
  change (started (server (upd_server (set_sv_mutex true) w))) with (started (server w)). rewrite Hs.
  unfold sv_unlock, modify. by rewrite server_relock.
Qed.

(** A start that returns had its array of threads. *)
Lemma start_answer w w' :
  sv_mutex (server w) = false → started (server w) = false →
  grpc_server_start (Some w) = Ret ((), Some w') → (answer (os_answers (sos w))).1 = true.
Proof.
  intros Hm Hs. unfold grpc_server_start, nullable. mstep (sv_lock_run w Hm); rewrite M_bind_gets.
  change (started (server (upd_server (set_sv_mutex true) w))) with (started (server w)). rewrite Hs, M_bind_modify.
  unfold malloc_server at 1, mbind at 1, M_bind at 1. cbn [sos upd_server]. by destruct (answer _).1.
Qed.

Lemma start_ok w w' : server_ok w → grpc_server_start (Some w) = Ret ((), Some w') → server_ok w'.
Proof.
  intros Hok E. destruct (started (server w)) eqn:Es.
  { rewrite start_started in E by (done || apply Hok). by injection E as <-. }
  destruct (start_run w Hok (start_answer _ _ (proj2 Hok) Es E)) as (w2 & E2 & Hok2 & _). rewrite E2 in E. by injection E as <-.
Qed.

Lemma step_ok w w' : server_step w w' → server_ok w → server_ok w'.
Proof.
  intros H Hok. destruct H as [addr r w w' Hcap E|[cq|] w w' Hcap E|w w' E|cq tag q q' w w' E].
  - by eapply add_port_ok.
  - destruct (register_run cq w Hok Hcap) as (w2 & E2 & ? & _). rewrite E2 in E. by injection E as <-.
  - by injection E as <-.
  - by eapply start_ok.
  - unfold grpc_server_shutdown_and_notify in E. destruct (stop_workers (Some w)) as [r|] eqn:Es; [|done].
    destruct (stop_workers_ret w r Hok Es) as (w2 & -> & Hok2).
    destruct cq, tag; try (by injection E as <- <-).
    by destruct (completion_queue_push_event _ q) as [[? ?]|]; [injection E as <- <-|].
Qed.

Lemma reachable_ok w w' : rtc server_step w w' → server_ok w → server_ok w'.
Proof. induction 1; eauto using step_ok. Qed.

Lemma created_ok args al al' s o :
  grpc_server_create args al = Ret (Some s, al') → open_fds o = [] → 0 ≤ next_fd o →
  server_ok (mk_sworld s o).
Proof.
  unfold grpc_server_create. intros E Ho Hn.
  do 3 (unfold mbind at 1, M_bind at 1 in E;
    match type of E with context [malloc ?a] => rewrite (malloc_answer a) in E; destruct (answer a) as [[] ?] end;
    cbn [negb] in E; [|done]).
  injection E as <- _. split; [|done]. split; cbn; rewrite ?Ho; try done; try lia; constructor.
Qed.

(** C29. From the creation of a server, whatever ports and queues are added, whether calls of
    the system and allocations fail or not, and however often it is started and shut down, the
    open sockets are exactly those of its port table; when its threads were created and
    [accept] holds none of them (see [Workers]), a shutdown returns and the destruction after
    it closes every socket. *)
Theorem grpc_server_no_socket_leak args al al' s o w q :
  grpc_server_create args al = Ret (Some s, al') → open_fds o = [] → 0 ≤ next_fd o →
  rtc server_step (mk_sworld s o) w → workers_created w →
  open_fds (sos w) = port_fd <$> ports (server w) ∧
  ∃ w' o', grpc_server_shutdown_and_notify None None (Some w, q) = Ret ((), (Some w', q)) ∧
    grpc_server_destroy (Some w') = Ret (Some o') ∧ open_fds o' = [].
Proof.
  intros Hc Ho Hn Hreach Hwork.
  pose proof (reachable_ok _ _ Hreach (created_ok _ _ _ _ _ Hc Ho Hn)) as Hok.
  split; [apply (so_fds _ (proj1 Hok))|].
  destruct (stop_workers_run w Hok Hwork) as (w' & E & Hok' & _ & Hnone & _).
  destruct (server_destroy_run w' Hok' Hnone) as (o' & Ed & He).
  exists w', o'. unfold grpc_server_shutdown_and_notify. by rewrite E.
Qed.
End reachability.

(** ** Witnesses *)

Definition sample_os (sockets : allocs) : os := mk_os [] sockets [] [] [] 3 [].
Definition sample_server : grpc_server := mk_server None [] 4 [] 4 false false None 0 false.
Definition sample_pton (s : list Z) : option Z :=
  if strcmp_eq s [49; 48; 46; 48; 46; 48; 46; 49; 0] then Some 16777226 else None.

Lemma sample_pton_string s t : c_str s = c_str t → sample_pton s = sample_pton t.
Proof. intros H. unfold sample_pton, strcmp_eq. by rewrite H. Qed.

(** [10.0.0.1:70000], of which the low 16 bits are bound, and [[::]:50051], which is cut at its
    first colon. *)
Lemma grpc_server_add_port_spec_witness :
  (∃ w', grpc_server_add_insecure_http2_port sample_pton (Some (lit "10.0.0.1:70000"))
      (Some (mk_sworld sample_server (sample_os []))) = Ret (70000, Some w') ∧
    ports (server w') = [mk_port 3 (mk_sockaddr 16777226 4464) None]) ∧
  (∃ w', grpc_server_add_insecure_http2_port sample_pton (Some (lit "[::]:50051"))
      (Some (mk_sworld sample_server (sample_os []))) = Ret (0, Some w') ∧
    ports (server w') = [mk_port 3 (mk_sockaddr 0 0) None]).
Proof.
  assert (server_ok (mk_sworld sample_server (sample_os []))) as Hok by by eapply (created_ok None [] []).
  split.
  - destruct (grpc_server_add_port_spec sample_pton (lit "10.0.0.1:70000") _ Hok eq_refl sample_pton_string)
      as [(r & w' & E & _ & _ & Hres & _) _].
    destruct Hres as [-> [Hp _]]; [done|]. exists w'. by split.
  - destruct (grpc_server_add_port_spec sample_pton (lit "[::]:50051") _ Hok eq_refl sample_pton_string)
      as [(r & w' & E & _ & _ & Hres & _) _].
    destruct Hres as [-> [Hp _]]; [done|]. exists w'. by split.
Defined.

(** Two ports, the socket of the second refused, a queue, the start, and the end. *)
Lemma grpc_server_no_socket_leak_witness :
  ∃ w w' o', ports (server w) = [mk_port 3 (mk_sockaddr 0 50051) None] ∧
    grpc_server_shutdown_and_notify None None (Some w, None) = Ret ((), (Some w', None)) ∧
    grpc_server_destroy (Some w') = Ret (Some o') ∧ open_fds o' = [].
Proof.
  eassert (rtc (server_step sample_pton) (mk_sworld sample_server (sample_os [true; false])) _) as Hreach.
  { eapply rtc_l; [apply (step_add_port _ (Some [120; 0]) 50051); [done|vm_compute; reflexivity]|].
    eapply rtc_l; [apply (step_add_port _ (Some [120; 58; 56; 48; 0]) 0); [done|vm_compute; reflexivity]|].
    eapply rtc_l; [apply (step_register _ (Some 7%positive)); [done|vm_compute; reflexivity]|].
    eapply rtc_l; [apply step_start; vm_compute; reflexivity|]. apply rtc_refl. }
  edestruct (grpc_server_no_socket_leak sample_pton None [] [] sample_server (sample_os [true; false]))
    as [_ (w' & o' & E1 & E2 & E3)]; [done|done|done|exact Hreach| |].
  - intros ts [= <-]. repeat constructor.
  - do 3 eexists. split; [|split; [exact E1|split; [exact E2|exact E3]]]. done.
Defined.
