(* ===== verification/Workers.v ===== *)
(** * The worker threads of a server (src/src/grpc_server.c)

    A started server with its threads, which watch the listening sockets and close the connections
    they accept, with the clients that connect, and with the thread that shuts it down and joins
    the workers.  A step of a worker is what it does between two points where another thread can
    come in: the test of the flag, [select], [accept] and [close].  The rest of the library is
    [Server]'s, whose [stop_workers] is the abstraction of the steps of a shutdown. *)

From Stdlib Require Import ZArith Lia.
From stdpp Require Import base tactics list option strings gmap relations.
From S2P Require Import Prelude Lists CStrings CompletionQueue Server.

#[local] Open Scope Z_scope.
#[local] Set Warnings "-clear-no-such-hyp".

(** ** Sockets *)

(** [fd_set] has this many bits; [FD_SET] does not check. *)
Definition FD_SETSIZE : Z := 1024.

(** A server with the descriptors that [accept] gave out and, for each listening socket, how many
    connections wait to be accepted. *)
Record net := mk_net {
  nworld : server_world;
  clients : list Z;
  backlog : gmap Z nat
}.

Definition waiting (n : net) (fd : Z) : nat := default 0%nat (backlog n !! fd).
Definition set_world (w : server_world) (n : net) : net := mk_net w (clients n) (backlog n).
Definition set_waiting (fd : Z) (k : nat) (n : net) : net :=
  mk_net (nworld n) (clients n) (<[fd := k]> (backlog n)).

(** What the system answers to [select] and [accept]: what there is; that the connection has gone
    in the meantime; an error. *)
Inductive sys_answer := Fine | Lost | Error.

Definition listening (n : net) (fd : Z) : bool := bool_decide (fd ∈ open_fds (sos (nworld n))).

Definition FD_SET (fd : Z) : M net () :=
  if (0 <=? fd) && (fd <? FD_SETSIZE) then mret () else fail OutOfBounds.

(** Whether [select] returns with the socket in the set.  It returns after
    [GRPC_SELECT_TIMEOUT_USEC] in any case. *)
Definition sys_select (fd : Z) (a : sys_answer) : M net bool := λ n,
  if negb (listening n fd) then Fault UseAfterFree else
  Ret (match a with Fine => (0 <? waiting n fd)%nat | _ => false end, n).

(** The descriptor of the next connection, or -1.  The sockets are blocking: with no connection
    and no error, [accept] does not return. *)
Definition sys_accept (fd : Z) (a : sys_answer) : M net Z := λ n,
  if negb (listening n fd) then Fault UseAfterFree else
  match a, waiting n fd with
  | Error, _ => Ret (-1, n)
  | _, O => Fault Deadlock
  | Lost, S k => Ret (-1, set_waiting fd k n)
  | Fine, S k =>
      let o := sos (nworld n) in
      let client := next_fd o in
      let o' := mk_os (os_answers o) (socket_results o) (bind_results o) (listen_results o)
                  (thread_results o) (client + 1) (open_fds o) in
      Ret (client, mk_net (upd_os (λ _, o') (nworld n)) (clients n ++ [client]) (<[fd := k]> (backlog n)))
  end.

(** [close] on the one table of descriptors that a process has. *)
Definition close_client (fd : Z) : M net () := λ n,
  match sys_close_fd fd (nworld n) with
  | Ret (_, w) => Ret ((), mk_net w (filter (λ x, x ≠ fd) (clients n)) (backlog n))
  | Fault f => Fault f
  end.

(** ** The loop of a worker *)

(** Where a worker is: before the test of the flag, before the socket of the port [i], before the
    [accept] on it, before the [close] of a connection from it, or at the end. *)
Inductive worker_pc :=
| Testing
| AtPort (i : nat)
| Accepting (i : nat)
| Serving (i : nat) (client_fd : Z)
| Returned.

#[export] Instance worker_pc_eq_dec : EqDecision worker_pc.
Proof. solve_decision. Defined.

Definition server_worker_thread (a : sys_answer) (p : worker_pc) : M net worker_pc :=
  s ← gets (server ∘ nworld);
  match p with
  | Testing => mret (if shutdown_called s then Returned else AtPort 0)
  | AtPort i =>
      match ports s !! i with
      | None => mret Testing                 (* i < ports_count fails *)
      | Some port =>
          _ ← FD_SET (port_fd port);
          ready ← sys_select (port_fd port) a;
          mret (if ready : bool then Accepting i else AtPort (S i))
      end
  | Accepting i =>
      match ports s !! i with
      | None => fail OutOfBounds
      | Some port =>
          client_fd ← sys_accept (port_fd port) a;
          mret (if 0 <=? client_fd then Serving i client_fd else AtPort (S i))
      end
  | Serving i client_fd => _ ← close_client client_fd; mret (AtPort (S i))
  | Returned => mret Returned
  end.

(** ** The server with its threads *)

(** The thread that shuts down: before, at the join of the worker [k], behind the joins. *)
Inductive closer_pc := NotCalled | Joining (k : nat) | Stopped.

Record service := mk_service { nets : net; workers : list worker_pc; closer : closer_pc }.

(** A server as [grpc_server_start] leaves it. *)
Definition launch (w : server_world) : service :=
  mk_service (mk_net w [] ∅) (replicate (worker_count (server w)) Testing) NotCalled.

Section steps.
Context (inet_pton : list Z → option Z).

(** What the program, the clients and the system decide. *)
Inductive serve_act : service → service → Prop :=
| act_add_port addr r n w' ws c :
    grpc_server_add_insecure_http2_port inet_pton addr (Some (nworld n)) = Ret (r, Some w') →
    serve_act (mk_service n ws c) (mk_service (set_world w' n) ws c)
| act_register cq n w' ws c :
    cqs_capacity (server (nworld n)) < 2 ^ 60 →
    grpc_server_register_completion_queue cq (Some (nworld n)) = Ret ((), Some w') →
    serve_act (mk_service n ws c) (mk_service (set_world w' n) ws c)
| act_start n w' ws c :
    grpc_server_start (Some (nworld n)) = Ret ((), Some w') →
    serve_act (mk_service n ws c) (mk_service (set_world w' n) ws c)
| act_connect fd n ws c :
    serve_act (mk_service n ws c) (mk_service (set_waiting fd (S (waiting n fd)) n) ws c)
| act_error n n' l1 p q l2 c :
    server_worker_thread Error p n = Ret (q, n') →
    serve_act (mk_service n (l1 ++ p :: l2) c) (mk_service n' (l1 ++ q :: l2) c)
| act_shutdown n w' ws :
    request_shutdown (nworld n) = Ret ((), w') →
    serve_act (mk_service n ws NotCalled) (mk_service (set_world w' n) ws (Joining 0)).
End steps.

(** What the threads of the library do. *)
Inductive serve_run : service → service → Prop :=
| run_worker a n n' l1 p q l2 c :
    a ≠ Error → p ≠ Returned → server_worker_thread a p n = Ret (q, n') →
    serve_run (mk_service n (l1 ++ p :: l2) c) (mk_service n' (l1 ++ q :: l2) c)
| run_join n ws k :
    ws !! k = Some Returned →
    serve_run (mk_service n ws (Joining k)) (mk_service n ws (Joining (S k)))
| run_free n w' ws :
    free_workers (nworld n) = Ret ((), w') →
    serve_run (mk_service n ws (Joining (length ws))) (mk_service (set_world w' n) ws Stopped).

Definition serve_step inet_pton (s s' : service) : Prop := serve_act inet_pton s s' ∨ serve_run s s'.

(** A worker whose [accept] waits for a client. *)
Definition blocked (n : net) (p : worker_pc) : Prop :=
  ∃ i port, p = Accepting i ∧ ports (server (nworld n)) !! i = Some port ∧ waiting n (port_fd port) = 0%nat.

(** ** The invariant *)

Definition held_of (p : worker_pc) : list Z := match p with Serving _ fd => [fd] | _ => [] end.
(** The connections the workers have to close. *)
Definition held (ws : list worker_pc) : list Z := ws ≫= held_of.

Definition shut (n : net) : bool := shutdown_called (server (nworld n)).

(** A bound on the steps of a worker on [k] ports once the flag is set. *)
Definition steps_left (k : nat) (p : worker_pc) : nat :=
  match p with
  | Testing => 1
  | AtPort i => 3 * (k - i) + 2
  | Accepting i => 3 * (k - i) + 1
  | Serving i _ => 3 * (k - i)
  | Returned => 0
  end.

Section invariant.
Context (ps : list server_port).
Context (ps_fit : Forall (λ p, port_fd p < FD_SETSIZE) ps).

(** A started server with the ports [ps], whose accepted connections are [l]. *)
Record net_ok (n : net) (l : list Z) : Prop := {
  no_server : server_ok (nworld n);
  no_started : started (server (nworld n)) = true;
  no_ports : ports (server (nworld n)) = ps;
  no_clients : clients n ≡ₚ l;
  no_nodup : NoDup (open_fds (sos (nworld n)) ++ clients n);
  no_fresh : Forall (λ fd, 0 ≤ fd < next_fd (sos (nworld n))) (clients n)
}.

Definition pc_ok (n : net) (p : worker_pc) : Prop :=
  match p with
  | Accepting i | Serving i _ => (i < length ps)%nat
  | Returned => shut n = true
  | _ => True
  end.

Record service_ok (s : service) : Prop := {
  wk_net : net_ok (nets s) (held (workers s));
  wk_pcs : Forall (pc_ok (nets s)) (workers s);
  wk_count : worker_count (server (nworld (nets s))) = length (workers s);
  wk_threads : worker_threads (server (nworld (nets s))) =
    match closer s with Stopped => None | _ => Some (replicate (length (workers s)) true) end;
  wk_closer : match closer s with
    | NotCalled => True
    | Joining k => shut (nets s) = true ∧ (k ≤ length (workers s))%nat ∧ Forall (eq Returned) (take k (workers s))
    | Stopped => shut (nets s) = true ∧ Forall (eq Returned) (workers s)
    end
}.

#[local] Instance held_perm : Proper ((≡ₚ) ==> (≡ₚ)) held.
Proof. intros l1 l2 H. unfold held. by rewrite H. Qed.

Lemma held_at l1 p l2 : held (l1 ++ p :: l2) ≡ₚ held_of p ++ held (l1 ++ l2).
Proof. by rewrite <- Permutation_middle. Qed.

(** The socket of a port is open and fits the set. *)
Lemma port_run n l i port a :
  net_ok n l → ps !! i = Some port →
  FD_SET (port_fd port) n = Ret ((), n) ∧ listening n (port_fd port) = true ∧
  sys_select (port_fd port) a n =
    Ret (match a with Fine => (0 <? waiting n (port_fd port))%nat | _ => false end, n).
Proof.
  intros [[Hinv _] _ Hp _ _ _] Hi. assert (port_fd port ∈ open_fds (sos (nworld n))) as Hin.
  { rewrite (so_fds _ Hinv), Hp. apply list_elem_of_fmap. exists port. split; [done|]. by eapply list_elem_of_lookup_2. }
  assert (listening n (port_fd port) = true) as Hl by by apply bool_decide_eq_true.
  split_and!; [|done|unfold sys_select; by rewrite Hl].
  pose proof (proj1 (Forall_lookup _ _) ps_fit i port Hi) as Hfit. cbn in Hfit.
  pose proof (proj1 (Forall_forall _ _) (so_fresh _ Hinv) _ Hin) as Hpos. cbn in Hpos.
  unfold FD_SET. destruct (Z.leb_spec 0 (port_fd port)); [|lia].
  by destruct (Z.ltb_spec (port_fd port) FD_SETSIZE); [|lia].
Qed.

(** [accept] gives a descriptor that nobody has, and fails without an effect on descriptors. *)
Lemma sys_accept_run n l i port a :
  net_ok n l → ps !! i = Some port →
  (∃ fd n', sys_accept (port_fd port) a n = Ret (fd, n') ∧ server (nworld n') = server (nworld n) ∧
     open_fds (sos (nworld n')) = open_fds (sos (nworld n)) ∧
     (fd = -1 ∧ net_ok n' l ∨ 0 ≤ fd ∧ net_ok n' (fd :: l))) ∨
  (waiting n (port_fd port) = 0%nat ∧ sys_accept (port_fd port) a n = Fault Deadlock).
Proof.
  intros Hn Hi. destruct (port_run n l i port a Hn Hi) as (_ & Hl & _). unfold sys_accept. rewrite Hl. cbn [negb].
  assert (∀ k, net_ok (set_waiting (port_fd port) k n) l) as Hw by (intros k; by destruct Hn).
  destruct a, (waiting n (port_fd port)) as [|k]; try (by right); left; do 2 eexists; split_and!; try done; eauto.
  right. destruct Hn as [[Hinv Hm] Hst Hp Hc Hnd Hf]. pose proof (so_next _ Hinv) as Hnext. split; [done|].
  assert (Forall (λ fd, 0 ≤ fd < next_fd (sos (nworld n)) + 1) (clients n)) as Hf'
    by (eapply Forall_impl; [exact Hf|]; cbn; lia).
  split; cbn; try done.
  - split; [|done]. destruct Hinv. split; cbn; try done; [|lia]. eapply Forall_impl; [done|]. cbn. lia.
  - by rewrite <- Permutation_cons_append, Hc.
  - rewrite app_assoc, <- Permutation_cons_append. apply NoDup_cons. split; [|done].
    pose proof (proj1 (Forall_forall _ _) (so_fresh _ Hinv)) as Ho. rewrite Forall_forall in Hf.
    intros [Hin%Ho|Hin%Hf]%elem_of_app; cbn in *; lia.
  - apply Forall_app. split; [done|]. repeat constructor; lia.
Qed.

(** Closing a connection closes nothing else. *)
Lemma close_client_run n fd l :
  net_ok n (fd :: l) → ∃ n', close_client fd n = Ret ((), n') ∧ net_ok n' l ∧
    server (nworld n') = server (nworld n) ∧ open_fds (sos (nworld n')) = open_fds (sos (nworld n)).
Proof.
  intros [[Hinv Hm] Hst Hp Hc Hnd Hf]. eexists. split; [done|]. rewrite Hc in Hnd.
  assert (filter (λ x, x ≠ fd) (open_fds (sos (nworld n))) = open_fds (sos (nworld n))) as Ho.
  { apply filter_all, Forall_forall. intros x Hx ->. apply NoDup_app in Hnd as (_ & Hd & _). eapply Hd; [done|by left]. }
  assert (filter (λ x, x ≠ fd) (clients n) ≡ₚ l) as Hl.
  { rewrite Hc, filter_cons_False by tauto. rewrite filter_all; [done|]. apply Forall_forall. intros x Hx ->.
    by apply NoDup_app in Hnd as (_ & _ & [? _]%NoDup_cons). }
  split; [|by split]. split; cbn; rewrite ?Ho; try done.
  - split; [|done]. destruct Hinv. split; cbn; rewrite ?Ho; done.
  - rewrite Hl. rewrite <- Permutation_middle in Hnd. by apply NoDup_cons in Hnd as [_ ?].
  - rewrite Hl. rewrite Hc in Hf. by apply Forall_cons in Hf as [_ ?].
Qed.

(** A step of a worker: it goes on, or waits in [accept]; the server itself it leaves alone. *)
Lemma worker_run a p n l :
  net_ok n (held_of p ++ l) → pc_ok n p →
  (∃ q n', server_worker_thread a p n = Ret (q, n') ∧ net_ok n' (held_of q ++ l) ∧ pc_ok n' q ∧
     server (nworld n') = server (nworld n) ∧ open_fds (sos (nworld n')) = open_fds (sos (nworld n)) ∧
     (shut n = true → p ≠ Returned → (steps_left (length ps) q < steps_left (length ps) p)%nat)) ∨
  (blocked n p ∧ server_worker_thread a p n = Fault Deadlock).
Proof.
  intros Hn Hp. pose proof (no_ports _ _ Hn) as Hps. unfold server_worker_thread.
  rewrite M_bind_gets. change ((server ∘ nworld) n) with (server (nworld n)). destruct p as [|i|i|i fd|]; cbn [held_of] in *.
  - left. do 2 eexists. split; [done|]. change (shutdown_called (server (nworld n))) with (shut n).
    destruct (shut n) eqn:Es; split_and!; try done. cbn. lia.
  - left. rewrite Hps. destruct (ps !! i) as [port|] eqn:Ei.
    + destruct (port_run n _ i port a Hn Ei) as (E1 & _ & E2). mstep E1. mstep E2.
      do 2 eexists. split; [done|]. pose proof (lookup_lt_Some _ _ _ Ei).
      assert (∀ b : bool, held_of (if b then Accepting i else AtPort (S i)) = []) as -> by by intros [].
      split_and!; [done| |done|done|]; destruct (match a with Fine => _ | _ => _ end); cbn; lia.
    + do 2 eexists. split; [done|]. split_and!; try done. cbn. lia.
  - rewrite Hps. cbn in Hp. destruct (lookup_lt_is_Some_2 _ _ Hp) as [port Ei]. rewrite Ei.
    destruct (sys_accept_run n _ i port a Hn Ei) as [(fd & n' & E & Hs & Ho & Hfd)|[Hw E]].
    + left. mstep E. do 2 eexists. split; [done|].
      destruct Hfd as [[-> Hn']|[Hpos Hn']]; [|destruct (Z.leb_spec 0 fd); [|lia]]; split_and!; try done; cbn; lia.
    + right. split; [|by rewrite (M_bind_Fault _ _ _ _ E)]. exists i, port. by rewrite Hps.
  - left. destruct (close_client_run n fd l Hn) as (n' & E & Hn' & Hs & Ho). mstep E. do 2 eexists. split; [done|].
    split_and!; try done. cbn in *. lia.
  - left. do 2 eexists. by split_and!.
Qed.

(** ** Every step keeps it *)

Lemma service_world n w' ws c :
  service_ok (mk_service n ws c) → server_ok w' → same_service (nworld n) w' →
  service_ok (mk_service (set_world w' n) ws c).
Proof.
  intros [[Hs Hst Hps Hcl Hnd Hf] Hpc Hco Ht Hc] Hok (H1 & H2 & H3 & H4 & H5 & Hn & Ho).
  cbn in *. split; cbn; rewrite ?H4, ?H5; try done.
  - split; cbn; rewrite ?H1, ?H3, ?Ho, ?Hn; done.
  - eapply Forall_impl; [exact Hpc|]. intros []; cbn; try done. unfold shut. cbn. by rewrite H2.
  - destruct c; unfold shut; cbn; rewrite ?H2; done.
Qed.

Lemma same_service_refl w : same_service w w.
Proof. by split_and!. Qed.

(** One worker has gone on. *)
Lemma service_worker n n' l1 p q l2 c :
  service_ok (mk_service n (l1 ++ p :: l2) c) → p ≠ Returned →
  net_ok n' (held_of q ++ held (l1 ++ l2)) → pc_ok n' q → server (nworld n') = server (nworld n) →
  service_ok (mk_service n' (l1 ++ q :: l2) c).
Proof.
  intros [Hnet Hpc Hco Ht Hc] Hne Hn' Hq Hs. cbn in *. rewrite length_app in *. cbn in *.
  assert (∀ r, pc_ok n r → pc_ok n' r) as Hpc' by (intros []; cbn; try done; unfold shut; by rewrite Hs).
  split; cbn; rewrite ?length_app, ?Hs; try done.
  - destruct Hn'. split; try done. by rewrite held_at.
  - apply Forall_app in Hpc as [? Hpc]. apply Forall_cons in Hpc as [_ ?].
    apply Forall_app. split; [|constructor; [done|]]; eapply Forall_impl; eauto.
  - assert (shut n' = shut n) as -> by (unfold shut; by rewrite Hs). destruct c as [|k|]; [done| |].
    + destruct Hc as (? & ? & Hr). split_and!; [done|done|]. destruct (decide (k ≤ length l1)%nat) as [Hle|Hgt].
      * rewrite take_app_le in Hr |- * by done. done.
      * exfalso. rewrite take_app_ge in Hr by lia. apply Forall_app in Hr as [_ Hr].
        destruct (k - length l1)%nat eqn:Ek; [lia|]. cbn in Hr. by apply Forall_cons in Hr as [<- _].
    + destruct Hc as [_ [_ [<- _]%Forall_cons]%Forall_app]. done.
Qed.

Lemma service_worker_run a n l1 p l2 c :
  service_ok (mk_service n (l1 ++ p :: l2) c) → p ≠ Returned →
  (∃ q n', server_worker_thread a p n = Ret (q, n') ∧ service_ok (mk_service n' (l1 ++ q :: l2) c) ∧
     server (nworld n') = server (nworld n) ∧ open_fds (sos (nworld n')) = open_fds (sos (nworld n)) ∧
     (shut n = true → (steps_left (length ps) q < steps_left (length ps) p)%nat)) ∨
  (blocked n p ∧ server_worker_thread a p n = Fault Deadlock).
Proof.
  intros Hok Hne. pose proof Hok as [Hnet Hpc _ _ _]. cbn in Hnet, Hpc.
  assert (net_ok n (held_of p ++ held (l1 ++ l2))) as Hn by (destruct Hnet; split; try done; by rewrite <- held_at).
  apply Forall_app in Hpc as [_ [Hp _]%Forall_cons].
  destruct (worker_run a p n _ Hn Hp) as [(q & n' & E & Hn' & Hq & Hs & Ho & Hlt)|Hb]; [left|by right].
  exists q, n'. split_and!; [done| |done|done|by intros; apply Hlt]. by eapply service_worker.
Qed.

Lemma act_ok inet_pton s s' : service_ok s → serve_act inet_pton s s' → service_ok s'.
Proof.
  intros Hok Hstep. destruct Hstep as [addr r n w' ws c E|cq n w' ws c Hcap E|n w' ws c E|fd n ws c
    |n n' l1 p q l2 c E|n w' ws E]; pose proof Hok as [Hnet Hpc Hco Ht Hc]; cbn in Hnet, Hpc, Hco, Ht, Hc; pose proof (no_server _ _ Hnet) as Hs.
  - rewrite add_port_started in E by (apply Hnet || apply Hs). injection E as _ <-.
    by eapply service_world, same_service_refl.
  - destruct cq as [cq|]; [|injection E as <-; by eapply service_world, same_service_refl].
    destruct (register_run cq _ Hs Hcap) as (w2 & E2 & Hok2 & Hsame & _). rewrite E2 in E. injection E as <-.
    by eapply service_world.
  - rewrite start_started in E by (apply Hnet || apply Hs). injection E as <-.
    by eapply service_world, same_service_refl.
  - destruct Hnet. by split.
  - destruct (decide (p = Returned)) as [->|Hne].
    { unfold server_worker_thread in E. rewrite M_bind_gets in E. by injection E as <- <-. }
    destruct (service_worker_run Error n l1 p l2 c Hok Hne) as [(q' & n2 & E2 & Hok' & _)|[_ E2]];
      rewrite E2 in E; [by injection E as <- <-|done].
  - rewrite (request_shutdown_run _ (proj2 Hs)) in E. injection E as <-.
    destruct Hnet as [[Hinv Hm] Hst Hps Hcl Hnd Hf]. split; cbn; try done.
    + split; cbn; try done. split; [|done]. by destruct Hinv.
    + eapply Forall_impl; [exact Hpc|]. by intros [].
    + split_and!; [done|lia|]. by rewrite take_0.
Qed.

Lemma run_ok s s' : service_ok s → serve_run s s' → service_ok s'.
Proof.
  intros Hok Hstep. destruct Hstep as [a n n' l1 p q l2 c _ Hne E|n ws k Hk|n w' ws E].
  - destruct (service_worker_run a n l1 p l2 c Hok Hne) as [(q' & n2 & E2 & Hok' & _)|[_ E2]];
      rewrite E2 in E; [by injection E as <- <-|done].
  - destruct Hok as [Hnet Hpc Hco Ht (Hs & Hle & Hr)]. cbn in *. split; cbn; try done.
    split_and!; [done|by apply lookup_lt_Some in Hk|]. rewrite (take_S_r _ _ _ Hk). apply Forall_app. by split; [|constructor].
  - injection E as <-. destruct Hok as [[[Hinv Hm] Hst Hps Hcl Hnd Hf] Hpc Hco Ht (Hs & Hle & Hr)]. cbn in *.
    rewrite firstn_all in Hr. split; cbn; try done. split; cbn; try done. split; [|done]. by destruct Hinv.
Qed.

Lemma serve_steps_ok inet_pton s s' : service_ok s → rtc (serve_step inet_pton) s s' → service_ok s'.
Proof. intros Hok. induction 1 as [|s1 s2 s3 [H|H] _ IH]; eauto using act_ok, run_ok. Qed.

(** ** A shutdown *)

Definition joins_left (s : service) : nat :=
  match closer s with Joining k => S (length (workers s) - k) | _ => 0 end.
(** A bound on what the threads still do once the flag is set. *)
Definition left_to_do (s : service) : nat :=
  sum_list_with (steps_left (length ps)) (workers s) + joins_left s.

Lemma run_left s s' : service_ok s → closer s ≠ NotCalled → serve_run s s' →
  closer s' ≠ NotCalled ∧ (left_to_do s' < left_to_do s)%nat.
Proof.
  intros Hok Hne Hstep. pose proof (wk_closer _ Hok) as Hc. unfold left_to_do, joins_left.
  destruct Hstep as [a n n' l1 p q l2 c _ Hr E|n ws k Hk|n w' ws E]; cbn [nets workers closer] in *.
  - assert (shut n = true) as Hs by (destruct c; [done|by destruct Hc..]). split; [done|].
    destruct (service_worker_run a n l1 p l2 c Hok Hr) as [(q' & n2 & E2 & _ & _ & _ & Hlt)|[_ E2]];
      rewrite E2 in E; [injection E as <- <-|done].
    specialize (Hlt Hs). rewrite !sum_list_with_app, !length_app. cbn. destruct c; lia.
  - apply lookup_lt_Some in Hk. split; [done|lia].
  - split; [done|lia].
Qed.

Lemma runs_left k s s' : service_ok s → closer s ≠ NotCalled → nsteps serve_run k s s' → (k + left_to_do s' ≤ left_to_do s)%nat.
Proof.
  intros Hok Hc Hn. revert Hok Hc. induction Hn as [|k s1 s2 s3 H _ IH]; intros Hok Hc; [lia|].
  destruct (run_left s1 s2 Hok Hc H) as [Hc2 Hlt]. specialize (IH (run_ok _ _ Hok H) Hc2). lia.
Qed.

(** The thread that shuts down goes on, or a worker does, or the worker it waits for is held by
    [accept]. *)
Lemma run_or_blocked s : service_ok s → closer s ≠ NotCalled →
  (∃ s', serve_run s s') ∨ closer s = Stopped ∨ (∃ p, p ∈ workers s ∧ blocked (nets s) p).
Proof.
  destruct s as [n ws [|k|]]; intros Hok Hc; cbn in *; [done| |by right; left]. clear Hc.
  destruct (wk_closer _ Hok) as (_ & Hle & _). cbn in Hle. destruct (decide (k = length ws)) as [->|Hne].
  { left. eexists. by eapply run_free. }
  destruct (lookup_lt_is_Some_2 ws k) as [p Hp]; [lia|]. destruct (decide (p = Returned)) as [->|Hr].
  { left. eexists. by apply run_join. }
  apply list_elem_of_split_length in Hp as (l1 & l2 & -> & _).
  destruct (service_worker_run Fine n l1 p l2 _ Hok Hr) as [(q & n' & E & _)|[Hb _]].
  - left. eexists. by apply (run_worker Fine n n' l1 p q l2).
  - right. right. exists p. split; [|done]. apply elem_of_app. right. by left.
Qed.

(** Until the array of the threads is freed, the server stays as it is. *)
Definition closes (w : server_world) (s : service) : Prop :=
  open_fds (sos (nworld (nets s))) = open_fds (sos w) ∧
  server (nworld (nets s)) =
    match closer s with Stopped => set_workers None (worker_count (server w)) (server w) | _ => server w end.

Lemma runs_close w s s' : service_ok s → rtc serve_run s s' → closes w s → closer s ≠ NotCalled →
  closes w s' ∧ service_ok s' ∧ closer s' ≠ NotCalled.
Proof.
  intros Hok. induction 1 as [|s1 s2 s3 H _ IH]; intros Hcl Hc; [done|].
  destruct (run_left _ _ Hok Hc H) as [Hc2 _]. apply IH; [by eapply run_ok| |done]. clear IH Hc2.
  destruct Hcl as [Ho Hs], H as [a n n' l1 p q l2 c _ Hr E|n ws k Hk|n w' ws E]; cbn in *.
  - destruct (service_worker_run a n l1 p l2 c Hok Hr) as [(q' & n2 & E2 & _ & Hs2 & Ho2 & _)|[_ E2]];
      rewrite E2 in E; [injection E as <- <-|done]. split; cbn; congruence.
  - by split.
  - injection E as <-. split; cbn; [done|by rewrite Hs].
Qed.

(** When the joins are over, [stop_workers] says what has happened. *)
Lemma stopped_run n ws : service_ok (mk_service n ws NotCalled) →
  ∃ w', stop_workers (Some (nworld n)) = Ret ((), Some w') ∧
    server w' = set_workers None (worker_count (server (nworld n))) (set_shutdown (server (nworld n))) ∧
    sos w' = sos (nworld n).
Proof.
  intros [[[Hinv Hm] _ _ _ _ _] _ _ Ht _]. cbn in *. unfold stop_workers, nullable.
  mstep (request_shutdown_run _ Hm); rewrite M_bind_gets. cbn [server upd_server worker_threads set_shutdown].
  rewrite Ht. set (w1 := upd_server set_shutdown (nworld n)).
  pose proof (join_threads_run (replicate (length ws) true) w1 ltac:(by apply Forall_replicate) eq_refl) as E.
  mstep E. by eexists.
Qed.
End invariant.

(** ** From the creation of a server on *)

(** [s] is a state of a server that was created, prepared as the program liked, got the ports [ps],
    and was started with all its threads. *)
Definition served inet_pton (ps : list server_port) (s : service) : Prop :=
  ∃ args al al' sv o w w',
    grpc_server_create args al = Ret (Some sv, al') ∧ open_fds o = [] ∧ 0 ≤ next_fd o ∧
    rtc (server_step inet_pton) (mk_sworld sv o) w ∧ started (server w) = false ∧ ports (server w) = ps ∧
    grpc_server_start (Some w) = Ret ((), Some w') ∧ workers_created w' ∧
    rtc (serve_step inet_pton) (launch w') s.

Lemma served_ok inet_pton ps s :
  Forall (λ p, port_fd p < FD_SETSIZE) ps → served inet_pton ps s → service_ok ps s.
Proof.
  intros Hfit (args & al & al' & sv & o & w & w' & Hc & Ho & Hn & Hr & Hs & Hp & E & Hcr & Hsteps).
  eapply serve_steps_ok; [done| |exact Hsteps]. pose proof (reachable_ok _ _ _ Hr (created_ok _ _ _ _ _ Hc Ho Hn)) as Hok.
  destruct (start_run w Hok (start_answer _ _ (proj2 Hok) Hs E)) as (w2 & E2 & Hok2 & Hp2 & Hs2 & _ & Ht). rewrite E2 in E. injection E as ->.
  destruct (Ht Hs) as (ts & Hts & Hl & Hwc & _).
  assert (ts = replicate (worker_count (server w')) true) as ->.
  { rewrite Hwc. symmetry. apply replicate_as_elem_of. split; [done|]. intros t Hin. by eapply Forall_forall in Hcr. }
  split; cbn; rewrite ?length_replicate; try done.
  - split; cbn; try done; [congruence| |].
    + clear. induction (worker_count _) as [|k IH]; [done|]. cbn. exact IH.
    + rewrite app_nil_r. apply Hok2.
  - by apply Forall_replicate.
Qed.

(** ** What the program can rely on *)

(** C18. While the workers of a started server run, its sockets within an [fd_set], with
    clients that connect and other threads that add ports, register queues or start the server
    again: the ports they read without the mutex do not change; every step of a worker returns,
    or it is held by [accept] for want of a client; each accepted connection is open and held
    by one worker, apart from the listening sockets; and after the joins of a shutdown none is
    left open, and destroying the server closes the rest. *)
Theorem server_workers_safe inet_pton ps s :
  served inet_pton ps s → Forall (λ p, port_fd p < FD_SETSIZE) ps →
  ports (server (nworld (nets s))) = ps ∧
  (∀ p a, p ∈ workers s → (∃ q n', server_worker_thread a p (nets s) = Ret (q, n')) ∨ blocked (nets s) p) ∧
  clients (nets s) ≡ₚ held (workers s) ∧ NoDup ((port_fd <$> ps) ++ held (workers s)) ∧
  (closer s = Stopped → clients (nets s) = [] ∧
     ∃ o, grpc_server_destroy (Some (nworld (nets s))) = Ret (Some o) ∧ open_fds o = []).
Proof.
  intros Hserved Hfit. pose proof (served_ok _ _ _ Hfit Hserved) as Hok. pose proof Hok as [Hnet Hpc _ Ht Hc].
  pose proof Hnet as [Hs _ Hps Hcl Hnd _]. split_and!; [done| |done| |].
  - intros p a (l1 & l2 & Hw)%list_elem_of_split. destruct (decide (p = Returned)) as [->|Hr]; [left; by do 2 eexists|].
    destruct s as [n ws c]. cbn in Hw. subst ws.
    destruct (service_worker_run ps Hfit a n l1 p l2 c Hok Hr) as [(q & n' & E & _)|[Hb _]]; [|by right].
    left. by exists q, n'.
  - by rewrite (so_fds _ (proj1 Hs)), Hps, Hcl in Hnd.
  - intros Hst. rewrite Hst in Hc, Ht. destruct Hc as [_ Hr]. split; [|by apply server_destroy_run].
    apply Permutation_nil_r. rewrite Hcl. clear -Hr. induction Hr as [|p ws <- _ IH]; [done|]. exact IH.
Qed.

(** C19. A call of [grpc_server_shutdown_and_notify] on such a server: once nobody interferes
    its joins are over after at most [left_to_do] steps of the threads, unless [accept] holds a
    worker for want of a client; when they are over every worker has returned and the server is
    as the sequential [stop_workers] leaves it. *)
Theorem server_shutdown_waits inet_pton ps n ws :
  served inet_pton ps (mk_service n ws NotCalled) → Forall (λ p, port_fd p < FD_SETSIZE) ps →
  ∃ w w', request_shutdown (nworld n) = Ret ((), w) ∧ stop_workers (Some (nworld n)) = Ret ((), Some w') ∧
    let s := mk_service (set_world w n) ws (Joining 0) in
    (∀ k s', nsteps serve_run k s s' → (k ≤ left_to_do ps s)%nat) ∧
    ∀ s', rtc serve_run s s' →
      ((∃ s2, serve_run s' s2) ∨ closer s' = Stopped ∨ ∃ p, p ∈ workers s' ∧ blocked (nets s') p) ∧
      (closer s' = Stopped → Forall (eq Returned) (workers s') ∧
         server (nworld (nets s')) = server w' ∧ open_fds (sos (nworld (nets s'))) = open_fds (sos w')).
Proof.
  intros Hserved Hfit. pose proof (served_ok _ _ _ Hfit Hserved) as Hok0.
  destruct (stopped_run ps n ws Hok0) as (w' & Estop & Hsv & Hso).
  pose proof (request_shutdown_run _ (proj2 (no_server _ _ _ (wk_net _ _ Hok0)))) as E.
  eexists _, w'. split; [exact E|]. split; [exact Estop|]. set (w := upd_server set_shutdown (nworld n)). cbn zeta.
  set (s := mk_service (set_world w n) ws (Joining 0)).
  assert (service_ok ps s) as Hok by exact (act_ok ps Hfit inet_pton _ _ Hok0 (act_shutdown inet_pton n w ws E)).
  split.
  - intros k s' Hk%(runs_left ps Hfit); [lia|done|done].
  - intros s' Hr. destruct (runs_close ps Hfit w s s' Hok Hr) as (Hcl & Hok' & Hne); [by split|done|].
    split; [by apply run_or_blocked with ps|]. intros Hst. pose proof (wk_closer _ _ Hok') as Hc. rewrite Hst in Hc.
    split; [by destruct Hc|]. destruct Hcl as [Ho Hs']. rewrite Hst in Hs'. by rewrite Hs', Ho, Hsv, Hso.
Qed.

(** A descriptor that does not fit is written past the end of the set. *)
Lemma fd_set_overflow a n i port :
  ports (server (nworld n)) !! i = Some port → FD_SETSIZE ≤ port_fd port →
  server_worker_thread a (AtPort i) n = Fault OutOfBounds.
Proof.
  intros Hi Hle. unfold server_worker_thread. rewrite M_bind_gets. cbn [compose]. rewrite Hi. unfold FD_SET.
  destruct (Z.ltb_spec (port_fd port) FD_SETSIZE); [lia|]. by rewrite andb_false_r.
Qed.

(** ** A shutdown that hangs *)

Lemma blocked_waits a n p : blocked n p → a ≠ Error → ∀ r, server_worker_thread a p n ≠ Ret r.
Proof.
  intros (i & port & -> & Hi & Hw) Ha r. unfold server_worker_thread. rewrite M_bind_gets. cbn [compose]. rewrite Hi.
  unfold mbind, M_bind, sys_accept. destruct (listening n (port_fd port)); [|done]. cbn [negb]. rewrite Hw. by destruct a.
Qed.

(** With the worker it joins held by [accept] and no other at work, only a client can help. *)
Lemma stuck n ws k p :
  ws !! k = Some p → p ≠ Returned → Forall (λ p, p = Returned ∨ blocked n p) ws →
  ¬ ∃ s', serve_run (mk_service n ws (Joining k)) s'.
Proof.
  intros Hk Hr Hws [s' H].
  inversion H as [a n1 n' l1 p1 q l2 c Ha Hne E|n1 ws1 k1 Hk1|n1 w' ws1 E]; subst; try congruence.
  - apply Forall_app in Hws as [_ [[?|Hb] _]%Forall_cons]; [done|]. by eapply blocked_waits.
  - apply lookup_lt_Some in Hk. lia.
Qed.

(** A server with one port. *)
Definition one_port : list server_port := [mk_port 3 (mk_sockaddr 0 50051) None].
Definition prepared_server : server_world :=
  mk_sworld (set_ports one_port 4 sample_server) (mk_os [] [] [] [] [] 4 [3]).
Definition started_server : server_world :=
  mk_sworld (set_workers (Some (replicate 4 true)) 4 (set_started (server prepared_server))) (sos prepared_server).

Lemma one_port_served s : rtc (serve_step sample_pton) (launch started_server) s → served sample_pton one_port s.
Proof.
  intros Hs. exists None, [], [], sample_server, (sample_os []), prepared_server, started_server.
  split; [done|]. split; [done|]. split; [done|]. split.
  { eapply rtc_l; [apply (step_add_port _ (Some [120; 0]) 50051); [done|vm_compute; reflexivity]|]. apply rtc_refl. }
  split; [done|]. split; [done|]. split; [vm_compute; reflexivity|]. split; [|exact Hs].
  intros ts [= <-]. by repeat constructor.
Qed.

(** Two workers are told of one client, and the other two return. *)
Definition one_client : service :=
  mk_service (mk_net started_server [] {[ 3 := 1%nat ]}) [Accepting 0; Accepting 0; Testing; Testing] NotCalled.

Lemma one_client_reachable : rtc (serve_step sample_pton) (launch started_server) one_client.
Proof.
  eapply rtc_l; [left; apply (act_connect _ 3)|].
  eapply rtc_l; [right; by eapply (run_worker Fine _ _ [] Testing (AtPort 0) [Testing; Testing; Testing])|].
  eapply rtc_l; [right; by eapply (run_worker Fine _ _ [] (AtPort 0) (Accepting 0) [Testing; Testing; Testing])|].
  eapply rtc_l; [right; by eapply (run_worker Fine _ _ [Accepting 0] Testing (AtPort 0) [Testing; Testing])|].
  eapply rtc_l; [right; by eapply (run_worker Fine _ _ [Accepting 0] (AtPort 0) (Accepting 0) [Testing; Testing])|].
  apply rtc_refl.
Qed.

(** One client is enough for [grpc_server_shutdown_and_notify] never to return: two workers see it
    in [select], one takes it, and the other waits in [accept] while it is joined. *)
Theorem server_shutdown_can_hang :
  ∃ s, served sample_pton one_port s ∧ closer s = Joining 1 ∧ ¬ ∃ s', serve_run s s'.
Proof.
  eexists (mk_service _ [Returned; Accepting 0; Returned; Returned] (Joining 1)). split; [|split; [done|]].
  - apply one_port_served. etrans; [apply one_client_reachable|].
    set (rest := [Accepting 0; Testing; Testing]).
    eapply rtc_l; [right; by eapply (run_worker Fine _ _ [] (Accepting 0) (Serving 0 4) rest)|].
    eapply rtc_l; [right; by eapply (run_worker Fine _ _ [] (Serving 0 4) (AtPort 1) rest)|].
    eapply rtc_l; [right; by eapply (run_worker Fine _ _ [] (AtPort 1) Testing rest)|].
    eapply rtc_l; [left; by apply act_shutdown|].
    eapply rtc_l; [right; by eapply (run_worker Fine _ _ [] Testing Returned rest)|].
    eapply rtc_l; [right; by eapply (run_worker Fine _ _ [Returned; Accepting 0] Testing Returned [Testing])|].
    eapply rtc_l; [right; by eapply (run_worker Fine _ _ [Returned; Accepting 0; Returned] Testing Returned [])|].
    eapply rtc_l; [right; by apply run_join|]. apply rtc_refl.
  - eapply stuck; [done|done|]. rewrite !Forall_cons, Forall_nil. split_and!; [by left| |by left|by left|done].
    right. by exists 0%nat, (mk_port 3 (mk_sockaddr 0 50051) None).
Qed.

(** ** Witnesses *)

Lemma server_workers_safe_witness :
  ports (server (nworld (nets one_client))) = one_port ∧
  (∃ q n', server_worker_thread Fine (Accepting 0) (nets one_client) = Ret (q, n')) ∧
  NoDup ([3] ++ held (workers one_client)).
Proof.
  destruct (server_workers_safe sample_pton one_port one_client (one_port_served _ one_client_reachable))
    as (H1 & H2 & _ & H3 & _); [by repeat constructor|].
  split; [exact H1|]. split; [|exact H3].
  destruct (H2 (Accepting 0) Fine) as [H|(i & port & [= <-] & [= <-] & Hw)]; [by left|exact H|by vm_compute in Hw].
Defined.

Lemma server_shutdown_waits_witness :
  ∃ w w', request_shutdown started_server = Ret ((), w) ∧ stop_workers (Some started_server) = Ret ((), Some w') ∧
    ∀ k s', nsteps serve_run k (mk_service (mk_net w [] {[ 3 := 1%nat ]}) [Accepting 0; Accepting 0; Testing; Testing] (Joining 0)) s' →
      (k ≤ 15)%nat.
Proof.
  destruct (server_shutdown_waits sample_pton one_port (nets one_client) (workers one_client)
    (one_port_served _ one_client_reachable)) as (w & w' & E1 & E2 & H & _); [by repeat constructor|].
  exists w, w'. split; [exact E1|]. split; [exact E2|exact H].
Defined.
