(* ===== verification/Metrics.v ===== *)
(** * Metrics and logging (src/src/observability.c)

    The registry of metrics, whose samples are binary64 numbers, and the logger that calls the
    application's handler with its mutex held. *)

From Stdlib Require Import ZArith Lia SpecFloat.
From stdpp Require Import base tactics list option strings gmap.
From S2P Require Import Prelude Lists.

#[local] Open Scope Z_scope.
#[local] Set Warnings "-clear-no-such-hyp".

(** ** The C type [double]

    IEEE 754 binary64 numbers, added with rounding to nearest, ties to even. *)

Abbreviation double := spec_float.
Definition dzero : double := S754_zero false.
Definition dadd (x y : double) : double := SFadd 53 1024 x y.
Definition dlt (x y : double) : bool := SFltb x y.

#[export] Instance spec_float_eq_dec : EqDecision spec_float.
Proof. solve_decision. Defined.

(** ** Data *)

Definition GRPC_METRIC_COUNTER : Z := 0.
Definition GRPC_METRIC_GAUGE : Z := 1.
Definition GRPC_METRIC_HISTOGRAM : Z := 2.

(** [grpc_metric], its [next] pointer aside; the copies of the name and the description are
    null when [strdup] failed. *)
Record grpc_metric := mk_metric {
  metric_name : option (list Z);
  metric_description : option (list Z);
  metric_type : Z;
  metric_value : double;
  metric_samples : Z;              (* the field [count] *)
  metric_sum : double;
  metric_min : double;
  metric_max : double
}.

Record grpc_metrics_registry := mk_mregistry {
  metrics : option positive;
  metric_count : Z;
  mr_mutex : bool
}.

Abbreviation metrics_state := (heap_of grpc_metrics_registry grpc_metric).

Definition set_mr_mutex (b : bool) (r : grpc_metrics_registry) : grpc_metrics_registry :=
  mk_mregistry (metrics r) (metric_count r) b.
Definition push_metric (m : positive) (r : grpc_metrics_registry) : grpc_metrics_registry :=
  mk_mregistry (Some m) (u64 (metric_count r + 1)) (mr_mutex r).

Definition mr_lock : M metrics_state () := λ w,
  if mr_mutex (obj w) then Fault Deadlock else Ret ((), upd_obj (set_mr_mutex true) w).
Definition mr_unlock : M metrics_state () := modify (upd_obj (set_mr_mutex false)).

(** ** Operations on the registry *)

Definition grpc_metrics_registry_create : M allocs (option grpc_metrics_registry) :=
  ok ← malloc;
  if negb ok then mret None else mret (Some (mk_mregistry None 0 false)).

(** The new metric, which is not in the registry yet. *)
Definition make_metric (name : list Z) (description : option (list Z)) (type : Z) : M metrics_state (option positive) :=
  ok ← malloc_cell;
  if negb ok then mret None else
  name ← strdup_cell (Some name);
  description ← (match description with
                 | Some d => strdup_cell (Some d)
                 | None => mret None
                 end);
  metric ← new_cell (mk_cell (mk_metric name description type dzero 0 dzero dzero dzero) None);
  mret (Some metric).

(** The function behind its [pthread_mutex_lock], here and below. *)
Definition register_section (metric : positive) : M metrics_state Z :=
  r ← gets obj;
  c ← read_cell metric;
  _ ← write_cell metric (mk_cell (data c) (metrics r));
  _ ← modify (upd_obj (push_metric metric));
  _ ← mr_unlock;
  mret 0.
Definition grpc_metrics_register (name description : option (list Z)) (type : Z)
    : M (option metrics_state) Z := nullable (-1)
  match name with
  | None => mret (-1)
  | Some n =>
      metric ← make_metric n description type;
      match metric with
      | None => mret (-1)
      | Some metric => _ ← mr_lock; register_section metric
      end
  end.

(** The loop of the three operations that look a metric up. *)
Fixpoint find_metric (fuel : nat) (name : list Z) (metric : option positive)
    : M metrics_state (option positive) :=
  match metric with
  | None => mret None
  | Some a =>
      match fuel with
      | O => fail OutOfFuel
      | S fuel =>
          c ← read_cell a;
          n ← of_option NullDeref (metric_name (data c));
          if strcmp_eq n name then mret (Some a) else find_metric fuel name (next c)
      end
  end.

(** The update of a metric by [grpc_metrics_increment]. *)
Definition add_sample (v : double) (m : grpc_metric) : grpc_metric :=
  let count := u64 (metric_samples m + 1) in
  mk_metric (metric_name m) (metric_description m) (metric_type m)
    (dadd (metric_value m) v) count (dadd (metric_sum m) v)
    (if (count =? 1) || dlt v (metric_min m) then v else metric_min m)
    (if (count =? 1) || dlt (metric_max m) v then v else metric_max m).

(** The update by [grpc_metrics_set]. *)
Definition set_value (v : double) (m : grpc_metric) : grpc_metric :=
  mk_metric (metric_name m) (metric_description m) (metric_type m) v (metric_samples m)
    (metric_sum m) (metric_min m) (metric_max m).

(** The first metric with the name, updated in place. *)
Definition update_section (f : grpc_metric → grpc_metric) (name : list Z) : M metrics_state Z :=
  w ← get;
  found ← find_metric (walk_fuel w) name (metrics (obj w));
  match found with
  | Some a =>
      c ← read_cell a;
      _ ← write_cell a (mk_cell (f (data c)) (next c));
      _ ← mr_unlock;
      mret 0
  | None => _ ← mr_unlock; mret (-1)
  end.
Definition update_metric (f : grpc_metric → grpc_metric) (name : list Z) : M metrics_state Z :=
  _ ← mr_lock; update_section f name.

Definition grpc_metrics_increment (name : option (list Z)) (v : double) : M (option metrics_state) Z :=
  nullable (-1)
  match name with None => mret (-1) | Some name => update_metric (add_sample v) name end.

Definition grpc_metrics_set (name : option (list Z)) (v : double) : M (option metrics_state) Z :=
  nullable (-1)
  match name with None => mret (-1) | Some name => update_metric (set_value v) name end.

Definition find_section (name : list Z) : M metrics_state (option positive) :=
  w ← get;
  found ← find_metric (walk_fuel w) name (metrics (obj w));
  _ ← mr_unlock;
  mret found.
Definition grpc_metrics_get (name : option (list Z)) : M (option metrics_state) (option positive) :=
  nullable None
  match name with
  | None => mret None
  | Some name => _ ← mr_lock; find_section name
  end.

(** What is left of a destroyed registry are metrics nobody freed. *)
Definition grpc_metrics_registry_destroy (registry : option metrics_state)
    : outcome (option (gmap positive (cell grpc_metric))) :=
  match registry with
  | None => Ret None
  | Some w =>
      let body :=
        _ ← mr_lock;
        r ← gets obj;
        _ ← free_chain (walk_fuel w) (metrics r);
        mr_unlock in
      match body w with
      | Ret (_, w') => Ret (Some (cells w'))
      | Fault f => Fault f
      end
  end.

(** ** The logger *)

Record grpc_logger := mk_logger {
  min_level : Z;
  log_func : option positive;
  log_user_data : option positive;
  lg_mutex : bool
}.

Definition set_lg_mutex (b : bool) (l : grpc_logger) : grpc_logger :=
  mk_logger (min_level l) (log_func l) (log_user_data l) b.
Definition set_handler (f u : option positive) (l : grpc_logger) : grpc_logger :=
  mk_logger (min_level l) f u (lg_mutex l).

Definition grpc_logger_create (min : Z) : M allocs (option grpc_logger) :=
  ok ← malloc;
  if negb ok then mret None else mret (Some (mk_logger min None None false)).

Section logger.
(** The application's state [U], and what its handlers do; they may call the logger. *)
Context {U : Type} (call_log : positive → Z → list Z → option positive → M (grpc_logger * U) ()).

Definition lg_lock : M (grpc_logger * U) () := λ '(l, u),
  if lg_mutex l then Fault Deadlock else Ret ((), (set_lg_mutex true l, u)).
Definition lg_unlock : M (grpc_logger * U) () := λ '(l, u), Ret ((), (set_lg_mutex false l, u)).

Definition grpc_logger_set_handler (f u : option positive) : M (option (grpc_logger * U)) () :=
  nullable () (
  _ ← lg_lock;
  _ ← modify (λ '(l, s), (set_handler f u l, s));
  lg_unlock).

Definition grpc_logger_log (level : Z) (message : option (list Z)) : M (option (grpc_logger * U)) () :=
  nullable ()
  match message with
  | None => mret ()
  | Some message =>
      l ← gets fst;
      if level <? min_level l then mret () else
      _ ← lg_lock;
      l ← gets fst;
      _ ← (match log_func l with
           | Some f => call_log f level message (log_user_data l)
           | None => mret ()
           end);
      lg_unlock
  end.

Definition grpc_logger_destroy (l : option (grpc_logger * U)) : outcome (option U) :=
  match l with
  | None => Ret None
  | Some (l, u) => if lg_mutex l then Fault UseAfterFree else Ret (Some u)
  end.
End logger.

(** ** What the registry promises

    The abstract registry keeps of each metric the samples it was given, the newest metric
    first; the fields of the concrete one are statistics of the samples. *)

Inductive sample := Inc (v : double) | Put (v : double).

Definition increments (h : list sample) : list double :=
  omap (λ s, match s with Inc v => Some v | Put _ => None end) h.
Definition current (h : list sample) : double :=
  fold_left (λ x s, match s with Inc v => dadd x v | Put v => v end) h dzero.
Definition total (vs : list double) : double := fold_left dadd vs dzero.
(** Of equal or unordered numbers the first is kept. *)
Definition least (vs : list double) : double :=
  match vs with
  | [] => dzero
  | v :: vs => fold_left (λ m v, if dlt v m then v else m) vs v
  end.
Definition greatest (vs : list double) : double :=
  match vs with
  | [] => dzero
  | v :: vs => fold_left (λ m v, if dlt m v then v else m) vs v
  end.

Record metric_spec := mk_mspec {
  ms_name : option (list Z);
  ms_description : option (list Z);
  ms_type : Z;
  ms_history : list sample
}.

Definition terminated (s : option (list Z)) : option (list Z) := (λ s, s ++ [0]) <$> s.

Definition metric_of (m : metric_spec) : grpc_metric :=
  let vs := increments (ms_history m) in
  mk_metric (terminated (ms_name m)) (terminated (ms_description m)) (ms_type m)
    (current (ms_history m)) (u64 (zlen vs)) (total vs) (least vs) (greatest vs).

Definition record_sample (s : sample) (m : metric_spec) : metric_spec :=
  mk_mspec (ms_name m) (ms_description m) (ms_type m) (ms_history m ++ [s]).

Record metrics_spec := mk_msspec { all_metrics : list metric_spec; ms_answers : allocs }.

(** The first metric with the name; the lookup does not survive a metric without one. *)
Fixpoint index_of (name : list Z) (ms : list metric_spec) : outcome (option nat) :=
  match ms with
  | [] => Ret None
  | m :: ms =>
      match ms_name m with
      | None => Fault NullDeref
      | Some n =>
          if decide (c_str n = c_str name) then Ret (Some O)
          else i ← index_of name ms; Ret (option_map S i)
      end
  end.

Definition spec_register (name : list Z) (description : option (list Z)) (type : Z) (s : metrics_spec)
    : Z * metrics_spec :=
  let r1 := answer (ms_answers s) in
  if r1.1 then
    let r2 := answer r1.2 in
    let r3 := match description with Some _ => answer r2.2 | None => (false, r2.2) end in
    let m := mk_mspec (if r2.1 then Some (c_str name) else None)
               (if r3.1 then c_str <$> description else None) type [] in
    (0, mk_msspec (m :: all_metrics s) r3.2)
  else (-1, mk_msspec (all_metrics s) r1.2).

Definition spec_sample (x : sample) (name : list Z) (s : metrics_spec) : outcome (Z * metrics_spec) :=
  i ← index_of name (all_metrics s);
  Ret match i with
      | Some i => (0, mk_msspec (alter (record_sample x) i (all_metrics s)) (ms_answers s))
      | None => (-1, s)
      end.

(** ** The operations keep the promise *)

(** The registry represents the list, with room for [k] more samples in every metric; the nodes
    [spare] are not linked yet. *)
Record metrics_inv (k : Z) (spare : list (positive * grpc_metric)) (w : metrics_state)
    (es : list (positive * metric_spec)) : Prop := {
  mi_owns : owns_but spare w (metrics (obj w)) ((λ e, (e.1, metric_of e.2)) <$> es);
  mi_count : metric_count (obj w) = u64 (zlen es);
  mi_room : Forall (λ e, zlen (increments (ms_history e.2)) + k < 2 ^ 64) es
}.

(** ... and between two calls there are none. *)
Record metrics_rel (k : Z) (w : metrics_state) (s : metrics_spec) : Prop := {
  mr_list : ∃ es, metrics_inv k [] w es ∧ es.*2 = all_metrics s;
  mr_unlocked : mr_mutex (obj w) = false;
  mr_answers : cell_answers w = ms_answers s
}.

Implicit Types (w : metrics_state) (s : metrics_spec) (m : metric_spec).

Lemma mr_lock_run w :
  mr_mutex (obj w) = false → mr_lock w = Ret ((), upd_obj (set_mr_mutex true) w).
Proof. unfold mr_lock. by intros ->. Qed.

Lemma mr_relock w :
  mr_mutex (obj w) = false → upd_obj (set_mr_mutex false) (upd_obj (set_mr_mutex true) w) = w.
Proof. destruct w as [[] ???]. cbn. by intros ->. Qed.

(** A sample is recorded by the update the code makes. *)
Lemma add_sample_of v m :
  zlen (increments (ms_history m)) + 1 < 2 ^ 64 →
  add_sample v (metric_of m) = metric_of (record_sample (Inc v) m).
Proof.
  intros Hr. unfold add_sample, metric_of, record_sample, current, increments in *. cbn.
  rewrite omap_app, fold_left_app. cbn. unfold total. rewrite fold_left_app.
  set (vs := omap _ (ms_history m)) in *. rewrite u64_add_l, length_app. cbn [length fold_left].
  replace (Z.of_nat (length vs + 1)) with (zlen vs + 1) by lia.
  destruct vs as [|x vs]; [done|]. rewrite (u64_small (zlen (x :: vs) + 1)) by lia.
  destruct (Z.eqb_spec (zlen (x :: vs) + 1) 1); [cbn in *; lia|]. cbn [orb app least greatest].
  by rewrite !fold_left_app.
Qed.

Lemma set_value_of v m : set_value v (metric_of m) = metric_of (record_sample (Put v) m).
Proof.
  unfold set_value, metric_of, record_sample, current, increments. cbn.
  rewrite omap_app, fold_left_app. cbn. by rewrite app_nil_r.
Qed.

Lemma index_of_lookup name ms i : index_of name ms = Ret (Some i) → is_Some (ms !! i).
Proof.
  revert i. induction ms as [|m ms IH]; intros i; cbn [index_of]; [done|].
  destruct (ms_name m); [|done]. case_decide; [intros [= <-]; by eexists|].
  intros (j & Hj & Heq)%outcome_bind_inv. destruct j as [j|]; [|done]. injection Heq as <-. by apply IH.
Qed.

Lemma index_of_alter name ms i x :
  index_of name ms = Ret (Some i) →
  index_of name (alter (record_sample x) i ms) = Ret (Some i).
Proof.
  revert i. induction ms as [|m ms IH]; intros i; cbn [index_of]; [done|].
  destruct (ms_name m) as [n|] eqn:En; [|done]. case_decide as Hd.
  - intros [= <-]. cbn. rewrite En. by rewrite decide_True.
  - intros (j & Hj & Heq)%outcome_bind_inv. destruct j as [j|]; [|done]. injection Heq as <-.
    cbn. rewrite En, decide_False by done. by rewrite (IH j Hj).
Qed.

Implicit Types (es : list (positive * metric_spec)) (spare : list (positive * grpc_metric)).

(** The node of an entry. *)
Definition metric_node (e : positive * metric_spec) : positive * grpc_metric := (e.1, metric_of e.2).
Definition recorded (x : sample) (e : positive * metric_spec) : positive * metric_spec := (e.1, record_sample x e.2).

(** The walk of the code finds what the specification says. *)
Lemma find_metric_run n name p es w :
  chain (cells w) p (metric_node <$> es) None → (length es ≤ n)%nat →
  find_metric n name p w =
    (i ← index_of name es.*2; Ret (option_bind _ _ (λ i, es.*1 !! i) i, w)).
Proof.
  revert p es. induction n as [|n IH]; intros p es Hc Hn;
    (destruct es as [|[a m] es]; [cbn in Hc; by subst p|]); [cbn in Hn; lia|].
  destruct Hc as (-> & r & Ha & Hc). cbn [find_metric].
  mstep (read_cell_run _ _ _ Ha). cbn [data next index_of fmap list_fmap snd].
  unfold metric_of at 1. cbn [metric_name]. destruct (ms_name m) as [nm|]; [|done].
  cbn [terminated fmap option_fmap option_map]. rewrite (M_bind_Ret _ _ _ (nm ++ [0]) w) by done.
  unfold strcmp_eq. rewrite c_str_app0. destruct (decide (c_str nm = c_str name)) as [He|He].
  - by rewrite bool_decide_true.
  - rewrite bool_decide_false by done. rewrite (IH r es Hc ltac:(cbn in Hn; lia)).
    by destruct (index_of name _) as [[]|].
Qed.

Lemma alter_lookup {A} (f : A → A) i (l : list A) x :
  l !! i = Some x → alter f i l = take i l ++ f x :: drop (S i) l.
Proof.
  revert i. induction l as [|y l IH]; intros [|i] Hx; try done; [by injection Hx as ->|].
  cbn. f_equal. by apply IH.
Qed.

Lemma snd_alter (x : sample) i es : (alter (recorded x) i es).*2 = alter (record_sample x) i es.*2.
Proof. revert i. induction es as [|e es IH]; intros [|i]; cbn; try done. f_equal. apply IH. Qed.
Lemma fst_alter (x : sample) i es : (alter (recorded x) i es).*1 = es.*1.
Proof. revert i. induction es as [|e es IH]; intros [|i]; cbn; try done. f_equal. apply IH. Qed.

Lemma metrics_inv_less k k' spare w es : k' ≤ k → metrics_inv k spare w es → metrics_inv k' spare w es.
Proof. intros Hk [Hl Hc Hr]. split; try done. eapply Forall_impl; [done|]. cbn. lia. Qed.

Lemma metrics_inv_mutex b k spare w es : metrics_inv k spare w es → metrics_inv k spare (upd_obj (set_mr_mutex b) w) es.
Proof.
  intros [Ho ??]. split; try done.
  exact (owns_but_same _ w (upd_obj (set_mr_mutex b) w) _ _ _ eq_refl eq_refl eq_refl Ho).
Qed.

Lemma metrics_inv_answers al k spare w es : metrics_inv k spare w es → metrics_inv k spare (set_cell_answers al w) es.
Proof.
  intros [Ho ??]. split; try done. exact (owns_but_same _ w (set_cell_answers al w) _ _ _ eq_refl eq_refl eq_refl Ho).
Qed.

(** The node at an index, and what the walk from the start finds. *)
Lemma metrics_entry k spare w es i :
  metrics_inv k spare w es → is_Some (es !! i) →
  ∃ a m q, es !! i = Some (a, m) ∧ cells w !! a = Some (mk_cell (metric_of m) q).
Proof.
  intros [Ho _ _] [[a m] Hi]. rewrite <- (take_drop_middle _ _ _ Hi), fmap_app in Ho. cbn in Ho.
  destruct (owns_but_set_data _ w _ _ a _ _ (metric_of m) Ho) as (q & Hq & _). by exists a, m, q.
Qed.

Lemma find_run k spare name w es :
  metrics_inv k spare w es →
  find_metric (walk_fuel w) name (metrics (obj w)) w =
    (i ← index_of name es.*2; Ret (option_bind _ _ (λ i, es.*1 !! i) i, w)).
Proof.
  intros [Ho _ _]. pose proof (owns_but_fuel _ _ _ _ Ho) as Hf. rewrite length_fmap in Hf.
  apply find_metric_run; [apply Ho|lia].
Qed.

Lemma metrics_index k spare name w es i :
  metrics_inv k spare w es → index_of name es.*2 = Ret (Some i) →
  ∃ a m q, es !! i = Some (a, m) ∧ cells w !! a = Some (mk_cell (metric_of m) q) ∧
    find_metric (walk_fuel w) name (metrics (obj w)) w = Ret (Some a, w).
Proof.
  intros Hinv Hi. assert (is_Some (es !! i)) as Hs.
  { apply index_of_lookup in Hi. rewrite list_lookup_fmap in Hi. by destruct (es !! i), Hi. }
  destruct (metrics_entry _ _ _ _ _ Hinv Hs) as (a & m & q & Hei & Ha). exists a, m, q.
  rewrite (find_run _ _ name _ _ Hinv), Hi. cbn. by rewrite list_lookup_fmap, Hei.
Qed.

(** An update of the first metric with the name, under the mutex. *)
Lemma update_section_run f (x : sample) k spare name w es :
  metrics_inv (k + 1) spare w es → (∀ e, e ∈ es → f (metric_of e.2) = metric_of (record_sample x e.2)) →
  match index_of name es.*2 with
  | Ret (Some i) => ∃ h, update_section f name w = Ret (0, upd_obj (set_mr_mutex false) (upd_cells (λ _, h) w)) ∧
      metrics_inv k spare (upd_obj (set_mr_mutex false) (upd_cells (λ _, h) w)) (alter (recorded x) i es)
  | Ret None => update_section f name w = Ret (-1, upd_obj (set_mr_mutex false) w)
  | Fault e => update_section f name w = Fault e
  end.
Proof.
  intros Hinv Hf. unfold update_section. rewrite (M_bind_Ret get _ w w w eq_refl).
  destruct (index_of name es.*2) as [[i|]|e] eqn:Ei.
  - destruct (metrics_index _ _ _ _ _ _ Hinv Ei) as (a & m & q & Hei & Ha & E). mstep E.
    destruct Hinv as [Ho Hc Hr]. pose proof (take_drop_middle _ _ _ Hei) as Hes. rewrite <- Hes, fmap_app in Ho. cbn in Ho.
    destruct (owns_but_set_data _ w _ _ a _ _ (f (metric_of m)) Ho) as (q' & Hq & Ho').
    mstep (read_cell_run _ _ _ Hq). mstep (write_cell_run _ _ _ _ Hq). unfold mr_unlock. rewrite M_bind_modify.
    eexists. split; [done|]. apply (metrics_inv_mutex false).
    split; [|cbn; by rewrite length_alter|]; rewrite (alter_lookup _ _ _ _ Hei).
    + assert (f (metric_of m) = metric_of (record_sample x m)) as Hx by (by apply (Hf (a, m)); eapply list_elem_of_lookup_2).
      rewrite fmap_app, fmap_cons. unfold recorded. cbn [fst snd]. rewrite <- Hx. exact Ho'.
    + rewrite <- Hes in Hr. apply Forall_app in Hr as [H1 [Hx H2]%Forall_cons].
      apply Forall_app. split; [|apply Forall_cons; split].
      1,3: eapply Forall_impl; [done|]; cbn; lia.
      unfold recorded, record_sample, increments in *. cbn in *. rewrite omap_app, length_app. destruct x; cbn; lia.
  - pose proof (find_run _ _ name _ _ Hinv) as E. rewrite Ei in E. cbn in E. by mstep E.
  - pose proof (find_run _ _ name _ _ Hinv) as E. rewrite Ei in E. cbn in E. by rewrite (M_bind_Fault _ _ _ _ E).
Qed.

Lemma update_metric_run f (x : sample) k name w s :
  metrics_rel (k + 1) w s → 0 ≤ k →
  (∀ m, m ∈ all_metrics s → f (metric_of m) = metric_of (record_sample x m)) →
  match spec_sample x name s with
  | Ret (r, s') => ∃ w', update_metric f name w = Ret (r, w') ∧ metrics_rel k w' s'
  | Fault e => update_metric f name w = Fault e
  end.
Proof.
  intros [(es & Hinv & Hes) Hm Ha] Hk Hf. unfold update_metric, spec_sample. mstep (mr_lock_run w Hm). rewrite <- Hes.
  pose proof (update_section_run f x k [] name _ es (metrics_inv_mutex true _ _ _ _ Hinv)) as H.
  destruct (index_of name es.*2) as [[i|]|e]; cbn [mbind outcome_bind].
  - destruct H as (h & -> & Hinv').
    { intros e' He. apply Hf. rewrite <- Hes. by apply list_elem_of_fmap_2. }
    eexists. split; [done|]. split; [|done|done]. eexists. split; [exact Hinv'|]. apply snd_alter.
  - exists w. rewrite H, mr_relock by (try done; intros e' He; apply Hf; rewrite <- Hes; by apply list_elem_of_fmap_2).
    split; [done|]. split; [|done|done]. exists es. split; [|done]. eapply metrics_inv_less, Hinv. lia.
  - apply H. intros e' He. apply Hf. rewrite <- Hes. by apply list_elem_of_fmap_2.
Qed.

Lemma metrics_rel_less k k' w s : k' ≤ k → metrics_rel k w s → metrics_rel k' w s.
Proof. intros Hk [(es & Hinv & Hes) Hm Ha]. split; try done. exists es. split; [by eapply metrics_inv_less|done]. Qed.

(** What the allocator makes of a new metric: it, and the answers left; [None] without memory for it. *)
Definition allocated (name : list Z) (description : option (list Z)) (type : Z) (al : allocs) : option metric_spec * allocs :=
  let r1 := answer al in
  if r1.1 then
    let r2 := answer r1.2 in
    let r3 := match description with Some _ => answer r2.2 | None => (false, r2.2) end in
    (Some (mk_mspec (if r2.1 then Some (c_str name) else None)
       (if r3.1 then c_str <$> description else None) type []), r3.2)
  else (None, r1.2).

Definition with_metric (m : metric_spec) (al : allocs) w : metrics_state :=
  mk_heap (obj w) (<[fresh_cell w := mk_cell (metric_of m) None]> (cells w)) (Pos.succ (fresh_cell w)) al.

Lemma make_metric_run name description type w :
  make_metric name description type w =
    match allocated name description type (cell_answers w) with
    | (Some m, al) => Ret (Some (fresh_cell w), with_metric m al w)
    | (None, al) => Ret (None, set_cell_answers al w)
    end.
Proof.
  unfold make_metric, allocated. mstep (malloc_cell_answer w).
  destruct (answer (cell_answers w)) as [[] al1]; cbn [fst snd negb]; [|done].
  mstep (strdup_cell_run name _). cbn [cell_answers set_cell_answers].
  destruct (answer al1) as [ok2 al2]. cbn [fst snd].
  set (r3 := match description with Some _ => answer al2 | None => (false, al2) end).
  rewrite (M_bind_Ret _ _ _ (if r3.1 then (λ d, c_str d ++ [0]) <$> description else None) (set_cell_answers r3.2 w)).
  2:{ destruct description as [d|]; [|done]. by rewrite strdup_cell_run. }
  unfold mbind, M_bind, new_cell, with_metric, metric_of, terminated. cbn. destruct ok2, r3.1, description; done.
Qed.

Lemma metrics_inv_new m al k spare w es :
  metrics_inv k spare w es → metrics_inv k ((fresh_cell w, metric_of m) :: spare) (with_metric m al w) es.
Proof.
  intros [Ho ??]. split; try done. pose proof (owns_but_new _ _ _ _ (metric_of m) Ho) as Ho'.
  eapply owns_but_same; [| | |exact Ho']; done.
Qed.

(** Linking a new metric in front. *)
Lemma register_section_run k spare w es a m :
  metrics_inv k ((a, metric_of m) :: spare) w es → increments (ms_history m) = [] → k < 2 ^ 64 →
  ∃ h, let w' := upd_obj (λ r, set_mr_mutex false (push_metric a r)) (upd_cells (λ _, h) w) in
    register_section a w = Ret (0, w') ∧ metrics_inv k spare w' ((a, m) :: es).
Proof.
  intros [Ho Hc Hr] Hm Hk. destruct (owns_but_push _ w _ _ _ _ Ho) as [Ha Ho']. unfold register_section.
  rewrite M_bind_gets. mstep (read_cell_run _ _ _ Ha). mstep (write_cell_run _ _ _ _ Ha).
  unfold mr_unlock. rewrite !M_bind_modify. eexists. cbn zeta. split; [done|]. split.
  - eapply owns_but_same; [| | |exact Ho']; done.
  - cbn. rewrite Hc, u64_add_l. f_equal. cbn. lia.
  - constructor; [cbn; rewrite Hm; cbn; lia|done].
Qed.

Lemma metric_register_run k name description type w s :
  metrics_rel k w s → k < 2 ^ 64 →
  ∃ w', grpc_metrics_register (Some name) description type (Some w) =
      Ret ((spec_register name description type s).1, Some w') ∧
    metrics_rel k w' (spec_register name description type s).2.
Proof.
  intros [(es & Hinv & Hes) Hm Ha] Hk. unfold grpc_metrics_register, nullable. unfold mbind at 1, M_bind at 1.
  rewrite make_metric_run. unfold allocated, spec_register. rewrite Ha.
  destruct (answer (ms_answers s)) as [[] al1]; cbn [fst snd].
  2:{ eexists. split; [done|]. split; [|done|done]. exists es. split; [by apply metrics_inv_answers|done]. }
  set (r3 := match description with Some _ => answer _ | None => _ end). set (al3 := r3.2).
  set (m := mk_mspec _ _ type []). mstep (mr_lock_run (with_metric m al3 w) Hm).
  pose proof (metrics_inv_mutex true _ _ _ _ (metrics_inv_new m al3 _ _ _ _ Hinv)) as Hinv'.
  destruct (register_section_run _ _ _ _ _ _ Hinv' eq_refl Hk) as (h & E & Hinv2). rewrite E.
  eexists. split; [done|]. split; [|done|done]. eexists. split; [exact Hinv2|]. cbn. by rewrite Hes.
Qed.

Lemma find_section_run k spare name w es :
  metrics_inv k spare w es →
  find_section name w =
    (i ← index_of name es.*2; Ret (option_bind _ _ (λ i, es.*1 !! i) i, upd_obj (set_mr_mutex false) w)).
Proof.
  intros Hinv. unfold find_section. rewrite (M_bind_Ret get _ w w w eq_refl).
  pose proof (find_run _ _ name _ _ Hinv) as E. destruct (index_of name es.*2) as [i|e]; cbn [mbind outcome_bind] in E |- *.
  - by mstep E.
  - by rewrite (M_bind_Fault _ _ _ _ E).
Qed.

Lemma get_metric_run k name w s :
  metrics_rel k w s →
  match index_of name (all_metrics s) with
  | Ret None => grpc_metrics_get (Some name) (Some w) = Ret (None, Some w)
  | Ret (Some i) => ∃ a m q, grpc_metrics_get (Some name) (Some w) = Ret (Some a, Some w) ∧
      all_metrics s !! i = Some m ∧ cells w !! a = Some (mk_cell (metric_of m) q)
  | Fault e => grpc_metrics_get (Some name) (Some w) = Fault e
  end.
Proof.
  intros [(es & Hinv & Hes) Hm Ha]. unfold grpc_metrics_get, nullable. mstep (mr_lock_run w Hm).
  rewrite (find_section_run _ _ name _ _ (metrics_inv_mutex true _ _ _ _ Hinv)), <- Hes, mr_relock by done.
  destruct (index_of name es.*2) as [[i|]|e] eqn:Ei; [|done..].
  destruct (metrics_index _ _ _ _ _ _ Hinv Ei) as (a & m & q & Hei & Hq & _). exists a, m, q.
  cbn. by rewrite !list_lookup_fmap, Hei.
Qed.

Lemma metrics_destroy_run k w s :
  metrics_rel k w s → grpc_metrics_registry_destroy (Some w) = Ret (Some ∅).
Proof.
  intros [(es & [Ho%owns_but_nil _ _] & _) Hm _]. unfold grpc_metrics_registry_destroy.
  mstep (mr_lock_run w Hm); rewrite M_bind_gets.
  pose proof (owns_fuel _ _ _ Ho) as Hf. apply (owns_obj (set_mr_mutex true)) in Ho.
  by mstep (free_chain_run (walk_fuel w) _ _ _ Ho ltac:(lia)).
Qed.

(** ** Histories of calls *)

Inductive mr_call :=
| MrRegister (name : list Z) (description : option (list Z)) (type : Z)
| MrIncrement (name : list Z) (v : double)
| MrSet (name : list Z) (v : double)
| MrGet (name : list Z).

(** What a call reports: a status, or the fields of the metric that was found. *)
Inductive mr_answer :=
| MrStatus (r : Z)
| MrFound (m : option grpc_metric).

Definition run_mr_call (c : mr_call) : M (option metrics_state) mr_answer :=
  match c with
  | MrRegister name description type =>
      r ← grpc_metrics_register (Some name) description type; mret (MrStatus r)
  | MrIncrement name v => r ← grpc_metrics_increment (Some name) v; mret (MrStatus r)
  | MrSet name v => r ← grpc_metrics_set (Some name) v; mret (MrStatus r)
  | MrGet name =>
      found ← grpc_metrics_get (Some name);
      match found with
      | None => mret (MrFound None)
      | Some a => m ← nullable None (c ← read_cell a; mret (Some (data c))); mret (MrFound m)
      end
  end.
Fixpoint run_mr_calls (cs : list mr_call) : M (option metrics_state) (list mr_answer) :=
  match cs with
  | [] => mret []
  | c :: cs => a ← run_mr_call c; rest ← run_mr_calls cs; mret (a :: rest)
  end.

Definition spec_mr_call (c : mr_call) (s : metrics_spec) : outcome (mr_answer * metrics_spec) :=
  match c with
  | MrRegister name description type =>
      Ret (MrStatus (spec_register name description type s).1, (spec_register name description type s).2)
  | MrIncrement name v => r ← spec_sample (Inc v) name s; Ret (MrStatus r.1, r.2)
  | MrSet name v => r ← spec_sample (Put v) name s; Ret (MrStatus r.1, r.2)
  | MrGet name =>
      i ← index_of name (all_metrics s);
      Ret (MrFound (option_bind _ _ (λ i, metric_of <$> all_metrics s !! i) i), s)
  end.
Fixpoint spec_mr_calls (cs : list mr_call) : M metrics_spec (list mr_answer) :=
  match cs with
  | [] => mret []
  | c :: cs => a ← spec_mr_call c; rest ← spec_mr_calls cs; mret (a :: rest)
  end.

Lemma mr_call_room k w s :
  metrics_rel k w s → ∀ m, m ∈ all_metrics s → zlen (increments (ms_history m)) + k < 2 ^ 64.
Proof.
  intros [(es & [_ _ H] & <-) _ _] m (e & -> & He)%list_elem_of_fmap. rewrite Forall_forall in H. exact (H e He).
Qed.

Lemma mr_call_run c k w s :
  metrics_rel (k + 1) w s → 0 ≤ k < 2 ^ 64 - 1 →
  match spec_mr_call c s with
  | Ret (a, s') => ∃ w', run_mr_call c (Some w) = Ret (a, Some w') ∧ metrics_rel k w' s'
  | Fault e => run_mr_call c (Some w) = Fault e
  end.
Proof.
  intros Hrel Hk.
  pose proof (mr_call_room _ _ _ (metrics_rel_less (k + 1) 1 w s ltac:(lia) Hrel)) as Hroom.
  destruct c as [name description type|name v|name v|name]; cbn [run_mr_call spec_mr_call].
  - destruct (metric_register_run (k + 1) name description type w s Hrel ltac:(lia)) as (w' & E & Hr).
    exists w'. mstep E. split; [done|]. by eapply metrics_rel_less, Hr; lia.
  - pose proof (update_metric_run (add_sample v) (Inc v) k name w s Hrel ltac:(lia)) as H.
    destruct (spec_sample (Inc v) name s) as [[r s']|e]; cbn [mbind outcome_bind fst snd].
    + destruct H as (w' & E & Hr); [intros m Hm; by apply add_sample_of, Hroom|].
      exists w'. split; [|done]. by mstep (nullable_Ret (-1) _ _ _ _ E).
    + rewrite (M_bind_Fault _ _ _ e); [done|]. apply (nullable_Fault (-1)). apply H.
      intros m Hm. by apply add_sample_of, Hroom.
  - pose proof (update_metric_run (set_value v) (Put v) k name w s Hrel ltac:(lia)
      (λ m _, set_value_of v m)) as H.
    destruct (spec_sample (Put v) name s) as [[r s']|e]; cbn [mbind outcome_bind fst snd].
    + destruct H as (w' & E & Hr). exists w'. split; [|done].
      by mstep (nullable_Ret (-1) _ _ _ _ E).
    + by rewrite (M_bind_Fault _ _ _ e); [|apply (nullable_Fault (-1))].
  - pose proof (get_metric_run _ name w s Hrel) as H. pose proof (metrics_rel_less (k + 1) k w s ltac:(lia) Hrel).
    destruct (index_of name (all_metrics s)) as [[i|]|e]; cbn [mbind outcome_bind option_bind].
    + destruct H as (a & m & q & E & Hi & Ha). exists w. split; [|done].
      mstep E; rewrite Hi.
      rewrite (M_bind_Ret _ _ _ (Some (metric_of m)) (Some w)); [done|].
      apply nullable_Ret. by mstep (read_cell_run _ _ _ Ha).
    + exists w. by mstep H.
    + by rewrite (M_bind_Fault _ _ _ _ H).
Qed.

Lemma mr_calls_run cs w s :
  metrics_rel (zlen cs) w s → zlen cs < 2 ^ 64 →
  match spec_mr_calls cs s with
  | Ret (rs, s') => ∃ w', run_mr_calls cs (Some w) = Ret (rs, Some w') ∧ metrics_rel 0 w' s'
  | Fault e => run_mr_calls cs (Some w) = Fault e
  end.
Proof.
  revert w s. induction cs as [|c cs IH]; intros w s Hrel Hk; cbn [run_mr_calls spec_mr_calls].
  { exists w. by split. }
  replace (zlen (c :: cs)) with (zlen cs + 1) in * by (cbn [length]; lia).
  pose proof (mr_call_run c _ w s Hrel ltac:(lia)) as H.
  destruct (spec_mr_call c s) as [[a s1]|e] eqn:Es; [|by rewrite !(M_bind_Fault _ _ _ _ Es), (M_bind_Fault _ _ _ _ H)].
  destruct H as (w1 & E & Hr1). mstep Es; rewrite (M_bind_Ret _ _ _ _ _ E).
  specialize (IH w1 s1 Hr1 ltac:(lia)).
  destruct (spec_mr_calls cs s1) as [[rs s2]|e] eqn:Es2.
  - destruct IH as (w2 & E2 & Hr2). mstep Es2; rewrite (M_bind_Ret _ _ _ _ _ E2). by exists w2.
  - by rewrite (M_bind_Fault _ _ _ _ Es2), (M_bind_Fault _ _ _ _ IH).
Qed.

Lemma metrics_create_rel k al r al' :
  grpc_metrics_registry_create al = Ret (Some r, al') →
  metrics_rel k (mk_heap r ∅ 1 al') (mk_msspec [] al').
Proof.
  intros (ok & al1 & _ & E)%M_bind_inv. destruct ok; [|done]. injection E as <- <-.
  split; [exists []; split; [|done]|done..]. split; [apply owns_but_nil, owns_nil|done|constructor].
Qed.

(** C33. The registry refines the list of its metrics with the samples each was given: any
    history of registrations, increments, assignments and look-ups returns what the list
    specification returns, the fault included of comparing with the name a failed [strdup] left
    null; and destroying the registry frees every node. *)
Theorem metrics_registry_refines al r al' cs :
  grpc_metrics_registry_create al = Ret (Some r, al') → zlen cs < 2 ^ 64 →
  match spec_mr_calls cs (mk_msspec [] al') with
  | Ret (rs, s) => ∃ w, run_mr_calls cs (Some (mk_heap r ∅ 1 al')) = Ret (rs, Some w) ∧
      metrics_rel 0 w s ∧ grpc_metrics_registry_destroy (Some w) = Ret (Some ∅)
  | Fault e => run_mr_calls cs (Some (mk_heap r ∅ 1 al')) = Fault e
  end.
Proof.
  intros Hc Hk. pose proof (mr_calls_run cs _ _ (metrics_create_rel (zlen cs) _ _ _ Hc) Hk) as H.
  destruct (spec_mr_calls cs _) as [[rs s]|e]; [|done]. destruct H as (w & E & Hr).
  exists w. split; [done|]. split; [done|]. by apply (metrics_destroy_run 0 w s).
Qed.

(** ** The statistics *)

Lemma dlt_irrefl x : dlt x x = false.
Proof.
  unfold dlt, SFltb, SFcompare. destruct x as [[]|[]| |[] m e]; try done; rewrite Z.compare_refl;
    change (Pos.compare_cont Eq m m) with (m ?= m)%positive; by rewrite Pos.compare_refl.
Qed.

(** The finite numbers of one sign are ordered by exponent, then by mantissa. *)
Definition magnitude_lt (m1 : positive) (e1 : Z) (m2 : positive) (e2 : Z) : Prop :=
  e1 < e2 ∨ e1 = e2 ∧ (m1 < m2)%positive.

Lemma dlt_finite (b : bool) (m1 m2 : positive) e1 e2 :
  dlt (S754_finite b m1 e1) (S754_finite b m2 e2) = true ↔
  if b then magnitude_lt m2 e2 m1 e1 else magnitude_lt m1 e1 m2 e2.
Proof.
  unfold dlt, SFltb, SFcompare, magnitude_lt.
  change (Pos.compare_cont Eq m1 m2) with (m1 ?= m2)%positive.
  destruct b, (Z.compare_spec e1 e2), (Pos.compare_spec m1 m2); cbn; split; try done; try lia.
Qed.

Lemma dlt_trans x y z : dlt x y = true → dlt y z = true → dlt x z = true.
Proof.
  destruct x as [?|[]| |[] m1 e1], y as [?|[]| |[] m2 e2], z as [?|[]| |[] m3 e3]; try done;
    rewrite !dlt_finite; unfold magnitude_lt; lia.
Qed.

(** A running minimum is one of the numbers, and none is less. *)
Lemma least_bound (lt : double → double → bool) (seen vs : list double) (m : double) :
  (∀ x, lt x x = false) → (∀ x y z, lt x y = true → lt y z = true → lt x z = true) →
  m ∈ seen → Forall (λ v, lt v m = false) seen →
  let r := fold_left (λ x v, if lt v x then v else x) vs m in
  r ∈ seen ++ vs ∧ Forall (λ v, lt v r = false) (seen ++ vs).
Proof.
  intros Hirr Htrans. revert seen m. induction vs as [|v vs IH]; intros seen m Hm Hall; cbn [fold_left].
  { by rewrite app_nil_r. }
  replace (seen ++ v :: vs) with ((seen ++ [v]) ++ vs) by (by rewrite <- app_assoc).
  destruct (lt v m) eqn:E; apply IH.
  - apply elem_of_app. right. by left.
  - apply Forall_app. split; [|constructor; [apply Hirr|constructor]].
    eapply Forall_impl; [exact Hall|]. intros u Hu. cbn in Hu.
    destruct (lt u v) eqn:E'; [|done]. by rewrite (Htrans _ _ _ E' E) in Hu.
  - apply elem_of_app. by left.
  - apply Forall_app. split; [done|]. by constructor.
Qed.

(** [grpc_metrics_increment] for each of the samples. *)
Fixpoint increment_all (name : list Z) (vs : list double) : M (option metrics_state) (list Z) :=
  match vs with
  | [] => mret []
  | v :: vs => r ← grpc_metrics_increment (Some name) v; rs ← increment_all name vs; mret (r :: rs)
  end.

Lemma increment_all_run name vs k w s m i :
  metrics_rel (k + zlen vs) w s → 0 ≤ k → index_of name (all_metrics s) = Ret (Some i) →
  all_metrics s !! i = Some m →
  ∃ w' s', increment_all name vs (Some w) = Ret (replicate (length vs) 0, Some w') ∧
    metrics_rel k w' s' ∧ index_of name (all_metrics s') = Ret (Some i) ∧
    all_metrics s' !! i = Some (mk_mspec (ms_name m) (ms_description m) (ms_type m)
      (ms_history m ++ (Inc <$> vs))).
Proof.
  revert w s m. induction vs as [|v vs IH]; intros w s m Hrel Hk Hi Hm; cbn [increment_all].
  { exists w, s. split; [done|]. split; [by rewrite Z.add_0_r in Hrel|]. split; [done|].
    cbn. rewrite app_nil_r. by destruct m. }
  replace (k + zlen (v :: vs)) with (k + zlen vs + 1) in Hrel by (cbn [length]; lia).
  pose proof (mr_call_room _ _ _ Hrel) as Hroom.
  pose proof (update_metric_run (add_sample v) (Inc v) _ name w s Hrel ltac:(lia)) as H.
  unfold spec_sample in H. rewrite Hi in H. cbn [mbind outcome_bind] in H.
  destruct H as (w1 & E & Hr1); [intros y Hy; apply add_sample_of; specialize (Hroom y Hy); lia|].
  mstep (nullable_Ret (-1) _ _ _ _ E).
  destruct (IH w1 _ (record_sample (Inc v) m) Hr1 Hk) as (w' & s' & E' & Hr' & Hi' & Hm').
  - cbn [all_metrics]. by rewrite (index_of_alter _ _ _ _ Hi).
  - cbn [all_metrics]. by rewrite list_lookup_alter_eq, Hm.
  - exists w', s'. mstep E'. split_and!; [done|done|done|].
    rewrite Hm'. cbn. by rewrite <- app_assoc.
Qed.

Lemma increments_Inc h vs : increments (h ++ (Inc <$> vs)) = increments h ++ vs.
Proof.
  unfold increments. rewrite omap_app. f_equal. induction vs as [|v vs IH]; [done|]. cbn. by rewrite IH.
Qed.

(** After the registration of a metric and any non-empty sequence of increments of it, its
    counter is the number of increments, value and sum are their floating-point sum in order,
    and its minimum and maximum are increments that no other increment is below or above. *)
Theorem grpc_metrics_increment_stats name description type v vs w s :
  let all := v :: vs in
  metrics_rel (zlen all) w s → cell_answers w = [] → zlen all < 2 ^ 64 →
  ∃ w1 w2 a (x : grpc_metric) q, grpc_metrics_register (Some name) description type (Some w) = Ret (0, Some w1) ∧
    increment_all name all (Some w1) = Ret (replicate (length all) 0, Some w2) ∧
    grpc_metrics_get (Some name) (Some w2) = Ret (Some a, Some w2) ∧
    cells w2 !! a = Some (mk_cell x q) ∧
    metric_type x = type ∧ metric_samples x = zlen all ∧
    metric_value x = fold_left dadd all dzero ∧ metric_sum x = fold_left dadd all dzero ∧
    (metric_min x ∈ all ∧ Forall (λ y, dlt y (metric_min x) = false) all) ∧
    (metric_max x ∈ all ∧ Forall (λ y, dlt (metric_max x) y = false) all).
Proof.
  intros all Hrel Ha Hn.
  destruct (metric_register_run _ name description type w s Hrel Hn) as (w1 & E1 & Hr1).
  unfold spec_register in E1, Hr1. rewrite <- (mr_answers _ _ _ Hrel), Ha in E1, Hr1. cbn in E1, Hr1.
  set (x := mk_mspec _ _ type []) in Hr1. set (s1 := mk_msspec _ _) in Hr1.
  assert (index_of name (all_metrics s1) = Ret (Some 0%nat)) as Hi
    by (cbn; by rewrite decide_True by (rewrite <- (c_str_app0 (c_str name)), c_str_terminated by apply c_str_nul_free; done)).
  destruct (increment_all_run name all 0 w1 s1 x 0 Hr1 ltac:(lia) Hi eq_refl) as (w2 & s2 & E2 & Hr2 & Hi2 & Hm2).
  pose proof (get_metric_run _ name w2 s2 Hr2) as H. rewrite Hi2 in H.
  destruct H as (a & m & q & E3 & Hm & Hc). rewrite Hm2 in Hm. injection Hm as <-.
  exists w1, w2, a, (metric_of (mk_mspec (ms_name x) (ms_description x) type (Inc <$> all))), q.
  pose proof (increments_Inc [] all) as Hinc. cbn [app] in Hinc. change (increments [] ++ all) with all in Hinc.
  assert (∀ lt, (∀ x, lt x x = false) → (∀ x y z, lt x y = true → lt y z = true → lt x z = true) →
    let r := fold_left (λ x v, if lt v x then v else x) vs v in
    r ∈ all ∧ Forall (λ x, lt x r = false) all) as Hb.
  { intros lt Hirr Htr. apply (least_bound lt [v] vs v Hirr Htr); [by apply list_elem_of_singleton|].
    by repeat constructor. }
  split_and!; [exact E1|exact E2|exact E3|exact Hc|done|..]; unfold metric_of;
    cbn [ms_history metric_samples metric_value metric_sum metric_min metric_max]; rewrite ?Hinc.
  - apply u64_small. split; [lia|exact Hn].
  - unfold current. generalize dzero. clear. induction all as [|y l IH]; intros z; [done|]. apply IH.
  - done.
  - apply Hb; [exact dlt_irrefl|exact dlt_trans].
  - apply Hb; [exact dlt_irrefl|exact dlt_trans].
  - apply (Hb (λ x y, dlt y x)); [exact dlt_irrefl|]. intros x' y z H1 H2. by eapply dlt_trans.
  - apply (Hb (λ x y, dlt y x)); [exact dlt_irrefl|]. intros x' y z H1 H2. by eapply dlt_trans.
Qed.

(** ** The logger's deliveries *)

Section deliveries.
(** Handlers that leave the logger alone. *)
Context {U : Type} (app : positive → Z → list Z → option positive → M U ()).

Definition plain_log (f : positive) (level : Z) (message : list Z) (data : option positive)
    : M (grpc_logger * U) () := zoom snd (λ u p, (fst p, u)) (app f level message data).

Fixpoint log_all (ms : list (Z * list Z)) : M (option (grpc_logger * U)) () :=
  match ms with
  | [] => mret ()
  | (level, message) :: ms => _ ← grpc_logger_log plain_log level (Some message); log_all ms
  end.

(** The handler on each message in turn. *)
Fixpoint deliver (f : positive) (data : option positive) (ms : list (Z * list Z)) : M U () :=
  match ms with
  | [] => mret ()
  | (level, message) :: ms => _ ← app f level message data; deliver f data ms
  end.

(** A sequence of messages: the handler is called with exactly those of at least the minimum level,
    in order, and the logger is as before. *)
Theorem grpc_logger_delivers (l : grpc_logger) (u : U) (ms : list (Z * list Z)) :
  lg_mutex l = false →
  log_all ms (Some (l, u)) =
    match log_func l with
    | None => Ret ((), Some (l, u))
    | Some f =>
        match deliver f (log_user_data l) (filter (λ p, min_level l ≤ p.1) ms) u with
        | Ret (_, u') => Ret ((), Some (l, u'))
        | Fault e => Fault e
        end
    end.
Proof.
  intros Hm. revert u. induction ms as [|[level message] ms IH]; intros u; cbn [log_all].
  { by destruct (log_func l). }
  destruct (Z.ltb_spec level (min_level l)) as [Hlt|Hge].
  { rewrite filter_cons_False by (cbn; lia). rewrite (M_bind_Ret _ _ _ () (Some (l, u))); [apply IH|].
    apply nullable_Ret. rewrite M_bind_gets. cbn [fst]. by destruct (Z.ltb_spec level (min_level l)); [|lia]. }
  rewrite filter_cons_True by done. unfold grpc_logger_log at 1, nullable at 1, mbind at 1, M_bind at 1.
  rewrite M_bind_gets. cbn [fst]. destruct (Z.ltb_spec level (min_level l)); [lia|].
  rewrite (M_bind_Ret _ _ _ () (set_lg_mutex true l, u)) by (unfold lg_lock; by rewrite Hm).
  rewrite M_bind_gets. cbn [fst log_func set_lg_mutex log_user_data].
  assert (set_lg_mutex false (set_lg_mutex true l) = l) as Hl by (destruct l; cbn in *; by subst).
  destruct (log_func l) as [f|]; cbn [deliver].
  - unfold plain_log at 1, zoom, mbind, M_bind. cbn [snd fst].
    destruct (app f level message (log_user_data l) u) as [[[] u']|e]; [|done].
    unfold lg_unlock. rewrite Hl. apply IH.
  - rewrite M_bind_mret. unfold lg_unlock. rewrite Hl. apply IH.
Qed.
End deliveries.

(** A handler that logs through its logger waits for the mutex of the call it serves. *)
Lemma logger_reentrant_deadlock {U} (call_log : positive → Z → list Z → option positive → M (grpc_logger * U) ())
    (l : grpc_logger) (u : U) (f : positive) (level : Z) (message inner : list Z) :
  lg_mutex l = false → log_func l = Some f → min_level l ≤ level →
  (∀ p, call_log f level message (log_user_data l) p =
     match grpc_logger_log call_log level (Some inner) (Some p) with
     | Ret (_, Some p') => Ret ((), p') | Ret (_, None) => Fault NullDeref | Fault e => Fault e
     end) →
  grpc_logger_log call_log level (Some message) (Some (l, u)) = Fault Deadlock.
Proof.
  intros Hm Hf Hl Hcall. apply nullable_Fault. rewrite M_bind_gets. cbn [fst].
  destruct (Z.ltb_spec level (min_level l)); [lia|].
  rewrite (M_bind_Ret _ _ _ () (set_lg_mutex true l, u)) by (unfold lg_lock; by rewrite Hm).
  rewrite M_bind_gets. cbn [fst log_func set_lg_mutex log_user_data]. rewrite Hf.
  apply M_bind_Fault. rewrite Hcall. unfold grpc_logger_log, nullable. rewrite M_bind_gets.
  cbn [fst min_level set_lg_mutex]. by destruct (Z.ltb_spec level (min_level l)); [lia|].
Qed.

(** ** The properties at work *)

(** 2.5, -1 and 3 in binary64. *)
Definition d2_5 : double := S754_finite false 5629499534213120 (-51).
Definition dm1 : double := S754_finite true 4503599627370496 (-52).
Definition d3 : double := S754_finite false 6755399441055744 (-51).

Definition sample_mr_calls : list mr_call :=
  [MrRegister [97; 0] None GRPC_METRIC_COUNTER; MrRegister [98; 0] (Some [100; 0]) GRPC_METRIC_GAUGE;
   MrIncrement [97; 0] d2_5; MrIncrement [97; 0] dm1; MrSet [98; 0] d3; MrGet [97; 0]; MrGet [99; 0]].

Lemma metrics_registry_refines_witness :
  ∃ w, run_mr_calls sample_mr_calls (Some (mk_heap (mk_mregistry None 0 false) ∅ 1 [])) =
      Ret ([MrStatus 0; MrStatus 0; MrStatus 0; MrStatus 0; MrStatus 0;
            MrFound (Some (mk_metric (Some [97; 0]) None 0 (S754_finite false 6755399441055744 (-52)) 2
              (S754_finite false 6755399441055744 (-52)) dm1 d2_5)); MrFound None], Some w) ∧
    grpc_metrics_registry_destroy (Some w) = Ret (Some ∅).
Proof.
  pose proof (metrics_registry_refines [] (mk_mregistry None 0 false) [] sample_mr_calls
    eq_refl ltac:(done)) as H.
  vm_compute (spec_mr_calls _ _) in H. destruct H as (w & E & _ & Hd). exists w. split; [exact E|exact Hd].
Defined.

Lemma grpc_metrics_increment_stats_witness :
  ∃ w1 w2 a x q, grpc_metrics_register (Some [97; 0]) None 2
      (Some (mk_heap (mk_mregistry None 0 false) ∅ 1 [])) = Ret (0, Some w1) ∧
    increment_all [97; 0] [d2_5; dm1; d3] (Some w1) = Ret ([0; 0; 0], Some w2) ∧
    grpc_metrics_get (Some [97; 0]) (Some w2) = Ret (Some a, Some w2) ∧
    cells w2 !! a = Some (mk_cell x q) ∧ metric_samples x = 3 ∧ metric_min x ∈ [d2_5; dm1; d3].
Proof.
  destruct (grpc_metrics_increment_stats [97; 0] None 2 d2_5 [dm1; d3]
    (mk_heap (mk_mregistry None 0 false) ∅ 1 []) (mk_msspec [] [])
    (metrics_create_rel 3 [] _ _ eq_refl) eq_refl ltac:(done))
    as (w1 & w2 & a & x & q & H1 & H2 & H3 & H4 & _ & H5 & _ & _ & (H6 & _) & _).
  exists w1, w2, a, x, q. split_and!; [exact H1|exact H2|exact H3|exact H4|exact H5|exact H6].
Defined.

Lemma grpc_logger_delivers_witness :
  log_all (λ _ level message _ (u : list (Z * list Z)), Ret ((), u ++ [(level, message)]))
    [(0, [97; 0]); (2, [98; 0]); (3, [99; 0])] (Some (mk_logger 2 (Some 1%positive) None false, [])) =
  Ret ((), Some (mk_logger 2 (Some 1%positive) None false, [(2, [98; 0]); (3, [99; 0])])).
Proof. rewrite grpc_logger_delivers; reflexivity. Defined.
