(* ===== verification/Meters.v ===== *)
(** * A metrics registry under threads (src/src/observability.c)

    Any number of threads that register metrics, give them samples and look them up: the instance of
    [Monitors] for the registry of [Metrics].  A metric is made before the mutex is taken, and what a
    look-up finds is used after its release. *)

From Stdlib Require Import ZArith Lia.
From stdpp Require Import base tactics list option strings gmap relations.
From S2P Require Import Prelude Lists Metrics Monitors.

#[local] Open Scope Z_scope.
#[local] Set Warnings "-clear-no-such-hyp".

(** ** The calls in two parts *)

(** What a call has when it comes to the mutex: the node of its new metric, with what the allocator
    made of the call's strings; the update; or the name. *)
Inductive mr_section :=
| SecRegister (a : positive) (m : metric_spec) (name : list Z) (description : option (list Z)) (type : Z)
| SecSample (x : sample) (name : list Z)
| SecFind (name : list Z).

Inductive mr_result :=
| Done (r : Z)
| Metric (a : option positive).

(** Up to the mutex, or to the return of a call that does not come to it. *)
Definition mr_begin (c : mr_call) : M metrics_state (mr_result + mr_section) :=
  match c with
  | MrRegister name description type =>
      al ← gets cell_answers;
      metric ← make_metric name description type;
      mret match metric, (allocated name description type al).1 with
           | Some a, Some m => inr (SecRegister a m name description type)
           | _, _ => inl (Done (-1))
           end
  | MrIncrement name v => mret (inr (SecSample (Inc v) name))
  | MrSet name v => mret (inr (SecSample (Put v) name))
  | MrGet name => mret (inr (SecFind name))
  end.

Definition sample_update (x : sample) : grpc_metric → grpc_metric :=
  match x with Inc v => add_sample v | Put v => set_value v end.

(** Behind the mutex. *)
Definition mr_behind (sec : mr_section) : M metrics_state mr_result :=
  match sec with
  | SecRegister a _ _ _ _ => r ← register_section a; mret (Done r)
  | SecSample x name => r ← update_section (sample_update x) name; mret (Done r)
  | SecFind name => a ← find_section name; mret (Metric a)
  end.

Definition mr_call_of (sec : mr_section) : mr_call :=
  match sec with
  | SecRegister _ _ name description type => MrRegister name description type
  | SecSample (Inc v) name => MrIncrement name v
  | SecSample (Put v) name => MrSet name v
  | SecFind name => MrGet name
  end.

(** ** The threads *)

(** The registry with the calls that have taken effect and what they returned, in this order. *)
Definition metered : Type := metrics_state * list (mr_call * mr_result).

#[export] Instance mr_monitor : Monitor metered :=
  {| locked := λ s, mr_mutex (obj s.1); acquire := λ s, (upd_obj (set_mr_mutex true) s.1, s.2) |}.

Inductive mr_outside : metered → () → metered → () + mr_section → Prop :=
| out_refused c a w w' log :
    mr_begin c w = Ret (inl a, w') → mr_outside (w, log) () (w', log ++ [(c, a)]) (inl ())
| out_reaching c sec w w' log :
    mr_begin c w = Ret (inr sec, w') → mr_outside (w, log) () (w', log) (inr sec).

Definition mr_critical (sec : mr_section) : M metered () := λ '(w, log),
  match mr_behind sec w with
  | Ret (a, w') => Ret ((), (w', log ++ [(mr_call_of sec, a)]))
  | Fault f => Fault f
  end.

(** The number of calls stays below [2^64]. *)
Definition mr_admits (sec : mr_section) (s : metered) : Prop := zlen s.2 + 1 < 2 ^ 64.

Abbreviation mr_pc := (thread_pc () mr_section).
Abbreviation mr_team_step := (team_step mr_outside mr_critical mr_admits).

Definition mr_team_start (n : nat) (r : grpc_metrics_registry) (al : allocs) : team metered () mr_section :=
  mk_team (mk_heap r ∅ 1 al, []) (replicate n (Outside ())).

(** The functions of [Metrics] are [mr_begin], the acquisition, and [mr_behind]. *)
Lemma mr_call_parts c w :
  nullable (Done 0) (x ← mr_begin c; match x with inl a => mret a | inr sec => _ ← mr_lock; mr_behind sec end) (Some w) =
    match c with
    | MrRegister name description type =>
        r ← grpc_metrics_register (Some name) description type; mret (Done r)
    | MrIncrement name v => r ← grpc_metrics_increment (Some name) v; mret (Done r)
    | MrSet name v => r ← grpc_metrics_set (Some name) v; mret (Done r)
    | MrGet name => a ← grpc_metrics_get (Some name); mret (Metric a)
    end (Some w).
Proof.
  unfold nullable. destruct c as [name description type|name v|name v|name]; cbn [mr_begin].
  - rewrite !M_bind_assoc, M_bind_gets, M_bind_assoc. unfold grpc_metrics_register, nullable, mbind, M_bind.
    rewrite make_metric_run. destruct (allocated name description type (cell_answers w)) as [[m|] al]; [|done].
    cbn [mret M_ret fst mr_behind]. unfold mbind, M_bind. destruct (mr_lock _) as [[[] w1]|]; [|done].
    by destruct (register_section _ w1) as [[r w2]|].
  - rewrite M_bind_mret. cbn [mr_behind]. unfold grpc_metrics_increment, nullable, update_metric, mbind, M_bind.
    destruct (mr_lock w) as [[[] w1]|]; [|done]. by destruct (update_section _ name w1) as [[r w2]|].
  - rewrite M_bind_mret. cbn [mr_behind]. unfold grpc_metrics_set, nullable, update_metric, mbind, M_bind.
    destruct (mr_lock w) as [[[] w1]|]; [|done]. by destruct (update_section _ name w1) as [[r w2]|].
  - rewrite M_bind_mret. cbn [mr_behind]. unfold grpc_metrics_get, nullable, mbind, M_bind.
    destruct (mr_lock w) as [[[] w1]|]; [|done]. by destruct (find_section name w1) as [[r w2]|].
Qed.

(** ** The sequential specification, with other identities *)

(** One call on the list of metrics, the newest first, each with its node.  Whether a string of a
    new metric could be copied is the allocator's. *)
Inductive mr_lin : list (positive * metric_spec) → mr_call * mr_result → list (positive * metric_spec) → Prop :=
| lin_refused name description type es : mr_lin es (MrRegister name description type, Done (-1)) es
| lin_register a name description type n d es :
    a ∉ es.*1 → n ∈ [Some (c_str name); None] → d ∈ [c_str <$> description; None] →
    mr_lin es (MrRegister name description type, Done 0) ((a, mk_mspec n d type []) :: es)
| lin_sample x name i es :
    index_of name es.*2 = Ret (Some i) →
    mr_lin es (mr_call_of (SecSample x name), Done 0) (alter (recorded x) i es)
| lin_no_metric x name es :
    index_of name es.*2 = Ret None → mr_lin es (mr_call_of (SecSample x name), Done (-1)) es
| lin_get name i es :
    index_of name es.*2 = Ret i → mr_lin es (MrGet name, Metric (option_bind _ _ (λ i, es.*1 !! i) i)) es.

Inductive mr_history : list (mr_call * mr_result) → list (positive * metric_spec) → Prop :=
| mr_history_nil : mr_history [] []
| mr_history_snoc log e es es' : mr_history log es → mr_lin es e es' → mr_history (log ++ [e]) es'.

(** The calls that gave a sample to a metric. *)
Definition sampled (e : mr_call * mr_result) : bool :=
  match e with
  | (MrIncrement _ _, Done r) | (MrSet _ _, Done r) => r =? 0
  | _ => false
  end.

Definition samples (es : list (positive * metric_spec)) : Z := zsum ((λ e, zlen (ms_history e.2)) <$> es).

Lemma samples_alter x i es : is_Some (es !! i) → samples (alter (recorded x) i es) = samples es + 1.
Proof.
  unfold samples. revert i. induction es as [|[a m] es IH]; intros [|i] Hi; try by destruct Hi.
  - cbn. rewrite length_app. cbn. lia.
  - cbn. rewrite IH by done. lia.
Qed.

(** No sample is lost, and none is made up. *)
Lemma history_samples log es : mr_history log es → samples es = Z.of_nat (count_if sampled log).
Proof.
  induction 1 as [|log e es es' _ IH Hl]; [done|]. rewrite count_app, Nat2Z.inj_add, <- IH. clear IH.
  destruct Hl as [| |x name i es Hi|x name es Hi|]; try (cbn; lia).
  - cbn. unfold samples. cbn. lia.
  - rewrite samples_alter; [destruct x; cbn; lia|]. apply index_of_lookup in Hi. rewrite list_lookup_fmap in Hi.
    by destruct (es !! i), Hi.
  - destruct x; cbn; lia.
Qed.

(** A metric that was found stays in the list. *)
Lemma history_found log es name a : mr_history log es → (MrGet name, Metric (Some a)) ∈ log → a ∈ es.*1.
Proof.
  induction 1 as [|log e es es' _ IH Hl]; [by intros ?%elem_of_nil|].
  intros [Hin%IH|He%list_elem_of_singleton]%elem_of_app.
  - destruct Hl as [| |x ? i es ?| |]; try done; [by right|by rewrite fst_alter].
  - clear IH. subst e. inversion Hl as [| |x ? i ? ? Hc|x ? ? ? Hc|? i ? Hi Hn Ha]; try (by destruct x). subst.
    destruct i as [i|]; [|done]. by eapply list_elem_of_lookup_2.
Qed.

(** ** The invariant *)

Implicit Types (w : metrics_state) (es : list (positive * metric_spec)).

(** The nodes that threads have made and not linked yet. *)
Definition unlinked_of (m : mr_pc) : list (positive * grpc_metric) :=
  match m with
  | Entering (SecRegister a m _ _ _) | Within (SecRegister a m _ _ _) => [(a, metric_of m)]
  | _ => []
  end.
Definition unlinked (ths : list mr_pc) : list (positive * grpc_metric) := ths ≫= unlinked_of.

Definition made_for (m : metric_spec) (name : list Z) (description : option (list Z)) (type : Z) : Prop :=
  ∃ n d, m = mk_mspec n d type [] ∧ n ∈ [Some (c_str name); None] ∧ d ∈ [c_str <$> description; None].
Definition mr_section_ok (sec : mr_section) : Prop :=
  match sec with SecRegister _ m name description type => made_for m name description type | _ => True end.
Definition mr_pc_ok (m : mr_pc) : Prop :=
  match m with Outside _ => True | Entering sec | Within sec => mr_section_ok sec end.

Record mr_sim (s : metered) (ths : list mr_pc) es : Prop := {
  ms_log : mr_history s.2 es;
  ms_inv : metrics_inv 0 (unlinked ths) s.1 es;
  ms_pcs : Forall mr_pc_ok ths
}.
Definition mr_team_inv (s : metered) (ths : list mr_pc) : Prop := ∃ es, mr_sim s ths es.

Lemma unlinked_cons m ths : unlinked (m :: ths) = unlinked_of m ++ unlinked ths.
Proof. done. Qed.

Lemma allocated_made name description type al m al' :
  allocated name description type al = (Some m, al') → made_for m name description type.
Proof.
  unfold allocated, made_for. destruct (answer al) as [[] al1]; cbn [fst snd]; [|done].
  intros [= <- _]. do 2 eexists. split; [done|]. split; case_match; set_solver.
Qed.

(** Every sample is in the log, so that the log bounds the room. *)
Lemma metrics_inv_room k log spare w es :
  mr_history log es → zlen log + k < 2 ^ 64 → metrics_inv 0 spare w es → metrics_inv k spare w es.
Proof.
  intros Hh Hk [Ho Hc _]. split; try done. apply Forall_forall. intros e He.
  pose proof (history_samples _ _ Hh) as Hs.
  assert (count_if sampled log ≤ length log)%nat as Hle by (clear; induction log as [|x log IH]; [done|rewrite count_cons; cbn [length]; destruct (sampled x); lia]).
  assert (zlen (increments (ms_history e.2)) ≤ zlen (ms_history e.2)) as Hi.
  { unfold increments. clear. induction (ms_history e.2) as [|[] h IH]; cbn; [done|lia..]. }
  assert (zlen (ms_history e.2) ≤ samples es) as He'; [|lia].
  unfold samples. clear -He. induction es as [|x es IH]; [by apply elem_of_nil in He|]. cbn.
  assert (∀ l : list (positive * metric_spec), 0 ≤ zsum ((λ e, zlen (ms_history e.2)) <$> l)) as Hnn
    by (clear; intros l; induction l; cbn in *; lia).
  apply elem_of_cons in He as [->|He]; [specialize (Hnn es); lia|]. specialize (IH He). lia.
Qed.

Lemma mr_sim_move s m m' rest es :
  mr_sim s (m :: rest) es → unlinked_of m' = unlinked_of m → (mr_pc_ok m → mr_pc_ok m') → mr_sim s (m' :: rest) es.
Proof.
  intros [H1 H2 [H3 H4]%Forall_cons] Hp Hok. split; [done|by rewrite unlinked_cons, Hp|].
  constructor; auto.
Qed.

Lemma metrics_inv_perm k spare spare' w es : spare ≡ₚ spare' → metrics_inv k spare w es → metrics_inv k spare' w es.
Proof. intros Hp [Ho ??]. split; try done. by eapply owns_but_perm. Qed.

Lemma mr_outside_sim w w' log log' y rest es :
  mr_sim (w, log) (Outside () :: rest) es → mr_outside (w, log) () (w', log') y →
  mr_team_inv (w', log') (after y :: rest) ∧ mr_mutex (obj w') = mr_mutex (obj w).
Proof.
  intros Hsim Hout. pose proof Hsim as [Hh Hinv [_ Hpcs]%Forall_cons]. cbn [fst snd] in *.
  rewrite unlinked_cons in Hinv. cbn [unlinked_of app] in Hinv.
  inversion Hout as [c a w0 w1 lg E|c sec w0 w1 lg E]; subst; clear Hout;
    destruct c as [name d type|name v|name v|name]; cbn [mr_begin after] in *; try (by injection E);
    try (injection E as <- <-; split; [|done]; exists es; by eapply mr_sim_move).
  - rewrite M_bind_gets in E. unfold mbind, M_bind in E. rewrite make_metric_run in E.
    destruct (allocated name d type (cell_answers w)) as [[m|] al]; [done|]. injection E as <- <-. split; [|done].
    exists es. split; [|by apply metrics_inv_answers|by constructor].
    eapply mr_history_snoc; [done|apply lin_refused].
  - rewrite M_bind_gets in E. unfold mbind, M_bind in E. rewrite make_metric_run in E.
    destruct (allocated name d type (cell_answers w)) as [[m|] al] eqn:Em; [|done]. injection E as <- <-. split; [|done].
    exists es. split; [done|by apply metrics_inv_new|]. constructor; [by eapply allocated_made|done].
Qed.

(** What the walk of a critical section over the names comes to, if it makes one: a place in the list
    or none, or the fault of comparing with a name that is missing. *)
Definition section_walk (sec : mr_section) es : outcome (option nat) :=
  match sec with
  | SecRegister _ _ _ _ _ => Ret None
  | SecSample _ name | SecFind name => index_of name es.*2
  end.

(** A critical section whose walk comes to an end returns, and its answer is the
    specification's. *)
Definition section_done (sec : mr_section) w (log : list (mr_call * mr_result)) (rest : list mr_pc) : Prop :=
  ∃ s', mr_critical sec (w, log) = Ret ((), s') ∧ mr_team_inv s' (Outside () :: rest) ∧ mr_mutex (obj s'.1) = false.

Lemma section_done_intro sec w log rest a w' es es' :
  mr_behind sec w = Ret (a, w') → mr_history log es → mr_lin es (mr_call_of sec, a) es' →
  metrics_inv 0 (unlinked rest) w' es' → Forall mr_pc_ok rest → mr_mutex (obj w') = false → section_done sec w log rest.
Proof.
  intros E Hh Hl Hinv Hpcs Hm. exists (w', log ++ [(mr_call_of sec, a)]). unfold mr_critical. rewrite E. split; [done|].
  split; [|done]. exists es'. split; [by eapply mr_history_snoc|done|by constructor].
Qed.

Lemma register_done w log a m name d type rest es :
  mr_sim (w, log) (Within (SecRegister a m name d type) :: rest) es → section_done (SecRegister a m name d type) w log rest.
Proof.
  intros [Hh Hinv [(n & ds & -> & Hn & Hd) Hpcs]%Forall_cons]. cbn [fst snd] in *. rewrite unlinked_cons in Hinv. cbn in Hinv.
  destruct (register_section_run _ _ _ _ _ _ Hinv eq_refl ltac:(lia)) as (h & E & Hinv').
  eapply section_done_intro; [|done| |exact Hinv'|done|done].
  - cbn [mr_behind]. by rewrite (M_bind_Ret _ _ _ _ _ E).
  - apply lin_register; [|done|done]. pose proof (ob_nodup _ _ _ _ (mi_owns _ _ _ _ Hinv)) as Hnd. rewrite fmap_app in Hnd.
    apply NoDup_app in Hnd as (_ & Hdj & _). intros Ha. apply (Hdj a); [|by left].
    apply list_elem_of_fmap in Ha as (e & -> & He). rewrite <- list_fmap_compose.
    by apply (list_elem_of_fmap_2 (fst ∘ metric_node)).
Qed.

Lemma sample_done w log x name rest es :
  mr_sim (w, log) (Within (SecSample x name) :: rest) es → zlen log + 1 < 2 ^ 64 →
  match index_of name es.*2 with
  | Ret _ => section_done (SecSample x name) w log rest
  | Fault f => mr_critical (SecSample x name) (w, log) = Fault f
  end.
Proof.
  intros [Hh Hinv [_ Hpcs]%Forall_cons] Hlen. cbn [fst snd] in *. rewrite unlinked_cons in Hinv. cbn in Hinv.
  pose proof (metrics_inv_room (0 + 1) log _ _ _ Hh Hlen Hinv) as Hroom.
  pose proof (update_section_run (sample_update x) x 0 _ name w es Hroom) as H.
  assert (∀ e, e ∈ es → sample_update x (metric_of e.2) = metric_of (record_sample x e.2)) as Hf.
  { intros e He. destruct Hroom as [_ _ Hr]. rewrite Forall_forall in Hr. specialize (Hr e He).
    destruct x; [by apply add_sample_of|apply set_value_of]. }
  specialize (H Hf). destruct (index_of name es.*2) as [[i|]|f] eqn:Ho.
  - destruct H as (h & E & Hinv'). eapply section_done_intro; [|done|by apply lin_sample|exact Hinv'|done|done].
    cbn [mr_behind]. by rewrite (M_bind_Ret _ _ _ _ _ E).
  - eapply section_done_intro; [|done|by apply lin_no_metric| |done|].
    + cbn [mr_behind]. by rewrite (M_bind_Ret _ _ _ _ _ H).
    + by apply (metrics_inv_mutex false).
    + done.
  - unfold mr_critical. cbn [mr_behind]. by rewrite (M_bind_Fault _ _ _ _ H).
Qed.

Lemma find_done w log name rest es :
  mr_sim (w, log) (Within (SecFind name) :: rest) es →
  match index_of name es.*2 with
  | Ret _ => section_done (SecFind name) w log rest
  | Fault f => mr_critical (SecFind name) (w, log) = Fault f
  end.
Proof.
  intros [Hh Hinv [_ Hpcs]%Forall_cons]. cbn [fst snd] in *. rewrite unlinked_cons in Hinv. cbn in Hinv.
  pose proof (find_section_run _ _ name _ _ Hinv) as E.
  destruct (index_of name es.*2) as [o|f] eqn:Ho; cbn [mbind outcome_bind] in E.
  - eapply section_done_intro; [|done|by apply (lin_get name)| |done|].
    + cbn [mr_behind]. by rewrite (M_bind_Ret _ _ _ _ _ E).
    + by apply (metrics_inv_mutex false).
    + done.
  - unfold mr_critical. cbn [mr_behind]. by rewrite (M_bind_Fault _ _ _ _ E).
Qed.

(** A critical section is what its walk is. *)
Lemma mr_section_run sec w log rest es :
  mr_sim (w, log) (Within sec :: rest) es → mr_admits sec (w, log) →
  match section_walk sec es with
  | Ret _ => section_done sec w log rest
  | Fault f => mr_critical sec (w, log) = Fault f
  end.
Proof.
  intros H Hlen. destruct sec as [a m name d type|x name|name]; cbn [section_walk].
  - by eapply register_done.
  - by eapply sample_done.
  - by eapply find_done.
Qed.

Lemma mr_sim_perm s ths ths' es : ths ≡ₚ ths' → mr_sim s ths es → mr_sim s ths' es.
Proof.
  intros Hp [H1 H2 H3]. split; [done| |by rewrite <- Hp].
  eapply metrics_inv_perm; [|exact H2]. unfold unlinked. by rewrite Hp.
Qed.

#[export] Instance mr_laws : MonitorLaws mr_outside mr_critical mr_admits mr_team_inv.
Proof.
  split.
  - intros s ths ths' Hp (es & H). exists es. by eapply mr_sim_perm.
  - intros [w log] ths (es & []). exists es. split; try done. by apply metrics_inv_mutex.
  - done.
  - intros s c rest (es & H). exists es. by eapply mr_sim_move.
  - intros [w log] [] [w' log'] x rest (es & H) Hout. by eapply mr_outside_sim.
  - intros [w log] sec rest [] s' (es & H) _ Ha E. pose proof (mr_section_run _ _ _ _ _ H Ha) as Hrun.
    destruct (section_walk sec es); [|by rewrite E in Hrun].
    destruct Hrun as (s1 & E1 & ?). rewrite E in E1. by injection E1 as <-.
Qed.

(** ** What the threads can rely on *)

Section start.
Context (al al' : allocs) (r : grpc_metrics_registry) (n : nat) (t : team metered () mr_section).
Context (Hcreate : grpc_metrics_registry_create al = Ret (Some r, al')).
Context (Hsteps : rtc mr_team_step (mr_team_start n r al') t).

Lemma mr_start_ok : team_ok mr_team_inv (mr_team_start n r al').
Proof.
  apply M_bind_inv in Hcreate as (ok & al1 & _ & E). destruct ok; [|done]. injection E as <- <-.
  assert (unlinked (replicate n (Outside ())) = []) as Hp by (clear; unfold unlinked; induction n; done).
  split; cbn [object members mr_team_start].
  - exists []. split; [constructor| |by apply Forall_replicate]. cbn [fst]. rewrite Hp.
    split; [apply owns_but_nil, owns_nil|done|constructor].
  - apply count_none. by intros q [-> _]%elem_of_replicate.
Qed.

(** C15. Any number of threads that register metrics, give them samples and look them up (fewer
    than [2^64] calls), with each other's steps in between: the metrics are what the list
    specification makes of the calls that have returned, in this order, and so is every result;
    no sample is lost, and none is counted twice; a metric that a thread has found stays where
    it is; one thread at most is behind the mutex; what it does there returns, unless its walk
    reaches a metric whose name a failed [strdup] left null before the one it looks for, when
    it fails on that name; and when all threads are out of it the destruction frees every node. *)
Theorem metrics_threads_linearizable :
  (∃ es, mr_history (object t).2 es ∧
     chain (cells (object t).1) (metrics (obj (object t).1)) (metric_node <$> es) None ∧
     samples es = Z.of_nat (count_if sampled (object t).2) ∧
     (∀ name a, (MrGet name, Metric (Some a)) ∈ (object t).2 → a ∈ es.*1) ∧
     (∀ c, Within c ∈ members t → zlen (object t).2 + 1 < 2 ^ 64 →
        match section_walk c es with
        | Ret _ => ∃ x, mr_critical c (object t) = Ret x
        | Fault f => mr_critical c (object t) = Fault f
        end)) ∧
  (∀ i j c d, members t !! i = Some (Within c) → members t !! j = Some (Within d) → i = j) ∧
  (Forall is_outside (members t) → grpc_metrics_registry_destroy (Some (object t).1) = Ret (Some ∅)).
Proof.
  pose proof (team_steps_ok mr_outside mr_critical mr_admits mr_team_inv _ _ mr_start_ok Hsteps) as Hok.
  pose proof Hok as [[es Hsim] Hc]. pose proof Hsim as [Hh Hinv _]. split_and!.
  - exists es. split_and!; [done|apply Hinv|by apply history_samples|intros name a; by apply history_found|].
    intros c Hin Hlen. destruct (team_within mr_outside mr_critical mr_admits mr_team_inv t c Hok Hin) as [_ (rest & Hp)].
    pose proof (mr_sim_perm _ _ _ _ Hp Hsim) as Hat. destruct (object t) as [w log].
    pose proof (mr_section_run c w log rest es Hat Hlen) as Hrun.
    destruct (section_walk c es); [|done]. destruct Hrun as (s' & E & _). by eexists.
  - intros i j c d. by apply (team_exclusion mr_team_inv).
  - intros Hout. apply (metrics_destroy_run 0 _ (mk_msspec es.*2 (cell_answers (object t).1))). split; [exists es; split|..]; try done.
    + assert (unlinked (members t) = []) as <-; [|done]. clear - Hout. unfold unlinked.
      induction Hout as [|[] ths Hm _ IH]; [done|exact IH|done..].
    + rewrite count_none in Hc; [by cbn in Hc; destruct (mr_mutex _)|].
      intros q Hq. pose proof (proj1 (Forall_forall _ _) Hout q Hq) as Ho. by destruct q.
Qed.
End start.

(** ** Witness *)

(** Two threads register a metric each, the second first; then the second gives a sample to the
    metric of the first, which the first finds. *)
Definition a_name : list Z := [97; 0].
Definition b_name : list Z := [98; 0].
Definition a_spec : metric_spec := mk_mspec (Some [97]) None GRPC_METRIC_COUNTER [].
Definition b_spec : metric_spec := mk_mspec (Some [98]) None GRPC_METRIC_GAUGE [].

Definition no_metrics : metered := (mk_heap (mk_mregistry None 0 false) ∅ 1 [], []).
Definition after_critical (sec : mr_section) (s : metered) : metered :=
  match mr_critical sec (acquire s) with Ret (_, s') => s' | Fault _ => s end.
Definition both_made : metered := (with_metric b_spec [] (with_metric a_spec [] no_metrics.1), []).
Definition both_linked : metered :=
  after_critical (SecRegister 1 a_spec a_name None GRPC_METRIC_COUNTER)
    (after_critical (SecRegister 2 b_spec b_name None GRPC_METRIC_GAUGE) both_made).
Definition one_sampled : metered := after_critical (SecSample (Inc dzero) a_name) both_linked.
Definition one_found : metered := after_critical (SecFind a_name) one_sampled.

Lemma two_threads_reach :
  rtc mr_team_step (mr_team_start 2 (mk_mregistry None 0 false) []) (mk_team one_found [Outside (); Outside ()]).
Proof.
  set (first := SecRegister 1 a_spec a_name None GRPC_METRIC_COUNTER).
  set (second := SecRegister 2 b_spec b_name None GRPC_METRIC_GAUGE).
  eapply rtc_l; [left; eapply (step_outside _ _ () _ (inr first) [] [Outside ()]), (out_reaching (MrRegister a_name None GRPC_METRIC_COUNTER)); reflexivity|].
  eapply rtc_l; [left; eapply (step_outside _ _ () both_made (inr second) [Entering first] []), (out_reaching (MrRegister b_name None GRPC_METRIC_GAUGE)); reflexivity|].
  eapply rtc_l; [right; by eapply (step_acquire _ _ _ second [Entering first] [])|].
  eapply rtc_l; [right; eapply (step_critical _ _ _ second () _ [Entering first] []); [done|reflexivity]|].
  eapply rtc_l; [right; by eapply (step_acquire _ _ _ first [] [Outside ()])|].
  eapply rtc_l; [right; eapply (step_critical _ _ _ first () both_linked [] [Outside ()]); [done|reflexivity]|].
  eapply rtc_l; [left; eapply (step_outside _ _ () both_linked (inr (SecSample (Inc dzero) a_name)) [Outside ()] []), (out_reaching (MrIncrement a_name dzero)); reflexivity|].
  eapply rtc_l; [right; by eapply (step_acquire _ _ _ (SecSample (Inc dzero) a_name) [Outside ()] [])|].
  eapply rtc_l; [right; eapply (step_critical _ _ _ (SecSample (Inc dzero) a_name) () one_sampled [Outside ()] []); [done|vm_compute; reflexivity]|].
  eapply rtc_l; [left; eapply (step_outside _ _ () one_sampled (inr (SecFind a_name)) [] [Outside ()]), (out_reaching (MrGet a_name)); reflexivity|].
  eapply rtc_l; [right; by eapply (step_acquire _ _ _ (SecFind a_name) [] [Outside ()])|].
  eapply rtc_l; [right; eapply (step_critical _ _ _ (SecFind a_name) () one_found [] [Outside ()]); [done|vm_compute; reflexivity]|].
  apply rtc_refl.
Qed.

Lemma metrics_threads_linearizable_witness :
  (∃ es, mr_history one_found.2 es ∧ samples es = 1 ∧ 1%positive ∈ es.*1) ∧
  grpc_metrics_registry_destroy (Some one_found.1) = Ret (Some ∅).
Proof.
  destruct (metrics_threads_linearizable [] [] _ 2 _ eq_refl two_threads_reach) as ((es & Hh & _ & Hs & Hf & _) & _ & Hd).
  split; [exists es; split; [exact Hh|split; [exact Hs|]]|apply Hd; by repeat constructor].
  apply (Hf a_name). vm_compute. do 3 right. left.
Defined.
