(* ===== verification/Tracing.v ===== *)
(** * Tracing (src/src/observability.c)

    Spans with random identifiers and tags, and the context that links and exports them.  The
    generator behind [rand ()] and what the exporters do are parameters. *)

From Stdlib Require Import ZArith Lia.
From stdpp Require Import base tactics list option strings gmap.
From S2P Require Import Prelude Lists.

#[local] Open Scope Z_scope.
#[local] Set Warnings "-clear-no-such-hyp".

(** ** Data *)

Record timeval := mk_timeval { tv_sec : Z; tv_usec : Z }.

(** A tag: copies of the key and the value, null when [strdup] failed, and the length. *)
Record tag := mk_tag { tag_key : option (list Z); tag_value : option (list Z); tag_length : Z }.

(** The [grpc_metadata_array] of the tags; a slot [realloc] added is [None]. *)
Record tag_array := mk_tags {
  tag_count : Z;
  tag_capacity : Z;
  tag_block : option (list (option tag))
}.

(** [grpc_trace_span], its [next] pointer aside; nothing ever writes [logs]. *)
Record grpc_trace_span := mk_span {
  trace_id : list Z;
  span_id : list Z;
  parent_span_id : option (list Z);
  operation_name : list Z;
  start_time : timeval;
  end_time : timeval;
  finished : bool;
  tags : tag_array
}.

Record grpc_trace_context := mk_tcontext {
  active_spans : option positive;
  span_count : Z;
  tc_mutex : bool;
  export_span : option positive;
  exporter_user_data : option positive
}.

Abbreviation trace_state := (heap_of grpc_trace_context grpc_trace_span).

(** The context and its spans; the coming readings of the clock; the seed of [rand] with the
    number of calls since; the application's state. *)
Record trace_world (U : Type) := mk_tworld {
  tw_spans : trace_state;
  tw_clock : list timeval;
  tw_rand : Z * nat;
  tw_app : U
}.
Arguments mk_tworld {U} _ _ _ _.
Arguments tw_spans {U} _.
Arguments tw_clock {U} _.
Arguments tw_rand {U} _.
Arguments tw_app {U} _.

Definition set_tc_mutex (b : bool) (c : grpc_trace_context) : grpc_trace_context :=
  mk_tcontext (active_spans c) (span_count c) b (export_span c) (exporter_user_data c).
Definition push_span (s : positive) (c : grpc_trace_context) : grpc_trace_context :=
  mk_tcontext (Some s) (u64 (span_count c + 1)) (tc_mutex c) (export_span c) (exporter_user_data c).
Definition set_exporter (f u : option positive) (c : grpc_trace_context) : grpc_trace_context :=
  mk_tcontext (active_spans c) (span_count c) (tc_mutex c) f u.
Definition set_tags (t : tag_array) (s : grpc_trace_span) : grpc_trace_span :=
  mk_span (trace_id s) (span_id s) (parent_span_id s) (operation_name s) (start_time s) (end_time s)
    (finished s) t.
Definition set_finished (t : timeval) (s : grpc_trace_span) : grpc_trace_span :=
  mk_span (trace_id s) (span_id s) (parent_span_id s) (operation_name s) (start_time s) t true (tags s).

Definition SIZEOF_TAG : Z := 24.
(** ["0123456789abcdef"]. *)
Definition charset : list Z := [48; 49; 50; 51; 52; 53; 54; 55; 56; 57; 97; 98; 99; 100; 101; 102].

Section tracing.
Context {U : Type}.
(** The [n]-th number [rand ()] gives after [srand (seed)]. *)
Context (rand_after : Z → nat → Z).
(** What the call of an exporter does to the application; it leaves the context alone. *)
Context (call_export : positive → positive → option positive → M U ()).

Definition on_spans {A} (m : M trace_state A) : M (trace_world U) A :=
  zoom tw_spans (λ w t, mk_tworld w (tw_clock t) (tw_rand t) (tw_app t)) m.

Definition tc_lock : M trace_state () := λ w,
  if tc_mutex (obj w) then Fault Deadlock else Ret ((), upd_obj (set_tc_mutex true) w).
Definition tc_unlock : M trace_state () := modify (upd_obj (set_tc_mutex false)).

(** ** The library calls *)

Definition gettimeofday : M (trace_world U) timeval := λ t,
  match tw_clock t with
  | [] => Ret (mk_timeval 0 0, t)
  | now :: later => Ret (now, mk_tworld (tw_spans t) later (tw_rand t) (tw_app t))
  end.
Definition srand (seed : Z) : M (trace_world U) () :=
  modify (λ t, mk_tworld (tw_spans t) (tw_clock t) (seed, 0%nat) (tw_app t)).
Definition rand : M (trace_world U) Z := λ t,
  Ret (rand_after (tw_rand t).1 (tw_rand t).2,
       mk_tworld (tw_spans t) (tw_clock t) ((tw_rand t).1, S (tw_rand t).2) (tw_app t)).

(** ** Spans *)

Definition seed_of (tv : timeval) : Z := u32 (tv_sec tv * 1000000 + tv_usec tv).

(** The characters [id[i] .. id[i + n - 1]]. *)
Fixpoint id_loop (n : nat) : M (trace_world U) (list Z) :=
  match n with
  | O => mret []
  | S n =>
      r ← rand;
      c ← lift (load charset (Z.rem r 16));
      cs ← id_loop n;
      mret (c :: cs)
  end.

Definition grpc_generate_id : M (trace_world U) (option (list Z)) :=
  ok ← on_spans malloc_cell;
  if negb ok then mret None else
  tv ← gettimeofday;
  _ ← srand (seed_of tv);
  id ← id_loop 16;
  mret (Some (id ++ [0])).

Definition no_tags : tag_array := mk_tags 0 0 None.

Definition grpc_trace_span_create (operation_name : list Z) (parent_span_id : option (list Z))
    : M (trace_world U) (option positive) :=
  ok ← on_spans malloc_cell;
  if negb ok then mret None else
  trace ← grpc_generate_id;
  span ← grpc_generate_id;
  match trace, span with
  | Some trace, Some span =>
      parent ← (match parent_span_id with
                | Some p => on_spans (strdup_cell (Some p))
                | None => mret None
                end);
      op ← on_spans (strdup_cell (Some operation_name));
      match op with
      | None => mret None
      | Some op =>
          now ← gettimeofday;
          s ← on_spans (new_cell (mk_cell
                (mk_span trace span parent op now (mk_timeval 0 0) false no_tags) None));
          mret (Some s)
      end
  | _, _ => mret None
  end.

(** The loop that frees the strings of the tags [i .. i + n - 1]. *)
Fixpoint free_tags (b : list (option tag)) (i : Z) (n : nat) : outcome () :=
  match n with
  | O => Ret ()
  | S n =>
      if i <? 0 then Fault OutOfBounds else
      match b !! Z.to_nat i with
      | None => Fault OutOfBounds
      | Some None => Fault Uninitialised
      | Some (Some _) => free_tags b (i + 1) n
      end
  end.

Definition grpc_trace_span_destroy (span : positive) : M trace_state () :=
  c ← read_cell span;
  _ ← (match tag_block (tags (data c)) with
       | Some b => lift (free_tags b 0 (Z.to_nat (tag_count (tags (data c)))))
       | None => mret ()
       end);
  free_cell span.

(** ** Contexts *)

Definition grpc_trace_context_create : M allocs (option grpc_trace_context) :=
  ok ← malloc;
  if negb ok then mret None else mret (Some (mk_tcontext None 0 false None None)).

(** The new span is linked in front of the active ones. *)
Definition link_span (s : positive) : M trace_state () :=
  _ ← tc_lock;
  ctx ← gets obj;
  c ← read_cell s;
  _ ← write_cell s (mk_cell (data c) (active_spans ctx));
  _ ← modify (upd_obj (push_span s));
  tc_unlock.

Definition grpc_trace_start_span (operation_name parent_span_id : option (list Z))
    : M (option (trace_world U)) (option positive) := nullable None
  match operation_name with
  | None => mret None
  | Some op =>
      span ← grpc_trace_span_create op parent_span_id;
      match span with
      | None => mret None
      | Some s =>
          _ ← on_spans (link_span s);
          mret (Some s)
      end
  end.

Definition grpc_trace_finish_span (span : option positive) : M (option (trace_world U)) Z := nullable (-1)
  match span with
  | None => mret (-1)
  | Some s =>
      _ ← on_spans tc_lock;
      c ← on_spans (read_cell s);
      now ← gettimeofday;
      _ ← on_spans (write_cell s (mk_cell (set_finished now (data c)) (next c)));
      ctx ← gets (λ t, obj (tw_spans t));
      _ ← (match export_span ctx with
           | Some f => zoom tw_app (λ u t, mk_tworld (tw_spans t) (tw_clock t) (tw_rand t) u)
                         (call_export f s (exporter_user_data ctx))
           | None => mret ()
           end);
      _ ← on_spans tc_unlock;
      mret 0
  end.

(** Room for one more tag; [false] when [realloc] fails. *)
Definition grow_tags (t : tag_array) : M trace_state (option tag_array) :=
  if tag_capacity t <=? tag_count t then
    let new_capacity := if tag_capacity t =? 0 then 4 else u64 (tag_capacity t * 2) in
    let room := Z.to_nat (u64 (new_capacity * SIZEOF_TAG) / SIZEOF_TAG) in
    let old := default [] (tag_block t) in
    ok ← malloc_cell;
    mret (if ok : bool
          then Some (mk_tags (tag_count t) new_capacity
                 (Some (take room old ++ replicate (room - length old) None)))
          else None)
  else mret (Some t).

(** [tags.metadata[tags.count] = ...; tags.count++]. *)
Definition push_tag (t : tag_array) (x : tag) : outcome tag_array :=
  match tag_block t with
  | None => Fault NullDeref
  | Some b =>
      if zlen b <=? tag_count t then Fault OutOfBounds
      else Ret (mk_tags (u64 (tag_count t + 1)) (tag_capacity t)
                  (Some (<[Z.to_nat (tag_count t) := Some x]> b)))
  end.

Definition grpc_trace_span_add_tag (span : option positive) (key value : option (list Z))
    : M trace_state Z :=
  match span, key, value with
  | Some s, Some key, Some value =>
      c ← read_cell s;
      grown ← grow_tags (tags (data c));
      match grown with
      | None => mret (-1)
      | Some t =>
          _ ← write_cell s (mk_cell (set_tags t (data c)) (next c));
          k ← strdup_cell (Some key);
          v ← strdup_cell (Some value);
          t ← lift (push_tag t (mk_tag k v (strlen value)));
          _ ← write_cell s (mk_cell (set_tags t (data c)) (next c));
          mret 0
      end
  | _, _, _ => mret (-1)
  end.

Definition grpc_trace_context_set_exporter (f u : option positive) : M (option (trace_world U)) () :=
  nullable () (on_spans (
    _ ← tc_lock;
    _ ← modify (upd_obj (set_exporter f u));
    tc_unlock)).

Fixpoint destroy_spans (fuel : nat) (span : option positive) : M trace_state () :=
  match span with
  | None => mret ()
  | Some s =>
      match fuel with
      | O => fail OutOfFuel
      | S fuel =>
          c ← read_cell s;
          _ ← grpc_trace_span_destroy s;
          destroy_spans fuel (next c)
      end
  end.

(** What is left of a destroyed context are spans nobody freed. *)
Definition grpc_trace_context_destroy (ctx : option trace_state)
    : outcome (option (gmap positive (cell grpc_trace_span))) :=
  match ctx with
  | None => Ret None
  | Some w =>
      let body :=
        _ ← tc_lock;
        c ← gets obj;
        _ ← destroy_spans (walk_fuel w) (active_spans c);
        tc_unlock in
      match body w with
      | Ret (_, w') => Ret (Some (cells w'))
      | Fault f => Fault f
      end
  end.

(** ** The invariant of a context *)

(** The array is null and empty, or a block whose first slots are the tags [ts]. *)
Definition tags_hold (t : tag_array) (ts : list tag) : Prop :=
  match tag_block t with
  | None => ts = [] ∧ tag_count t = 0 ∧ tag_capacity t = 0
  | Some b => ∃ rest, b = (Some <$> ts) ++ rest ∧ tag_count t = zlen ts ∧ tag_capacity t = zlen b ∧
      4 ≤ tag_capacity t < 2 ^ 59
  end.

Record trace_inv (w : trace_state) (l : list (positive * grpc_trace_span)) : Prop := {
  ti_owns : owns w (active_spans (obj w)) l;
  ti_count : span_count (obj w) = u64 (zlen l);
  ti_tags : Forall (λ x, ∃ ts, tags_hold (tags x.2) ts) l
}.
Definition trace_ok (w : trace_state) : Prop := (∃ l, trace_inv w l) ∧ tc_mutex (obj w) = false.

Implicit Types (w : trace_state) (t : trace_world U).

Lemma tc_lock_run w : tc_mutex (obj w) = false → tc_lock w = Ret ((), upd_obj (set_tc_mutex true) w).
Proof. unfold tc_lock. by intros ->. Qed.

Lemma on_spans_Ret {A} (m : M trace_state A) t a w :
  m (tw_spans t) = Ret (a, w) →
  on_spans m t = Ret (a, mk_tworld w (tw_clock t) (tw_rand t) (tw_app t)).
Proof. unfold on_spans, zoom. by intros ->. Qed.

Lemma trace_inv_obj f w l :
  active_spans (f (obj w)) = active_spans (obj w) → span_count (f (obj w)) = span_count (obj w) →
  trace_inv w l → trace_inv (upd_obj f w) l.
Proof. intros Ha Hc [Ho Hn Ht]. split; [cbn; rewrite Ha; by apply owns_obj|by cbn; rewrite Hc|done]. Qed.

Lemma trace_inv_answers al w l : trace_inv w l → trace_inv (set_cell_answers al w) l.
Proof. intros [Ho Hn Ht]. split; [by apply owns_answers|done|done]. Qed.

(** A live span is in the list, and an update of it that keeps its tags keeps the invariant. *)
Lemma live_span w l s c :
  trace_inv w l → cells w !! s = Some c →
  ∃ l1 l2, l = l1 ++ (s, data c) :: l2 ∧
    ∀ x, (∃ ts, tags_hold (tags x) ts) →
      trace_inv (upd_cells (insert s (mk_cell x (next c))) w) (l1 ++ (s, x) :: l2).
Proof.
  intros [Ho Hn Ht] Hs. assert (s ∈ l.*1) as Hin by (apply (owns_all _ _ _ Ho); by eexists).
  apply list_elem_of_fmap in Hin as ([s' y] & -> & Hin). cbn in Hs.
  apply list_elem_of_split in Hin as (l1 & l2 & ->).
  destruct (owns_set_data w _ l1 s' y l2 y Ho) as (q & Hq & _). rewrite Hs in Hq. injection Hq as ->.
  cbn [data next]. exists l1, l2. split; [done|]. intros x Hx.
  destruct (owns_set_data w _ l1 s' y l2 x Ho) as (q' & Hq' & Ho'). rewrite Hs in Hq'. injection Hq' as <-.
  split; [done| |].
  - cbn. rewrite Hn, !length_app. done.
  - apply Forall_app in Ht as [? [_ ?]%Forall_cons]. apply Forall_app. split; [done|]. by constructor.
Qed.

(** ** Identifiers *)

(** The identifier the generator gives after [srand (seed)]. *)
Definition id_of (seed : Z) : list Z :=
  map (λ n, nth (Z.to_nat (Z.rem (rand_after seed n) 16)) charset 0) (seq 0 16).

Context (rand_nonneg : ∀ seed n, 0 ≤ rand_after seed n).

(** Every remainder is the index of a character. *)
Lemma charset_index seed n :
  0 ≤ Z.rem (rand_after seed n) 16 < 16 ∧
  charset !! Z.to_nat (Z.rem (rand_after seed n) 16) =
    Some (nth (Z.to_nat (Z.rem (rand_after seed n) 16)) charset 0).
Proof.
  pose proof (Z.rem_bound_pos (rand_after seed n) 16 (rand_nonneg seed n) ltac:(lia)) as Hb.
  split; [done|]. destruct (charset !! Z.to_nat (Z.rem (rand_after seed n) 16)) as [c|] eqn:E.
  - by rewrite (nth_lookup_Some _ _ _ _ E).
  - apply lookup_ge_None in E. cbn in E. lia.
Qed.

Lemma load_charset seed n :
  load charset (Z.rem (rand_after seed n) 16) =
    Ret (nth (Z.to_nat (Z.rem (rand_after seed n) 16)) charset 0).
Proof.
  destruct (charset_index seed n) as [Hb E]. unfold load.
  destruct (Z.ltb_spec (Z.rem (rand_after seed n) 16) 0); [lia|]. by rewrite E.
Qed.

Lemma id_loop_run n t :
  id_loop n t = Ret (map (λ k, nth (Z.to_nat (Z.rem (rand_after (tw_rand t).1 k) 16)) charset 0)
                       (seq (tw_rand t).2 n),
    mk_tworld (tw_spans t) (tw_clock t) ((tw_rand t).1, ((tw_rand t).2 + n)%nat) (tw_app t)).
Proof.
  revert t. induction n as [|n IH]; intros t; cbn [id_loop].
  { rewrite Nat.add_0_r. by destruct t as [? ? [] ?]. }
  rewrite (M_bind_Ret rand _ t _ _ eq_refl), (M_bind_lift _ _ _ _ (load_charset _ _)).
  mstep (IH _). cbn [tw_rand fst snd tw_spans tw_clock tw_app seq map].
  by rewrite Nat.add_succ_r.
Qed.

Lemma generate_id_run t :
  let r := answer (cell_answers (tw_spans t)) in
  ∃ clock seed, grpc_generate_id t =
    Ret (if r.1 then Some (id_of (seed_of (default (mk_timeval 0 0) (head (tw_clock t)))) ++ [0]) else None,
      mk_tworld (set_cell_answers r.2 (tw_spans t)) clock seed (tw_app t)) ∧
    (r.1 = true → clock = tail (tw_clock t)).
Proof.
  intros r. unfold grpc_generate_id.
  mstep (on_spans_Ret _ _ _ _ (malloc_cell_answer (tw_spans t))). fold r.
  destruct r.1; cbn [negb]; [|by do 2 eexists].
  set (t1 := mk_tworld _ _ _ _).
  rewrite (M_bind_Ret gettimeofday _ t1 (default (mk_timeval 0 0) (head (tw_clock t)))
    (mk_tworld (tw_spans t1) (tail (tw_clock t)) (tw_rand t) (tw_app t)))
    by (unfold gettimeofday, t1; cbn; by destruct (tw_clock t)).
  unfold srand. rewrite M_bind_modify. mstep (id_loop_run 16 _).
  cbn [tw_rand fst snd tw_spans tw_clock tw_app]. by do 2 eexists.
Qed.
(** ** Starting a span *)

(** The world with other answers, clock and random numbers. *)
Definition same_spans t t' : Prop := ∃ al, tw_spans t' = set_cell_answers al (tw_spans t).
(** ... and with one more span, which nothing points to. *)
Definition span_added t t' (x : grpc_trace_span) : Prop :=
  ∃ al, tw_spans t' = mk_heap (obj (tw_spans t))
    (<[fresh_cell (tw_spans t) := mk_cell x None]> (cells (tw_spans t)))
    (Pos.succ (fresh_cell (tw_spans t))) al.

(** The span that is started at the readings [t1], [t2] and [t3] of the clock. *)
Definition new_span (op : list Z) (parent : option (list Z)) (t1 t2 t3 : timeval) : grpc_trace_span :=
  mk_span (id_of (seed_of t1) ++ [0]) (id_of (seed_of t2) ++ [0]) ((λ p, c_str p ++ [0]) <$> parent)
    (c_str op ++ [0]) t3 (mk_timeval 0 0) false no_tags.

Lemma strdup_spans_run (s : list Z) t :
  ∃ (o : option (list Z)) t', on_spans (strdup_cell (Some s)) t = Ret (o, t') ∧ same_spans t t' ∧
    (cell_answers (tw_spans t) = [] → o = Some (c_str s ++ [0]) ∧ t' = t).
Proof.
  do 2 eexists. split; [apply on_spans_Ret, strdup_cell_run|]. split; [by eexists|].
  intros Ha. rewrite Ha. split; [done|]. destruct t as [[] ? ? ?]. cbn in *. by subst.
Qed.

Lemma same_spans_trans t1 t2 t3 : same_spans t1 t2 → same_spans t2 t3 → same_spans t1 t3.
Proof. intros [al H1] [al' H2]. exists al'. by rewrite H2, H1. Qed.

(** With every allocation granted and three readings of the clock. *)
Lemma span_create_granted op parent t (t1 t2 t3 : timeval) later :
  cell_answers (tw_spans t) = [] → tw_clock t = t1 :: t2 :: t3 :: later →
  ∃ t', grpc_trace_span_create op parent t = Ret (Some (fresh_cell (tw_spans t)), t') ∧
    tw_spans t' = mk_heap (obj (tw_spans t))
      (<[fresh_cell (tw_spans t) := mk_cell (new_span op parent t1 t2 t3) None]> (cells (tw_spans t)))
      (Pos.succ (fresh_cell (tw_spans t))) [].
Proof.
  intros Ha Hc. destruct t as [[o h f al] clock rd u]. cbn in Ha, Hc. subst.
  unfold grpc_trace_span_create. mstep (on_spans_Ret _ _ _ _ (malloc_cell_answer _)).
  cbn [tw_spans cell_answers answer fst snd negb].
  destruct (generate_id_run (mk_tworld (mk_heap o h f []) (t1 :: t2 :: t3 :: later) rd u))
    as (c1 & s1 & E1 & Hc1). cbn in Hc1. rewrite Hc1 in E1 by done.
  mstep E1.
  destruct (generate_id_run (mk_tworld (mk_heap o h f []) (t2 :: t3 :: later) s1 u))
    as (c2 & s2 & E2 & Hc2). cbn in Hc2. rewrite Hc2 in E2 by done.
  mstep E2. cbn [tw_clock head default option_map fst answer cell_answers tw_spans].
  set (w := mk_tworld (mk_heap o h f []) (t3 :: later) s2 u).
  rewrite (M_bind_Ret _ _ w ((λ p, c_str p ++ [0]) <$> parent) w) by (by destruct parent).
  rewrite (M_bind_Ret _ _ w (Some (c_str op ++ [0])) w) by done.
  by eexists.
Qed.

Lemma span_create_run op parent t :
  ∃ r t', grpc_trace_span_create op parent t = Ret (r, t') ∧
    match r with
    | None => same_spans t t'
    | Some s => s = fresh_cell (tw_spans t) ∧ ∃ x, tags x = no_tags ∧ span_added t t' x
    end.
Proof.
  unfold grpc_trace_span_create.
  mstep (on_spans_Ret _ _ _ _ (malloc_cell_answer _)). set (t1 := mk_tworld _ _ _ _).
  assert (same_spans t t1) as H1 by (by eexists).
  destruct (answer (cell_answers (tw_spans t))).1; cbn [negb]; [|by exists None, t1].
  destruct (generate_id_run t1) as (c2 & s2 & E2 & _). mstep E2.
  set (t2 := mk_tworld _ c2 s2 _). assert (same_spans t t2) as H2 by (by eexists).
  destruct (generate_id_run t2) as (c3 & s3 & E3 & _). mstep E3.
  set (t3 := mk_tworld _ c3 s3 _). assert (same_spans t t3) as H3 by (by eexists).
  destruct (answer (cell_answers (tw_spans t1))).1; [|by exists None, t3].
  destruct (answer (cell_answers (tw_spans t2))).1; [|by exists None, t3].
  assert (∃ o t4, (match parent with
    | Some p => on_spans (strdup_cell (Some p)) | None => mret None end) t3 = Ret (o, t4) ∧
    same_spans t t4) as (par & t4 & E4 & H4).
  { destruct parent as [p|]; [|by exists None, t3].
    destruct (strdup_spans_run p t3) as (o & t4 & E & H & _). exists o, t4.
    split; [exact E|exact (same_spans_trans _ _ _ H3 H)]. }
  mstep E4. destruct (strdup_spans_run op t4) as (o & t5 & E5 & H5 & _).
  mstep E5. pose proof (same_spans_trans _ _ _ H4 H5) as [al Hal].
  destruct o as [o|]; [|exists None, t5; split; [done|by eexists]].
  unfold gettimeofday, mbind, M_bind.
  exists (Some (fresh_cell (tw_spans t))).
  destruct (tw_clock t5) as [|now later]; cbn; rewrite Hal; cbn; (eexists; split; [done|]);
    (split; [done|]); eexists (mk_span _ _ _ _ _ _ _ no_tags); (split; [done|by exists al]).
Qed.

Lemma link_span_run w al x l :
  trace_inv w l → tc_mutex (obj w) = false → tags x = no_tags →
  ∃ w', link_span (fresh_cell w)
      (mk_heap (obj w) (<[fresh_cell w := mk_cell x None]> (cells w)) (Pos.succ (fresh_cell w)) al) =
      Ret ((), w') ∧ trace_inv w' ((fresh_cell w, x) :: l) ∧ tc_mutex (obj w') = false ∧
    cells w' = <[fresh_cell w := mk_cell x (active_spans (obj w))]> (cells w).
Proof.
  intros [Ho Hn Ht] Hm Hx. set (w1 := mk_heap (obj w) _ _ al). unfold link_span.
  mstep (tc_lock_run w1 Hm); rewrite M_bind_gets. set (w2 := upd_obj _ w1).
  assert (cells w2 !! fresh_cell w = Some (mk_cell x None)) as Hc by apply lookup_insert_eq.
  mstep (read_cell_run _ _ _ Hc).
  mstep (write_cell_run _ _ _ _ Hc); rewrite M_bind_modify.
  eexists. split; [done|]. split; [|split; [done|apply (insert_insert_eq (cells w))]]. split.
  - eapply owns_same; [| | |exact (owns_cons w _ l x Ho)]; [|done|done]. apply (insert_insert_eq (cells w)).
  - cbn. rewrite Hn, u64_add_l. f_equal. cbn. lia.
  - constructor; [|done]. exists []. cbn. rewrite Hx. by split_and!.
Qed.
Lemma start_span_run op parent t :
  trace_ok (tw_spans t) →
  ∃ r t', grpc_trace_start_span op parent (Some t) = Ret (r, Some t') ∧ trace_ok (tw_spans t').
Proof.
  intros [[l Hinv] Hm]. unfold grpc_trace_start_span.
  destruct op as [op|]; [|exists None, t; split; [done|split; [by exists l|done]]].
  destruct (span_create_run op parent t) as (r & t' & E & H). unfold nullable.
  mstep E. destruct r as [s|].
  - destruct H as (-> & x & Hx & al & Hal).
    destruct (link_span_run (tw_spans t) al x l Hinv Hm Hx) as (w' & El & Hinv' & Hm' & _). rewrite <- Hal in El.
    mstep (on_spans_Ret _ _ _ _ El). do 2 eexists. split; [done|].
    split; [by eexists|done].
  - destruct H as [al Hal]. exists None, t'. split; [done|]. rewrite Hal.
    split; [exists l; by apply trace_inv_answers|done].
Qed.

(** With an allocator that does not fail, starting a span links a fresh span in front of
    the active ones, with identifiers of sixteen hexadecimal digits, copies of the names and
    the time of the start; its trace and span identifiers are equal when both seeds come from
    the same reading of the clock. *)
Theorem grpc_trace_start_span_ids op parent t (t1 t2 t3 : timeval) later :
  trace_ok (tw_spans t) → cell_answers (tw_spans t) = [] → tw_clock t = t1 :: t2 :: t3 :: later →
  ∃ s t' x, grpc_trace_start_span (Some op) parent (Some t) = Ret (Some s, Some t') ∧
    cells (tw_spans t) !! s = None ∧
    cells (tw_spans t') = <[s := mk_cell x (active_spans (obj (tw_spans t)))]> (cells (tw_spans t)) ∧
    x = new_span op parent t1 t2 t3 ∧
    Forall (λ c, c ∈ charset) (c_str (trace_id x)) ∧ length (c_str (trace_id x)) = 16%nat ∧
    (seed_of t1 = seed_of t2 → trace_id x = span_id x).
Proof.
  intros [[l Hinv] Hm] Ha Hc. destruct (span_create_granted op parent t t1 t2 t3 later Ha Hc) as (t' & E & Ht').
  set (x := new_span op parent t1 t2 t3) in Ht'.
  destruct (link_span_run (tw_spans t) [] x l Hinv Hm eq_refl) as (w' & El & _ & _ & Hcells).
  rewrite <- Ht' in El. exists (fresh_cell (tw_spans t)).
  unfold grpc_trace_start_span, nullable. mstep E.
  mstep (on_spans_Ret _ _ _ _ El). do 2 eexists. split; [done|].
  split; [exact (owns_fresh_None _ _ _ (ti_owns _ _ Hinv))|]. split; [exact Hcells|]. split; [done|].
  assert (∀ seed, Forall (λ c, c ∈ charset) (id_of seed)) as Hid.
  { intros seed. apply Forall_forall. intros c (n & -> & _)%list_elem_of_fmap.
    eapply list_elem_of_lookup_2, charset_index. }
  assert (c_str (trace_id x) = id_of (seed_of t1)) as Hx.
  { apply c_str_terminated. eapply Forall_impl; [apply Hid|]. cbn. intros c Hin ->.
    by repeat (apply elem_of_cons in Hin as [?|Hin]; [done|]); apply elem_of_nil in Hin. }
  rewrite Hx. split; [apply Hid|]. split; [done|]. intros Hs. cbn. by rewrite Hs.
Qed.

(** ** Tags *)

Lemma grow_tags_run (a : tag_array) ts w :
  tags_hold a ts → zlen ts < 2 ^ 58 →
  ∃ o al, grow_tags a w = Ret (o, set_cell_answers al w) ∧
    match o with
    | None => True
    | Some a' => tags_hold a' ts ∧ ∃ b, tag_block a' = Some b ∧ zlen ts < zlen b ∧ tag_count a' = zlen ts
    end ∧ (cell_answers w = [] → o ≠ None ∧ al = []).
Proof.
  intros Ht Hn. unfold grow_tags, tags_hold in *. destruct (tag_block a) as [b|] eqn:Eb.
  - destruct Ht as (rest & -> & Hc & Hcap & Hsz). destruct (Z.leb_spec (tag_capacity a) (tag_count a)).
    + assert (rest = []) as ->
        by (rewrite length_app, length_fmap in Hcap; destruct rest; [done|cbn in Hcap; lia]).
      rewrite app_nil_r, length_fmap in *. destruct (Z.eqb_spec (tag_capacity a) 0); [lia|].
      unfold SIZEOF_TAG. rewrite (u64_small (tag_capacity a * 2)), u64_small, Z.div_mul by lia.
      change (default [] (Some (Some <$> ts))) with (Some <$> ts). rewrite take_ge by (rewrite length_fmap; lia).
      mstep (malloc_cell_answer w). do 2 eexists. split; [done|].
      split; [|intros ->; done]. destruct (answer (cell_answers w)).1; [|done]. cbn. split.
      * eexists. split; [done|]. rewrite length_app, length_fmap, length_replicate. lia.
      * eexists. split; [done|]. rewrite length_app, length_fmap, length_replicate. lia.
    + exists (Some a), (cell_answers w). split; [by destruct w|]. rewrite Eb. split; [|by intros ->].
      split; [by exists rest|]. exists ((Some <$> ts) ++ rest). split; [done|]. lia.
  - destruct Ht as (-> & Hc & Hcap). rewrite Hc, Hcap. cbn [default Z.leb Z.compare Z.eqb].
    mstep (malloc_cell_answer w). do 2 eexists. split; [done|].
    split; [|intros ->; done]. destruct (answer (cell_answers w)).1; [|done].
    split; [|by exists (replicate 4 None)]. by exists (replicate 4 None).
Qed.

Lemma push_tag_run (a : tag_array) ts x b :
  tags_hold a ts → tag_block a = Some b → zlen ts < zlen b → tag_count a = zlen ts →
  ∃ a', push_tag a x = Ret a' ∧ tags_hold a' (ts ++ [x]).
Proof.
  unfold push_tag, tags_hold. intros Ht Hb Hlt Hc. rewrite Hb in *. destruct Ht as (rest & -> & _ & Hcap & Hsz).
  rewrite Hc. destruct (Z.leb_spec (zlen ((Some <$> ts) ++ rest)) (zlen ts)); [lia|].
  eexists. split; [done|]. cbn. rewrite Nat2Z.id.
  rewrite insert_app_r_alt, length_fmap, Nat.sub_diag by (rewrite length_fmap; lia).
  destruct rest as [|y rest]; [rewrite app_nil_r, length_fmap in Hlt; lia|].
  exists rest. rewrite fmap_app, <- app_assoc. split; [done|].
  rewrite !length_app, !length_fmap in *. change (length (<[0%nat:=Some x]> (y :: rest))) with (S (length rest)).
  cbn [length] in *. rewrite u64_small by lia. lia.
Qed.

Lemma grpc_trace_span_add_tag_run s key value w c ts :
  trace_ok w → cells w !! s = Some c → tags_hold (tags (data c)) ts → zlen ts < 2 ^ 58 →
  ∃ r w' a k v, grpc_trace_span_add_tag (Some s) (Some key) (Some value) w = Ret (r, w') ∧ trace_ok w' ∧
    cells w' = <[s := mk_cell (set_tags a (data c)) (next c)]> (cells w) ∧
    (r = 0 ∧ tags_hold a (ts ++ [mk_tag k v (strlen value)]) ∨ r = -1 ∧ tags_hold a ts) ∧
    (cell_answers w = [] → r = 0 ∧ k = Some (c_str key ++ [0]) ∧ v = Some (c_str value ++ [0])).
Proof.
  intros [[l Hinv] Hm] Hs Ht Hn. unfold grpc_trace_span_add_tag.
  mstep (read_cell_run _ _ _ Hs).
  destruct (grow_tags_run _ ts w Ht Hn) as (o & al & E & Ho & Hal). mstep E.
  destruct (live_span _ _ _ _ Hinv Hs) as (l1 & l2 & -> & Hupd).
  destruct o as [a|].
  2:{ exists (-1), (set_cell_answers al w), (tags (data c)), None, None. split; [done|].
      split; [split; [eexists; by apply trace_inv_answers|done]|]. split.
      { rewrite insert_id; [done|]. rewrite Hs. by destruct c as [[] ?]. }
      split; [by right|]. intros Ha. by destruct (Hal Ha). }
  destruct Ho as (Ha & b & Hb & Hlt & Hc). set (w1 := set_cell_answers al w).
  assert (cells w1 !! s = Some c) as Hs1 by done.
  mstep (write_cell_run _ _ _ _ Hs1). set (w2 := upd_cells _ w1).
  mstep (strdup_cell_run key w2). set (w3 := set_cell_answers _ w2).
  mstep (strdup_cell_run value w3). set (w4 := set_cell_answers _ w3).
  set (k := if (answer (cell_answers w2)).1 then Some (c_str key ++ [0]) else None).
  set (v := if (answer (cell_answers w3)).1 then Some (c_str value ++ [0]) else None).
  destruct (push_tag_run a ts (mk_tag k v (strlen value)) b Ha Hb Hlt Hc) as (a' & Ep & Ha').
  mstep Ep.
  assert (cells w4 !! s = Some (mk_cell (set_tags a (data c)) (next c))) as Hs4 by apply lookup_insert_eq.
  mstep (write_cell_run _ _ _ _ Hs4).
  exists 0, (upd_cells (insert s (mk_cell (set_tags a' (data c)) (next c))) w4), a', k, v.
  split; [done|].
  assert (cells (upd_cells (insert s (mk_cell (set_tags a' (data c)) (next c))) w4) =
    <[s := mk_cell (set_tags a' (data c)) (next c)]> (cells w)) as Hcells by apply (insert_insert_eq (cells w)).
  split; [|split; [exact Hcells|split; [by left|]]].
  - split; [|done]. eexists.
    destruct (Hupd (set_tags a' (data c))) as [Ho' Hn' Ht']; [by eexists|].
    split; [|exact Hn'|exact Ht']. by refine (owns_same _ _ _ _ _ _ _ _ Ho'); [exact Hcells| |].
  - intros Hnil. destruct (Hal Hnil) as [_ ->]. done.
Qed.

(** Adding a tag to a span that holds [ts]: the span holds [ts] and the new tag after the result 0,
    and [ts] after -1; no other span changes. *)
Theorem grpc_trace_span_add_tag_spec s key value w c ts :
  trace_ok w → cells w !! s = Some c → tags_hold (tags (data c)) ts → zlen ts < 2 ^ 58 →
  ∃ r w' a k v, grpc_trace_span_add_tag (Some s) (Some key) (Some value) w = Ret (r, w') ∧ trace_ok w' ∧
    cells w' = <[s := mk_cell (set_tags a (data c)) (next c)]> (cells w) ∧
    (r = 0 ∧ tags_hold a (ts ++ [mk_tag k v (strlen value)]) ∨ r = -1 ∧ tags_hold a ts) ∧
    (cell_answers w = [] → r = 0 ∧ k = Some (c_str key ++ [0]) ∧ v = Some (c_str value ++ [0])).
Proof. exact (grpc_trace_span_add_tag_run s key value w c ts). Qed.
(** ** The life of a context *)

(** Exporters return. *)
Context (export_returns : ∀ f s d u, ∃ u', call_export f s d u = Ret ((), u')).

Lemma finish_span_run s c t :
  trace_ok (tw_spans t) → cells (tw_spans t) !! s = Some c →
  ∃ t' now, grpc_trace_finish_span (Some s) (Some t) = Ret (0, Some t') ∧
    trace_ok (tw_spans t') ∧
    cells (tw_spans t') = <[s := mk_cell (set_finished now (data c)) (next c)]> (cells (tw_spans t)).
Proof.
  intros [[l Hinv] Hm] Hs. unfold grpc_trace_finish_span.
  assert (∀ r t', r = Ret (0, t') → (match r with Ret (a, s') => Ret (a, Some s') | Fault f => Fault f end) =
    Ret (0, Some t')) as Hret by (by intros ? ? ->). unfold nullable.
  mstep (on_spans_Ret _ _ _ _ (tc_lock_run _ Hm)). set (t1 := mk_tworld _ _ _ _).
  assert (cells (tw_spans t1) !! s = Some c) as Hs1 by done.
  mstep (on_spans_Ret _ t1 _ _ (read_cell_run _ _ _ Hs1)).
  destruct (gettimeofday (mk_tworld (tw_spans t1) (tw_clock t1) (tw_rand t1) (tw_app t1)))
    as [[now t2]|] eqn:Et; [|by unfold gettimeofday in Et; cbn in Et; destruct (tw_clock t)].
  assert (tw_spans t2 = tw_spans t1) as Hsp
    by (unfold gettimeofday in Et; cbn in Et; destruct (tw_clock t); by injection Et as <- <-).
  mstep Et.
  assert (cells (tw_spans t2) !! s = Some c) as Hs2 by (by rewrite Hsp).
  mstep (on_spans_Ret _ t2 _ _ (write_cell_run _ _ _ _ Hs2)); rewrite M_bind_gets.
  set (t3 := mk_tworld _ _ _ _).
  assert (∃ u', (match export_span (obj (tw_spans t3)) with
    | Some f => zoom tw_app (λ u t, mk_tworld (tw_spans t) (tw_clock t) (tw_rand t) u)
                  (call_export f s (exporter_user_data (obj (tw_spans t3))))
    | None => mret () end) t3 = Ret ((), mk_tworld (tw_spans t3) (tw_clock t3) (tw_rand t3) u')) as [u' Eu].
  { destruct (export_span _) as [f|]; [|by exists (tw_app t3)].
    destruct (export_returns f s (exporter_user_data (obj (tw_spans t3))) (tw_app t3)) as [u' Eu].
    exists u'. unfold zoom. by rewrite Eu. }
  mstep Eu. do 2 eexists. split; [done|].
  destruct (live_span _ _ _ _ Hinv Hs) as (l1 & l2 & -> & Hupd). cbn. rewrite Hsp. cbn. split; [|done].
  split; [|done]. eexists.
  destruct (Hupd (set_finished now (data c))) as [H1 H2 H3].
  2:{ by split; [by refine (owns_same _ _ _ _ _ _ _ _ H1)|exact H2|exact H3]. }
  pose proof (ti_tags _ _ Hinv) as [_ [Ht _]%Forall_cons]%Forall_app. exact Ht.
Qed.

(** What a program does with a context; tags stay below the size where doubling wraps. *)
Inductive trace_step : trace_world U → trace_world U → Prop :=
| step_start op parent r t t' :
    grpc_trace_start_span op parent (Some t) = Ret (r, Some t') → trace_step t t'
| step_finish s r t t' :
    grpc_trace_finish_span s (Some t) = Ret (r, Some t') → trace_step t t'
| step_tag s key value r w' t :
    (∀ a c, s = Some a → cells (tw_spans t) !! a = Some c → tag_count (tags (data c)) < 2 ^ 58) →
    grpc_trace_span_add_tag s key value (tw_spans t) = Ret (r, w') →
    trace_step t (mk_tworld w' (tw_clock t) (tw_rand t) (tw_app t))
| step_exporter f u t t' :
    grpc_trace_context_set_exporter f u (Some t) = Ret ((), Some t') → trace_step t t'.

Lemma set_exporter_run f u t :
  trace_ok (tw_spans t) →
  ∃ t', grpc_trace_context_set_exporter f u (Some t) = Ret ((), Some t') ∧ trace_ok (tw_spans t').
Proof.
  intros [[l Hinv] Hm]. unfold grpc_trace_context_set_exporter, nullable, on_spans, zoom.
  mstep (tc_lock_run _ Hm). unfold tc_unlock. rewrite M_bind_modify.
  eexists. split; [done|]. split; [|done]. exists l. by do 3 (apply trace_inv_obj; [done|done|]).
Qed.

(** Every live span has its tags. *)
Lemma span_tags w s c :
  trace_ok w → cells w !! s = Some c → ∃ ts, tags_hold (tags (data c)) ts ∧ tag_count (tags (data c)) = zlen ts.
Proof.
  intros [[l Hinv] _] Hs. destruct (live_span _ _ _ _ Hinv Hs) as (l1 & l2 & -> & _).
  pose proof (ti_tags _ _ Hinv) as [_ [(ts & Ht) _]%Forall_cons]%Forall_app. cbn in Ht. exists ts.
  split; [done|]. unfold tags_hold in Ht. destruct (tag_block _); [|naive_solver].
  by destruct Ht as (? & _ & ? & _).
Qed.

Lemma trace_step_ok t t' : trace_step t t' → trace_ok (tw_spans t) → trace_ok (tw_spans t').
Proof.
  intros H Hok. destruct H as [op parent r t t' E|[s|] r t t' E|s key value r w' t Hroom E|f u t t' E].
  - destruct (start_span_run op parent t Hok) as (r2 & t2 & E2 & H2). rewrite E2 in E. by injection E as <- <-.
  - destruct (cells (tw_spans t) !! s) as [c|] eqn:Hs.
    + destruct (finish_span_run s c t Hok Hs) as (t2 & now & E2 & H2 & _). rewrite E2 in E. by injection E as <- <-.
    + revert E. unfold grpc_trace_finish_span, nullable. destruct Hok as [_ Hm].
      mstep (on_spans_Ret _ _ _ _ (tc_lock_run _ Hm)).
      rewrite (M_bind_Fault _ _ _ UseAfterFree); [done|]. unfold on_spans, zoom, read_cell.
      cbn [tw_spans cells upd_obj]. by rewrite Hs.
  - by injection E as <- <-.
  - destruct s as [s|]; [|by injection E as <- <-].
    destruct key as [key|]; [|by injection E as <- <-]. destruct value as [value|]; [|by injection E as <- <-].
    destruct (cells (tw_spans t) !! s) as [c|] eqn:Hs.
    + destruct (span_tags _ _ _ Hok Hs) as (ts & Ht & Hc). specialize (Hroom s c eq_refl Hs).
      destruct (grpc_trace_span_add_tag_run s key value _ c ts Hok Hs Ht ltac:(lia))
        as (r2 & w2 & a & k & v & E2 & H2 & _). rewrite E2 in E. by injection E as <- <-.
    + unfold grpc_trace_span_add_tag, read_cell, mbind, M_bind in E. by rewrite Hs in E.
  - destruct (set_exporter_run f u t Hok) as (t2 & E2 & H2). rewrite E2 in E. by injection E as <-.
Qed.

Lemma free_tags_run (ts : list tag) b rest i :
  b = (Some <$> ts) ++ rest → ∀ n, (i + n ≤ length ts)%nat → free_tags b (Z.of_nat i) n = Ret ().
Proof.
  intros -> n. revert i. induction n as [|n IH]; intros i Hi; cbn [free_tags]; [done|].
  destruct (Z.ltb_spec (Z.of_nat i) 0); [lia|]. rewrite Nat2Z.id.
  rewrite lookup_app_l by (rewrite length_fmap; lia). rewrite list_lookup_fmap.
  destruct (lookup_lt_is_Some_2 ts i ltac:(lia)) as [x ->]. cbn.
  replace (Z.of_nat i + 1) with (Z.of_nat (S i)) by lia. apply IH. lia.
Qed.

(** Destroying a span frees its node, whatever tags it has. *)
Lemma span_destroy_run w s c ts :
  cells w !! s = Some c → tags_hold (tags (data c)) ts →
  grpc_trace_span_destroy s w = Ret ((), upd_cells (delete s) w).
Proof.
  intros Hs Ht. unfold grpc_trace_span_destroy. mstep (read_cell_run _ _ _ Hs).
  rewrite (M_bind_Ret _ _ w () w); [exact (free_cell_run _ _ _ Hs)|].
  unfold tags_hold in Ht. destruct (tag_block (tags (data c))) as [b|]; [|done].
  destruct Ht as (rest & Hb & Hc & _). rewrite Hc, Nat2Z.id. unfold lift.
  change 0 with (Z.of_nat 0). by rewrite (free_tags_run ts b rest 0 Hb (length ts) ltac:(lia)).
Qed.

Lemma destroy_spans_run n p l w :
  owns w p l → Forall (λ x, ∃ ts, tags_hold (tags x.2) ts) l → (length l ≤ n)%nat →
  destroy_spans n p w = Ret ((), upd_cells (λ _, ∅) w).
Proof.
  revert p l w. induction n as [|n IH]; intros p l w Ho Ht Hn; (destruct l as [|[a x] l]; [|try (cbn in Hn; lia)]).
  1,2: pose proof (owns_chain _ _ _ Ho) as Hp; cbn in Hp; subst p; destruct (owns_empty _ _ Ho) as [_ Hc];
    cbn; unfold upd_cells; rewrite <- Hc; by destruct w.
  destruct (owns_tail _ _ _ _ _ Ho) as (r & -> & Hx & Ho'). apply Forall_cons in Ht as [[ts Hts] Ht].
  cbn [destroy_spans]. mstep (read_cell_run _ _ _ Hx).
  mstep (span_destroy_run _ _ _ ts Hx Hts). cbn [next].
  by rewrite (IH _ _ _ Ho' Ht ltac:(cbn in Hn; lia)).
Qed.

(** C34. Whatever spans a program starts, finishes and tags, and whatever the allocator
    answers, the context stays well formed: every live span is linked once and its tags fill
    the front of their block; every live span can be finished, also more than once; and
    destroying the context reads no unwritten tag and frees every span. *)
Theorem trace_context_reachable al ctx al' clock rd u t :
  grpc_trace_context_create al = Ret (Some ctx, al') →
  rtc trace_step (mk_tworld (mk_heap ctx ∅ 1 al') clock rd u) t →
  trace_ok (tw_spans t) ∧
  (∀ s c, cells (tw_spans t) !! s = Some c →
    ∃ t' now, grpc_trace_finish_span (Some s) (Some t) = Ret (0, Some t') ∧
      cells (tw_spans t') !! s = Some (mk_cell (set_finished now (data c)) (next c))) ∧
  grpc_trace_context_destroy (Some (tw_spans t)) = Ret (Some ∅).
Proof.
  intros (ok & al1 & _ & E)%M_bind_inv Hreach. destruct ok; [|done]. injection E as <- <-.
  assert (trace_ok (tw_spans t)) as Hok.
  { set (t0 := mk_tworld _ clock rd u) in Hreach.
    assert (trace_ok (tw_spans t0)) as H0 by (split; [exists []; split; [apply owns_nil|done|constructor]|done]).
    clearbody t0. induction Hreach; eauto using trace_step_ok. }
  split; [done|]. split.
  - intros s c Hs. destruct (finish_span_run s c t Hok Hs) as (t' & now & E & _ & Hc).
    exists t', now. split; [done|]. rewrite Hc. apply lookup_insert_eq.
  - destruct Hok as [[l [Ho _ Ht]] Hm]. unfold grpc_trace_context_destroy.
    mstep (tc_lock_run _ Hm); rewrite M_bind_gets.
    pose proof (owns_fuel _ _ _ Ho) as Hf. apply (owns_obj (set_tc_mutex true)) in Ho.
    by mstep (destroy_spans_run (walk_fuel (tw_spans t)) _ l _ Ho Ht ltac:(lia)).
Qed.
End tracing.

(** ** The properties at work *)

Definition sample_rand (seed : Z) (n : nat) : Z := (seed * 7 + Z.of_nat n * 5) mod 2 ^ 31.
(** An exporter that counts. *)
Definition sample_export (f s : positive) (d : option positive) : M nat () := λ u, Ret ((), S u).
Definition sample_trace : trace_world nat :=
  mk_tworld (mk_heap (mk_tcontext None 0 false None None) ∅ 1 [])
    [mk_timeval 5 1; mk_timeval 5 1; mk_timeval 5 2] (0, 0%nat) 0%nat.

Lemma sample_rand_nonneg seed n : 0 ≤ sample_rand seed n.
Proof. apply Z.mod_pos_bound. lia. Qed.

Lemma sample_trace_ok : trace_ok (tw_spans sample_trace).
Proof. split; [exists []; split; [apply owns_nil|done|constructor]|done]. Qed.

Lemma grpc_trace_start_span_ids_witness :
  ∃ s t' x, grpc_trace_start_span sample_rand (Some [111; 112; 0]) None (Some sample_trace) = Ret (Some s, Some t') ∧
    cells (tw_spans t') !! s = Some (mk_cell x None) ∧
    trace_id x = [55; 99; 49; 54; 98; 48; 53; 97; 102; 52; 57; 101; 51; 56; 100; 50; 0] ∧
    trace_id x = span_id x.
Proof.
  destruct (grpc_trace_start_span_ids sample_rand sample_rand_nonneg [111; 112; 0] None sample_trace
    (mk_timeval 5 1) (mk_timeval 5 1) (mk_timeval 5 2) [] sample_trace_ok eq_refl eq_refl)
    as (s & t' & x & E & _ & Hc & Hx & _ & _ & Hid).
  exists s, t', x. split; [exact E|]. split; [rewrite Hc; apply lookup_insert_eq|].
  split; [subst x; vm_compute; reflexivity|by apply Hid].
Defined.

(** A tag on a span that was just started. *)
Lemma grpc_trace_span_add_tag_spec_witness :
  ∃ t r w' a, grpc_trace_start_span sample_rand (Some [111; 0]) None (Some sample_trace) = Ret (Some 1%positive, Some t) ∧
    grpc_trace_span_add_tag (Some 1%positive) (Some [107; 0]) (Some [118; 49; 0]) (tw_spans t) = Ret (r, w') ∧
    r = 0 ∧ tags_hold a [mk_tag (Some [107; 0]) (Some [118; 49; 0]) 2].
Proof.
  destruct (grpc_trace_start_span sample_rand (Some [111; 0]) None (Some sample_trace)) as [[r [t|]]|] eqn:E;
    [|vm_compute in E; discriminate|vm_compute in E; discriminate].
  destruct (start_span_run sample_rand sample_rand_nonneg (Some [111; 0]) None sample_trace sample_trace_ok)
    as (r' & t' & E' & Hok). rewrite E in E'. injection E' as <- <-.
  assert (r = Some 1%positive ∧ cell_answers (tw_spans t) = [] ∧
    ∃ c, cells (tw_spans t) !! 1%positive = Some c ∧ tags (data c) = no_tags) as (-> & Ha & c & Hc & Ht).
  { vm_compute in E. injection E as <- <-. split; [done|]. split; [done|]. by eexists. }
  assert (tags_hold (tags (data c)) []) as Hnone by (rewrite Ht; exact (conj eq_refl (conj eq_refl eq_refl))).
  destruct (grpc_trace_span_add_tag_spec 1 [107; 0] [118; 49; 0] _ c [] Hok Hc Hnone eq_refl)
    as (r & w' & a & k & v & E2 & _ & _ & Hcase & Hall).
  destruct (Hall Ha) as (-> & -> & ->). exists t, 0, w', a. split; [exact eq_refl|]. split; [exact E2|].
  split; [exact eq_refl|]. clear E E2. by destruct Hcase as [[_ ?]|[? _]].
Defined.

Lemma trace_context_reachable_witness :
  ∃ t, rtc (trace_step sample_rand sample_export) sample_trace t ∧ tw_app t = 1%nat ∧
    grpc_trace_context_destroy (Some (tw_spans t)) = Ret (Some ∅).
Proof.
  eassert (rtc (trace_step sample_rand sample_export) sample_trace _) as Hreach.
  { eapply rtc_l; [apply (step_exporter _ _ (Some 9%positive) None); reflexivity|].
    eapply rtc_l; [apply (step_start _ _ (Some [111; 0]) None (Some 1%positive)); vm_compute; reflexivity|].
    eapply rtc_l; [apply (step_finish _ _ (Some 1%positive) 0); vm_compute; reflexivity|]. apply rtc_refl. }
  destruct (trace_context_reachable sample_rand sample_export sample_rand_nonneg
    ltac:(intros ? ? ? u; by exists (S u)) [] _ [] _ _ _ _ eq_refl Hreach) as (_ & _ & Hd).
  eexists. split; [exact Hreach|]. split; [reflexivity|exact Hd].
Defined.
