(* ===== verification/Health.v ===== *)
(** * Streaming calls and the health check (src/src/enhanced_features.c)

    The streaming calls, which are plain calls, and the health check, which makes a completion
    queue and a call on a channel and takes both down again. *)

From Stdlib Require Import ZArith Lia.
From stdpp Require Import base tactics list option strings gmap.
From S2P Require Import Prelude Metadata Transport FlowControl Lists CompletionQueue Core Channel.

#[local] Open Scope Z_scope.
#[local] Set Warnings "-clear-no-such-hyp".

Definition GRPC_HEALTH_CHECK_TIMEOUT_MS : Z := 5000.

(** ** Streaming calls *)

Definition grpc_channel_create_server_streaming_call (cq : option positive) (method host : option (list Z))
    (dl : grpc_timespec) : M (option grpc_channel) (option positive) :=
  grpc_channel_create_call cq method host dl.
Definition grpc_channel_create_client_streaming_call (cq : option positive) (method host : option (list Z))
    (dl : grpc_timespec) : M (option grpc_channel) (option positive) :=
  grpc_channel_create_call cq method host dl.
Definition grpc_channel_create_bidi_streaming_call (cq : option positive) (method host : option (list Z))
    (dl : grpc_timespec) : M (option grpc_channel) (option positive) :=
  grpc_channel_create_call cq method host dl.

(** ** The health check *)

(** ["/grpc.health.v1.Health/Check"]. *)
Definition health_method : list Z :=
  [47; 103; 114; 112; 99; 46; 104; 101; 97; 108; 116; 104; 46; 118; 49; 46; 72; 101; 97; 108; 116; 104;
   47; 67; 104; 101; 99; 107; 0].

(** The queue is allocated with the same allocator as the channel's objects. *)
Definition on_answers {A} (m : M allocs A) : M grpc_channel A := zoom answers_of with_answers m.

(** Destroying the queue; what is left of it are nodes nobody freed. *)
Definition destroy_queue (w : cq_state) : M grpc_channel (gmap positive (cell grpc_event)) :=
  left ← lift (grpc_completion_queue_destroy (Some w));
  mret (default ∅ left).

(** [sec] and [usec] are what the clock says, [q] is the address of the new queue.  The result
    is the status, with what is left of the queue. *)
Definition grpc_health_check (q : positive) (sec usec : Z) (service : option (list Z))
    : M (option grpc_channel) (Z * gmap positive (cell grpc_event)) := nullable (-1, ∅) (
  cq ← on_answers (grpc_completion_queue_create GRPC_CQ_NEXT);
  match cq with
  | None => mret (-1, ∅)
  | Some c =>
      let w := mk_heap c ∅ 1 [] in
      let deadline := grpc_timeout_milliseconds_to_deadline sec usec GRPC_HEALTH_CHECK_TIMEOUT_MS in
      call ← deref (grpc_channel_create_call (Some q) (Some health_method) None deadline);
      match call with
      | None => left ← destroy_queue w; mret (-1, left)
      | Some a =>
          _ ← grpc_call_destroy (Some a);
          w ← lift (r ← grpc_completion_queue_shutdown (Some w); Ret r.2);
          match w with
          | Some w => left ← destroy_queue w; mret (0, left)
          | None => fail NullDeref
          end
      end
  end).

(** ** The check leaves no trace *)

Implicit Types (c : grpc_channel).

Lemma queue_create_run c :
  ∃ o al, on_answers (grpc_completion_queue_create GRPC_CQ_NEXT) c = Ret (o, with_answers al c) ∧
    match o with
    | Some q => q = mk_cq GRPC_CQ_NEXT false None None false
    | None => false ∈ answers_of c
    end ∧ (∀ b, b ∈ al → b ∈ answers_of c).
Proof.
  unfold on_answers, zoom, grpc_completion_queue_create.
  destruct (answers_of c) as [|[] al]; cbn; do 2 eexists; (split; [done|]); split; try done; set_solver.
Qed.

(** A queue that was never used is destroyed without a trace. *)
Lemma destroy_queue_run w q c :
  cq_rel w q → destroy_queue w c = Ret (∅, c).
Proof. intros Hr. unfold destroy_queue, lift, mbind, M_bind. by rewrite (destroy_run w q Hr). Qed.

Lemma health_queue_rel : cq_rel (mk_heap (mk_cq GRPC_CQ_NEXT false None None false) ∅ 1 []) (mk_queue [] false []).
Proof. split; [exists []; split; [apply owns_nil|done]|done..]. Qed.


