(* ===== verification/Process.v ===== *)
(** * Programs (src/src/grpc_core.c, grpc_channel.c, grpc_server.c)

    A process that uses the library: the flag of the library, the allocator, and the channels,
    completion queues and servers it has made, which it passes to the library by their addresses.
    A call names its queue, and a batch on the call puts its event there: this is where the channels
    and the queues meet. *)

From Stdlib Require Import ZArith Lia.
From stdpp Require Import base tactics list option strings gmap relations.
From S2P Require Import Prelude Metadata Transport FlowControl Lists CompletionQueue Core Channel Server.

#[local] Open Scope Z_scope.
#[local] Set Warnings "-clear-no-such-hyp".

(** ** Processes *)

(** [leaked] counts the blocks that were reachable only through a block that has been freed, and
    the sockets nobody closed. *)
Record process := mk_process {
  g_grpc_initialized : bool;
  system : os;
  channels : gmap positive grpc_channel;
  queues : gmap positive cq_state;
  servers : gmap positive grpc_server;
  fresh : positive;
  leaked : nat
}.

(** The coming answers of the allocator, for every object of the process. *)
Definition memory (p : process) : allocs := os_answers (system p).
Definition set_memory (al : allocs) (p : process) : process :=
  let o := system p in
  mk_process (g_grpc_initialized p)
    (mk_os al (socket_results o) (bind_results o) (listen_results o) (thread_results o) (next_fd o) (open_fds o))
    (channels p) (queues p) (servers p) (fresh p) (leaked p).
Definition set_system (o : os) (p : process) : process :=
  mk_process (g_grpc_initialized p) o (channels p) (queues p) (servers p) (fresh p) (leaked p).
Definition set_flag (b : bool) (p : process) : process :=
  mk_process b (system p) (channels p) (queues p) (servers p) (fresh p) (leaked p).
Definition set_channels (m : gmap positive grpc_channel) (p : process) : process :=
  mk_process (g_grpc_initialized p) (system p) m (queues p) (servers p) (fresh p) (leaked p).
Definition set_queues (m : gmap positive cq_state) (p : process) : process :=
  mk_process (g_grpc_initialized p) (system p) (channels p) m (servers p) (fresh p) (leaked p).
Definition set_servers (m : gmap positive grpc_server) (p : process) : process :=
  mk_process (g_grpc_initialized p) (system p) (channels p) (queues p) m (fresh p) (leaked p).
Definition set_fresh (a : positive) (p : process) : process :=
  mk_process (g_grpc_initialized p) (system p) (channels p) (queues p) (servers p) a (leaked p).
Definition add_leaked (n : nat) (p : process) : process :=
  mk_process (g_grpc_initialized p) (system p) (channels p) (queues p) (servers p) (fresh p) (leaked p + n).

(** ** Objects behind pointers *)

(** An object a pointer of the process can point to: how it is read, with the allocator and the
    system as they are now, and how what an operation made of them is written back. *)
Class Object (T : Type) := {
  object_at : positive → process → option T;
  put_object : positive → T → process → process;
  drop_object : positive → process → process
}.

#[export] Instance channel_object : Object grpc_channel := {
  object_at a p := with_answers (memory p) <$> channels p !! a;
  put_object a c p := set_memory (answers_of c) (set_channels (<[a := c]> (channels p)) p);
  drop_object a p := set_channels (delete a (channels p)) p
}.
#[export] Instance queue_object : Object cq_state := {
  object_at a p := set_cell_answers (memory p) <$> queues p !! a;
  put_object a w p := set_memory (cell_answers w) (set_queues (<[a := w]> (queues p)) p);
  drop_object a p := set_queues (delete a (queues p)) p
}.
#[export] Instance server_object : Object server_world := {
  object_at a p := (λ s, mk_sworld s (system p)) <$> servers p !! a;
  put_object a w p := set_system (sos w) (set_servers (<[a := server w]> (servers p)) p);
  drop_object a p := set_servers (delete a (servers p)) p
}.

Section objects.
Context {T : Type} `{!Object T}.

Definition read_object (a : positive) : M process T := λ p,
  match object_at a p with Some t => Ret (t, p) | None => Fault UseAfterFree end.

(** An operation on a pointer, which may be null. *)
Definition on_ptr {A} (a : option positive) (m : M (option T) A) : M process A :=
  match a with
  | None => x ← lift (m None); mret x.1
  | Some a =>
      t ← read_object a;
      x ← lift (deref m t);
      _ ← modify (put_object a x.2);
      mret x.1
  end.

(** A block for a new object. *)
Definition new_object (t : T) : M process positive :=
  a ← gets fresh;
  _ ← modify (λ p, put_object a t (set_fresh (Pos.succ a) p));
  mret a.

(** The end of an object: [d] tells what is left of it. *)
Definition free_object {A} (a : option positive) (d : option T → outcome (option A)) (left : A → process → process)
    : M process () :=
  match a with
  | None => mret ()
  | Some a =>
      t ← read_object a;
      r ← lift (d (Some t));
      match r with
      | Some x => modify (λ p, left x (drop_object a p))
      | None => fail NullDeref
      end
  end.
End objects.

(** ** The library's operations in a process *)

Definition library_init : M process () := modify (λ p, set_flag (grpc_init (g_grpc_initialized p)) p).
Definition library_shutdown : M process () := modify (λ p, set_flag (grpc_shutdown (g_grpc_initialized p)) p).

Definition on_memory {A} (m : M allocs A) : M process A := zoom memory set_memory m.

Definition channel_create (tgt : option (list Z)) (args : option positive) : M process (option positive) :=
  c ← on_memory (grpc_insecure_channel_create tgt args);
  match c with
  | Some c => al ← gets memory; a ← new_object (with_answers al c); mret (Some a)
  | None => mret None
  end.
Definition channel_destroy (ch : option positive) : M process () :=
  free_object ch grpc_channel_destroy (λ '(h, e, cs), add_leaked (size h + size cs)).

Definition queue_create (type : grpc_completion_type) : M process (option positive) :=
  c ← on_memory (grpc_completion_queue_create type);
  match c with
  | Some c => al ← gets memory; a ← new_object (mk_heap c ∅ 1 al); mret (Some a)
  | None => mret None
  end.
Definition queue_next (q : option positive) (ws : list wait_result) : M process grpc_event :=
  on_ptr q (grpc_completion_queue_next ws).
Definition queue_shutdown (q : option positive) : M process () := on_ptr q grpc_completion_queue_shutdown.
Definition queue_destroy (q : option positive) : M process () :=
  free_object q grpc_completion_queue_destroy (λ nodes, add_leaked (size nodes)).

(** A call: the channel it was made on, and its address there. *)
Definition call_ref : Type := positive * positive.

Definition create_call (ch : option positive)
    (make : M (option grpc_channel) (option positive)) : M process (option call_ref) :=
  k ← on_ptr ch make;
  mret (a ← ch; k ← k; Some (a, k)).
Definition call_cancel (call : option call_ref) : M process Z :=
  match call with
  | None => mret GRPC_CALL_ERROR
  | Some (ch, k) => on_ptr (Some ch) (nullable GRPC_CALL_ERROR (grpc_call_cancel (Some k)))
  end.
Definition call_destroy (call : option call_ref) : M process () :=
  match call with
  | None => mret ()
  | Some (ch, k) => on_ptr (Some ch) (nullable () (grpc_call_destroy (Some k)))
  end.

(** The event goes to the queue the call was made with. *)
Definition call_start_batch (call : option call_ref) (tag : option positive) : M process Z :=
  match call with
  | None => on_ptr None (grpc_call_start_batch None tag)
  | Some (ch, k) =>
      c ← read_object ch;
      o ← lift (read_call k c);
      on_ptr (call_cq o.1) (grpc_call_start_batch (Some o.1) tag)
  end.

Definition server_create (args : option positive) : M process (option positive) :=
  s ← on_memory (grpc_server_create args);
  match s with
  | Some s => o ← gets system; a ← new_object (mk_sworld s o); mret (Some a)
  | None => mret None
  end.
Definition server_destroy (s : option positive) : M process () :=
  free_object s grpc_server_destroy (λ o p, add_leaked (length (open_fds o)) (set_system o p)).
Definition server_shutdown_and_notify (s q tag : option positive) : M process () :=
  match s with
  | None => mret ()
  | Some s =>
      w ← read_object s;
      match q with
      | None => 
          x ← lift (grpc_server_shutdown_and_notify None tag (Some w, None));
          match x.2.1 with Some w => modify (put_object s w) | None => fail NullDeref end
      | Some q =>
          c ← read_object q;
          x ← lift (grpc_server_shutdown_and_notify (Some q) tag (Some w, Some c));
          match x.2 with
          | (Some w, Some c) => _ ← modify (put_object s w); modify (put_object q c)
          | _ => fail NullDeref
          end
      end
  end.

(** ** Clients *)

(** What a single-threaded client does with channels, queues and calls: [OpNext] waits until its
    deadline, since nobody else is there to end the wait. *)
Inductive client_op :=
| OpChannel (tgt : list Z)
| OpQueue (type : grpc_completion_type)
| OpCall (ch q : positive) (method : list Z) (host : option (list Z)) (dl : grpc_timespec)
| OpBatch (call : call_ref) (tag : option positive)
| OpCancel (call : call_ref)
| OpNext (q : positive)
| OpShutdown (q : positive)
| OpCallDestroy (call : call_ref)
| OpQueueDestroy (q : positive)
| OpChannelDestroy (ch : positive).

Inductive op_result :=
| RUnit
| RPtr (a : option positive)
| RCall (c : option call_ref)
| RCode (n : Z)
| REvent (e : grpc_event).

Definition run_op (o : client_op) : M process op_result :=
  match o with
  | OpChannel tgt => a ← channel_create (Some tgt) None; mret (RPtr a)
  | OpQueue type => a ← queue_create type; mret (RPtr a)
  | OpCall ch q method host dl =>
      c ← create_call (Some ch) (grpc_channel_create_call (Some q) (Some method) host dl); mret (RCall c)
  | OpBatch call tag => n ← call_start_batch (Some call) tag; mret (RCode n)
  | OpCancel call => n ← call_cancel (Some call); mret (RCode n)
  | OpNext q => e ← queue_next (Some q) []; mret (REvent e)
  | OpShutdown q => _ ← queue_shutdown (Some q); mret RUnit
  | OpCallDestroy call => _ ← call_destroy (Some call); mret RUnit
  | OpQueueDestroy q => _ ← queue_destroy (Some q); mret RUnit
  | OpChannelDestroy ch => _ ← channel_destroy (Some ch); mret RUnit
  end.

Definition find_call (p : process) (r : call_ref) : option grpc_call :=
  c ← channels p !! r.1; calls c !! r.2.

(** What the documentation of the library asks of a client: the objects it passes are alive, a queue
    outlives the calls made with it and a channel the calls made on it.  The identifiers of the
    streams and the capacity of the table stay where they do not wrap. *)
Definition legal (p : process) (o : client_op) : Prop :=
  match o with
  | OpChannel _ | OpQueue _ => True
  | OpCall ch q _ _ _ => is_Some (queues p !! q) ∧
      match channels p !! ch with
      | Some c => streams_capacity (conn (ch_conn c)) < 2 ^ 60 ∧ next_stream_id (conn (ch_conn c)) + 2 < 2 ^ 32
      | None => False
      end
  | OpBatch call _ | OpCancel call | OpCallDestroy call => is_Some (find_call p call)
  | OpNext q | OpShutdown q => is_Some (queues p !! q)
  | OpQueueDestroy q => is_Some (queues p !! q) ∧
      map_Forall (λ _ c, map_Forall (λ _ o, call_cq o ≠ Some q) (calls c)) (channels p)
  | OpChannelDestroy ch => match channels p !! ch with Some c => calls c = ∅ | None => False end
  end.
#[export] Instance legal_dec p o : Decision (legal p o).
Proof. destruct o; cbn; try (destruct (channels p !! ch)); apply _. Defined.

(** What a client can write down: the queue each call was made with, and of each queue since its
    creation the tags of the batches whose event could be allocated and those that came out. *)
Record notes := mk_notes {
  owner : gmap call_ref positive;
  sent : gmap positive (list (option positive));
  got : gmap positive (list (option positive))
}.
Definition tags (m : gmap positive (list (option positive))) (q : positive) : list (option positive) :=
  default [] (m !! q).
Definition add_tag (q : positive) (t : option positive) (m : gmap positive (list (option positive))) :=
  <[q := tags m q ++ [t]]> m.

Definition note (p : process) (o : client_op) (r : op_result) (n : notes) : notes :=
  match o, r with
  | OpQueue _, RPtr (Some q) => mk_notes (owner n) (<[q := []]> (sent n)) (<[q := []]> (got n))
  | OpCall _ q _ _ _, RCall (Some c) => mk_notes (<[c := q]> (owner n)) (sent n) (got n)
  | OpBatch c tag, _ =>
      match owner n !! c with
      | Some q => if (answer (memory p)).1 then mk_notes (owner n) (add_tag q tag (sent n)) (got n) else n
      | None => n
      end
  | OpNext q, REvent e => if ev_success e then mk_notes (owner n) (sent n) (add_tag q (ev_tag e) (got n)) else n
  | _, _ => n
  end.

Inductive ran : process → notes → process → notes → Prop :=
| ran_nil p n : ran p n p n
| ran_op p n p1 n1 o r p2 :
    ran p n p1 n1 → legal p1 o → run_op o p1 = Ret (r, p2) → ran p n p2 (note p1 o r n1).

(** ** The invariant of a client *)

Implicit Types (p : process) (n : notes).

(** The queue [q] holds exactly the events of the batches that have not come out. *)
Definition queue_ok n (q : positive) (w : cq_state) : Prop :=
  ∃ es sh, cq_rel w (mk_queue es sh (cell_answers w)) ∧ Forall (λ e, ev_success e = true) es ∧
    tags (sent n) q = tags (got n) q ++ (ev_tag <$> es).

Record client_ok p n : Prop := {
  cl_channels : map_Forall (λ _, chan_ok) (channels p);
  cl_queues : map_Forall (queue_ok n) (queues p);
  cl_calls : ∀ r c, find_call p r = Some c →
    ∃ q, call_cq c = Some q ∧ is_Some (queues p !! q) ∧ owner n !! r = Some q;
  cl_fresh : ∀ a, is_Some (channels p !! a) ∨ is_Some (queues p !! a) → (a < fresh p)%positive;
  cl_leaked : leaked p = 0%nat
}.

Lemma cq_rel_answers al w es sh al' :
  cq_rel w (mk_queue es sh al') → cq_rel (set_cell_answers al w) (mk_queue es sh al).
Proof. intros [(l & Ho & Hl & Ht) Hs _ Hm]. split; try done. exists l. split_and!; [by apply owns_answers|done|done]. Qed.

(** Operations on one object, when nothing else of the process matters to it. *)
Lemma on_ptr_run {T A} `{!Object T} a (m : M (option T) A) p t x t' :
  object_at a p = Some t → m (Some t) = Ret (x, Some t') → on_ptr (Some a) m p = Ret (x, put_object a t' p).
Proof.
  intros Ha Hm. unfold on_ptr. rewrite (M_bind_Ret _ _ p t p) by (unfold read_object; by rewrite Ha).
  rewrite (M_bind_lift _ _ _ (x, t')) by (unfold deref; by rewrite Hm). by rewrite M_bind_modify.
Qed.

Lemma free_object_run {T A} `{!Object T} a (d : option T → outcome (option A)) left p t x :
  object_at a p = Some t → d (Some t) = Ret (Some x) →
  free_object (Some a) d left p = Ret ((), left x (drop_object a p)).
Proof.
  intros Ha Hd. unfold free_object. rewrite (M_bind_Ret _ _ p t p) by (unfold read_object; by rewrite Ha).
  by rewrite (M_bind_lift _ _ _ (Some x)).
Qed.

Lemma client_ok_memory al p n : client_ok p n → client_ok (set_memory al p) n.
Proof. intros []. by split. Qed.

Lemma client_ok_fresh p n : client_ok p n → client_ok (set_fresh (Pos.succ (fresh p)) p) n.
Proof. intros [H1 H2 H3 H4 H5]. split; try done. intros a H%H4. cbn. lia. Qed.

(** A channel is written; its calls have their queues. *)
Lemma client_ok_put_channel a c' p n n' :
  client_ok p n → (a < fresh p)%positive → chan_ok c' →
  (∀ k o, calls c' !! k = Some o →
    ∃ q, call_cq o = Some q ∧ is_Some (queues p !! q) ∧ owner n' !! (a, k) = Some q) →
  (∀ r, r.1 ≠ a → owner n' !! r = owner n !! r) → sent n' = sent n → got n' = got n →
  client_ok (put_object a c' p) n'.
Proof.
  intros [Hch Hq Hc Hf Hl] Ha Hok Hcalls Hown Hsent Hgot. split; cbn.
  - by apply map_Forall_insert_2.
  - intros q w Hw. destruct (Hq q w Hw) as (es & sh & ? & ? & Heq). exists es, sh. by rewrite Hsent, Hgot.
  - intros [b k] o. unfold find_call. cbn. destruct (decide (a = b)) as [<-|Hne].
    + rewrite lookup_insert_eq. cbn. apply Hcalls.
    + rewrite lookup_insert_ne by done. intros Ho. destruct (Hc (b, k) o Ho) as (q & ? & ? & Hr).
      exists q. split_and!; [done|done|]. rewrite Hown; [done|]. cbn. congruence.
  - intros b. rewrite lookup_insert_is_Some'. naive_solver.
  - done.
Qed.

(** A queue is written; only its own notes have changed. *)
Lemma client_ok_put_queue q w' p n n' :
  client_ok p n → (q < fresh p)%positive → queue_ok n' q w' → owner n' = owner n →
  (∀ b, b ≠ q → tags (sent n') b = tags (sent n) b ∧ tags (got n') b = tags (got n) b) →
  client_ok (put_object q w' p) n'.
Proof.
  intros [Hch Hq Hc Hf Hl] Ha Hok Hown Hrest. split; cbn.
  - done.
  - intros b w. rewrite lookup_insert_Some. intros [[<- <-]|[Hne Hw]]; [done|].
    destruct (Hq b w Hw) as (es & sh & ? & ? & Heq). exists es, sh. destruct (Hrest b) as [-> ->]; done.
  - intros r o Ho. destruct (Hc r o Ho) as (b & ? & Hb & Hr). exists b. rewrite Hown.
    split_and!; [done| |done]. rewrite lookup_insert_is_Some'. by right.
  - intros b. rewrite lookup_insert_is_Some'. naive_solver.
  - done.
Qed.

Lemma client_ok_drop_channel a c p n :
  client_ok p n → channels p !! a = Some c → calls c = ∅ → client_ok (drop_object (T:=grpc_channel) a p) n.
Proof.
  intros [Hch Hq Hc Hf Hl] Ha He. split; cbn; try done.
  - by apply map_Forall_delete.
  - intros [b k] o. unfold find_call. cbn. destruct (decide (a = b)) as [<-|Hne].
    + by rewrite lookup_delete_eq.
    + rewrite lookup_delete_ne by done. apply (Hc (b, k)).
  - intros b [[_ ?]%lookup_delete_is_Some|?]; apply Hf; auto.
Qed.

Lemma client_ok_drop_queue q p n :
  client_ok p n → (∀ r c, find_call p r = Some c → call_cq c ≠ Some q) →
  client_ok (drop_object (T:=cq_state) q p) n.
Proof.
  intros [Hch Hq Hc Hf Hl] Hno. split; cbn; try done.
  - by apply map_Forall_delete.
  - intros r o Ho. destruct (Hc r o Ho) as (b & Hb & ? & ?). exists b. split_and!; [done| |done].
    rewrite lookup_delete_ne; [done|]. intros <-. by destruct (Hno r o Ho).
  - intros b [?|[_ ?]%lookup_delete_is_Some]; apply Hf; auto.
Qed.

Lemma tags_add_eq q t m : tags (add_tag q t m) q = tags m q ++ [t].
Proof. unfold tags, add_tag. by rewrite lookup_insert_eq. Qed.
Lemma tags_add_ne q b t m : b ≠ q → tags (add_tag q t m) b = tags m b.
Proof. intros H. unfold tags, add_tag. by rewrite lookup_insert_ne. Qed.
Lemma tags_new q m : tags (<[q := []]> m) q = [].
Proof. unfold tags. by rewrite lookup_insert_eq. Qed.
Lemma tags_new_ne q b m : b ≠ q → tags (<[q := []]> m) b = tags m b.
Proof. intros H. unfold tags. by rewrite lookup_insert_ne. Qed.

(** ** Every operation is carried out and keeps the invariant *)

Definition op_run p n (o : client_op) : Prop :=
  ∃ r p', run_op o p = Ret (r, p') ∧ client_ok p' (note p o r n).

Lemma find_call_channel p r o :
  find_call p r = Some o → ∃ c, channels p !! r.1 = Some c ∧ calls c !! r.2 = Some o.
Proof. unfold find_call. destruct (channels p !! r.1) as [c|]; [|done]. by exists c. Qed.

(** The channel of a pointer, with the allocator of the process. *)
Lemma channel_at a c p n :
  client_ok p n → channels p !! a = Some c →
  object_at a p = Some (with_answers (memory p) c) ∧ chan_ok (with_answers (memory p) c) ∧ (a < fresh p)%positive.
Proof.
  intros Hok Ha. cbn. rewrite Ha. split; [done|]. split; [|apply (cl_fresh _ _ Hok); left; by eexists].
  apply chan_ok_answers. by apply (cl_channels _ _ Hok a).
Qed.

(** An operation on a call keeps the queues of the calls. *)
Lemma client_ok_calls a c c' p n :
  client_ok p n → channels p !! a = Some c → chan_ok c' →
  (∀ k o', calls c' !! k = Some o' → ∃ o, calls c !! k = Some o ∧ call_cq o' = call_cq o) →
  client_ok (put_object a c' p) n.
Proof.
  intros Hok Ha Hok' Hsub. eapply client_ok_put_channel; try done.
  - apply (cl_fresh _ _ Hok). left. by eexists.
  - intros k o' Ho'. destruct (Hsub k o' Ho') as (o & Ho & ->). apply (cl_calls _ _ Hok (a, k)).
    unfold find_call. cbn. by rewrite Ha.
Qed.

Lemma channel_create_step tgt args p :
  ∃ o p', channel_create (Some tgt) args p = Ret (o, p') ∧
    (∀ b, b ∈ memory p' → b ∈ memory p) ∧
    match o with
    | Some a => a = fresh p ∧ ∃ al c, p' = put_object a c (set_fresh (Pos.succ a) (set_memory al p)) ∧
        chan_ok c ∧ calls c = ∅ ∧ streams_capacity (conn (ch_conn c)) < 2 ^ 60 ∧ next_stream_id (conn (ch_conn c)) = 1
    | None => (∃ al, p' = set_memory al p) ∧ false ∈ memory p
    end.
Proof.
  unfold channel_create, on_memory, zoom.
  destruct (channel_create_run tgt None args (memory p)) as (o & al & E & Hal & Ho).
  unfold grpc_insecure_channel_create. rewrite (M_bind_Ret _ _ p o (set_memory al p)) by (by rewrite E).
  destruct o as [c|].
  - rewrite M_bind_gets. eexists _, _. split; [done|]. split; [done|]. split; [done|].
    exists al, (with_answers al c). destruct Ho as (? & ? & ? & ?). split_and!; try done. by apply chan_ok_answers.
  - eexists _, _. split; [done|]. split; [done|]. split; [by eexists|done].
Qed.

Lemma queue_create_step type p :
  ∃ o p', queue_create type p = Ret (o, p') ∧ (∀ b, b ∈ memory p' → b ∈ memory p) ∧
    match o with
    | Some a => a = fresh p ∧ ∃ al, p' = put_object a (new_queue type al) (set_fresh (Pos.succ a) (set_memory al p))
    | None => (∃ al, p' = set_memory al p) ∧ false ∈ memory p
    end.
Proof.
  unfold queue_create. rewrite (M_bind_Ret _ _ p (if (answer (memory p)).1 then Some (mk_cq type false None None false) else None)
    (set_memory (answer (memory p)).2 p)).
  2:{ unfold on_memory, zoom, grpc_completion_queue_create, mbind, M_bind. rewrite malloc_answer.
      by destruct (answer (memory p)) as [[] ?]. }
  destruct (memory p) as [|[] al] eqn:Em; cbn [answer fst snd].
  - rewrite M_bind_gets. eexists _, _. split; [done|]. split; [done|]. split; [done|]. by exists [].
  - rewrite M_bind_gets. eexists _, _. split; [done|]. split; [cbn; set_solver|]. split; [done|]. by exists al.
  - eexists _, _. split; [done|]. split; [cbn; set_solver|]. split; [by exists al|left].
Qed.

Lemma op_channel_run p n tgt : client_ok p n → op_run p n (OpChannel tgt).
Proof.
  intros Hok. unfold op_run. cbn [run_op]. destruct (channel_create_step tgt None p) as (o & p' & E & _ & Ho).
  mstep E. exists (RPtr o), p'. split; [done|]. cbn [note]. destruct o as [a|].
  - destruct Ho as [-> (al & c & -> & Hc & He & _)].
    eapply (client_ok_put_channel _ _ (set_fresh (Pos.succ (fresh p)) (set_memory al p)) n); try done.
    + apply (client_ok_fresh (set_memory al p)). by apply client_ok_memory.
    + cbn. lia.
    + intros k o. by rewrite He.
  - destruct Ho as [[al ->] _]. by apply client_ok_memory.
Qed.

Lemma op_queue_run p n type : client_ok p n → op_run p n (OpQueue type).
Proof.
  intros Hok. unfold op_run. cbn [run_op]. destruct (queue_create_step type p) as (o & p' & E & _ & Ho).
  mstep E. exists (RPtr o), p'. split; [done|]. cbn [note]. destruct o as [a|].
  - destruct Ho as [-> (al & ->)].
    eapply (client_ok_put_queue _ _ (set_fresh (Pos.succ (fresh p)) (set_memory al p)) n); try done.
    + apply (client_ok_fresh (set_memory al p)). by apply client_ok_memory.
    + cbn. lia.
    + exists [], false. split; [apply new_queue_rel|]. split; [done|]. cbn. by rewrite !tags_new.
    + intros b Hb. cbn. by rewrite !tags_new_ne.
  - destruct Ho as [[al ->] _]. by apply client_ok_memory.
Qed.

Lemma create_call_step ch q m h dl p n :
  client_ok p n → legal p (OpCall ch q m h dl) →
  ∃ r c c' p', create_call (Some ch) (grpc_channel_create_call (Some q) (Some m) h dl) p =
      Ret ((λ k, (ch, k)) <$> r, p') ∧
    channels p !! ch = Some c ∧ p' = put_object ch c' p ∧ chan_ok c' ∧
    match r with
    | Some k => ∃ o, calls c' = <[k := o]> (calls c) ∧ calls c !! k = None ∧ call_cq o = Some q
    | None => calls c' = calls c ∧ false ∈ memory p
    end.
Proof.
  intros Hok [Hq Hl]. destruct (channels p !! ch) as [c|] eqn:Hc; [|done]. destruct Hl as [Hcap Hnext].
  destruct (channel_at _ _ _ _ Hok Hc) as (Ha & Hcok & _).
  destruct (create_call_run (Some q) (Some m) h dl _ Hcok Hcap Hnext) as (r & c' & E & Hok' & Hr).
  exists r, c, c', (put_object ch c' p). unfold create_call. mstep (on_ptr_run _ _ _ _ _ _ Ha E).
  split; [by destruct r|]. split; [done|]. split; [done|]. split; [done|].
  destruct r as [k|].
  - destruct Hr as (-> & s & o & st & Hcalls & _ & Hcq & _). exists o. split_and!; [done| |done].
    apply eq_None_not_Some. intros H%(co_fresh _ Hcok). cbn in H. lia.
  - destruct Hr as (? & _ & Hf). split; [done|]. by apply Hf; eexists.
Qed.

Lemma op_call_run p n ch q m h dl :
  client_ok p n → legal p (OpCall ch q m h dl) → op_run p n (OpCall ch q m h dl).
Proof.
  intros Hok Hlegal. unfold op_run. cbn [run_op].
  destruct (create_call_step ch q m h dl p n Hok Hlegal) as (r & c & c' & p' & E & Hc & -> & Hok' & Hr).
  mstep E. do 2 eexists. split; [done|]. cbn [note]. destruct r as [k|]; cbn.
  - destruct Hr as (o & Hcalls & _ & Hcq).
    apply (client_ok_put_channel ch c' p n (mk_notes (<[(ch, k) := q]> (owner n)) (sent n) (got n))); try done.
    + apply (cl_fresh _ _ Hok). left. by eexists.
    + intros k' o'. rewrite Hcalls. rewrite lookup_insert_Some. intros [[<- <-]|[Hne Ho]].
      * exists q. split_and!; [done|apply Hlegal|]. cbn. by rewrite lookup_insert_eq.
      * destruct (cl_calls _ _ Hok (ch, k') o') as (b & ? & ? & Hb); [by unfold find_call; cbn; rewrite Hc|].
        exists b. split_and!; [done|done|]. cbn. rewrite lookup_insert_ne; [done|congruence].
    + intros r Hr. cbn. rewrite lookup_insert_ne; [done|]. by intros <-.
  - destruct Hr as [Hcalls _]. apply (client_ok_calls ch c c' p n Hok Hc Hok').
    intros k o Ho. exists o. by rewrite <- Hcalls.
Qed.

Lemma op_cancel_run p n r : client_ok p n → legal p (OpCancel r) → op_run p n (OpCancel r).
Proof.
  intros Hok [o Ho]. apply find_call_channel in Ho as (c & Hc & Hk). destruct r as [ch k]. cbn in Hc, Hk.
  destruct (channel_at _ _ _ _ Hok Hc) as (Ha & Hcok & _). unfold op_run. cbn [run_op call_cancel].
  pose proof (call_cancel_run k o _ Hcok Hk) as E.
  mstep (on_ptr_run ch _ _ _ _ _ Ha (nullable_Ret _ _ _ _ _ E)). do 2 eexists. split; [done|].
  apply (client_ok_calls ch c _ p n Hok Hc); [by apply chan_ok_cancel|].
  intros k' o'. cbn. rewrite lookup_insert_Some. intros [[<- <-]|[_ ?]]; [by exists o|by exists o'].
Qed.

Lemma call_destroy_step p n ch k c o :
  client_ok p n → channels p !! ch = Some c → calls c !! k = Some o →
  ∃ c', call_destroy (Some (ch, k)) p = Ret ((), put_object ch c' p) ∧ chan_ok c' ∧
    calls c' = delete k (calls c).
Proof.
  intros Hok Hc Hk. destruct (channel_at _ _ _ _ Hok Hc) as (Ha & Hcok & _).
  destruct (call_destroy_run k o _ Hcok Hk) as (c' & s & E & Hok' & _ & Hcalls & _).
  exists c'. split; [|done]. exact (on_ptr_run ch _ _ _ _ _ Ha (nullable_Ret _ _ _ _ _ E)).
Qed.

Lemma op_call_destroy_run p n r : client_ok p n → legal p (OpCallDestroy r) → op_run p n (OpCallDestroy r).
Proof.
  intros Hok [o Ho]. apply find_call_channel in Ho as (c & Hc & Hk). destruct r as [ch k].
  destruct (call_destroy_step p n ch k c o Hok Hc Hk) as (c' & E & Hok' & Hcalls).
  unfold op_run. cbn [run_op]. mstep E. do 2 eexists. split; [done|].
  apply (client_ok_calls ch c _ p n Hok Hc Hok'). intros k' o'. rewrite Hcalls, lookup_delete_Some.
  intros [_ ?]. by exists o'.
Qed.

(** The queue of a pointer, with the allocator of the process. *)
Lemma queue_at q w p n :
  client_ok p n → queues p !! q = Some w →
  ∃ es sh, object_at q p = Some (set_cell_answers (memory p) w) ∧ (q < fresh p)%positive ∧
    cq_rel (set_cell_answers (memory p) w) (mk_queue es sh (memory p)) ∧
    Forall (λ e, ev_success e = true) es ∧ tags (sent n) q = tags (got n) q ++ (ev_tag <$> es).
Proof.
  intros Hok Hq. destruct (cl_queues _ _ Hok q w Hq) as (es & sh & Hr & Hes & Heq). exists es, sh.
  split; [cbn; by rewrite Hq|]. split; [apply (cl_fresh _ _ Hok); right; by eexists|].
  split; [by eapply cq_rel_answers|done].
Qed.

(** The queue of a state is the one its abstract queue says. *)
Lemma queue_ok_rel n q w a :
  cq_rel w a → Forall (λ e, ev_success e = true) (events a) →
  tags (sent n) q = tags (got n) q ++ (ev_tag <$> events a) → queue_ok n q w.
Proof.
  intros Hr ? ?. exists (events a), (shut a). split; [|done]. rewrite (rel_answers _ _ Hr). by destruct a.
Qed.

Lemma op_next_run p n q : client_ok p n → legal p (OpNext q) → op_run p n (OpNext q).
Proof.
  intros Hok [w Hw]. destruct (queue_at q w p n Hok Hw) as (es & sh & Ha & Hlt & Hr & Hes & Heq).
  destruct (next_run [] _ _ Hr) as (w' & E & Hr'). unfold op_run. cbn [run_op queue_next].
  unfold queue_next. mstep (on_ptr_run q _ _ _ _ _ Ha E). do 2 eexists. split; [done|]. cbn [note].
  cbn in Hr' |- *. destruct es as [|e es].
  - assert ((if sh then (shutdown_event, mk_queue [] sh (memory p)) else (timeout_event, mk_queue [] sh (memory p))).2
      = mk_queue [] sh (memory p)) as Hs by by destruct sh.
    assert (ev_success (if sh then (shutdown_event, mk_queue [] sh (memory p)) else (timeout_event, mk_queue [] sh (memory p))).1
      = false) as Hf by by destruct sh.
    cbn [events shut] in *. rewrite Hs in Hr'. rewrite Hf.
    apply (client_ok_put_queue q w' p n n Hok Hlt); [|done..]. by apply (queue_ok_rel n q w' _ Hr').
  - apply Forall_cons in Hes as [He Hes]. cbn in Hr' |- *. rewrite He.
    eapply (client_ok_put_queue q w' p n); try done.
    + apply (queue_ok_rel _ q w' _ Hr' Hes). cbn. by rewrite tags_add_eq, Heq, <- app_assoc.
    + intros b Hb. cbn. by rewrite tags_add_ne.
Qed.

Lemma op_shutdown_run p n q : client_ok p n → legal p (OpShutdown q) → op_run p n (OpShutdown q).
Proof.
  intros Hok [w Hw]. destruct (queue_at q w p n Hok Hw) as (es & sh & Ha & Hlt & Hr & Hes & Heq).
  destruct (shutdown_run _ _ Hr) as (w' & E & Hr'). unfold op_run. cbn [run_op]. unfold queue_shutdown.
  mstep (on_ptr_run q _ _ _ _ _ Ha E). do 2 eexists. split; [done|]. cbn [note].
  apply (client_ok_put_queue q w' p n n Hok Hlt); [|done..]. by apply (queue_ok_rel n q w' _ Hr').
Qed.

Lemma op_batch_run p n r tag : client_ok p n → legal p (OpBatch r tag) → op_run p n (OpBatch r tag).
Proof.
  intros Hok [o Ho]. destruct (cl_calls _ _ Hok r o Ho) as (q & Hcq & [w Hw] & Hown).
  apply find_call_channel in Ho as (c & Hc & Hk). destruct r as [ch k]. cbn in Hc, Hk.
  destruct (channel_at _ _ _ _ Hok Hc) as (Hac & _ & _).
  destruct (queue_at q w p n Hok Hw) as (es & sh & Ha & Hlt & Hr & Hes & Heq).
  destruct (push_run (mk_event 1 true tag) _ _ Hr) as (w' & E & Hr').
  assert (grpc_call_start_batch (Some o) tag (Some (set_cell_answers (memory p) w)) = Ret (GRPC_CALL_OK, Some w')) as Eb.
  { unfold grpc_call_start_batch. rewrite Hcq. by mstep E. }
  unfold op_run. cbn [run_op call_start_batch].
  exists (RCode GRPC_CALL_OK), (put_object q w' p). split.
  { rewrite M_bind_assoc. rewrite (M_bind_Ret _ _ p (with_answers (memory p) c) p) by (unfold read_object; by rewrite Hac).
    rewrite M_bind_assoc. rewrite (M_bind_lift _ _ _ (o, with_answers (memory p) c)) by (by apply read_call_run).
    cbn [fst]. rewrite Hcq. by mstep (on_ptr_run q _ _ _ _ _ Ha Eb). }
  cbn [note]. rewrite Hown. unfold spec_push in Hr'. cbn [queue_answers events shut] in Hr'.
  destruct (memory p) as [|[] al]; cbn [answer fst].
  1,2: eapply (client_ok_put_queue q w' p n); try done;
    [apply (queue_ok_rel _ q w' _ Hr');
       [apply Forall_app; by repeat constructor|cbn; by rewrite tags_add_eq, Heq, fmap_app, <- app_assoc]
    |intros b Hb; cbn; by rewrite tags_add_ne].
  apply (client_ok_put_queue q w' p n n Hok Hlt); [|done..]. by apply (queue_ok_rel n q w' _ Hr').
Qed.

Lemma queue_destroy_step q w p n :
  client_ok p n → queues p !! q = Some w →
  queue_destroy (Some q) p = Ret ((), add_leaked 0 (drop_object (T:=cq_state) q p)).
Proof.
  intros Hok Hw. destruct (queue_at q w p n Hok Hw) as (es & sh & Ha & _ & Hr & _).
  exact (free_object_run q grpc_completion_queue_destroy _ p _ ∅ Ha (destroy_run _ _ Hr)).
Qed.

Lemma client_ok_leaked p n : client_ok p n → client_ok (add_leaked 0 p) n.
Proof. intros [H1 H2 H3 H4 H5]. split; try done. cbn. lia. Qed.

Lemma op_queue_destroy_run p n q : client_ok p n → legal p (OpQueueDestroy q) → op_run p n (OpQueueDestroy q).
Proof.
  intros Hok [[w Hw] Hno]. unfold op_run. cbn [run_op]. mstep (queue_destroy_step q w p n Hok Hw).
  do 2 eexists. split; [done|]. cbn [note]. apply client_ok_leaked, client_ok_drop_queue; [done|].
  intros r c (c0 & Hc & Ho)%find_call_channel. exact (Hno _ _ Hc _ _ Ho).
Qed.

Lemma channel_destroy_step a c p n :
  client_ok p n → channels p !! a = Some c → calls c = ∅ →
  channel_destroy (Some a) p = Ret ((), add_leaked 0 (drop_object (T:=grpc_channel) a p)).
Proof.
  intros Hok Hc He. destruct (channel_at _ _ _ _ Hok Hc) as (Ha & Hcok & _).
  destruct (channel_destroy_run _ Hcok He) as [e E].
  exact (free_object_run a grpc_channel_destroy _ p _ (∅, e, ∅) Ha E).
Qed.

Lemma op_channel_destroy_run p n ch :
  client_ok p n → legal p (OpChannelDestroy ch) → op_run p n (OpChannelDestroy ch).
Proof.
  intros Hok He. cbn in He. destruct (channels p !! ch) as [c|] eqn:Hc; [|done].
  unfold op_run. cbn [run_op]. mstep (channel_destroy_step ch c p n Hok Hc He).
  do 2 eexists. split; [done|]. cbn [note]. by eapply client_ok_leaked, client_ok_drop_channel.
Qed.

Lemma client_op_run p n o : client_ok p n → legal p o → op_run p n o.
Proof.
  destruct o; eauto using op_channel_run, op_queue_run, op_call_run, op_batch_run, op_cancel_run, op_next_run,
    op_shutdown_run, op_call_destroy_run, op_queue_destroy_run, op_channel_destroy_run.
Qed.

Lemma ran_ok p n p' n' : ran p n p' n' → client_ok p n → client_ok p' n'.
Proof.
  induction 1 as [|p n p1 n1 o r p2 _ IH Hl E]; [done|]. intros Hok.
  destruct (client_op_run p1 n1 o (IH Hok) Hl) as (r' & p2' & E' & Hok'). rewrite E in E'. by injection E' as <- <-.
Qed.

Lemma ran_trans p n p1 n1 p2 n2 : ran p n p1 n1 → ran p1 n1 p2 n2 → ran p n p2 n2.
Proof. induction 2; [done|]. econstructor; eauto. Qed.

Lemma ran_once p n o :
  client_ok p n → legal p o →
  ∃ r p', run_op o p = Ret (r, p') ∧ ran p n p' (note p o r n) ∧ client_ok p' (note p o r n).
Proof.
  intros Hok Hl. destruct (client_op_run p n o Hok Hl) as (r & p' & E & Hok').
  exists r, p'. split; [done|]. split; [|done]. by eapply ran_op; [constructor|..].
Qed.

(** A process that has done nothing with the library yet. *)
Definition new_process (o : os) : process := mk_process false o ∅ ∅ ∅ 1 0.
Definition no_notes : notes := mk_notes ∅ ∅ ∅.

Lemma new_process_ok o : client_ok (new_process o) no_notes.
Proof.
  split; try done. by intros a [[? H]|[? H]].
Qed.

(** ** Tearing a client down *)

(** The objects that are left. *)
Definition channel_weight (m : gmap positive grpc_channel) : nat :=
  map_fold (λ _ c s, (1 + size (calls c) + s)%nat) 0%nat m.
Definition objects_left p : nat := (channel_weight (channels p) + size (queues p))%nat.

Lemma channel_weight_delete m a c :
  m !! a = Some c → channel_weight m = (1 + size (calls c) + channel_weight (delete a m))%nat.
Proof. intros Ha. unfold channel_weight. rewrite (map_fold_delete_L _ _ a c m); [lia|intros; lia|done]. Qed.

Lemma channel_weight_insert m a c c' :
  m !! a = Some c → (size (calls c') < size (calls c))%nat →
  (channel_weight (<[a := c']> m) < channel_weight m)%nat.
Proof.
  intros Ha Hlt. rewrite (channel_weight_delete m a c Ha), (channel_weight_delete (<[a := c']> m) a c')
    by apply lookup_insert_eq. rewrite delete_insert_eq. lia.
Qed.

(** Something can be destroyed: a call, else a channel, else a queue. *)
Lemma teardown_step p n :
  client_ok p n → (0 < objects_left p)%nat →
  ∃ p' n', ran p n p' n' ∧ client_ok p' n' ∧ (objects_left p' < objects_left p)%nat.
Proof.
  intros Hok Hpos. destruct (decide (channels p = ∅)) as [Hno|[a [c Hc]]%map_choose].
  - destruct (decide (queues p = ∅)) as [Hnq|[q [w Hw]]%map_choose].
    { unfold objects_left in Hpos. rewrite Hno, Hnq in Hpos. vm_compute in Hpos. lia. }
    destruct (ran_once p n (OpQueueDestroy q) Hok) as (r & p' & E & Hran & Hok').
    { split; [by eexists|]. by rewrite Hno. }
    eexists p', _. split; [exact Hran|]. split; [done|]. clear Hran Hok'. cbn [run_op] in E.
    rewrite (M_bind_Ret _ _ _ _ _ (queue_destroy_step q w p n Hok Hw)) in E. injection E as _ <-.
    unfold objects_left. cbn. rewrite map_size_delete, Hw. assert (size (queues p) ≠ 0)%nat; [|lia].
    intros Hs%map_size_empty_iff. by rewrite Hs in Hw.
  - destruct (decide (calls c = ∅)) as [He|[k [o Hk]]%map_choose].
    + destruct (ran_once p n (OpChannelDestroy a) Hok) as (r & p' & E & Hran & Hok'); [cbn; by rewrite Hc|].
      eexists p', _. split; [exact Hran|]. split; [done|]. clear Hran Hok'. cbn [run_op] in E.
      rewrite (M_bind_Ret _ _ _ _ _ (channel_destroy_step a c p n Hok Hc He)) in E. injection E as _ <-.
      unfold objects_left. cbn. rewrite (channel_weight_delete _ _ _ Hc). lia.
    + destruct (ran_once p n (OpCallDestroy (a, k)) Hok) as (r & p' & E & Hran & Hok').
      { exists o. unfold find_call. cbn. by rewrite Hc. }
      eexists p', _. split; [exact Hran|]. split; [done|]. clear Hran Hok'. cbn [run_op] in E.
      destruct (call_destroy_step p n a k c o Hok Hc Hk) as (c' & E' & _ & Hcalls).
      rewrite (M_bind_Ret _ _ _ _ _ E') in E. injection E as _ <-.
      unfold objects_left. cbn. pose proof (channel_weight_insert _ a c c' Hc) as Hw. rewrite Hcalls in Hw.
      rewrite map_size_delete, Hk in Hw. assert (size (calls c) ≠ 0)%nat; [|lia].
      intros Hs%map_size_empty_iff. by rewrite Hs in Hk.
Qed.

Lemma teardown p n :
  client_ok p n → ∃ p' n', ran p n p' n' ∧ client_ok p' n' ∧ objects_left p' = 0%nat.
Proof.
  remember (objects_left p) as k eqn:Hk. revert p n Hk. induction (lt_wf k) as [k _ IH]. intros p n -> Hok.
  destruct (decide (objects_left p = 0%nat)) as [|Hne]; [exists p, n; split_and!; [constructor|done|done]|].
  destruct (teardown_step p n Hok) as (p1 & n1 & Hr & Hok1 & Hlt); [lia|].
  destruct (IH _ Hlt p1 n1 eq_refl Hok1) as (p' & n' & Hr' & ? & ?). exists p', n'.
  split; [by eapply ran_trans|done].
Qed.

Lemma objects_left_none p : objects_left p = 0%nat → channels p = ∅ ∧ queues p = ∅.
Proof.
  unfold objects_left. intros H. split; [|apply map_size_empty_iff; lia].
  destruct (decide (channels p = ∅)) as [|[a [c Hc]]%map_choose]; [done|].
  rewrite (channel_weight_delete _ _ _ Hc) in H. lia.
Qed.

(** ** What a client can rely on *)



(** Two calls on one channel with a queue each, and a batch on either. *)
Definition two_calls : list client_op :=
  [ OpChannel [65; 0]; OpQueue GRPC_CQ_NEXT; OpQueue GRPC_CQ_NEXT;
    OpCall 1 2 [47; 0] None (mk_timespec 0 0); OpCall 1 3 [47; 0] None (mk_timespec 0 0);
    OpBatch (1, 1)%positive (Some 7%positive); OpBatch (1, 2)%positive (Some 8%positive);
    OpBatch (1, 1)%positive (Some 9%positive); OpNext 2 ].
Fixpoint run_client (os : list client_op) (s : process * notes) : process * notes :=
  match os with
  | [] => s
  | o :: os => match run_op o s.1 with Ret (r, p) => run_client os (p, note s.1 o r s.2) | Fault _ => s end
  end.
Definition after_two_calls : process * notes := run_client two_calls (new_process (sample_os []), no_notes).

Fixpoint legal_run (os : list client_op) (s : process * notes) : bool :=
  match os with
  | [] => true
  | o :: os => bool_decide (legal s.1 o) &&
      match run_op o s.1 with Ret (r, p) => legal_run os (p, note s.1 o r s.2) | Fault _ => false end
  end.
Lemma run_client_ran os s : legal_run os s = true → ran s.1 s.2 (run_client os s).1 (run_client os s).2.
Proof.
  revert s. induction os as [|o os IH]; intros [p n]; cbn [legal_run run_client fst snd]; [constructor|].
  intros [Hl%bool_decide_eq_true H]%andb_prop. destruct (run_op o p) as [[r p']|f] eqn:E; [|done].
  eapply ran_trans; [by eapply ran_op; [constructor|..]|]. exact (IH _ H).
Qed.

Lemma after_two_calls_ran :
  ran (new_process (sample_os [])) no_notes after_two_calls.1 after_two_calls.2.
Proof. apply (run_client_ran two_calls (new_process (sample_os []), no_notes)). vm_compute. reflexivity. Qed.


