(* ===== verification/Credentials.v ===== *)
(** * Credentials (src/src/grpc_credentials.c)

    The credential records of channels and servers, from their creation to their release.  The
    records live in a heap of their own; the pairs of key and certificate stay the application's. *)

From Stdlib Require Import ZArith Lia.
From stdpp Require Import base tactics list option strings gmap.
From S2P Require Import Prelude Lists.

#[local] Open Scope Z_scope.

Record grpc_ssl_pem_key_cert_pair := mk_pair { pem_private_key : option (list Z); cert_chain : option (list Z) }.

(** The [void *] fields are the pairs TLS casts them to; the copy of the root certificates lives and
    dies with the record. *)
Record grpc_channel_credentials := mk_channel_creds {
  cc_root_certs : option (list Z);
  cc_key_cert_pair : option grpc_ssl_pem_key_cert_pair
}.
Record grpc_server_credentials := mk_server_creds {
  sc_root_certs : option (list Z);
  sc_key_cert_pairs : option (list grpc_ssl_pem_key_cert_pair);
  sc_num_pairs : Z
}.

(** A heap of credential records; none of them is linked to another. *)
Abbreviation creds_heap A := (heap_of () A).

Section credentials.
Context {A : Type}.
Implicit Types (w : creds_heap A) (roots : option (list Z)).

(** The copy of the root certificates: nothing, a copy, or a failed [strdup]. *)
Definition copy_roots roots : M (creds_heap A) (option (option (list Z))) :=
  match roots with
  | None => mret (Some None)
  | Some r => copy ← strdup_cell (Some r); mret (Some <$> copy)
  end.

(** What both constructors do: [calloc], the copy of the roots, and the other fields. *)
Definition create_with (fill : option (list Z) → A) roots : M (creds_heap A) (option positive) :=
  ok ← malloc_cell;
  if negb ok then mret None else
  copied ← copy_roots roots;
  match copied with
  | None => mret None
  | Some r => a ← new_cell (mk_cell (fill r) None); mret (Some a)
  end.

Definition release (creds : option positive) : M (creds_heap A) () :=
  match creds with None => mret () | Some a => free_cell a end.
End credentials.

Definition grpc_ssl_credentials_create (roots : option (list Z)) (pair : option grpc_ssl_pem_key_cert_pair)
    : M (creds_heap grpc_channel_credentials) (option positive) :=
  create_with (λ r, mk_channel_creds r pair) roots.
Definition grpc_channel_credentials_release (creds : option positive)
    : M (creds_heap grpc_channel_credentials) () := release creds.

Definition grpc_ssl_server_credentials_create (roots : option (list Z))
    (pairs : option (list grpc_ssl_pem_key_cert_pair)) (num : Z)
    : M (creds_heap grpc_server_credentials) (option positive) :=
  create_with (λ r, mk_server_creds r pairs num) roots.
Definition grpc_server_credentials_release (creds : option positive)
    : M (creds_heap grpc_server_credentials) () := release creds.

(** ** From creation to release *)

Section life.
Context {A : Type}.
Implicit Types (w : creds_heap A) (roots : option (list Z)).

Lemma copy_roots_run roots w :
  ∃ r al, copy_roots roots w = Ret (r, set_cell_answers al w) ∧
    (r = Some ((λ s, c_str s ++ [0]) <$> roots) ∨ r = None ∧ false ∈ cell_answers w) ∧
    (∀ b, b ∈ al → b ∈ cell_answers w).
Proof.
  destruct roots as [s|]; cbn [copy_roots fmap option_fmap option_map].
  - mstep (strdup_cell_run s w). do 2 eexists. split; [done|].
    destruct (cell_answers w) as [|[] al]; cbn; split; try set_solver; auto.
  - exists (Some None), (cell_answers w). split; [by destruct w|]. split; [by left|done].
Qed.

(** A constructor makes one fresh record, or none when an allocation failed. *)
Definition record_made w w' (r : option positive) (x : A) : Prop :=
  match r with
  | Some a => cells w !! a = None ∧ cells w' = <[a := mk_cell x None]> (cells w)
  | None => cells w' = cells w ∧ false ∈ cell_answers w
  end.

Lemma create_with_run (fill : option (list Z) → A) roots w :
  (∀ a, is_Some (cells w !! a) → (a < fresh_cell w)%positive) →
  ∃ r w', create_with fill roots w = Ret (r, w') ∧
    record_made w w' r (fill ((λ s, c_str s ++ [0]) <$> roots)).
Proof.
  intros Hf. unfold create_with. mstep (malloc_cell_answer w).
  destruct (answer (cell_answers w)) as [ok al] eqn:E. cbn [fst snd].
  assert ((ok = false → false ∈ cell_answers w) ∧ ∀ b, b ∈ al → b ∈ cell_answers w) as [Hok Hal].
  { destruct (cell_answers w) as [|b l]; injection E as <- <-; [by split|]. split; [intros ->; left|by right]. }
  destruct ok; cbn [negb]; [|do 2 eexists; split; [done|by split; [|apply Hok]]].
  destruct (copy_roots_run roots (set_cell_answers al w)) as (r & al2 & E2 & [->|[-> Hr]] & _); mstep E2.
  - do 2 eexists. split; [done|]. split; [|done]. apply eq_None_not_Some. intros H%Hf. cbn in H. lia.
  - do 2 eexists. split; [done|]. split; [done|]. by apply Hal.
Qed.

Lemma release_run a x w w' :
  cells w !! a = None → cells w' = <[a := mk_cell x None]> (cells w) →
  ∃ w2, release (Some a) w' = Ret ((), w2) ∧ cells w2 = cells w ∧ release (Some a) w2 = Fault UseAfterFree.
Proof.
  intros Hn Hc. assert (cells w' !! a = Some (mk_cell x None)) as Ha by (rewrite Hc; apply lookup_insert_eq).
  eexists. split; [exact (free_cell_run a _ _ Ha)|]. cbn. rewrite Hc, delete_insert_eq, delete_id by done.
  split; [done|]. unfold release, free_cell. cbn. by rewrite Hc, lookup_delete_eq.
Qed.
End life.

(** The credentials of a channel: a constructor that returns a record has copied the roots into it
    and kept the pair; the release frees it, leaves every other record and must not be repeated.  A
    constructor that fails leaves nothing behind. *)
Theorem grpc_channel_credentials_life roots pair (w : creds_heap grpc_channel_credentials) :
  (∀ a, is_Some (cells w !! a) → (a < fresh_cell w)%positive) →
  ∃ r w', grpc_ssl_credentials_create roots pair w = Ret (r, w') ∧
    record_made w w' r (mk_channel_creds ((λ s, c_str s ++ [0]) <$> roots) pair) ∧
    ∀ a, r = Some a → ∃ w2, grpc_channel_credentials_release r w' = Ret ((), w2) ∧ cells w2 = cells w ∧
      grpc_channel_credentials_release r w2 = Fault UseAfterFree.
Proof.
  intros Hf. destruct (create_with_run (λ r, mk_channel_creds r pair) roots w Hf) as (r & w' & E & Hr).
  exists r, w'. split; [exact E|]. split; [exact Hr|]. intros a ->. destruct Hr as [H1 H2].
  exact (release_run _ _ _ _ H1 H2).
Qed.

(** ... and of a server. *)
Theorem grpc_server_credentials_life roots pairs num (w : creds_heap grpc_server_credentials) :
  (∀ a, is_Some (cells w !! a) → (a < fresh_cell w)%positive) →
  ∃ r w', grpc_ssl_server_credentials_create roots pairs num w = Ret (r, w') ∧
    record_made w w' r (mk_server_creds ((λ s, c_str s ++ [0]) <$> roots) pairs num) ∧
    ∀ a, r = Some a → ∃ w2, grpc_server_credentials_release r w' = Ret ((), w2) ∧ cells w2 = cells w ∧
      grpc_server_credentials_release r w2 = Fault UseAfterFree.
Proof.
  intros Hf. destruct (create_with_run (λ r, mk_server_creds r pairs num) roots w Hf) as (r & w' & E & Hr).
  exists r, w'. split; [exact E|]. split; [exact Hr|]. intros a ->. destruct Hr as [H1 H2].
  exact (release_run _ _ _ _ H1 H2).
Qed.

Example create_and_release :
  (r ← grpc_ssl_credentials_create (Some [67; 65; 0]) None; grpc_channel_credentials_release r)
    (mk_heap () ∅ 1 []) = Ret ((), mk_heap () ∅ 2 []).
Proof. reflexivity. Qed.
