(* ===== verification/Tls.v ===== *)
(** * TLS (src/src/grpc_tls.c)

    The contexts built from credentials, the negotiation of HTTP/2 and the handshakes.  OpenSSL is a world of objects and of answers to the calls that can fail; what its
    PEM reader finds in a text is a parameter. *)

From Stdlib Require Import ZArith Lia.
From stdpp Require Import base tactics list option strings gmap.
From S2P Require Import Prelude Transport Credentials.

#[local] Open Scope Z_scope.
#[local] Set Warnings "-clear-no-such-hyp".

(** ** The negotiation of the protocol *)

Definition h2 : list Z := [104; 50].
Definition SSL_TLSEXT_ERR_OK : Z := 0.
Definition SSL_TLSEXT_ERR_NOACK : Z := 3.

(** [memcmp (&in[i], "h2", 2) == 0]. *)
Definition memcmp_h2 (input : list Z) (i : Z) : outcome bool :=
  sub ← offset input i;
  bs ← read_bytes sub 2;
  Ret (bool_decide (bs = h2)).

(** The loop over the protocols; the result is the position of the one selected.  The indices
    are [unsigned int]s. *)
Fixpoint alpn_loop (fuel : nat) (input : list Z) (inlen i : Z) : outcome (option Z) :=
  if i <? inlen then
    match fuel with
    | O => Fault OutOfFuel
    | S fuel =>
        len ← load input i;
        if inlen <? u32 (u32 (i + 1) + len) then Ret None else
        same ← (if len =? 2 then memcmp_h2 input (u32 (i + 1)) else Ret false);
        if same : bool then Ret (Some (u32 (i + 1)))
        else alpn_loop fuel input inlen (u32 (i + (1 + len)))
    end
  else Ret None.

(** The result, with the position and the length [*out] and [*outlen] are set to. *)
Definition grpc_ssl_alpn_select_cb_internal (input : list Z) (inlen : Z) : outcome (Z * option (Z * Z)) :=
  found ← alpn_loop (S (Z.to_nat inlen)) input inlen 0;
  Ret match found with
      | Some i => (SSL_TLSEXT_ERR_OK, Some (i, 2))
      | None => (SSL_TLSEXT_ERR_NOACK, None)
      end.

(** ** Contexts *)

Definition TLS1_2_VERSION : Z := 0x0303.
Definition SSL_VERIFY_NONE : Z := 0.
Definition SSL_VERIFY_PEER : Z := 1.
Definition SSL_VERIFY_FAIL_IF_NO_PEER_CERT : Z := 2.

(** What the code sets of an [SSL_CTX]; certificates and keys are identities. *)
Record ssl_context := mk_context {
  min_version : Z;
  verify_mode : Z;
  root_store : list positive;
  default_paths : bool;
  certificate : option positive;
  private_key : option positive;
  alpn_protos : option (list Z);
  alpn_callback : bool
}.
Definition new_context : ssl_context := mk_context 0 SSL_VERIFY_NONE [] false None None None false.

(** What the code sets of an [SSL]. *)
Record ssl_session := mk_session {
  session_ctx : positive;
  session_fd : Z;
  server_name : option (list Z)
}.

(** The global flag, the answers of the coming calls that can fail, the live contexts and
    sessions, and the numbers of BIOs, certificates and keys the code holds a reference to. *)
Record tls := mk_tls {
  ssl_initialized : bool;
  ssl_answers : allocs;
  contexts : gmap positive ssl_context;
  sessions : gmap positive ssl_session;
  fresh_object : positive;
  bios : Z;
  x509s : Z;
  pkeys : Z
}.

Definition set_initialized (b : bool) (w : tls) : tls :=
  mk_tls b (ssl_answers w) (contexts w) (sessions w) (fresh_object w) (bios w) (x509s w) (pkeys w).
Definition set_ssl_answers (al : allocs) (w : tls) : tls :=
  mk_tls (ssl_initialized w) al (contexts w) (sessions w) (fresh_object w) (bios w) (x509s w) (pkeys w).
Definition set_contexts (m : gmap positive ssl_context) (f : positive) (w : tls) : tls :=
  mk_tls (ssl_initialized w) (ssl_answers w) m (sessions w) f (bios w) (x509s w) (pkeys w).
Definition set_sessions (m : gmap positive ssl_session) (f : positive) (w : tls) : tls :=
  mk_tls (ssl_initialized w) (ssl_answers w) (contexts w) m f (bios w) (x509s w) (pkeys w).
Definition set_counts (b x p : Z) (w : tls) : tls :=
  mk_tls (ssl_initialized w) (ssl_answers w) (contexts w) (sessions w) (fresh_object w) b x p.

(** A call that can fail. *)
Definition ssl_call : M tls bool := λ w,
  Ret ((answer (ssl_answers w)).1, set_ssl_answers (answer (ssl_answers w)).2 w).

Definition SSL_CTX_new : M tls (option positive) :=
  ok ← ssl_call;
  if negb ok then mret None else
  λ w, Ret (Some (fresh_object w),
            set_contexts (<[fresh_object w := new_context]> (contexts w)) (Pos.succ (fresh_object w)) w).
Definition upd_context (a : positive) (f : ssl_context → ssl_context) : M tls () := λ w,
  match contexts w !! a with
  | Some c => Ret ((), set_contexts (<[a := f c]> (contexts w)) (fresh_object w) w)
  | None => Fault UseAfterFree
  end.
Definition SSL_CTX_free (a : positive) : M tls () := λ w,
  match contexts w !! a with
  | Some _ => Ret ((), set_contexts (delete a (contexts w)) (fresh_object w) w)
  | None => Fault UseAfterFree
  end.

Definition BIO_new : M tls bool :=
  ok ← ssl_call;
  if negb ok then mret false else
  _ ← modify (λ w, set_counts (bios w + 1) (x509s w) (pkeys w) w);
  mret true.
Definition BIO_free : M tls () := λ w,
  if bios w <=? 0 then Fault UseAfterFree else Ret ((), set_counts (bios w - 1) (x509s w) (pkeys w) w).
Definition X509_new : M tls () := modify (λ w, set_counts (bios w) (x509s w + 1) (pkeys w) w).
Definition X509_free : M tls () := λ w,
  if x509s w <=? 0 then Fault UseAfterFree else Ret ((), set_counts (bios w) (x509s w - 1) (pkeys w) w).
Definition EVP_PKEY_new : M tls () := modify (λ w, set_counts (bios w) (x509s w) (pkeys w + 1) w).
Definition EVP_PKEY_free : M tls () := λ w,
  if pkeys w <=? 0 then Fault UseAfterFree else Ret ((), set_counts (bios w) (x509s w) (pkeys w - 1) w).

(** The settings. *)
Definition with_min_version (v : Z) (c : ssl_context) : ssl_context :=
  mk_context v (verify_mode c) (root_store c) (default_paths c) (certificate c) (private_key c)
    (alpn_protos c) (alpn_callback c).
Definition with_verify (v : Z) (c : ssl_context) : ssl_context :=
  mk_context (min_version c) v (root_store c) (default_paths c) (certificate c) (private_key c)
    (alpn_protos c) (alpn_callback c).
Definition with_root (x : positive) (c : ssl_context) : ssl_context :=
  mk_context (min_version c) (verify_mode c) (root_store c ++ [x]) (default_paths c) (certificate c)
    (private_key c) (alpn_protos c) (alpn_callback c).
Definition with_default_paths (c : ssl_context) : ssl_context :=
  mk_context (min_version c) (verify_mode c) (root_store c) true (certificate c) (private_key c)
    (alpn_protos c) (alpn_callback c).
Definition with_certificate (x : positive) (c : ssl_context) : ssl_context :=
  mk_context (min_version c) (verify_mode c) (root_store c) (default_paths c) (Some x) (private_key c)
    (alpn_protos c) (alpn_callback c).
Definition with_private_key (k : positive) (c : ssl_context) : ssl_context :=
  mk_context (min_version c) (verify_mode c) (root_store c) (default_paths c) (certificate c) (Some k)
    (alpn_protos c) (alpn_callback c).
Definition with_alpn_protos (p : list Z) (c : ssl_context) : ssl_context :=
  mk_context (min_version c) (verify_mode c) (root_store c) (default_paths c) (certificate c)
    (private_key c) (Some p) (alpn_callback c).
Definition with_alpn_callback (c : ssl_context) : ssl_context :=
  mk_context (min_version c) (verify_mode c) (root_store c) (default_paths c) (certificate c)
    (private_key c) (alpn_protos c) true.

Definition grpc_ssl_init : M tls Z :=
  w ← get;
  if ssl_initialized w then mret 0 else
  _ ← modify (set_initialized true);
  mret 0.
Definition grpc_ssl_cleanup : M tls () :=
  w ← get;
  if ssl_initialized w then modify (set_initialized false) else mret ().

Section contexts.
(** The certificates, and the key, that OpenSSL's PEM reader finds in a text. *)
Context (read_certs : list Z → list positive) (read_key : list Z → option positive).

(** [PEM_read_bio_X509] on a new BIO, and [PEM_read_bio_PrivateKey]. *)
Definition first_cert (text : list Z) : M tls (option positive) :=
  match read_certs text with
  | [] => mret None
  | x :: _ => _ ← X509_new; mret (Some x)
  end.
Definition first_key (text : list Z) : M tls (option positive) :=
  match read_key text with
  | None => mret None
  | Some k => _ ← EVP_PKEY_new; mret (Some k)
  end.

(** The loop that adds the certificates of a BIO to the store; a failure to add is ignored. *)
Fixpoint add_roots (ctx : positive) (certs : list positive) : M tls () :=
  match certs with
  | [] => mret ()
  | x :: certs =>
      _ ← X509_new;
      ok ← ssl_call;
      _ ← (if ok : bool then upd_context ctx (with_root x) else mret ());
      _ ← X509_free;
      add_roots ctx certs
  end.

(** [SSL_CTX_use_certificate] and [SSL_CTX_use_PrivateKey]. *)
Definition use_certificate (ctx x : positive) : M tls bool :=
  ok ← ssl_call;
  _ ← (if ok : bool then upd_context ctx (with_certificate x) else mret ());
  mret ok.
Definition use_private_key (ctx k : positive) : M tls bool :=
  ok ← ssl_call;
  _ ← (if ok : bool then upd_context ctx (with_private_key k) else mret ());
  mret ok.

(** "Load client certificate and key if provided": every failure is ignored. *)
Definition load_client_cert (ctx : positive) (text : list Z) : M tls () :=
  bio ← BIO_new;
  if negb bio then mret () else
  cert ← first_cert text;
  _ ← (match cert with
       | Some x => _ ← use_certificate ctx x; X509_free
       | None => mret ()
       end);
  BIO_free.
Definition load_client_key (ctx : positive) (text : list Z) : M tls () :=
  bio ← BIO_new;
  if negb bio then mret () else
  key ← first_key text;
  _ ← (match key with
       | Some k => _ ← use_private_key ctx k; EVP_PKEY_free
       | None => mret ()
       end);
  BIO_free.

(** The root certificates of a client, or the system's; [false] after an error. *)
Definition load_client_roots (ctx : positive) (roots : option (list Z)) : M tls bool :=
  match roots with
  | Some text =>
      bio ← BIO_new;
      if negb bio then mret false else
      _ ← add_roots ctx (read_certs (c_str text));
      _ ← BIO_free;
      mret true
  | None =>
      ok ← ssl_call;
      if negb ok then mret false else
      _ ← upd_context ctx with_default_paths;
      mret true
  end.

Definition grpc_ssl_create_client_context (creds : option grpc_channel_credentials)
    : M tls (option positive) :=
  match creds with
  | None => mret None
  | Some creds =>
      _ ← grpc_ssl_init;
      ctx ← SSL_CTX_new;
      match ctx with
      | None => mret None
      | Some ctx =>
          _ ← upd_context ctx (with_min_version TLS1_2_VERSION);
          loaded ← load_client_roots ctx (cc_root_certs creds);
          if negb loaded then _ ← SSL_CTX_free ctx; mret None else
          _ ← upd_context ctx (with_verify SSL_VERIFY_PEER);
          _ ← (match cc_key_cert_pair creds with
               | Some kc =>
                   _ ← (match cert_chain kc with
                        | Some text => load_client_cert ctx (c_str text)
                        | None => mret ()
                        end);
                   match pem_private_key kc with
                   | Some text => load_client_key ctx (c_str text)
                   | None => mret ()
                   end
               | None => mret ()
               end);
          _ ← upd_context ctx (with_alpn_protos (2 :: h2));
          mret (Some ctx)
      end
  end.

(** The certificate, and the key, of a server; [false] after an error. *)
Definition load_server_cert (ctx : positive) (text : option (list Z)) : M tls bool :=
  match text with
  | None => mret false
  | Some text =>
      bio ← BIO_new;
      if negb bio then mret false else
      cert ← first_cert (c_str text);
      match cert with
      | None => _ ← BIO_free; mret false
      | Some x =>
          ok ← use_certificate ctx x;
          _ ← X509_free;
          _ ← BIO_free;
          mret ok
      end
  end.
Definition load_server_key (ctx : positive) (text : option (list Z)) : M tls bool :=
  match text with
  | None => mret false
  | Some text =>
      bio ← BIO_new;
      if negb bio then mret false else
      key ← first_key (c_str text);
      match key with
      | None => _ ← BIO_free; mret false
      | Some k =>
          ok ← use_private_key ctx k;
          _ ← EVP_PKEY_free;
          _ ← BIO_free;
          mret ok
      end
  end.

(** "Load client CA certificates if provided": without a BIO nothing is done. *)
Definition load_server_roots (ctx : positive) (roots : option (list Z)) : M tls () :=
  match roots with
  | None => mret ()
  | Some text =>
      bio ← BIO_new;
      if negb bio then mret () else
      _ ← add_roots ctx (read_certs (c_str text));
      _ ← BIO_free;
      upd_context ctx (with_verify (Z.lor SSL_VERIFY_PEER SSL_VERIFY_FAIL_IF_NO_PEER_CERT))
  end.

Definition grpc_ssl_create_server_context (creds : option grpc_server_credentials)
    : M tls (option positive) :=
  match creds with
  | None => mret None
  | Some creds =>
      match sc_key_cert_pairs creds with
      | None => mret None
      | Some pairs =>
          if sc_num_pairs creds =? 0 then mret None else
          _ ← grpc_ssl_init;
          ctx ← SSL_CTX_new;
          match ctx with
          | None => mret None
          | Some ctx =>
              _ ← upd_context ctx (with_min_version TLS1_2_VERSION);
              kc ← of_option OutOfBounds (head pairs);
              cert ← load_server_cert ctx (cert_chain kc);
              if negb cert then _ ← SSL_CTX_free ctx; mret None else
              key ← load_server_key ctx (pem_private_key kc);
              if negb key then _ ← SSL_CTX_free ctx; mret None else
              matching ← ssl_call;                 (* SSL_CTX_check_private_key *)
              if negb matching then _ ← SSL_CTX_free ctx; mret None else
              _ ← load_server_roots ctx (sc_root_certs creds);
              _ ← upd_context ctx with_alpn_callback;
              mret (Some ctx)
          end
      end
  end.

Definition grpc_ssl_destroy_context (ctx : option positive) : M tls () :=
  match ctx with Some a => SSL_CTX_free a | None => mret () end.
End contexts.

(** ** Handshakes and traffic *)

Definition set_conn_ssl (s : option positive) (c : http2_connection) : http2_connection :=
  mk_connection (socket_fd c) (ssl_ctx c) s (is_client c) (next_stream_id c) (write_mutex c)
    (streams_mutex c) (streams c) (streams_capacity c) (local_window_size c) (remote_window_size c)
    (max_frame_size c) (max_concurrent_streams c).

(** A connection next to OpenSSL's objects. *)
Abbreviation tls_conn := (http2_connection * tls)%type.
Definition on_tls {A} (m : M tls A) : M tls_conn A := zoom snd (λ w p, (fst p, w)) m.

Definition SSL_new (ctx : positive) : M tls (option positive) := λ w,
  match contexts w !! ctx with
  | None => Fault UseAfterFree
  | Some _ =>
      let r := answer (ssl_answers w) in
      if r.1 then
        Ret (Some (fresh_object w),
             set_ssl_answers r.2 (set_sessions (<[fresh_object w := mk_session ctx (-1) None]> (sessions w))
               (Pos.succ (fresh_object w)) w))
      else Ret (None, set_ssl_answers r.2 w)
  end.
Definition upd_session (s : positive) (f : ssl_session → ssl_session) : M tls () := λ w,
  match sessions w !! s with
  | Some o => Ret ((), set_sessions (<[s := f o]> (sessions w)) (fresh_object w) w)
  | None => Fault UseAfterFree
  end.
Definition SSL_free (s : positive) : M tls () := λ w,
  match sessions w !! s with
  | Some _ => Ret ((), set_sessions (delete s (sessions w)) (fresh_object w) w)
  | None => Fault UseAfterFree
  end.
Definition with_fd (fd : Z) (s : ssl_session) : ssl_session := mk_session (session_ctx s) fd (server_name s).
Definition with_server_name (h : list Z) (s : ssl_session) : ssl_session :=
  mk_session (session_ctx s) (session_fd s) (Some h).

(** [alpn] is the protocol that was negotiated, empty when there is none. *)
Definition grpc_ssl_client_handshake (alpn : list Z) (target_host : option (list Z))
    : M (option tls_conn) Z := nullable (-1) (
  c ← gets fst;
  match ssl_ctx c with
  | None => mret (-1)
  | Some ctx =>
      ssl ← on_tls (SSL_new ctx);
      match ssl with
      | None => mret (-1)
      | Some s =>
          _ ← (match target_host with
               | Some h => on_tls (upd_session s (with_server_name (c_str h)))
               | None => mret ()
               end);
          _ ← on_tls (upd_session s (with_fd (socket_fd c)));
          connected ← on_tls ssl_call;
          if negb connected then _ ← on_tls (SSL_free s); mret (-1) else
          verified ← on_tls ssl_call;
          if negb verified then _ ← on_tls (SSL_free s); mret (-1) else
          if negb (bool_decide (alpn = h2)) then _ ← on_tls (SSL_free s); mret (-1) else
          _ ← modify (λ p, (set_conn_ssl (Some s) (fst p), snd p));
          mret 0
      end
  end).

Definition grpc_ssl_server_handshake : M (option tls_conn) Z := nullable (-1) (
  c ← gets fst;
  match ssl_ctx c with
  | None => mret (-1)
  | Some ctx =>
      ssl ← on_tls (SSL_new ctx);
      match ssl with
      | None => mret (-1)
      | Some s =>
          _ ← on_tls (upd_session s (with_fd (socket_fd c)));
          accepted ← on_tls ssl_call;
          if negb accepted then _ ← on_tls (SSL_free s); mret (-1) else
          _ ← modify (λ p, (set_conn_ssl (Some s) (fst p), snd p));
          mret 0
      end
  end).

Definition SSL_ERROR_WANT_READ : Z := 2.
Definition SSL_ERROR_WANT_WRITE : Z := 3.

(** What is made of the result [ret] of [SSL_read] or [SSL_write], and of [SSL_get_error]. *)
Definition transferred (ret err : Z) : Z :=
  if ret <=? 0 then
    if (err =? SSL_ERROR_WANT_READ) || (err =? SSL_ERROR_WANT_WRITE) then 0 else -1
  else ret.

Section traffic.
(** The results of [SSL_read] and [SSL_get_error], and of [SSL_write], for the [int] the length
    is converted to. *)
Context (ssl_io : positive → Z → Z * Z).

Definition grpc_ssl_read (conn : option http2_connection) (len : Z) : Z :=
  match conn ≫= ssl with
  | None => -1
  | Some s => transferred (ssl_io s (i32 len)).1 (ssl_io s (i32 len)).2
  end.
Definition grpc_ssl_write (conn : option http2_connection) (len : Z) : Z :=
  match conn ≫= ssl with
  | None => -1
  | Some s => transferred (ssl_io s (i32 len)).1 (ssl_io s (i32 len)).2
  end.
End traffic.

Definition grpc_ssl_shutdown : M (option tls_conn) () := nullable () (
  c ← gets fst;
  match ssl c with
  | None => mret ()
  | Some s =>
      _ ← on_tls (SSL_free s);
      modify (λ p, (set_conn_ssl None (fst p), snd p))
  end).

(** ** The negotiation selects HTTP/2 *)

(** The protocol names of a list with length bytes, up to the first that is cut short. *)
Fixpoint protocols (n : nat) (bs : list Z) : list (list Z) :=
  match n, bs with
  | S n, len :: rest =>
      if zlen rest <? len then []
      else take (Z.to_nat len) rest :: protocols n (drop (Z.to_nat len) rest)
  | _, _ => []
  end.
Definition encode_protocols (names : list (list Z)) : list Z := concat (map (λ p, zlen p :: p) names).

(** Where the name ["h2"] starts. *)
Fixpoint h2_position (names : list (list Z)) (i : Z) : option Z :=
  match names with
  | [] => None
  | p :: names => if bool_decide (p = h2) then Some (i + 1) else h2_position names (i + 1 + zlen p)
  end.

Lemma protocols_encode names n :
  (length (encode_protocols names) ≤ n)%nat → protocols n (encode_protocols names) = names.
Proof.
  revert n. induction names as [|p names IH]; intros n Hn; [by destruct n|].
  unfold encode_protocols in *. cbn [map concat app] in *. rewrite length_cons, length_app in Hn.
  destruct n as [|n]; [lia|]. cbn [protocols]. rewrite length_app.
  destruct (Z.ltb_spec (Z.of_nat (length p + length (concat (map (λ p, zlen p :: p) names)))) (zlen p)); [lia|].
  rewrite Nat2Z.id, take_app_length, drop_app_length. f_equal. apply IH. lia.
Qed.

Lemma h2_position_Some names i : h2_position names i ≠ None ↔ h2 ∈ names.
Proof.
  revert i. induction names as [|p names IH]; intros i; cbn [h2_position].
  { split; [done|by intros ?%elem_of_nil]. }
  case_bool_decide as E; [subst; split; [by left|done]|].
  rewrite IH, elem_of_cons. naive_solver.
Qed.

(** Any fuel that covers the bytes is enough. *)
Lemma protocols_fuel n m bs :
  (length bs ≤ n)%nat → (length bs ≤ m)%nat → protocols n bs = protocols m bs.
Proof.
  revert m bs. induction n as [|n IH]; intros [|m] [|len rest] Hn Hm; cbn [length protocols] in *; try done; try lia.
  destruct (zlen rest <? len); [done|]. f_equal. apply IH; rewrite length_drop; lia.
Qed.

(** One pass of the loop for a byte [len] at position [i]. *)
Lemma alpn_loop_run n pre rest i inlen :
  i = zlen pre → inlen = zlen (pre ++ rest) → bytes_ok (pre ++ rest) → inlen < 2 ^ 32 - 256 →
  (length rest < n)%nat →
  alpn_loop n (pre ++ rest) inlen i = Ret (h2_position (protocols (length rest) rest) i).
Proof.
  revert pre rest i. induction n as [|n IH]; intros pre rest i Hi Hl Hb Hsz Hn; [lia|].
  destruct rest as [|len rest]; cbn [alpn_loop].
  { rewrite app_nil_r in Hl. by destruct (Z.ltb_spec i inlen); [lia|]. }
  rewrite length_app in Hl. cbn [length] in Hl, Hn. destruct (Z.ltb_spec i inlen); [|lia].
  assert (0 ≤ len < 256) as Hlen by (apply Forall_app in Hb as [_ [? _]%Forall_cons]; done).
  rewrite (outcome_bind_Ret _ _ _ (load_app pre len rest i Hi)).
  rewrite (u32_small (i + 1)), (u32_small (i + 1 + len)), (u32_small (i + (1 + len))) by lia.
  cbn [protocols length]. destruct (Z.ltb_spec inlen (i + 1 + len)), (Z.ltb_spec (zlen rest) len); try lia.
  { done. }
  cbn [h2_position].
  assert ((if len =? 2 then memcmp_h2 (pre ++ len :: rest) (i + 1) else Ret false) =
    Ret (bool_decide (take (Z.to_nat len) rest = h2))) as ->.
  { destruct (Z.eqb_spec len 2) as [->|Hne].
    - unfold memcmp_h2. replace (pre ++ 2 :: rest) with ((pre ++ [2]) ++ rest) by (by rewrite <- app_assoc).
      rewrite (outcome_bind_Ret _ _ _ (offset_app (pre ++ [2]) rest (i + 1) ltac:(rewrite length_app; cbn; lia))).
      unfold read_bytes. by destruct (Z.ltb_spec 2 0), (Z.ltb_spec (zlen rest) 2); try lia.
    - rewrite bool_decide_false; [done|]. intros E. apply (f_equal length) in E.
      rewrite length_take in E. cbn in E. lia. }
  cbn [mbind outcome_bind]. case_bool_decide as E; [done|].
  replace (pre ++ len :: rest) with ((pre ++ len :: take (Z.to_nat len) rest) ++ drop (Z.to_nat len) rest)
    by (rewrite <- app_assoc; cbn; by rewrite take_drop).
  assert (zlen (take (Z.to_nat len) rest) = len) as Htk by (rewrite length_take; lia).
  rewrite (IH (pre ++ len :: take (Z.to_nat len) rest) (drop (Z.to_nat len) rest)).
  - rewrite Htk. f_equal. replace (i + (1 + len)) with (i + 1 + len) by lia.
    by rewrite (protocols_fuel (length (drop (Z.to_nat len) rest)) (length rest))
      by (rewrite ?length_drop; lia).
  - rewrite length_app. cbn [length]. lia.
  - rewrite !length_app, length_drop. cbn [length]. lia.
  - rewrite <- app_assoc. cbn. by rewrite take_drop.
  - done.
  - rewrite length_drop. lia.
Qed.

(** C36. The ALPN callback on arbitrary bytes reads nothing outside them and is equivalent to
    looking for the name h2 in the list of names they encode: it selects the first h2, and
    accepts a well-formed list exactly when h2 is in it. *)
Theorem alpn_selects_h2 input :
  bytes_ok input → zlen input < 2 ^ 32 - 256 →
  grpc_ssl_alpn_select_cb_internal input (zlen input) =
    Ret (match h2_position (protocols (length input) input) 0 with
         | Some i => (SSL_TLSEXT_ERR_OK, Some (i, 2))
         | None => (SSL_TLSEXT_ERR_NOACK, None)
         end) ∧
  ∀ names, input = encode_protocols names →
    ((∃ i, grpc_ssl_alpn_select_cb_internal input (zlen input) = Ret (SSL_TLSEXT_ERR_OK, Some (i, 2))) ↔
     h2 ∈ names).
Proof.
  intros Hb Hsz. assert (grpc_ssl_alpn_select_cb_internal input (zlen input) =
    Ret (match h2_position (protocols (length input) input) 0 with
         | Some i => (SSL_TLSEXT_ERR_OK, Some (i, 2))
         | None => (SSL_TLSEXT_ERR_NOACK, None)
         end)) as E.
  { unfold grpc_ssl_alpn_select_cb_internal.
    by rewrite (outcome_bind_Ret _ _ _ (alpn_loop_run (S (Z.to_nat (zlen input))) [] input 0 (zlen input) eq_refl eq_refl Hb Hsz ltac:(lia))). }
  split; [exact E|]. intros names ->. rewrite E, protocols_encode by done.
  rewrite <- (h2_position_Some names 0). destruct (h2_position names 0) as [i|]; [|by split; [intros [? ?]|]].
  split; [done|]. intros _. by exists i.
Qed.

(** ** Contexts are configured or freed *)

(** What loading certificates and keys does not touch, the trusted certificates, and the
    identity of the program. *)
Definition settings (x : ssl_context) : Z * Z * option (list Z) * bool :=
  (min_version x, verify_mode x, alpn_protos x, alpn_callback x).
Definition trust (x : ssl_context) : list positive * bool := (root_store x, default_paths x).
Definition identity (x : ssl_context) : option positive * option positive := (certificate x, private_key x).

(** The answers used up are a part of the coming ones. *)
Definition fewer_answers (w w' : tls) : Prop := ∀ b, b ∈ ssl_answers w' → b ∈ ssl_answers w.

(** [w'] is [w] with the context [a] changed from [x] to [x'], and [db], [dx] and [dk] more
    BIOs, certificates and keys held. *)
Record edited (db dx dk : Z) (a : positive) (w w' : tls) (x x' : ssl_context) : Prop := {
  ed_contexts : contexts w !! a = Some x ∧ contexts w' = <[a := x']> (contexts w);
  ed_bios : bios w' = bios w + db;
  ed_x509s : x509s w' = x509s w + dx;
  ed_pkeys : pkeys w' = pkeys w + dk;
  ed_rest : sessions w' = sessions w ∧ fresh_object w' = fresh_object w ∧
    ssl_initialized w' = ssl_initialized w;
  ed_answers : fewer_answers w w'
}.

Record refs_ok (w : tls) : Prop := {
  ro_bios : 0 ≤ bios w;
  ro_x509s : 0 ≤ x509s w;
  ro_pkeys : 0 ≤ pkeys w;
  ro_contexts : ∀ a, is_Some (contexts w !! a) → (a < fresh_object w)%positive;
  ro_sessions : ∀ a, is_Some (sessions w !! a) → (a < fresh_object w)%positive
}.

Lemma edited_trans b1 c1 k1 b2 c2 k2 a w1 w2 w3 x1 x2 x3 :
  edited b1 c1 k1 a w1 w2 x1 x2 → edited b2 c2 k2 a w2 w3 x2 x3 →
  edited (b1 + b2) (c1 + c2) (k1 + k2) a w1 w3 x1 x3.
Proof.
  intros [[H0 H1] H2 H3 H4 (H5 & H6 & H7) H8] [[G0 G1] G2 G3 G4 (G5 & G6 & G7) G8].
  split; [|lia|lia|lia|by rewrite G5, G6, G7|by intros b ?%G8%H8].
  split; [done|]. by rewrite G1, H1, insert_insert_eq.
Qed.

Lemma edited_lookup b c k a w w' x x' : edited b c k a w w' x x' → contexts w' !! a = Some x'.
Proof. intros [[_ ->] _ _ _ _ _]. apply lookup_insert_eq. Qed.

(** Steps that leave the context alone: it is rewritten with itself. *)
Lemma edited_same b c k a w w' x :
  contexts w !! a = Some x → contexts w' = contexts w → bios w' = bios w + b → x509s w' = x509s w + c →
  pkeys w' = pkeys w + k → sessions w' = sessions w → fresh_object w' = fresh_object w →
  ssl_initialized w' = ssl_initialized w → fewer_answers w w' → edited b c k a w w' x x.
Proof. intros Hx Hc. split; try done. by rewrite insert_id, Hc. Qed.

Lemma edited_refl a w x : contexts w !! a = Some x → edited 0 0 0 a w w x x.
Proof. intros H. apply edited_same; try done; try lia. by intros b. Qed.

Lemma upd_context_run a f w x :
  contexts w !! a = Some x → ∃ w', upd_context a f w = Ret ((), w') ∧ edited 0 0 0 a w w' x (f x).
Proof.
  intros H. unfold upd_context. rewrite H. eexists. split; [done|].
  split; [done|cbn; lia..|done|by intros b].
Qed.

Lemma answer_In al : (∀ b, b ∈ (answer al).2 → b ∈ al) ∧ ((answer al).1 = false → false ∈ al).
Proof. destruct al as [|b al]; cbn; [done|]. split; [by right|intros ->; by left]. Qed.

Lemma ssl_call_run a w x :
  contexts w !! a = Some x →
  ∃ b w', ssl_call w = Ret (b, w') ∧ edited 0 0 0 a w w' x x ∧ (b = false → false ∈ ssl_answers w).
Proof.
  intros Hx. do 2 eexists. split; [done|]. destruct (answer_In (ssl_answers w)) as [H1 H2].
  split; [|done]. by apply edited_same; try (cbn; lia).
Qed.

Lemma BIO_new_run a w x :
  contexts w !! a = Some x →
  ∃ (b : bool) w', BIO_new w = Ret (b, w') ∧ edited (if b then 1 else 0) 0 0 a w w' x x ∧
    (b = false → false ∈ ssl_answers w).
Proof.
  intros Hx. destruct (answer_In (ssl_answers w)) as [H1 H2]. unfold BIO_new.
  rewrite (M_bind_Ret ssl_call _ w _ _ eq_refl). destruct (answer (ssl_answers w)).1 eqn:E; cbn [negb].
  - exists true. eexists. split; [done|]. split; [|done]. by apply edited_same; try (cbn; lia).
  - exists false. eexists. split; [done|]. split; [|by auto]. by apply edited_same; try (cbn; lia).
Qed.
Lemma BIO_free_run a w x :
  contexts w !! a = Some x → 0 < bios w → ∃ w', BIO_free w = Ret ((), w') ∧ edited (-1) 0 0 a w w' x x.
Proof.
  intros Hx Hb. unfold BIO_free. destruct (Z.leb_spec (bios w) 0); [lia|]. eexists. split; [done|].
  apply edited_same; try done; try (cbn; lia). by intros b.
Qed.
Lemma X509_new_run a w x : contexts w !! a = Some x → ∃ w', X509_new w = Ret ((), w') ∧ edited 0 1 0 a w w' x x.
Proof.
  intros Hx. eexists. split; [done|]. apply edited_same; try done; try (cbn; lia). by intros b.
Qed.
Lemma X509_free_run a w x :
  contexts w !! a = Some x → 0 < x509s w → ∃ w', X509_free w = Ret ((), w') ∧ edited 0 (-1) 0 a w w' x x.
Proof.
  intros Hx Hb. unfold X509_free. destruct (Z.leb_spec (x509s w) 0); [lia|]. eexists. split; [done|].
  apply edited_same; try done; try (cbn; lia). by intros b.
Qed.
Lemma EVP_PKEY_new_run a w x :
  contexts w !! a = Some x → ∃ w', EVP_PKEY_new w = Ret ((), w') ∧ edited 0 0 1 a w w' x x.
Proof.
  intros Hx. eexists. split; [done|]. apply edited_same; try done; try (cbn; lia). by intros b.
Qed.
Lemma EVP_PKEY_free_run a w x :
  contexts w !! a = Some x → 0 < pkeys w → ∃ w', EVP_PKEY_free w = Ret ((), w') ∧ edited 0 0 (-1) a w w' x x.
Proof.
  intros Hx Hb. unfold EVP_PKEY_free. destruct (Z.leb_spec (pkeys w) 0); [lia|]. eexists. split; [done|].
  apply edited_same; try done; try (cbn; lia). by intros b.
Qed.

Lemma edited_eq b c k b' c' k' a w w' x x' :
  edited b c k a w w' x x' → b' = b → c' = c → k' = k → edited b' c' k' a w w' x x'.
Proof. by intros ? -> -> ->. Qed.

(** [H : edited .. w0 w x0 x] describes the run so far.  [tls_step H lem] runs the next step by
    its lemma and adds its effect to [H]; [tls_free] does so for a step that needs something held;
    [tls_call H lem b Hf] for a step with the answer [b].  [tls_done H] closes the account. *)
Ltac tls_side H :=
  let H1 := fresh in let H2 := fresh in let H3 := fresh in
  pose proof (ed_bios _ _ _ _ _ _ _ _ H) as H1; pose proof (ed_x509s _ _ _ _ _ _ _ _ H) as H2;
  pose proof (ed_pkeys _ _ _ _ _ _ _ _ H) as H3; lia.
Ltac tls_add H H' :=
  let G := fresh in
  pose proof (edited_trans _ _ _ _ _ _ _ _ _ _ _ _ _ H H') as G; clear H H'; rename G into H.
Ltac tls_step H lem :=
  let w' := fresh "w" in let E := fresh in let H' := fresh in
  destruct (lem _ _ (edited_lookup _ _ _ _ _ _ _ _ H)) as (w' & E & H');
  mstep E; clear E; tls_add H H'.
Ltac tls_free H lem :=
  let w' := fresh "w" in let E := fresh in let H' := fresh in
  destruct (lem _ _ (edited_lookup _ _ _ _ _ _ _ _ H) ltac:(tls_side H)) as (w' & E & H');
  try mstep E; try rewrite E; clear E; tls_add H H'.
Ltac tls_call H lem b Hf :=
  let w' := fresh "w" in let E := fresh in let H' := fresh in let G := fresh in
  destruct (lem _ _ (edited_lookup _ _ _ _ _ _ _ _ H)) as (b & w' & E & H' & G);
  mstep E; clear E;
  pose proof (λ e, ed_answers _ _ _ _ _ _ _ _ H _ (G e)) as Hf; clear G; tls_add H H'.
Ltac tls_done H := eapply edited_eq; [exact H|lia..].

Lemma use_certificate_run a c w x :
  contexts w !! a = Some x →
  ∃ (b : bool) w', use_certificate a c w = Ret (b, w') ∧
    edited 0 0 0 a w w' x (if b then with_certificate c x else x) ∧ (b = false → false ∈ ssl_answers w).
Proof.
  intros Hx. unfold use_certificate. destruct (ssl_call_run a w x Hx) as (b & w1 & E & H & Hf).
  mstep E. destruct b.
  - destruct (upd_context_run a (with_certificate c) w1 x (edited_lookup _ _ _ _ _ _ _ _ H)) as (w2 & E2 & H2).
    mstep E2. exists true, w2. split; [done|]. split; [|done].
    exact (edited_trans _ _ _ _ _ _ _ _ _ _ _ _ _ H H2).
  - by exists false, w1.
Qed.
Lemma use_private_key_run a k w x :
  contexts w !! a = Some x →
  ∃ (b : bool) w', use_private_key a k w = Ret (b, w') ∧
    edited 0 0 0 a w w' x (if b then with_private_key k x else x) ∧ (b = false → false ∈ ssl_answers w).
Proof.
  intros Hx. unfold use_private_key. destruct (ssl_call_run a w x Hx) as (b & w1 & E & H & Hf).
  mstep E. destruct b.
  - destruct (upd_context_run a (with_private_key k) w1 x (edited_lookup _ _ _ _ _ _ _ _ H)) as (w2 & E2 & H2).
    mstep E2. exists true, w2. split; [done|]. split; [|done].
    exact (edited_trans _ _ _ _ _ _ _ _ _ _ _ _ _ H H2).
  - by exists false, w1.
Qed.


(** The other steps of the loaders. *)
Section loaders.
Context (read_certs : list Z → list positive) (read_key : list Z → option positive).

Definition with_roots (rs : list positive) (x : ssl_context) : ssl_context :=
  mk_context (min_version x) (verify_mode x) (root_store x ++ rs) (default_paths x) (certificate x)
    (private_key x) (alpn_protos x) (alpn_callback x).

Lemma with_roots_nil x : with_roots [] x = x.
Proof. destruct x. unfold with_roots. cbn. by rewrite app_nil_r. Qed.

Lemma add_roots_run a certs w x :
  contexts w !! a = Some x → 0 ≤ x509s w →
  ∃ w' rs, add_roots a certs w = Ret ((), w') ∧ edited 0 0 0 a w w' x (with_roots rs x) ∧
    rs `sublist_of` certs.
Proof.
  revert w x. induction certs as [|c certs IH]; intros w x Hx Hn; cbn [add_roots].
  { exists w, []. split; [done|]. rewrite with_roots_nil. split; [by apply edited_refl|done]. }
  pose proof (edited_refl a w x Hx) as H. tls_step H (X509_new_run a). tls_call H (ssl_call_run a) b Hf.
  assert (∃ w2 rs, (if b then upd_context a (with_root c) else mret ()) w1 = Ret ((), w2) ∧
    edited 0 0 0 a w1 w2 x (with_roots rs x) ∧ rs `sublist_of` [c]) as (w2 & rs & E & H2 & Hrs).
  { destruct b.
    - destruct (upd_context_run a (with_root c) w1 x (edited_lookup _ _ _ _ _ _ _ _ H)) as (w2 & E & H2).
      by exists w2, [c].
    - exists w1, []. split; [done|]. rewrite with_roots_nil. split; [|apply sublist_nil_l].
      by apply edited_refl, (edited_lookup _ _ _ _ _ _ _ _ H). }
  mstep E. tls_add H H2. tls_free H (X509_free_run a).
  destruct (IH _ _ (edited_lookup _ _ _ _ _ _ _ _ H) ltac:(tls_side H)) as (w4 & rs' & E' & H' & Hrs').
  rewrite E'. tls_add H H'. exists w4, (rs ++ rs'). split; [done|]. split.
  - assert (with_roots rs' (with_roots rs x) = with_roots (rs ++ rs') x) as <-
      by (unfold with_roots; cbn; by rewrite app_assoc). tls_done H.
  - exact (sublist_app rs [c] rs' certs Hrs Hrs').
Qed.

(** The loaders leave the references as they were. *)
Lemma load_client_cert_run a text w x :
  contexts w !! a = Some x → refs_ok w →
  ∃ w' x', load_client_cert read_certs a text w = Ret ((), w') ∧ edited 0 0 0 a w w' x x' ∧
    settings x' = settings x ∧ trust x' = trust x.
Proof.
  intros Hx [Hb Hc Hk _ _]. unfold load_client_cert.
  pose proof (edited_refl a w x Hx) as H. tls_call H (BIO_new_run a) bio Hf.
  destruct bio; cbn [negb]; [|exists w0, x; split; [done|]; split; [tls_done H|done]].
  unfold first_cert. destruct (read_certs text) as [|c certs].
  - rewrite M_bind_mret, M_bind_mret. tls_free H (BIO_free_run a). do 2 eexists. split; [done|].
    split; [tls_done H|done].
  - rewrite M_bind_assoc. tls_step H (X509_new_run a). rewrite M_bind_mret, M_bind_assoc.
    tls_call H (use_certificate_run a c) b Hb'. tls_free H (X509_free_run a). tls_free H (BIO_free_run a).
    do 2 eexists. split; [done|]. split; [tls_done H|by destruct b].
Qed.

Lemma load_client_key_run a text w x :
  contexts w !! a = Some x → refs_ok w →
  ∃ w' x', load_client_key read_key a text w = Ret ((), w') ∧ edited 0 0 0 a w w' x x' ∧
    settings x' = settings x ∧ trust x' = trust x.
Proof.
  intros Hx [Hb Hc Hk _ _]. unfold load_client_key.
  pose proof (edited_refl a w x Hx) as H. tls_call H (BIO_new_run a) bio Hf.
  destruct bio; cbn [negb]; [|exists w0, x; split; [done|]; split; [tls_done H|done]].
  unfold first_key. destruct (read_key text) as [k|].
  - rewrite M_bind_assoc. tls_step H (EVP_PKEY_new_run a). rewrite M_bind_mret, M_bind_assoc.
    tls_call H (use_private_key_run a k) b Hb'. tls_free H (EVP_PKEY_free_run a). tls_free H (BIO_free_run a).
    do 2 eexists. split; [done|]. split; [tls_done H|by destruct b].
  - rewrite M_bind_mret, M_bind_mret. tls_free H (BIO_free_run a). do 2 eexists. split; [done|].
    split; [tls_done H|done].
Qed.

(** The trusted certificates of a client: those of its credentials, or the system's. *)
Definition client_trust (roots : option (list Z)) (x x' : ssl_context) : Prop :=
  match roots with
  | Some text => ∃ rs, root_store x' = root_store x ++ rs ∧ rs `sublist_of` read_certs (c_str text)
  | None => default_paths x' = true
  end.

Lemma load_client_roots_run a roots w x :
  contexts w !! a = Some x → refs_ok w →
  ∃ (b : bool) w' x', load_client_roots read_certs a roots w = Ret (b, w') ∧ edited 0 0 0 a w w' x x' ∧
    settings x' = settings x ∧ (b = true → client_trust roots x x').
Proof.
  intros Hx [Hb Hc Hk _ _]. unfold load_client_roots, client_trust.
  pose proof (edited_refl a w x Hx) as H. destruct roots as [text|].
  - tls_call H (BIO_new_run a) bio Hf.
    destruct bio; cbn [negb]; [|exists false, w0, x; split; [done|]; split; [tls_done H|done]].
    destruct (add_roots_run a (read_certs (c_str text)) w0 x (edited_lookup _ _ _ _ _ _ _ _ H) ltac:(tls_side H))
      as (w1 & rs & E & H' & Hrs).
    mstep E. tls_add H H'. tls_free H (BIO_free_run a).
    do 3 eexists. split; [done|]. split; [tls_done H|]. split; [done|]. intros _. by exists rs.
  - tls_call H (ssl_call_run a) b Hf.
    destruct b; cbn [negb]; [|exists false, w0, x; split; [done|]; split; [tls_done H|done]].
    tls_step H (upd_context_run a with_default_paths). do 3 eexists. split; [done|].
    split; [tls_done H|done].
Qed.

(** A certificate of the chain, and the key, are in the context of a server. *)
Lemma load_server_cert_run a text w x :
  contexts w !! a = Some x → refs_ok w →
  ∃ (b : bool) w' x', load_server_cert read_certs a text w = Ret (b, w') ∧ edited 0 0 0 a w w' x x' ∧
    settings x' = settings x ∧ private_key x' = private_key x ∧
    (b = true → ∃ chain c, text = Some chain ∧ head (read_certs (c_str chain)) = Some c ∧ certificate x' = Some c).
Proof.
  intros Hx [Hb Hc Hk _ _]. unfold load_server_cert.
  pose proof (edited_refl a w x Hx) as H.
  destruct text as [chain|]; [|exists false, w, x; split; [done|]; split; [tls_done H|done]].
  tls_call H (BIO_new_run a) bio Hf.
  destruct bio; cbn [negb]; [|exists false, w0, x; split; [done|]; split; [tls_done H|done]].
  unfold first_cert. destruct (read_certs (c_str chain)) as [|c certs] eqn:Ec.
  - rewrite M_bind_mret. tls_free H (BIO_free_run a). do 3 eexists. split; [done|]. by split; [tls_done H|].
  - rewrite M_bind_assoc. tls_step H (X509_new_run a). rewrite M_bind_mret.
    tls_call H (use_certificate_run a c) b Hb'. tls_free H (X509_free_run a). tls_free H (BIO_free_run a).
    exists b. do 2 eexists. split; [done|]. split; [tls_done H|]. destruct b; (split; [done|]); (split; [done|]);
      [|done]. intros _. exists chain, c. by rewrite Ec.
Qed.

Lemma load_server_key_run a text w x :
  contexts w !! a = Some x → refs_ok w →
  ∃ (b : bool) w' x', load_server_key read_key a text w = Ret (b, w') ∧ edited 0 0 0 a w w' x x' ∧
    settings x' = settings x ∧ certificate x' = certificate x ∧
    (b = true → ∃ pem k, text = Some pem ∧ read_key (c_str pem) = Some k ∧ private_key x' = Some k).
Proof.
  intros Hx [Hb Hc Hk _ _]. unfold load_server_key.
  pose proof (edited_refl a w x Hx) as H.
  destruct text as [pem|]; [|exists false, w, x; split; [done|]; split; [tls_done H|done]].
  tls_call H (BIO_new_run a) bio Hf.
  destruct bio; cbn [negb]; [|exists false, w0, x; split; [done|]; split; [tls_done H|done]].
  unfold first_key. destruct (read_key (c_str pem)) as [k|] eqn:Ek.
  - rewrite M_bind_assoc. tls_step H (EVP_PKEY_new_run a). rewrite M_bind_mret.
    tls_call H (use_private_key_run a k) b Hb'. tls_free H (EVP_PKEY_free_run a). tls_free H (BIO_free_run a).
    exists b. do 2 eexists. split; [done|]. split; [tls_done H|]. destruct b; (split; [done|]); (split; [done|]);
      [|done]. intros _. exists pem, k. by rewrite Ek.
  - rewrite M_bind_mret. tls_free H (BIO_free_run a). do 3 eexists. split; [done|]. by split; [tls_done H|].
Qed.

(** Clients are verified when the server has root certificates to do so and a BIO for them. *)
Lemma load_server_roots_run a roots w x :
  contexts w !! a = Some x → refs_ok w →
  ∃ w' x', load_server_roots read_certs a roots w = Ret ((), w') ∧ edited 0 0 0 a w w' x x' ∧
    min_version x' = min_version x ∧ identity x' = identity x ∧
    (verify_mode x' = 3 ∧ is_Some roots ∨
     verify_mode x' = verify_mode x ∧ (roots = None ∨ false ∈ ssl_answers w)).
Proof.
  intros Hx [Hb Hc Hk _ _]. unfold load_server_roots.
  pose proof (edited_refl a w x Hx) as H.
  destruct roots as [text|]; [|exists w, x; split; [done|]; split; [tls_done H|]; do 2 (split; [done|]); right; auto].
  tls_call H (BIO_new_run a) bio Hf.
  destruct bio; cbn [negb]; [|exists w0, x; split; [done|]; split; [tls_done H|]; do 2 (split; [done|]); right; auto].
  destruct (add_roots_run a (read_certs (c_str text)) w0 x (edited_lookup _ _ _ _ _ _ _ _ H) ltac:(tls_side H))
    as (w1 & rs & E & H' & _).
  mstep E. tls_add H H'. tls_free H (BIO_free_run a).
  destruct (upd_context_run a (with_verify 3) _ _ (edited_lookup _ _ _ _ _ _ _ _ H)) as (w3 & E3 & H3).
  exists w3. eexists. split; [exact E3|]. tls_add H H3. split; [tls_done H|]. split; [done|]. split; [done|].
  left. by split.
Qed.
End loaders.

(** The certificates, keys and BIOs held, and the sessions, are as before. *)
Definition same_refs (w w' : tls) : Prop :=
  bios w' = bios w ∧ x509s w' = x509s w ∧ pkeys w' = pkeys w ∧ sessions w' = sessions w.

(** What a function that creates a context does: a new context that [P] holds of, or none. *)
Definition context_made (P : ssl_context → Prop) (w w' : tls) (r : option positive) : Prop :=
  same_refs w w' ∧
  match r with
  | None => contexts w' = contexts w
  | Some a => contexts w !! a = None ∧ ∃ x, contexts w' = <[a := x]> (contexts w) ∧ P x
  end.

Lemma ssl_init_run w : grpc_ssl_init w = Ret (0, set_initialized true w).
Proof. unfold grpc_ssl_init, get, mbind, M_bind. destruct w as [[] ? ? ? ? ? ? ?]; done. Qed.

(** [w1] is [w] with a new context [a]. *)
Definition context_new (w w1 : tls) (a : positive) : Prop :=
  refs_ok w1 ∧ same_refs w w1 ∧ contexts w !! a = None ∧ contexts w1 = <[a := new_context]> (contexts w) ∧
  fewer_answers w w1.

Lemma SSL_CTX_new_run w :
  refs_ok w →
  ∃ r w1, SSL_CTX_new (set_initialized true w) = Ret (r, w1) ∧
    match r with
    | None => same_refs w w1 ∧ contexts w1 = contexts w
    | Some a => context_new w w1 a
    end.
Proof.
  intros [Hb Hx Hk Hc Hs]. unfold SSL_CTX_new. set (w0 := set_initialized true w).
  rewrite (M_bind_Ret ssl_call _ w0 _ _ eq_refl). destruct (answer_In (ssl_answers w0)) as [H1 _].
  destruct (answer (ssl_answers w0)).1; cbn [negb]; [|by do 2 eexists].
  do 2 eexists. split; [done|]. split; [|split; [done|split; [|split; [done|done]]]].
  - split; try done; cbn.
    + intros b. rewrite lookup_insert_is_Some. intros [<-|[_ H%Hc]]; lia.
    + intros b H%Hs. lia.
  - apply eq_None_not_Some. intros H%Hc. cbn in H. lia.
Qed.

(** The exits with an error, and with a context. *)
Lemma context_dropped (P : ssl_context → Prop) w w1 w2 a x x' :
  context_new w w1 a → edited 0 0 0 a w1 w2 x x' →
  ∃ w3, (_ ← SSL_CTX_free a; mret (@None positive)) w2 = Ret (None, w3) ∧ context_made P w w3 None.
Proof.
  intros (Hok & (H1 & H2 & H3 & H4) & Hnew & Hc & _) H. pose proof (edited_lookup _ _ _ _ _ _ _ _ H) as Hl.
  destruct H as [[_ E] G1 G2 G3 (G4 & _) _].
  unfold SSL_CTX_free, mbind, M_bind. rewrite Hl. eexists. split; [done|].
  split; [split_and!; cbn; try lia; congruence|]. cbn.
  by rewrite E, delete_insert_eq, Hc, delete_insert_id.
Qed.
Ltac tls_drop H Hr P :=
  let K := fresh in let E := fresh in let Hd := fresh in
  pose proof (λ w2 x x', context_dropped P _ _ w2 _ x x' Hr) as K;
  edestruct K as (? & E & Hd); [tls_done H|];
  eexists None, _; split; [exact E|exact Hd].

Lemma context_kept (P : ssl_context → Prop) w w1 w2 a x x' :
  context_new w w1 a → edited 0 0 0 a w1 w2 x x' → P x' → context_made P w w2 (Some a).
Proof.
  intros (Hok & (H1 & H2 & H3 & H4) & Hnew & Hc & _) [[_ E] G1 G2 G3 (G4 & _) _] HP.
  split; [split_and!; try lia; congruence|]. split; [done|]. exists x'. split; [|done].
  by rewrite E, Hc, insert_insert_eq.
Qed.

Lemma edited_refs_ok a w w' x x' : edited 0 0 0 a w w' x x' → refs_ok w → refs_ok w'.
Proof.
  intros [[Hx E] H1 H2 H3 (H4 & H5 & _) _] [? ? ? Hc Hs]. split; rewrite ?H4, ?H5, ?E; try lia; [|done].
  intros b. rewrite lookup_insert_is_Some. intros [<-|[_ Hb]]; apply Hc; [by eexists|done].
Qed.

Section created.
Context (read_certs : list Z → list positive) (read_key : list Z → option positive).

(** What the code means a client's context to be. *)
Definition client_context (creds : grpc_channel_credentials) (x : ssl_context) : Prop :=
  min_version x = TLS1_2_VERSION ∧ verify_mode x = SSL_VERIFY_PEER ∧ alpn_protos x = Some (2 :: h2) ∧
  client_trust read_certs (cc_root_certs creds) new_context x.

(** ... and a server's: its certificate and its key, HTTP/2, and the verification of clients when
    there are certificates to verify them with. *)
Definition server_context (creds : grpc_server_credentials) (al : allocs) (x : ssl_context) : Prop :=
  min_version x = TLS1_2_VERSION ∧ alpn_callback x = true ∧
  (∃ kc pairs chain pem c k, sc_key_cert_pairs creds = Some (kc :: pairs) ∧
    cert_chain kc = Some chain ∧ head (read_certs (c_str chain)) = Some c ∧ certificate x = Some c ∧
    pem_private_key kc = Some pem ∧ read_key (c_str pem) = Some k ∧ private_key x = Some k) ∧
  (verify_mode x = 3 ∧ is_Some (sc_root_certs creds) ∨
   verify_mode x = SSL_VERIFY_NONE ∧ (sc_root_certs creds = None ∨ false ∈ al)).

(** The step that loads the client's own certificate and key. *)
Lemma load_client_pair_run a (p : option grpc_ssl_pem_key_cert_pair) w x :
  contexts w !! a = Some x → refs_ok w →
  ∃ w' x', (match p with
       | Some kc =>
           _ ← (match cert_chain kc with
                | Some text => load_client_cert read_certs a (c_str text)
                | None => mret ()
                end);
           match pem_private_key kc with
           | Some text => load_client_key read_key a (c_str text)
           | None => mret ()
           end
       | None => mret ()
       end) w = Ret ((), w') ∧ edited 0 0 0 a w w' x x' ∧ settings x' = settings x ∧ trust x' = trust x.
Proof.
  intros Hx Hok. destruct p as [kc|]; [|exists w, x; by split_and!; [|apply edited_refl|..]].
  assert (∃ w1 x1, (match cert_chain kc with
    | Some text => load_client_cert read_certs a (c_str text) | None => mret () end) w = Ret ((), w1) ∧
    edited 0 0 0 a w w1 x x1 ∧ settings x1 = settings x ∧ trust x1 = trust x) as (w1 & x1 & E1 & H & Hs & Ht).
  { destruct (cert_chain kc) as [text|]; [by apply load_client_cert_run|].
    exists w, x. by split_and!; [|apply edited_refl|..]. }
  mstep E1. pose proof (edited_refs_ok _ _ _ _ _ H Hok) as Hok1.
  destruct (pem_private_key kc) as [text|]; [|by exists w1, x1].
  destruct (load_client_key_run read_key a (c_str text) w1 x1 (edited_lookup _ _ _ _ _ _ _ _ H) Hok1)
    as (w2 & x2 & E2 & H2 & Hs2 & Ht2).
  exists w2, x2. split; [done|]. tls_add H H2. split; [tls_done H|]. by rewrite Hs2, Ht2.
Qed.

(** A client context is made whole or not at all, with every reference released on every path. *)
Theorem grpc_ssl_create_client_context_spec creds w :
  refs_ok w →
  ∃ r w', grpc_ssl_create_client_context read_certs read_key (Some creds) w = Ret (r, w') ∧
    context_made (client_context creds) w w' r.
Proof.
  intros Hw. unfold grpc_ssl_create_client_context. mstep (ssl_init_run w).
  destruct (SSL_CTX_new_run w Hw) as (r & w1 & E & Hr). mstep E.
  destruct r as [a|]; [|by exists None, w1].
  pose proof Hr as (Hok & _ & _ & Hc & _).
  pose proof (edited_refl a w1 new_context ltac:(rewrite Hc; apply lookup_insert_eq)) as H.
  tls_step H (upd_context_run a (with_min_version TLS1_2_VERSION)).
  assert (refs_ok w0) as Hok0 by (eapply edited_refs_ok; [tls_done H|done]).
  destruct (load_client_roots_run read_certs a (cc_root_certs creds) _ _ (edited_lookup _ _ _ _ _ _ _ _ H) Hok0)
    as (b & w2 & x2 & E2 & H2 & Hs2 & Ht2).
  mstep E2. tls_add H H2. destruct b; cbn [negb].
  2:{ tls_drop H Hr (client_context creds). }
  tls_step H (upd_context_run a (with_verify SSL_VERIFY_PEER)).
  assert (refs_ok w3) as Hok3 by (eapply edited_refs_ok; [tls_done H|done]).
  destruct (load_client_pair_run a (cc_key_cert_pair creds) _ _ (edited_lookup _ _ _ _ _ _ _ _ H) Hok3)
    as (w4 & x4 & E4 & H4 & Hs4 & Ht4).
  mstep E4. tls_add H H4. tls_step H (upd_context_run a (with_alpn_protos (2 :: h2))).
  do 2 eexists. split; [done|]. eapply context_kept; [exact Hr|tls_done H|].
  unfold settings, trust in *. cbn in Hs2, Hs4, Ht4. injection Hs2 as Hm2 _ _ _. injection Hs4 as Hm4 Hv4 _ _.
  injection Ht4 as Hr4 Hd4. split; [cbn; congruence|]. split; [done|]. split; [done|].
  specialize (Ht2 eq_refl). unfold client_trust in *. cbn. rewrite Hr4, Hd4. by destruct (cc_root_certs creds).
Qed.

(** C37. A server context is made whole or not at all, with every reference released on every
    path: one that is returned asks for TLS 1.2, has the first certificate and key of the first
    pair, selects h2, and requires client certificates when root certificates were given,
    unless a call failed. *)
Theorem grpc_ssl_create_server_context_spec creds w :
  refs_ok w → (sc_num_pairs creds ≠ 0 → sc_key_cert_pairs creds ≠ Some []) →
  ∃ r w', grpc_ssl_create_server_context read_certs read_key (Some creds) w = Ret (r, w') ∧
    context_made (server_context creds (ssl_answers w)) w w' r.
Proof.
  intros Hw Hne. unfold grpc_ssl_create_server_context.
  assert (context_made (server_context creds (ssl_answers w)) w w None) as Hnone by done.
  destruct (sc_key_cert_pairs creds) as [pairs|] eqn:Ep; [|by exists None, w].
  destruct (Z.eqb_spec (sc_num_pairs creds) 0); [by exists None, w|].
  destruct pairs as [|kc pairs]; [by destruct (Hne n)|].
  mstep (ssl_init_run w).
  destruct (SSL_CTX_new_run w Hw) as (r & w1 & E & Hr). mstep E.
  destruct r as [a|]; [|by exists None, w1].
  pose proof Hr as (Hok & _ & _ & Hc & Hal).
  pose proof (edited_refl a w1 new_context ltac:(rewrite Hc; apply lookup_insert_eq)) as H.
  tls_step H (upd_context_run a (with_min_version TLS1_2_VERSION)).
  assert (refs_ok w0) as Hok0 by (eapply edited_refs_ok; [tls_done H|done]).
  rewrite (M_bind_Ret _ _ w0 kc w0) by done.
  destruct (load_server_cert_run read_certs a (cert_chain kc) _ _ (edited_lookup _ _ _ _ _ _ _ _ H) Hok0)
    as (b & w2 & x2 & E2 & H2 & Hs2 & _ & Ht2).
  mstep E2. tls_add H H2. destruct b; cbn [negb].
  2:{ tls_drop H Hr (server_context creds (ssl_answers w)). }
  assert (refs_ok w2) as Hok2 by (eapply edited_refs_ok; [tls_done H|done]).
  destruct (load_server_key_run read_key a (pem_private_key kc) _ _ (edited_lookup _ _ _ _ _ _ _ _ H) Hok2)
    as (b & w3 & x3 & E3 & H3 & Hs3 & Hc3 & Ht3).
  mstep E3. tls_add H H3. destruct b; cbn [negb].
  2:{ tls_drop H Hr (server_context creds (ssl_answers w)). }
  tls_call H (ssl_call_run a) b Hf. destruct b; cbn [negb].
  2:{ tls_drop H Hr (server_context creds (ssl_answers w)). }
  assert (refs_ok w4) as Hok4 by (eapply edited_refs_ok; [tls_done H|done]).
  destruct (load_server_roots_run read_certs a (sc_root_certs creds) _ _ (edited_lookup _ _ _ _ _ _ _ _ H) Hok4)
    as (w5 & x5 & E5 & H5 & Hm5 & Hi5 & Hv5).
  pose proof (ed_answers _ _ _ _ _ _ _ _ H) as Hal4.
  mstep E5. tls_add H H5. tls_step H (upd_context_run a with_alpn_callback).
  do 2 eexists. split; [done|]. eapply context_kept; [exact Hr|tls_done H|].
  unfold settings, identity in *. cbn in Hs2. injection Hs2 as Hm2 Hv2 _ _. injection Hs3 as Hm3 Hv3 _ _.
  injection Hi5 as Hic Hik. destruct (Ht2 eq_refl) as (chain & c & Hchain & Hhead & Hcert).
  destruct (Ht3 eq_refl) as (pem & k & Hpem & Hkey & Hpk).
  split; [cbn; congruence|]. split; [done|]. split.
  - exists kc, pairs, chain, pem, c, k. cbn. split_and!; congruence.
  - cbn. destruct Hv5 as [?|[Hv [?|Hin]]]; [by left|right..].
    + split; [congruence|by left].
    + split; [congruence|right]. by apply Hal, Hal4.
Qed.
End created.

(** ** Handshakes leave one session, or none *)

Lemma SSL_new_run ctx w :
  refs_ok w → is_Some (contexts w !! ctx) →
  ∃ r w', SSL_new ctx w = Ret (r, w') ∧ contexts w' = contexts w ∧ fewer_answers w w' ∧
    match r with
    | Some s => sessions w !! s = None ∧ sessions w' = <[s := mk_session ctx (-1) None]> (sessions w)
    | None => sessions w' = sessions w ∧ false ∈ ssl_answers w
    end.
Proof.
  intros Hok [x Hx]. unfold SSL_new. rewrite Hx. destruct (answer_In (ssl_answers w)) as [H1 H2].
  destruct (answer (ssl_answers w)).1; do 2 eexists; (split; [done|]).
  - split; [done|]. split; [done|]. split; [|done]. apply eq_None_not_Some. intros H%(ro_sessions _ Hok). lia.
  - split; [done|]. split; [done|]. split; [done|by apply H2].
Qed.

(** The session [s] of a handshake, the other sessions, and the answers used. *)
Definition in_handshake (w w1 : tls) (s : positive) (o : ssl_session) : Prop :=
  contexts w1 = contexts w ∧ sessions w !! s = None ∧ sessions w1 = <[s := o]> (sessions w) ∧ fewer_answers w w1.

Lemma upd_session_run w w1 s o f :
  in_handshake w w1 s o → ∃ w2, upd_session s f w1 = Ret ((), w2) ∧ in_handshake w w2 s (f o).
Proof.
  intros (Hc & Hs & Hss & Ha). unfold upd_session. rewrite Hss, lookup_insert_eq. eexists. split; [done|].
  split_and!; try done. apply insert_insert_eq.
Qed.

Lemma handshake_call_run w w1 s o :
  in_handshake w w1 s o →
  ∃ b w2, ssl_call w1 = Ret (b, w2) ∧ in_handshake w w2 s o ∧ (b = false → false ∈ ssl_answers w).
Proof.
  intros (Hc & Hs & Hss & Ha). destruct (answer_In (ssl_answers w1)) as [H1 H2].
  do 2 eexists. split; [done|]. split; [split_and!; try done; by intros b ?%H1%Ha|].
  intros Hf. by apply Ha, H2.
Qed.

Lemma SSL_free_run w w1 s o :
  in_handshake w w1 s o →
  ∃ w2, SSL_free s w1 = Ret ((), w2) ∧ contexts w2 = contexts w ∧ sessions w2 = sessions w.
Proof.
  intros (Hc & Hs & Hss & Ha). unfold SSL_free. rewrite Hss, lookup_insert_eq. eexists. split; [done|].
  split; [done|]. by apply delete_insert_id.
Qed.

Lemma on_tls_run {A} (m : M tls A) (c : http2_connection) w a w' :
  m w = Ret (a, w') → on_tls m (c, w) = Ret (a, (c, w')).
Proof. unfold on_tls, zoom. cbn. by intros ->. Qed.

(** The exit with an error. *)
Lemma handshake_failed w w1 s o (c : http2_connection) :
  in_handshake w w1 s o →
  ∃ w2, (_ ← on_tls (SSL_free s); mret (-1)) (c, w1) = Ret (-1, (c, w2)) ∧ contexts w2 = contexts w ∧
    sessions w2 = sessions w.
Proof.
  intros H. destruct (SSL_free_run w w1 s o H) as (w2 & E & Hc & Hs). exists w2.
  by mstep (on_tls_run _ c _ _ _ E).
Qed.

(** A client handshake succeeds only when h2 was negotiated, and then attaches one new
    session with the connection's socket and the host's name, which the shutdown releases;
    otherwise the connection and the sessions are as before, and a call failed or another
    protocol was negotiated. *)
Theorem grpc_ssl_client_handshake_spec alpn host (c : http2_connection) w ctx :
  refs_ok w → ssl_ctx c = Some ctx → is_Some (contexts w !! ctx) →
  ∃ r c' w', grpc_ssl_client_handshake alpn host (Some (c, w)) = Ret (r, Some (c', w')) ∧
    contexts w' = contexts w ∧
    (r = 0 ∧ alpn = h2 ∧ (∃ s, sessions w !! s = None ∧ c' = set_conn_ssl (Some s) c ∧
       sessions w' = <[s := mk_session ctx (socket_fd c) (c_str <$> host)]> (sessions w)) ∧
     (∃ w2, grpc_ssl_shutdown (Some (c', w')) = Ret ((), Some (set_conn_ssl None c, w2)) ∧
       sessions w2 = sessions w) ∨
     r = -1 ∧ c' = c ∧ sessions w' = sessions w ∧ (alpn ≠ h2 ∨ false ∈ ssl_answers w)).
Proof.
  intros Hok Hctx Hlive. unfold grpc_ssl_client_handshake, nullable. rewrite M_bind_gets. cbn [fst]. rewrite Hctx.
  destruct (SSL_new_run ctx w Hok Hlive) as (r & w1 & E & Hc & Ha & Hr).
  mstep (on_tls_run _ c _ _ _ E). destruct r as [s|].
  2:{ exists (-1), c, w1. split; [done|]. split; [done|]. right. destruct Hr as [Hs Hf].
      split_and!; [done|done|done|by right]. }
  destruct Hr as [Hs Hss]. assert (in_handshake w w1 s (mk_session ctx (-1) None)) as H by by split_and!.
  assert (∃ w2, (match host with
    | Some h => on_tls (upd_session s (with_server_name (c_str h))) | None => mret () end) (c, w1) =
      Ret ((), (c, w2)) ∧ in_handshake w w2 s (mk_session ctx (-1) (c_str <$> host))) as (w2 & E2 & H2).
  { destruct host as [h|]; [|by exists w1].
    destruct (upd_session_run _ _ _ _ (with_server_name (c_str h)) H) as (w2 & E2 & H2).
    exists w2. split; [by apply on_tls_run|done]. }
  mstep E2.
  destruct (upd_session_run _ _ _ _ (with_fd (socket_fd c)) H2) as (w3 & E3 & H3).
  mstep (on_tls_run _ c _ _ _ E3).
  destruct (handshake_call_run _ _ _ _ H3) as (b & w4 & E4 & H4 & Hf4).
  mstep (on_tls_run _ c _ _ _ E4).
  destruct b; cbn [negb]; [|destruct (handshake_failed _ _ _ _ c H4) as (w5 & -> & ? & ?);
    exists (-1), c, w5; split; [done|]; split; [done|]; right; split_and!; auto].
  destruct (handshake_call_run _ _ _ _ H4) as (b & w5 & E5 & H5 & Hf5).
  mstep (on_tls_run _ c _ _ _ E5).
  destruct b; cbn [negb]; [|destruct (handshake_failed _ _ _ _ c H5) as (w6 & -> & ? & ?);
    exists (-1), c, w6; split; [done|]; split; [done|]; right; split_and!; auto].
  case_bool_decide as Halpn; cbn [negb]; [|destruct (handshake_failed _ _ _ _ c H5) as (w6 & -> & ? & ?);
    exists (-1), c, w6; split; [done|]; split; [done|]; right; split_and!; auto].
  rewrite M_bind_modify. cbn [fst snd]. do 3 eexists. split; [done|].
  pose proof H5 as (Hc5 & _ & Hs5 & _). split; [done|]. left. split; [done|]. split; [done|]. split.
  - exists s. split; [done|]. split; [done|]. exact Hs5.
  - destruct (SSL_free_run _ _ _ _ H5) as (w6 & E6 & _ & Hs6). exists w6. split; [|done].
    unfold grpc_ssl_shutdown, nullable. rewrite M_bind_gets. cbn [fst ssl set_conn_ssl].
    by mstep (on_tls_run _ _ _ _ _ E6).
Qed.

(** The server asks for less: it takes whatever protocol was negotiated. *)
Lemma grpc_ssl_server_handshake_run (c : http2_connection) w ctx :
  refs_ok w → ssl_ctx c = Some ctx → is_Some (contexts w !! ctx) →
  ∃ r c' w', grpc_ssl_server_handshake (Some (c, w)) = Ret (r, Some (c', w')) ∧
    contexts w' = contexts w ∧
    (r = 0 ∧ (∃ s, sessions w !! s = None ∧ c' = set_conn_ssl (Some s) c ∧
       sessions w' = <[s := mk_session ctx (socket_fd c) None]> (sessions w)) ∨
     r = -1 ∧ c' = c ∧ sessions w' = sessions w ∧ false ∈ ssl_answers w).
Proof.
  intros Hok Hctx Hlive. unfold grpc_ssl_server_handshake, nullable. rewrite M_bind_gets. cbn [fst]. rewrite Hctx.
  destruct (SSL_new_run ctx w Hok Hlive) as (r & w1 & E & Hc & Ha & Hr).
  mstep (on_tls_run _ c _ _ _ E). destruct r as [s|].
  2:{ exists (-1), c, w1. split; [done|]. split; [done|]. right. by destruct Hr as [Hs Hf]. }
  destruct Hr as [Hs Hss]. assert (in_handshake w w1 s (mk_session ctx (-1) None)) as H by by split_and!.
  destruct (upd_session_run _ _ _ _ (with_fd (socket_fd c)) H) as (w3 & E3 & H3).
  mstep (on_tls_run _ c _ _ _ E3).
  destruct (handshake_call_run _ _ _ _ H3) as (b & w4 & E4 & H4 & Hf4).
  mstep (on_tls_run _ c _ _ _ E4).
  destruct b; cbn [negb]; [|destruct (handshake_failed _ _ _ _ c H4) as (w5 & -> & ? & ?);
    exists (-1), c, w5; split; [done|]; split; [done|]; right; split_and!; auto].
  rewrite M_bind_modify. cbn [fst snd]. do 3 eexists. split; [done|].
  pose proof H4 as (Hc4 & _ & Hs4 & _). split; [done|]. left. split; [done|].
  exists s. split; [done|]. split; [done|]. exact Hs4.
Qed.

(** ** The properties at work *)

Definition sample_tls : tls := mk_tls false [] ∅ ∅ 1 0 0 0.
Lemma sample_tls_ok : refs_ok sample_tls.
Proof. split; try done; intros a [? ?]; done. Qed.

Definition sample_certs (text : list Z) : list positive := match text with [] => [] | _ => [11%positive; 12%positive] end.
Definition sample_key (text : list Z) : option positive := match text with [] => None | _ => Some 21%positive end.

Lemma alpn_selects_h2_witness :
  grpc_ssl_alpn_select_cb_internal [3; 97; 98; 99; 2; 104; 50] 7 = Ret (0, Some (5, 2)) ∧
  grpc_ssl_alpn_select_cb_internal [8; 104; 116; 116; 112; 47; 49; 46; 49] 9 = Ret (3, None).
Proof.
  destruct (alpn_selects_h2 [3; 97; 98; 99; 2; 104; 50]) as [E1 _]; [by repeat constructor|done|].
  destruct (alpn_selects_h2 [8; 104; 116; 116; 112; 47; 49; 46; 49]) as [E2 _]; [by repeat constructor|done|].
  split; [exact E1|exact E2].
Defined.

Lemma grpc_ssl_create_client_context_spec_witness :
  ∃ w', grpc_ssl_create_client_context sample_certs sample_key (Some (mk_channel_creds (Some [65; 0]) None)) sample_tls =
      Ret (Some 1%positive, w') ∧ bios w' = 0 ∧
    ∃ x, contexts w' = <[1%positive := x]> ∅ ∧ min_version x = TLS1_2_VERSION ∧ verify_mode x = SSL_VERIFY_PEER.
Proof.
  destruct (grpc_ssl_create_client_context_spec sample_certs sample_key (mk_channel_creds (Some [65; 0]) None)
    sample_tls sample_tls_ok) as (r & w' & E & (Hb & _) & Hr).
  assert (r = Some 1%positive) as -> by (vm_compute in E; by injection E as <- _).
  destruct Hr as (_ & x & Hx & H1 & H2 & _). exists w'. split; [exact E|]. split; [exact Hb|].
  exists x. split; [exact Hx|]. by split.
Defined.

Definition sample_server_creds : grpc_server_credentials :=
  mk_server_creds (Some [65; 0]) (Some [mk_pair (Some [66; 0]) (Some [67; 0])]) 1.

Lemma grpc_ssl_create_server_context_spec_witness :
  ∃ w', grpc_ssl_create_server_context sample_certs sample_key (Some sample_server_creds) sample_tls =
      Ret (Some 1%positive, w') ∧
    ∃ x, contexts w' = <[1%positive := x]> ∅ ∧ alpn_callback x = true ∧ verify_mode x = 3.
Proof.
  destruct (grpc_ssl_create_server_context_spec sample_certs sample_key sample_server_creds sample_tls
    sample_tls_ok) as (r & w' & E & _ & Hr); [done|].
  assert (r = Some 1%positive) as -> by (vm_compute in E; by injection E as <- _).
  destruct Hr as (_ & x & Hx & _ & H1 & _ & Hv). exists w'. split; [exact E|].
  exists x. split; [exact Hx|]. split; [exact H1|].
  clear E. destruct Hv as [[Hv _]|[_ [Hv|Hin]]]; [exact Hv|discriminate Hv|by apply elem_of_nil in Hin].
Defined.

Definition sample_conn : http2_connection :=
  mk_connection 7 (Some 1%positive) None true 1 false false [] 0 65535 65535 16384 100.

Lemma grpc_ssl_client_handshake_spec_witness :
  ∃ c' w', grpc_ssl_client_handshake h2 (Some [104; 0]) (Some (sample_conn,
      mk_tls true [] {[1%positive := new_context]} ∅ 2 0 0 0)) = Ret (0, Some (c', w')) ∧
    ssl c' = Some 2%positive ∧ ∃ w2, grpc_ssl_shutdown (Some (c', w')) = Ret ((), Some (sample_conn, w2)).
Proof.
  destruct (grpc_ssl_client_handshake_spec h2 (Some [104; 0]) sample_conn
    (mk_tls true [] {[1%positive := new_context]} ∅ 2 0 0 0) 1) as (r & c' & w' & E & _ & Hr).
  - split; try done; cbn; intros a [y Hy]; [|done]. apply lookup_singleton_Some in Hy as [<- _]. done.
  - done.
  - by eexists.
  - assert (r = 0 ∧ ssl c' = Some 2%positive) as [-> Hs] by (vm_compute in E; by injection E as <- <- _).
    destruct Hr as [(_ & _ & _ & w2 & E2 & _)|(Hr & _)]; [|discriminate Hr].
    exists c', w'. split; [exact E|]. split; [exact Hs|]. exists w2. exact E2.
Defined.
