(* ===== verification/Compression.v ===== *)
(** * Compression (src/src/compression.c)

    The buffers around zlib.  zlib itself is an interface: the gzip stream of a text, and
    decompression step by step into the space it is given, with the documented laws of [inflate]. *)

From Stdlib Require Import ZArith Lia.
From stdpp Require Import base tactics list option strings gmap.
From S2P Require Import Prelude.

#[local] Open Scope Z_scope.
#[local] Set Warnings "-clear-no-such-hyp".

Definition Z_OK : Z := 0.
Definition Z_STREAM_END : Z := 1.
Definition Z_BUF_ERROR : Z := -5.

(** ** The interface of zlib *)

(** [inflate st n] is a call with [n] bytes of space: its result, the bytes it writes and the
    stream after it.  [pending] bounds what is left to do. *)
Class Zlib := {
  zstate : Type;
  compressBound : Z → Z;
  gz : list Z → list Z;
  inflate_init : list Z → zstate;
  inflate : zstate → Z → Z * list Z * zstate;
  pending : zstate → nat
}.

(** [stream_of r st]: the stream is good and [r] is left to come out of it.  [Z_OK] means that
    there was progress, [Z_BUF_ERROR] that none was possible.  A deflate stream expands less
    than 1033 times. *)
Class ZlibLaws `{Zlib} := {
  stream_of : list Z → zstate → Prop;
  gz_bound : ∀ x, zlen x < 2 ^ 31 →
    0 < zlen (gz x) ≤ compressBound (zlen x) + 12 ∧ compressBound (zlen x) < 2 ^ 32 - 12;
  inflate_ratio : ∀ s, Z.of_nat (pending (inflate_init s)) ≤ 2047 * zlen s;
  inflate_work : ∀ st n, 0 ≤ n →
    let '(ret, out, st') := inflate st n in
    zlen out ≤ n ∧ zlen out + Z.of_nat (pending st') ≤ Z.of_nat (pending st) ∧
    (ret = Z_OK → (pending st' < pending st)%nat) ∧
    (ret = Z_BUF_ERROR → out = [] ∧ st' = st);
  inflate_init_gz : ∀ x, stream_of x (inflate_init (gz x));
  inflate_stream : ∀ r st n, stream_of r st → 0 ≤ n →
    let '(ret, out, st') := inflate st n in
    ∃ r', r = out ++ r' ∧ stream_of r' st' ∧
      (ret = Z_STREAM_END ∧ r' = [] ∨ ret = Z_OK ∨ ret = Z_BUF_ERROR ∧ n = 0)
}.

(** ** Buffers *)

(** What [*output] points to; a byte that was never written is -1. *)
Inductive zblock := Live (bytes : list Z) | Freed.
(** [*output] and [*output_len]; [None] for a null pointer. *)
Abbreviation zout := (option (zblock * Z)).

Definition unwritten : Z := -1.
Definition fresh_block (n : Z) : list Z := replicate (Z.to_nat n) unwritten.

(** [realloc] to [n] bytes, as far as it does not fail. *)
Definition resize (block : list Z) (n : Z) : list Z :=
  take (Z.to_nat n) block ++ replicate (Z.to_nat n - length block) unwritten.

(** "Shrink buffer to actual size": a failure is ignored, and [realloc (p, 0)] frees. *)
Definition shrink (block : list Z) (n : Z) : M allocs zblock :=
  if n =? 0 then mret Freed else
  ok ← malloc;
  mret (Live (if ok : bool then resize block n else block)).

Section compression.
Context `{Zlib}.

(** [outp] tells whether the two result pointers are given.  [deflate] reads the [avail_in]
    bytes, a [uInt], and ends the stream when the result fits. *)
Definition compress_gzip (input : option (list Z)) (input_len : Z) (outp : bool) : M allocs (Z * zout) :=
  match input with
  | None => mret (-1, None)
  | Some input =>
      if negb outp || (input_len =? 0) then mret (-1, None) else
      let room := u64 (compressBound input_len + 12) in
      ok ← malloc;
      if negb ok then mret (-1, None) else
      init ← malloc;                           (* deflateInit2 *)
      if negb init then mret (-1, None) else
      src ← lift (read_bytes input (u32 input_len));
      let out := gz src in
      if u32 room <? zlen out then mret (-1, None) else
      block ← lift (memcpy (fresh_block room) 0 out (zlen out));
      block ← shrink block (zlen out);
      mret (0, Some (block, zlen out))
  end.

(** The loop of [decompress_gzip]: the buffer with its size, where the output goes, the space
    there and the bytes written.  The result is the buffer and [total_out], or an error. *)
Fixpoint inflate_loop (fuel : nat) (st : zstate) (block : list Z) (output_len next_out avail_out total_out : Z)
    : M allocs (option (list Z * Z)) :=
  match fuel with
  | O => fail OutOfFuel
  | S fuel =>
      let '(ret, out, st) := inflate st avail_out in
      block ← lift (memcpy block next_out out (zlen out));
      let next_out := next_out + zlen out in
      let avail_out := avail_out - zlen out in
      let total_out := total_out + zlen out in
      if ret =? Z_STREAM_END then mret (Some (block, total_out))
      else if (ret =? Z_BUF_ERROR) && (avail_out =? 0) then
        let new_size := u64 (output_len * 2) in
        ok ← malloc;                           (* realloc *)
        if negb ok then mret None else
        inflate_loop fuel st (resize block new_size) new_size output_len (u32 (new_size - output_len)) total_out
      else if negb (ret =? Z_OK) then mret None
      else inflate_loop fuel st block output_len next_out avail_out total_out
  end.

Definition decompress_gzip (input : option (list Z)) (input_len : Z) (outp : bool) : M allocs (Z * zout) :=
  match input with
  | None => mret (-1, None)
  | Some input =>
      if negb outp || (input_len =? 0) then mret (-1, None) else
      let output_len := u64 (input_len * 4) in
      ok ← malloc;
      if negb ok then mret (-1, None) else
      init ← malloc;                           (* inflateInit2 *)
      if negb init then mret (-1, None) else
      src ← lift (read_bytes input (u32 input_len));
      let st := inflate_init src in
      r ← inflate_loop (2 * S (pending st)) st (fresh_block output_len) output_len 0 (u32 output_len) 0;
      match r with
      | None => mret (-1, None)
      | Some (block, total_out) =>
          block ← shrink block total_out;
          mret (0, Some (block, total_out))
      end
  end.

(** ["identity"], ["gzip"] and ["deflate"]. *)
Definition GRPC_COMPRESS_NONE : list Z := [105; 100; 101; 110; 116; 105; 116; 121; 0].
Definition GRPC_COMPRESS_GZIP : list Z := [103; 122; 105; 112; 0].
Definition GRPC_COMPRESS_DEFLATE : list Z := [100; 101; 102; 108; 97; 116; 101; 0].

(** "No compression - just copy". *)
Definition copy_identity (input : list Z) (input_len : Z) : M allocs (Z * zout) :=
  ok ← malloc;
  if negb ok then mret (-1, None) else
  bytes ← lift (read_bytes input input_len);
  mret (0, Some (Live bytes, input_len)).

Definition grpc_compress_data (input : option (list Z)) (input_len : Z) (outp : bool)
    (algorithm : option (list Z)) : M allocs (Z * zout) :=
  match input, algorithm with
  | Some bytes, Some algorithm =>
      if negb outp then mret (-1, None) else
      if strcmp_eq algorithm GRPC_COMPRESS_NONE then copy_identity bytes input_len
      else if strcmp_eq algorithm GRPC_COMPRESS_GZIP then compress_gzip input input_len outp
      else if strcmp_eq algorithm GRPC_COMPRESS_DEFLATE then compress_gzip input input_len outp
      else mret (-1, None)
  | _, _ => mret (-1, None)
  end.

Definition grpc_decompress_data (input : option (list Z)) (input_len : Z) (outp : bool)
    (algorithm : option (list Z)) : M allocs (Z * zout) :=
  match input, algorithm with
  | Some bytes, Some algorithm =>
      if negb outp then mret (-1, None) else
      if strcmp_eq algorithm GRPC_COMPRESS_NONE then copy_identity bytes input_len
      else if strcmp_eq algorithm GRPC_COMPRESS_GZIP then decompress_gzip input input_len outp
      else if strcmp_eq algorithm GRPC_COMPRESS_DEFLATE then decompress_gzip input input_len outp
      else mret (-1, None)
  | _, _ => mret (-1, None)
  end.

(** The public names (src/src/enhanced_features.c). *)
Definition grpc_compress := grpc_compress_data.
Definition grpc_decompress := grpc_decompress_data.
End compression.

(** ** The buffers are large enough and the loop ends *)

Section proofs.
Context `{ZlibLaws}.

(** The first [total] bytes of the buffer are written, the rest is the space. *)
Lemma memcpy_fill (text bs : list Z) n :
  zlen text + zlen bs ≤ n →
  memcpy (text ++ replicate (Z.to_nat (n - zlen text)) unwritten) (zlen text) bs (zlen bs) =
    Ret ((text ++ bs) ++ replicate (Z.to_nat (n - zlen (text ++ bs))) unwritten).
Proof.
  intros Hn. replace (Z.to_nat (n - zlen text)) with (length bs + Z.to_nat (n - zlen (text ++ bs)))%nat
    by (rewrite length_app; lia).
  rewrite replicate_add. pose proof (memcpy_app text (replicate (length bs) unwritten)
    (replicate (Z.to_nat (n - zlen (text ++ bs))) unwritten) bs [] (zlen text) (zlen bs)) as E.
  rewrite app_nil_r in E. rewrite E; [by rewrite <- app_assoc|done|done|by rewrite length_replicate].
Qed.

Lemma resize_grow (text : list Z) n m :
  zlen text ≤ n ≤ m →
  resize (text ++ replicate (Z.to_nat (n - zlen text)) unwritten) m =
    text ++ replicate (Z.to_nat (m - zlen text)) unwritten.
Proof.
  intros Hn. unfold resize. rewrite length_app, length_replicate.
  rewrite take_ge by (rewrite length_app, length_replicate; lia). rewrite <- app_assoc, <- replicate_add.
  do 2 f_equal. lia.
Qed.

Lemma shrink_filled (text : list Z) n al :
  zlen text ≤ n → 0 < zlen text →
  ∃ b al', shrink (text ++ replicate (Z.to_nat (n - zlen text)) unwritten) (zlen text) al = Ret (Live b, al') ∧
    take (length text) b = text ∧ (al = [] → b = text ∧ al' = []).
Proof.
  intros Hn Hp. unfold shrink. destruct (Z.eqb_spec (zlen text) 0); [lia|].
  destruct (malloc_run al) as (ok & al' & E & Hal). mstep E.
  do 2 eexists. split; [done|]. split.
  - destruct ok; [unfold resize; rewrite Nat2Z.id|]; by rewrite !take_app_length.
  - intros ->. destruct (Hal eq_refl) as [-> ->]. split; [|done]. unfold resize.
    rewrite Nat2Z.id, take_app_length, length_app, length_replicate.
    replace (length text - _)%nat with 0%nat by lia. by rewrite app_nil_r.
Qed.

(** The loop, started with [text] already in a buffer of [olen] bytes: it ends, with at most
    [pending st] more bytes; a good stream gives all its bytes, or an allocation failed. *)
Lemma inflate_loop_run fuel st text olen al :
  zlen text + Z.of_nat (pending st) < 2 ^ 31 → zlen text ≤ olen < 2 ^ 32 → 0 < olen →
  (2 * pending st + (if decide (olen = zlen text) then 1 else 0) < fuel)%nat →
  ∃ r al', inflate_loop fuel st (text ++ replicate (Z.to_nat (olen - zlen text)) unwritten) olen
      (zlen text) (olen - zlen text) (zlen text) al = Ret (r, al') ∧
    (∀ block total, r = Some (block, total) → ∃ out n, total = zlen (text ++ out) ∧ total ≤ n ∧
       block = (text ++ out) ++ replicate (Z.to_nat (n - total)) unwritten) ∧
    (∀ rest, stream_of rest st → al = [] → al' = [] ∧
       ∃ n, r = Some ((text ++ rest) ++ replicate (Z.to_nat (n - zlen (text ++ rest))) unwritten, zlen (text ++ rest)) ∧
         zlen (text ++ rest) ≤ n).
Proof.
  revert st text olen al. induction fuel as [|fuel IH]; intros st text olen al Hp Ho Hpos Hf; [lia|].
  cbn [inflate_loop]. pose proof (inflate_work st (olen - zlen text) ltac:(lia)) as Hw.
  pose proof (λ r, inflate_stream r st (olen - zlen text)) as Hs.
  destruct (inflate st (olen - zlen text)) as [[ret out] st'].
  destruct Hw as (Hout & Hpend & Hok & Hbuf).
  mstep (memcpy_fill text out olen ltac:(lia)).
  assert (zlen text + zlen out = zlen (text ++ out)) as Hlen by (rewrite length_app; lia).
  replace (olen - zlen text - zlen out) with (olen - zlen (text ++ out)) by lia. rewrite Hlen.
  destruct (Z.eqb_spec ret Z_STREAM_END) as [->|Hne].
  - do 2 eexists. split; [done|]. split.
    + intros block total [= <- <-]. exists out, olen. split; [done|]. split; [lia|done].
    + intros rest Hrest ->. split; [done|]. exists olen.
      destruct (Hs rest Hrest ltac:(lia)) as (r' & -> & _ & [[_ ->]|[?|[? _]]]); [|done|done].
      rewrite app_nil_r. split; [done|lia].
  - destruct (Z.eqb_spec ret Z_BUF_ERROR) as [->|Hnb]; cbn [andb].
    + destruct (Hbuf eq_refl) as [-> ->]. rewrite app_nil_r in *.
      destruct (Z.eqb_spec (olen - zlen text) 0) as [Hfull|Hroom].
      * rewrite u64_small by lia. destruct (malloc_run al) as (ok & al' & E & Hal).
        mstep E. destruct ok; cbn [negb].
        2:{ do 2 eexists. split; [done|]. split; [done|]. intros rest _ ->. by destruct (Hal eq_refl). }
        rewrite resize_grow by lia. rewrite (u32_small (olen * 2 - olen)) by lia.
        rewrite decide_True in Hf by lia.
        destruct (IH st text (olen * 2) al') as (r & al2 & E2 & Hr & Hg); [lia|lia|lia|rewrite decide_False by lia; lia|].
        exists r, al2. split; [rewrite <- E2; f_equal; lia|]. split; [done|]. intros rest Hrest ->. destruct (Hal eq_refl) as [_ ->].
        by apply Hg.
      * cbn [negb Z.eqb Z_BUF_ERROR Z_OK]. do 2 eexists. split; [done|]. split; [done|].
        intros rest Hrest ->. destruct (Hs rest Hrest ltac:(lia)) as (r' & _ & _ & [[? _]|[?|[_ ?]]]); [done|done|lia].
    + destruct (Z.eqb_spec ret Z_OK) as [->|Hno]; cbn [negb].
      * destruct (IH st' (text ++ out) olen al) as (r & al2 & E2 & Hr & Hg).
        { rewrite <- Hlen. lia. } { rewrite <- Hlen. lia. } { lia. }
        { specialize (Hok eq_refl). repeat case_decide; lia. }
        exists r, al2. split; [done|]. split.
        -- intros block total Heq. destruct (Hr block total Heq) as (o & n & ? & ? & ?).
           exists (out ++ o), n. by rewrite app_assoc.
        -- intros rest Hrest Hal. destruct (Hs rest Hrest ltac:(lia)) as (r' & -> & Hr' & _).
           rewrite app_assoc. by apply Hg.
      * do 2 eexists. split; [done|]. split; [done|]. intros rest Hrest _.
        by destruct (Hs rest Hrest ltac:(lia)) as (r' & _ & _ & [[? _]|[?|[? _]]]).
Qed.

(** What a decompression leaves: an error, or a buffer whose first bytes are the text. *)
Definition decompressed (r : Z * zout) : Prop :=
  r = (-1, None) ∨ r = (0, Some (Freed, 0)) ∨
  ∃ b n, r = (0, Some (Live b, n)) ∧ 0 < n ≤ zlen b.

(** The loop as [decompress_gzip] starts it. *)
Lemma inflate_start s al :
  0 < zlen s < 2 ^ 20 →
  let st := inflate_init s in
  ∃ r al', inflate_loop (2 * S (pending st)) st (fresh_block (u64 (zlen s * 4))) (u64 (zlen s * 4)) 0
      (u32 (u64 (zlen s * 4))) 0 al = Ret (r, al') ∧
    (∀ block total, r = Some (block, total) → ∃ text n, total = zlen text ∧ total ≤ n ∧
       block = text ++ replicate (Z.to_nat (n - total)) unwritten) ∧
    (∀ text, stream_of text st → al = [] → al' = [] ∧
       ∃ n, r = Some (text ++ replicate (Z.to_nat (n - zlen text)) unwritten, zlen text) ∧ zlen text ≤ n).
Proof.
  intros Hs st. rewrite u64_small, u32_small by lia. pose proof (inflate_ratio s) as Hr. fold st in Hr.
  pose proof (inflate_loop_run (2 * S (pending st)) st [] (zlen s * 4) al) as H1.
  cbn [app length Nat.add Z.of_nat] in H1. rewrite Z.sub_0_r in H1.
  apply H1; [lia|lia|lia|]. rewrite decide_False by lia. lia.
Qed.

(** C39. Decompressing arbitrary bytes (less than 1 MiB of them) with an arbitrary allocator
    ends and writes nothing outside the buffer: the result is -1 and no buffer, or 0 and a
    buffer of at least the length that is returned, or the freed buffer of an empty text. *)
Theorem decompress_gzip_terminates s al :
  zlen s < 2 ^ 20 →
  ∃ r al', decompress_gzip (Some s) (zlen s) true al = Ret (r, al') ∧ decompressed r.
Proof.
  intros Hs. unfold decompress_gzip, decompressed. cbn [negb orb].
  destruct (Z.eqb_spec (zlen s) 0) as [|Hpos]; [by do 2 eexists; split; [|left]|].
  step_malloc ok al1. destruct ok; cbn [negb]; [|by do 2 eexists; split; [|left]].
  step_malloc ok al2. destruct ok; cbn [negb]; [|by do 2 eexists; split; [|left]].
  rewrite (u32_small (zlen s)) by lia. mstep (read_bytes_all s).
  destruct (inflate_start s al2 ltac:(lia)) as (r & al3 & E & Hr & _).
  mstep E. destruct r as [[block total]|]; [|by do 2 eexists; split; [|left]].
  destruct (Hr _ _ eq_refl) as (text & n & -> & Hn & ->). destruct text as [|b text].
  - do 2 eexists. split; [done|]. right; by left.
  - destruct (shrink_filled (b :: text) n al3) as (b' & al4 & E2 & Hb & _); [done|cbn [length]; lia|].
    mstep E2. do 2 eexists. split; [done|]. right; right. do 2 eexists. split; [done|].
    apply (f_equal length) in Hb. rewrite length_take in Hb. cbn [length] in *. lia.
Qed.

(** The stream of a text: what the decompression makes of it. *)
Lemma decompress_gz x :
  zlen x < 2 ^ 31 → zlen (gz x) < 2 ^ 20 →
  decompress_gzip (Some (gz x)) (zlen (gz x)) true [] =
    Ret ((0, Some (if zlen x =? 0 then Freed else Live x, zlen x)), []).
Proof.
  intros Hx Hg. destruct (gz_bound x Hx) as [[Hpos _] _]. unfold decompress_gzip. cbn [negb orb].
  destruct (Z.eqb_spec (zlen (gz x)) 0) as [|_]; [lia|].
  rewrite !(M_bind_Ret malloc _ [] true []) by done. cbn [negb].
  rewrite !(M_bind_Ret malloc _ [] true []) by done. cbn [negb].
  rewrite (u32_small (zlen (gz x))) by lia. mstep (read_bytes_all _).
  destruct (inflate_start (gz x) [] (conj Hpos Hg)) as (r & al & E & _ & Hr).
  mstep E. destruct (Hr x (inflate_init_gz x) eq_refl) as (-> & n & -> & Hn).
  destruct x as [|b x]; [done|].
  destruct (shrink_filled (b :: x) n []) as (b' & al4 & E2 & _ & Hb); [done|cbn [length]; lia|].
  mstep E2. destruct (Hb eq_refl) as [-> ->].
  by destruct (Z.eqb_spec (zlen (b :: x)) 0); [cbn in *; lia|].
Qed.

Lemma compress_gz x tl :
  0 < zlen x < 2 ^ 31 →
  compress_gzip (Some (x ++ tl)) (zlen x) true [] = Ret ((0, Some (Live (gz x), zlen (gz x))), []).
Proof.
  intros Hx. destruct (gz_bound x ltac:(lia)) as [[Hpos Hb] Hc]. unfold compress_gzip. cbn [negb orb].
  destruct (Z.eqb_spec (zlen x) 0) as [|_]; [lia|].
  rewrite !(M_bind_Ret malloc _ [] true []) by done. cbn [negb].
  rewrite !(M_bind_Ret malloc _ [] true []) by done. cbn [negb].
  rewrite (u32_small (zlen x)) by lia. mstep (read_bytes_app x tl _ eq_refl).
  rewrite u64_small, u32_small by lia.
  destruct (Z.ltb_spec (compressBound (zlen x) + 12) (zlen (gz x))) as [|_]; [lia|].
  pose proof (memcpy_fill [] (gz x) (compressBound (zlen x) + 12) ltac:(cbn [length]; lia)) as E.
  cbn [app length Z.of_nat] in E. rewrite Z.sub_0_r in E. mstep E.
  destruct (shrink_filled (gz x) (compressBound (zlen x) + 12) []) as (b' & al4 & E2 & _ & H1); [lia|lia|].
  mstep E2. by destruct (H1 eq_refl) as [-> ->].
Qed.

(** C38. With an allocator that does not fail, what any of the three algorithms compresses is
    decompressed to the same bytes and length, however often the output buffer has to grow, as
    long as the compressed text is shorter than 1 MiB. *)
Theorem grpc_compress_roundtrip x tl algorithm :
  algorithm ∈ [GRPC_COMPRESS_NONE; GRPC_COMPRESS_GZIP; GRPC_COMPRESS_DEFLATE] →
  0 < zlen x < 2 ^ 31 → zlen (gz x) < 2 ^ 20 →
  ∃ c, grpc_compress (Some (x ++ tl)) (zlen x) true (Some algorithm) [] = Ret ((0, Some (Live c, zlen c)), []) ∧
    grpc_decompress (Some c) (zlen c) true (Some algorithm) [] = Ret ((0, Some (Live x, zlen x)), []).
Proof.
  intros Ha Hx Hg. assert (decompress_gzip (Some (gz x)) (zlen (gz x)) true [] =
    Ret ((0, Some (Live x, zlen x)), [])) as Hd.
  { rewrite decompress_gz by lia. by destruct (Z.eqb_spec (zlen x) 0); [lia|]. }
  rewrite !elem_of_cons, elem_of_nil in Ha. destruct Ha as [->|[->|[->|[]]]].
  - exists x. unfold grpc_compress, grpc_decompress, grpc_compress_data, grpc_decompress_data, copy_identity.
    cbn [negb strcmp_eq]. change (strcmp_eq GRPC_COMPRESS_NONE GRPC_COMPRESS_NONE) with true. cbn iota.
    rewrite !(M_bind_Ret malloc _ [] true []) by done. cbn [negb].
    by rewrite (M_bind_lift _ _ _ _ (read_bytes_app x tl _ eq_refl)), (M_bind_lift _ _ _ _ (read_bytes_all x)).
  - exists (gz x). split; [by apply compress_gz|exact Hd].
  - exists (gz x). split; [by apply compress_gz|exact Hd].
Qed.

(** The stream of an empty text: the result is 0 with a buffer that has been freed. *)
Theorem grpc_decompress_empty_dangles :
  zlen (gz []) < 2 ^ 20 →
  grpc_decompress (Some (gz [])) (zlen (gz [])) true (Some GRPC_COMPRESS_GZIP) [] =
    Ret ((0, Some (Freed, 0)), []).
Proof. intros Hg. by apply (decompress_gz []). Qed.
End proofs.

(** ** A concrete codec: the text behind one magic byte *)

#[local] Instance stored_zlib : Zlib := {
  zstate := option (list Z);
  compressBound n := n;
  gz x := 31 :: x;
  inflate_init s := match s with 31 :: s => Some s | _ => None end;
  inflate st n :=
    match st with
    | None => (-3, [], None)
    | Some r =>
        match drop (Z.to_nat n) r, take (Z.to_nat n) r with
        | [], out => (Z_STREAM_END, out, Some [])
        | _, [] => (Z_BUF_ERROR, [], Some r)
        | rest, out => (Z_OK, out, Some rest)
        end
    end;
  pending st := match st with None => 0%nat | Some r => length r end
}.

#[local] Instance stored_laws : ZlibLaws.
Proof.
  refine {| stream_of := λ r st, st = Some r |}.
  - intros x Hx. cbn. lia.
  - intros [|b s]; [done|]. cbn. destruct b as [|p|p]; cbn; try lia. repeat (destruct p as [p|p|]; cbn; try lia).
  - intros [r|] n Hn; [|cbn; split_and!; [lia|lia|done|done]]. cbn [inflate stored_zlib].
    pose proof (take_drop (Z.to_nat n) r) as E. apply (f_equal length) in E. rewrite length_app in E.
    pose proof (length_take r (Z.to_nat n)) as Ht.
    destruct (drop _ r) as [|d ds], (take _ r) as [|t0 ts]; cbn [pending stored_zlib length] in *;
      unfold Z_OK, Z_STREAM_END, Z_BUF_ERROR; split_and!; intros; split_and?; try lia; done.
  - intros x. done.
  - intros r st n -> Hn. cbn [inflate stored_zlib]. pose proof (take_drop (Z.to_nat n) r) as E.
    destruct (drop _ r) as [|d ds] eqn:Ed, (take _ r) as [|t0 ts] eqn:Et; cbn [app] in *; subst.
    + exists []. by split_and!; [..|left].
    + exists []. rewrite app_nil_r in *. split_and!; [congruence|done|by left].
    + exists (d :: ds). split_and!; [done|done|right; right]. split; [done|].
      destruct (Z.eqb_spec n 0); [done|]. apply (f_equal length) in Et. rewrite length_take in Et. cbn in Et. lia.
    + exists (d :: ds). split_and!; [done|done|]. right; by left.
Defined.

Definition sample_text : list Z := [104; 101; 108; 108; 111; 104; 101; 108; 108; 111].

Lemma grpc_compress_roundtrip_witness :
  ∃ c, grpc_compress (Some (sample_text ++ [7])) 10 true (Some GRPC_COMPRESS_GZIP) [] =
      Ret ((0, Some (Live c, zlen c)), []) ∧
    grpc_decompress (Some c) (zlen c) true (Some GRPC_COMPRESS_GZIP) [] = Ret ((0, Some (Live sample_text, 10)), []).
Proof.
  apply (grpc_compress_roundtrip sample_text [7] GRPC_COMPRESS_GZIP).
  - right; left.
  - cbn. lia.
  - cbn. lia.
Defined.

Lemma decompress_gzip_terminates_witness :
  ∃ r al', decompress_gzip (Some [31; 1; 2; 3; 4; 5; 6; 7; 8; 9; 10]) 11 true [true; true; false] = Ret (r, al') ∧
    decompressed r.
Proof. apply (decompress_gzip_terminates [31; 1; 2; 3; 4; 5; 6; 7; 8; 9; 10]). cbn. lia. Defined.

Lemma grpc_decompress_empty_witness :
  grpc_decompress (Some [31]) 1 true (Some GRPC_COMPRESS_GZIP) [] = Ret ((0, Some (Freed, 0)), []).
Proof. apply (grpc_decompress_empty_dangles (H := stored_zlib)). cbn. lia. Defined.
