(* ===== verification/Protobuf.v ===== *)
(** * Protocol buffers (src/src/grpc_protobuf.c)

    The wrappers around protobuf-c, whose messages, packer and parser are an interface. *)

From Stdlib Require Import ZArith Lia.
From stdpp Require Import base tactics list option strings gmap.
From S2P Require Import Prelude Core.

#[local] Open Scope Z_scope.

(** ** The interface of protobuf-c *)

(** The bytes [protobuf_c_message_pack] writes, the size [protobuf_c_message_get_packed_size]
    computes, and what [protobuf_c_message_unpack] reads when its allocations succeed. *)
Class ProtobufC := {
  ProtobufCMessage : Type;
  ProtobufCMessageDescriptor : Type;
  descriptor_of : ProtobufCMessage → ProtobufCMessageDescriptor;
  pack : ProtobufCMessage → list Z;
  get_packed_size : ProtobufCMessage → Z;
  unpack : ProtobufCMessageDescriptor → list Z → option ProtobufCMessage
}.

Class ProtobufCLaws `{ProtobufC} := {
  packed_size_pack : ∀ m, get_packed_size m = zlen (pack m);
  unpack_pack : ∀ m, unpack (descriptor_of m) (pack m) = Some m
}.

Section protobuf.
Context `{ProtobufC}.

(** The memory of the buffers, and the messages the parser has made. *)
Record pb_world := mk_pb_world {
  pb_mem : mem;
  messages : gmap positive ProtobufCMessage;
  next_message : positive
}.
Definition on_mem {A} (m : M mem A) : M pb_world A :=
  zoom pb_mem (λ w p, mk_pb_world w (messages p) (next_message p)) m.

(** The parser's message, or none: an answer of the allocator stands for the parser's allocations. *)
Definition protobuf_c_message_unpack (descriptor : ProtobufCMessageDescriptor) (bytes : list Z)
    : M pb_world (option positive) :=
  ok ← on_mem malloc_mem;
  match (if ok : bool then unpack descriptor bytes else None) with
  | None => mret None
  | Some m =>
      a ← gets next_message;
      _ ← modify (λ p, mk_pb_world (pb_mem p) (<[a := m]> (messages p)) (Pos.succ a));
      mret (Some a)
  end.
Definition protobuf_c_message_free_unpacked (a : positive) : M pb_world () := λ p,
  match messages p !! a with
  | Some _ => Ret ((), mk_pb_world (pb_mem p) (delete a (messages p)) (next_message p))
  | None => Fault UseAfterFree
  end.
(** The packer writes to the block and returns the number of bytes. *)
Definition protobuf_c_message_pack (msg : ProtobufCMessage) (data : positive) : M mem Z :=
  _ ← memcpy_block data (pack msg) (zlen (pack msg));
  mret (zlen (pack msg)).

(** ** The wrappers *)

Definition grpc_protobuf_serialize (msg : option ProtobufCMessage) : M mem (option positive) :=
  match msg with
  | None => mret None
  | Some msg =>
      let packed_size := get_packed_size msg in
      if packed_size =? 0 then mret None else
      data ← malloc_block packed_size;
      match data with
      | None => mret None
      | Some data =>
          packed ← protobuf_c_message_pack msg data;
          if negb (packed =? packed_size) then _ ← free_block (Some data); mret None else
          bytes ← read_block data;
          buffer ← grpc_byte_buffer_create bytes packed_size;
          _ ← free_block (Some data);
          mret buffer
      end
  end.

(** The result and [*msg]; [outp] tells whether [msg] is given. *)
Definition grpc_protobuf_deserialize (buffer : option positive)
    (descriptor : option ProtobufCMessageDescriptor) (outp : bool) : M pb_world (Z * option positive) :=
  match buffer, descriptor with
  | Some buffer, Some descriptor =>
      if negb outp then mret (-1, None) else
      b ← on_mem (read_buffer buffer);
      match bb_data b with
      | None => mret (-1, None)
      | Some data =>
          block ← on_mem (read_block data);
          bytes ← lift (read_bytes block (bb_length b));
          m ← protobuf_c_message_unpack descriptor bytes;
          match m with
          | None => mret (-1, None)
          | Some a => mret (0, Some a)
          end
      end
  | _, _ => mret (-1, None)
  end.

Definition grpc_protobuf_free (msg : option positive) : M pb_world () :=
  match msg with Some a => protobuf_c_message_free_unpacked a | None => mret () end.

Definition grpc_protobuf_buffer_create (data : list Z) (length : Z) : M mem (option positive) :=
  grpc_byte_buffer_create data length.

Definition grpc_protobuf_message_size (msg : option ProtobufCMessage) : Z :=
  match msg with None => 0 | Some msg => get_packed_size msg end.

(** The number of bytes written, and the buffer. *)
Definition grpc_protobuf_serialize_to_buffer (msg : option ProtobufCMessage) (buffer : option (list Z))
    (buffer_size : Z) : outcome (Z * option (list Z)) :=
  match msg, buffer with
  | Some msg, Some bytes =>
      if buffer_size <? get_packed_size msg then mret (0, buffer) else
      bytes ← memcpy bytes 0 (pack msg) (zlen (pack msg));
      mret (zlen (pack msg), Some bytes)
  | _, _ => mret (0, buffer)
  end.
End protobuf.

Section proofs.
Context `{ProtobufCLaws}.

Implicit Types (w : mem) (p : pb_world).

(** Serialising a message that takes at least a byte makes a buffer, or leaves the memory alone. *)
Lemma serialize_run m w :
  mem_ok w → pack m ≠ [] →
  ∃ r w', grpc_protobuf_serialize (Some m) w = Ret (r, w') ∧ mem_ok w' ∧ fewer_answers w w' ∧
    match r with
    | Some b => buffer_made w w' b (pack m)
    | None => same_mem w w' ∧ false ∈ mem_answers w
    end.
Proof.
  intros Hok Hne. unfold grpc_protobuf_serialize. rewrite packed_size_pack.
  destruct (Z.eqb_spec (zlen (pack m)) 0); [by destruct (pack m)|].
  destruct (malloc_block_run (zlen (pack m)) w Hok) as (r & w1 & E & Hok1 & Hal1 & Hs1 & H1). mstep E.
  destruct r as [d|]; [|destruct H1; exists None, w1; by repeat split]. destruct H1 as [Hfd Hd].
  assert (blocks w1 !! d = Some (replicate (Z.to_nat (zlen (pack m))) 0)) as Hd1 by by rewrite Hd, lookup_insert_eq.
  set (w2 := set_blocks (<[d := pack m]> (blocks w1)) w1).
  assert (mem_ok w2) as Hok2.
  { intros a. cbn. rewrite lookup_insert_is_Some'. intros [[<-|?]|?]; apply Hok1; eauto. }
  assert (protobuf_c_message_pack m d w1 = Ret (zlen (pack m), w2)) as Ep.
  { unfold protobuf_c_message_pack. pose proof (memcpy_block_run d _ (pack m) [] w1 Hd1
      ltac:(by rewrite length_replicate, Nat2Z.id)) as Em. rewrite app_nil_r in Em. by mstep Em. }
  mstep Ep. rewrite Z.eqb_refl. cbn [negb].
  assert (blocks w2 !! d = Some (pack m)) as Hd2 by (cbn; by rewrite lookup_insert_eq). mstep (read_block_run _ _ _ Hd2).
  destruct (byte_buffer_create_run (pack m) [] w2 Hok2) as (r & w3 & E3 & Hok3 & Hal3 & H3). rewrite app_nil_r in E3.
  mstep E3. assert (blocks w3 !! d = Some (pack m)) as Hd3.
  { destruct r; [|by destruct H3 as [[-> _] _]]. destruct H3 as (d' & Hd' & _ & -> & _).
    rewrite lookup_insert_ne; [done|]. intros ->. congruence. }
  mstep (free_block_run d _ w3 Hd3). set (w4 := set_blocks _ w3). exists r, w4. split; [done|].
  assert (fewer_answers w w4) as Hal by (by etrans; [exact Hal1|exact Hal3]).
  split; [|split; [exact Hal|]].
  { intros a. cbn. rewrite lookup_delete_is_Some. intros [[_ ?]|?]; apply Hok3; eauto. }
  assert (blocks w2 = <[d := pack m]> (blocks w)) as Hbl2 by (cbn; by rewrite Hd, insert_insert_eq).
  destruct r as [b|].
  - destruct H3 as (d' & Hd' & Hb' & Hbl & Hbu). rewrite Hbl2 in Hd'. apply lookup_insert_None in Hd' as [Hd' Hne'].
    exists d'. split; [done|]. split; [by rewrite <- Hs1|]. split; [|by cbn; rewrite Hbu; cbn; rewrite Hs1].
    cbn. rewrite Hbl, Hbl2, delete_insert_ne by done. by rewrite delete_insert_id.
  - destruct H3 as [[Hbl Hbu] Hf]. split; [|by apply Hal1]. split; [|cbn; by rewrite Hbu; cbn].
    cbn. rewrite Hbl, Hbl2. by rewrite delete_insert_id.
Qed.

(** The buffer of a serialised message gives the message back, as a new one of the parser. *)
Lemma deserialize_run m b w p :
  buffer_made w (pb_mem p) b (pack m) →
  ∃ out q, grpc_protobuf_deserialize (Some b) (Some (descriptor_of m)) true p =
      Ret ((match out with Some _ => 0 | None => -1 end, out), q) ∧
    same_mem (pb_mem p) (pb_mem q) ∧ next_block (pb_mem q) = next_block (pb_mem p) ∧
    match out with
    | Some a => a = next_message p ∧ messages q = <[a := m]> (messages p)
    | None => messages q = messages p ∧ false ∈ mem_answers (pb_mem p)
    end.
Proof.
  intros (d & _ & _ & Hbl & Hbu). unfold grpc_protobuf_deserialize. cbn [negb].
  assert (on_mem (read_buffer b) p = Ret (mk_byte_buffer (Some d) (zlen (pack m)) (zlen (pack m)), p)) as E1.
  { unfold on_mem, zoom. erewrite read_buffer_run by (by rewrite Hbu, lookup_insert_eq). by destruct p. }
  mstep E1. cbn [bb_data bb_length].
  assert (on_mem (read_block d) p = Ret (pack m, p)) as E2.
  { unfold on_mem, zoom. erewrite read_block_run by (by rewrite Hbl, lookup_insert_eq). by destruct p. }
  mstep E2. mstep (read_bytes_all (pack m)). unfold protobuf_c_message_unpack. rewrite M_bind_assoc.
  destruct (malloc_mem_run (pb_mem p)) as (ok & w1 & E3 & Hsame & Hn & _ & Hf).
  rewrite (M_bind_Ret (on_mem malloc_mem) _ p ok (mk_pb_world w1 (messages p) (next_message p)))
    by (unfold on_mem, zoom; by rewrite E3).
  destruct ok.
  - rewrite unpack_pack. eexists (Some _), _. split; [done|]. by split_and!.
  - eexists None, _. split; [done|]. split_and!; [done|done|done|by apply Hf].
Qed.

(** C40. For every message that packs to at least a byte, and whatever the allocator answers,
    serialising either makes a buffer that is deserialised to the message (unless the parser
    runs out of memory) and whose release together with the message's gives back all the
    memory, or leaves the memory as it was; serialising to a buffer of the application that is
    large enough writes the packed bytes at its front and nothing after them. *)
Theorem grpc_protobuf_roundtrip m p :
  mem_ok (pb_mem p) → messages p !! next_message p = None → pack m ≠ [] →
  (∃ r p1, on_mem (grpc_protobuf_serialize (Some m)) p = Ret (r, p1) ∧
    match r with
    | None => same_mem (pb_mem p) (pb_mem p1) ∧ messages p1 = messages p ∧ false ∈ mem_answers (pb_mem p)
    | Some b => ∃ code out p2 p3,
        grpc_protobuf_deserialize (Some b) (Some (descriptor_of m)) true p1 = Ret ((code, out), p2) ∧
        match out with
        | Some a => code = 0 ∧ messages p2 !! a = Some m
        | None => code = -1 ∧ false ∈ mem_answers (pb_mem p)
        end ∧
        (_ ← grpc_protobuf_free out; on_mem (grpc_byte_buffer_destroy (Some b))) p2 = Ret ((), p3) ∧
        same_mem (pb_mem p) (pb_mem p3) ∧ messages p3 = messages p
    end) ∧
  grpc_protobuf_message_size (Some m) = zlen (pack m) ∧
  ∀ old rest, length old = length (pack m) →
    grpc_protobuf_serialize_to_buffer (Some m) (Some (old ++ rest)) (zlen (old ++ rest)) =
      Ret (zlen (pack m), Some (pack m ++ rest)).
Proof.
  intros Hok Hfresh Hne. split; [|split; [apply packed_size_pack|]].
  - destruct (serialize_run m (pb_mem p) Hok Hne) as (r & w1 & E & Hok1 & Hal & Hr).
    set (p1 := mk_pb_world w1 (messages p) (next_message p)).
    exists r, p1. split; [unfold on_mem, zoom; by rewrite E|]. destruct r as [b|]; [|by destruct Hr].
    destruct (deserialize_run m b (pb_mem p) p1 Hr) as (out & p2 & E2 & [Hbl Hbu] & Hn & Hm).
    assert (mem_ok (pb_mem p2)) as Hok2 by (intros a; rewrite Hbl, Hbu, Hn; apply Hok1).
    assert (buffer_made (pb_mem p) (pb_mem p2) b (pack m)) as Hb2.
    { destruct Hr as (d & ? & ? & ? & ?). exists d. by rewrite Hbl, Hbu. }
    destruct (byte_buffer_destroy_run _ _ b (pack m) Hok2 Hb2) as (w3 & E3 & _ & Hs3 & _).
    eexists _, out, p2, (mk_pb_world w3 (messages p) (next_message p2)). split; [exact E2|]. split; [|split; [|by split]].
    + destruct out as [a|]; destruct Hm as [Hm Hms]; (split; [done|]); [subst a|by apply Hal].
      by rewrite Hms, lookup_insert_eq.
    + assert (∃ ms, grpc_protobuf_free out p2 = Ret ((), mk_pb_world (pb_mem p2) ms (next_message p2)) ∧ ms = messages p)
        as (ms & Ef & ->).
      { destruct out as [a|]; destruct Hm as [Hm Hms]; cbn.
        - subst a. unfold protobuf_c_message_free_unpacked. rewrite Hms, lookup_insert_eq. eexists. split; [done|].
          by rewrite delete_insert_id.
        - exists (messages p2). by destruct p2. }
      mstep Ef. unfold on_mem, zoom. cbn [pb_mem]. by rewrite E3.
  - intros old rest Hl. unfold grpc_protobuf_serialize_to_buffer. rewrite packed_size_pack.
    destruct (Z.ltb_spec (zlen (old ++ rest)) (zlen (pack m))) as [Hlt|_]; [rewrite length_app in Hlt; lia|].
    pose proof (memcpy_app [] old rest (pack m) [] 0 (zlen (pack m)) eq_refl eq_refl Hl) as E2.
    rewrite app_nil_r in E2. cbn [app] in E2. by rewrite (outcome_bind_Ret _ _ _ E2).
Qed.

(** A message whose fields all have their default values packs to no byte: it is refused. *)
Lemma grpc_protobuf_serialize_empty m w :
  pack m = [] → grpc_protobuf_serialize (Some m) w = Ret (None, w).
Proof. intros E. unfold grpc_protobuf_serialize. by rewrite packed_size_pack, E. Qed.
End proofs.

(** ** A concrete message type: one bytes field, packed with tag and length *)

#[local] Instance sample_protobuf : ProtobufC := {
  ProtobufCMessage := list Z;
  ProtobufCMessageDescriptor := ();
  descriptor_of _ := ();
  pack m := match m with [] => [] | _ => 10 :: zlen m :: m end;
  get_packed_size m := match m with [] => 0 | _ => 2 + zlen m end;
  unpack _ bs :=
    match bs with
    | [] => Some []
    | 10 :: n :: m => if n =? zlen m then Some m else None
    | _ => None
    end
}.

#[local] Instance sample_protobuf_laws : ProtobufCLaws.
Proof.
  split.
  - intros [|b m]; [done|]. cbn [get_packed_size pack sample_protobuf length]. lia.
  - intros [|b m]; [done|]. cbn [unpack pack sample_protobuf]. by rewrite Z.eqb_refl.
Defined.

Definition sample_memory : pb_world := mk_pb_world (mk_mem ∅ ∅ 1 []) ∅ 1.

Lemma grpc_protobuf_roundtrip_witness :
  ∃ b p1 p2 p3, on_mem (grpc_protobuf_serialize (Some [104; 105])) sample_memory = Ret (Some b, p1) ∧
    grpc_protobuf_deserialize (Some b) (Some ()) true p1 = Ret ((0, Some 1%positive), p2) ∧
    messages p2 !! 1%positive = Some [104; 105] ∧
    (_ ← grpc_protobuf_free (Some 1%positive); on_mem (grpc_byte_buffer_destroy (Some b))) p2 = Ret ((), p3) ∧
    same_mem (pb_mem sample_memory) (pb_mem p3).
Proof.
  assert (mem_ok (pb_mem sample_memory)) as Hok by (intros a [[? H]|[? H]]; vm_compute in H; discriminate).
  destruct (grpc_protobuf_roundtrip (H := sample_protobuf) [104; 105] sample_memory Hok eq_refl ltac:(discriminate))
    as [(r & p1 & E & Hr) _].
  destruct r as [b|]; [|vm_compute in E; discriminate].
  destruct Hr as (code & out & p2 & p3 & E2 & Hout & E3 & Hs & _).
  assert (out = Some 1%positive) as ->.
  { clear Hout E3 Hs. vm_compute in E. injection E as <- <-. vm_compute in E2. by injection E2 as _ <- _. }
  destruct Hout as [-> Hm]. exists b, p1, p2, p3. split; [exact E|]. split; [exact E2|]. split; [exact Hm|].
  split; [exact E3|exact Hs].
Defined.
