(* ===== verification/Examples.v ===== *)
(** * The client and server examples (src/examples/)

    [echo_client.c], [streaming_example.c] and [echo_server.c] as programs of a process.  What they
    print is left out. *)

From Stdlib Require Import ZArith Lia.
From stdpp Require Import base tactics list option strings gmap.
From S2P Require Import Prelude Metadata Transport FlowControl Lists CStrings CompletionQueue Core Channel Server Health Process.

#[local] Open Scope Z_scope.
#[local] Set Warnings "-clear-no-such-hyp".

(** ** echo_client.c *)

(** [sec] and [usec] are what the clock says when the deadline is made; the result is the exit
    code. *)
Definition echo_client (argv1 : option (list Z)) (sec usec : Z) : M process Z :=
  let server_address := default (lit "localhost:50051") argv1 in
  _ ← library_init;
  channel ← channel_create (Some server_address) None;
  match channel with
  | None => _ ← library_shutdown; mret 1
  | Some _ =>
      cq ← queue_create GRPC_CQ_NEXT;
      match cq with
      | None => _ ← channel_destroy channel; _ ← library_shutdown; mret 1
      | Some _ =>
          let deadline := grpc_timeout_milliseconds_to_deadline sec usec 5000 in
          call ← create_call channel (grpc_channel_create_call cq (Some (lit "/echo.Echo/SayHello")) None deadline);
          match call with
          | None => _ ← queue_destroy cq; _ ← channel_destroy channel; _ ← library_shutdown; mret 1
          | Some _ =>
              _ ← call_destroy call;
              _ ← queue_shutdown cq;
              _ ← queue_destroy cq;
              _ ← channel_destroy channel;
              _ ← library_shutdown;
              mret 0
          end
      end
  end.

(** ** streaming_example.c *)

(** The three examples differ in the call they make: [make] makes it on the queue, with the
    deadline. *)
Definition streaming_call (make : option positive → grpc_timespec → M (option grpc_channel) (option positive))
    (sec usec : Z) : M process () :=
  _ ← library_init;
  channel ← channel_create (Some (lit "localhost:50051")) None;
  match channel with
  | None => library_shutdown
  | Some _ =>
      cq ← queue_create GRPC_CQ_NEXT;
      match cq with
      | None => _ ← channel_destroy channel; library_shutdown
      | Some _ =>
          let deadline := grpc_timeout_milliseconds_to_deadline sec usec 30000 in
          call ← create_call channel (make cq deadline);
          match call with
          | None => _ ← queue_destroy cq; _ ← channel_destroy channel; library_shutdown
          | Some _ =>
              _ ← call_destroy call;
              _ ← queue_destroy cq;
              _ ← channel_destroy channel;
              library_shutdown
          end
      end
  end.

Definition example_server_streaming : Z → Z → M process () := streaming_call (λ cq deadline,
  grpc_channel_create_server_streaming_call cq (Some (lit "/example.Service/ServerStream")) None deadline).
Definition example_client_streaming : Z → Z → M process () := streaming_call (λ cq deadline,
  grpc_channel_create_client_streaming_call cq (Some (lit "/example.Service/ClientStream")) None deadline).
Definition example_bidirectional_streaming : Z → Z → M process () := streaming_call (λ cq deadline,
  grpc_channel_create_bidi_streaming_call cq (Some (lit "/example.Service/BidiStream")) None deadline).

(** The clock is read once in each example. *)
Definition streaming_example (clock : (Z * Z) * (Z * Z) * (Z * Z)) : M process Z :=
  let '(t1, t2, t3) := clock in
  _ ← example_server_streaming t1.1 t1.2;
  _ ← example_client_streaming t2.1 t2.2;
  _ ← example_bidirectional_streaming t3.1 t3.2;
  mret 0.

(** ** echo_server.c *)

(** The loop only waits for the signal; [ticks] are the values of [keep_running] at its tests. *)
Fixpoint serve (ticks : list bool) : M process () :=
  match ticks with
  | true :: ticks => serve ticks
  | _ => mret ()
  end.

Definition echo_server (inet_pton : list Z → option Z) (argv1 : option (list Z)) (ticks : list bool) : M process Z :=
  let server_address := default (lit "0.0.0.0:50051") argv1 in
  _ ← library_init;
  server ← server_create None;
  match server with
  | None => _ ← library_shutdown; mret 1
  | Some _ =>
      port ← on_ptr server (grpc_server_add_insecure_http2_port inet_pton (Some server_address));
      if port =? 0 then _ ← server_destroy server; _ ← library_shutdown; mret 1 else
      cq ← queue_create GRPC_CQ_NEXT;
      match cq with
      | None => _ ← server_destroy server; _ ← library_shutdown; mret 1
      | Some _ =>
          _ ← on_ptr server (grpc_server_register_completion_queue cq);
          _ ← on_ptr server grpc_server_start;
          _ ← serve ticks;
          _ ← server_shutdown_and_notify server cq None;
          _ ← queue_shutdown cq;
          _ ← queue_destroy cq;
          _ ← server_destroy server;
          _ ← library_shutdown;
          mret 0
      end
  end.

(** ** The clients leave nothing behind *)

Implicit Types (p : process).

(** Nothing is left of the library: no object, no lost block, and its flag is down. *)
Definition nothing_left p : Prop :=
  g_grpc_initialized p = false ∧ channels p = ∅ ∧ queues p = ∅ ∧ servers p = ∅ ∧ leaked p = 0%nat.

Definition idle p : Prop := channels p = ∅ ∧ queues p = ∅ ∧ servers p = ∅ ∧ leaked p = 0%nat.

(** One channel without calls, and no queue or one. *)
Record session p (a : positive) (c : grpc_channel) (qs : gmap positive cq_state) : Prop := {
  se_channels : channels p = {[ a := c ]};
  se_calls : calls c = ∅;
  se_queues : queues p = qs;
  se_servers : servers p = ∅;
  se_ok : ∃ n, client_ok p n
}.

Lemma idle_ok p : idle p → client_ok p no_notes.
Proof.
  intros (Hc & Hq & _ & Hl). split; rewrite ?Hc, ?Hq; try done.
  - intros r o (c & H & _)%find_call_channel. by rewrite Hc in H.
  - by intros a [[? ?]|[? ?]].
Qed.

Lemma client_ok_flag b p n : client_ok p n → client_ok (set_flag b p) n.
Proof. intros []. by split. Qed.

(** The flag goes down at the end. *)
Lemma shutdown_flag p : g_grpc_initialized (set_flag (grpc_shutdown (g_grpc_initialized p)) p) = false.
Proof. cbn. by destruct (g_grpc_initialized p). Qed.

Lemma library_shutdown_run {A} (k : M process A) p :
  idle p → ∃ p', (_ ← library_shutdown; k) p = k p' ∧ nothing_left p'.
Proof.
  intros (? & ? & ? & ?). exists (set_flag (grpc_shutdown (g_grpc_initialized p)) p).
  split; [done|]. split; [apply shutdown_flag|done].
Qed.

Lemma close_channel_run {A} (k : M process A) p a c :
  session p a c ∅ →
  ∃ p', (_ ← channel_destroy (Some a); _ ← library_shutdown; k) p = k p' ∧ nothing_left p'.
Proof.
  intros [Hc He Hq Hs [n Hok]]. mstep (channel_destroy_step a c p n Hok ltac:(by rewrite Hc, lookup_singleton_eq) He).
  apply library_shutdown_run. split; [cbn; by rewrite Hc, delete_singleton_eq|]. split; [done|]. split; [done|].
  cbn. rewrite (cl_leaked _ _ Hok). done.
Qed.

Lemma close_session_run {A} (k : M process A) p a c b w :
  session p a c {[ b := w ]} →
  ∃ p', (_ ← queue_destroy (Some b); _ ← channel_destroy (Some a); _ ← library_shutdown; k) p = k p' ∧ nothing_left p'.
Proof.
  intros [Hc He Hq Hs [n Hok]].
  mstep (queue_destroy_step b w p n Hok ltac:(by rewrite Hq, lookup_singleton_eq)).
  apply (close_channel_run k _ a c). split; [done|done|cbn; by rewrite Hq, delete_singleton_eq|done|].
  exists n. apply client_ok_leaked, client_ok_drop_queue; [done|].
  intros r o (c' & Hr & Ho)%find_call_channel. rewrite Hc in Hr. apply lookup_singleton_Some in Hr as [_ <-].
  by rewrite He in Ho.
Qed.

(** The operation was carried out, so its result is the one the invariant knows. *)
Lemma op_result p n o r p' : client_ok p n → legal p o → run_op o p = Ret (r, p') → client_ok p' (note p o r n).
Proof.
  intros Hok Hl E. destruct (client_op_run p n o Hok Hl) as (r' & p1 & E' & Hok'). rewrite E in E'. by injection E' as <- <-.
Qed.

(** The channel and the queue are there, or an allocation failed. *)
Lemma open_channel_run tgt p :
  idle p →
  ∃ o p', channel_create (Some tgt) None p = Ret (o, p') ∧ (∀ b, b ∈ memory p' → b ∈ memory p) ∧
    match o with
    | Some a => ∃ c, session p' a c ∅ ∧ streams_capacity (conn (ch_conn c)) < 2 ^ 60 ∧ next_stream_id (conn (ch_conn c)) = 1
    | None => idle p' ∧ false ∈ memory p
    end.
Proof.
  intros Hi. destruct (channel_create_step tgt None p) as (o & p' & E & Hal & Ho). exists o, p'.
  split; [done|]. split; [done|]. pose proof (idle_ok p Hi) as Hok. destruct Hi as (Hc & Hq & Hs & Hl).
  destruct o as [a|].
  - assert (client_ok p' (note p (OpChannel tgt) (RPtr (Some a)) no_notes)) as Hok'.
    { apply (op_result p no_notes); [done|done|]. cbn [run_op]. by mstep E. }
    destruct Ho as [-> (al & c & -> & ? & He & ?)]. exists c. split; [|done].
    split; [cbn; by rewrite Hc, insert_empty|done|done|done|by eexists].
  - destruct Ho as [[al ->] ?]. by split.
Qed.

Lemma open_queue_run p a c :
  session p a c ∅ →
  ∃ o p', queue_create GRPC_CQ_NEXT p = Ret (o, p') ∧ (∀ b, b ∈ memory p' → b ∈ memory p) ∧
    match o with
    | Some b => ∃ w, session p' a c {[ b := w ]}
    | None => session p' a c ∅ ∧ false ∈ memory p
    end.
Proof.
  intros [Hc He Hq Hs [n Hok]]. destruct (queue_create_step GRPC_CQ_NEXT p) as (o & p' & E & Hal & Ho). exists o, p'.
  split; [done|]. split; [done|].
  assert (client_ok p' (note p (OpQueue GRPC_CQ_NEXT) (RPtr o) n)) as Hok'.
  { apply (op_result p n); [done|done|]. cbn [run_op]. by mstep E. }
  destruct o as [b|].
  - destruct Ho as [-> (al & ->)]. eexists. split; [done|done|cbn; by rewrite Hq, insert_empty|done|by eexists].
  - destruct Ho as [[al ->] ?]. split; [|done]. split; try done. by eexists.
Qed.

(** A call is made and destroyed again, or not made. *)
Lemma session_call_run p a c b w m dl :
  session p a c {[ b := w ]} → streams_capacity (conn (ch_conn c)) < 2 ^ 60 → next_stream_id (conn (ch_conn c)) = 1 →
  ∃ o p', create_call (Some a) (grpc_channel_create_call (Some b) (Some m) None dl) p = Ret (o, p') ∧
    match o with
    | Some r => ∃ p2 c', call_destroy (Some r) p' = Ret ((), p2) ∧ session p2 a c' {[ b := w ]}
    | None => (∃ c', session p' a c' {[ b := w ]}) ∧ false ∈ memory p
    end.
Proof.
  intros [Hc He Hq Hs [n Hok]] Hcap Hnext.
  assert (channels p !! a = Some c) as Ha by by rewrite Hc, lookup_singleton_eq.
  assert (legal p (OpCall a b m None dl)) as Hl.
  { split; [rewrite Hq, lookup_singleton_eq; by eexists|]. rewrite Ha, Hnext. lia. }
  destruct (create_call_step a b m None dl p n Hok Hl) as (r & c0 & c' & p' & E & Hc0 & -> & Hok' & Hr).
  rewrite Ha in Hc0. injection Hc0 as <-. exists ((λ k, (a, k)) <$> r), (put_object a c' p). split; [done|].
  assert (client_ok (put_object a c' p) (note p (OpCall a b m None dl) (RCall ((λ k, (a, k)) <$> r)) n)) as Hok1.
  { apply (op_result p n); [done|done|]. cbn [run_op]. by mstep E. }
  destruct r as [k|]; cbn [fmap option_fmap option_map].
  - destruct Hr as (o & Hcalls & Hk & _).
    assert (channels (put_object a c' p) !! a = Some c') as Ha' by (cbn; by rewrite lookup_insert_eq).
    destruct (call_destroy_step _ _ a k c' o Hok1 Ha') as (c2 & E2 & Hok2 & Hcalls2).
    { by rewrite Hcalls, lookup_insert_eq. }
    do 2 eexists. split; [exact E2|]. split; [cbn; by rewrite Hc, !insert_singleton_eq| |done|done|].
    + rewrite Hcalls2, Hcalls, He. by rewrite insert_empty, delete_singleton_eq.
    + eexists. eapply (op_result _ _ (OpCallDestroy (a, k)) RUnit _ Hok1).
      * exists o. unfold find_call. cbn [fst snd]. rewrite Ha'. cbn. by rewrite Hcalls, lookup_insert_eq.
      * cbn [run_op]. by mstep E2.
  - destruct Hr as [Hcalls ?]. split; [|done]. exists c'.
    split; [cbn; by rewrite Hc, insert_singleton_eq|by rewrite Hcalls|done|done|by eexists].
Qed.

Lemma session_shutdown_run p a c b w :
  session p a c {[ b := w ]} → ∃ p' w', queue_shutdown (Some b) p = Ret ((), p') ∧ session p' a c {[ b := w' ]}.
Proof.
  intros [Hc He Hq Hs [n Hok]]. assert (queues p !! b = Some w) as Hb by by rewrite Hq, lookup_singleton_eq.
  destruct (queue_at b w p n Hok Hb) as (es & sh & Ha & _ & Hr & _). destruct (shutdown_run _ _ Hr) as (w' & E & _).
  pose proof (on_ptr_run b _ _ _ _ _ Ha E) as E'. exists (put_object b w' p), w'. split; [exact E'|].
  split; [done|done|cbn; by rewrite Hq, insert_singleton_eq|done|].
  eexists. eapply (op_result p n (OpShutdown b) RUnit _ Hok); [by eexists|]. cbn [run_op]. unfold queue_shutdown. by mstep E'.
Qed.

Lemma library_init_run {A} (k : M process A) p :
  idle p → ∃ p', (_ ← library_init; k) p = k p' ∧ idle p' ∧ memory p' = memory p.
Proof. intros (? & ? & ? & ?). eexists. split; [done|]. by split. Qed.

Lemma nothing_left_idle p : nothing_left p → idle p.
Proof. by intros (_ & ?). Qed.

Lemma streaming_call_run make m sec usec p :
  (∀ b dl, make (Some b) dl = grpc_channel_create_call (Some b) (Some m) None dl) → idle p →
  ∃ p', streaming_call make sec usec p = Ret ((), p') ∧ nothing_left p'.
Proof.
  intros Hmake Hi. unfold streaming_call.
  destruct (library_init_run (mret ()) p Hi) as (p0 & E0 & Hi0 & _). rewrite (M_bind_Ret _ _ p () p0) by exact E0.
  destruct (open_channel_run (lit "localhost:50051") p0 Hi0) as ([a|] & p1 & E1 & _ & H1); mstep E1.
  2:{ destruct (library_shutdown_run (mret ()) p1 (proj1 H1)) as (p' & E' & ?). by exists p'. }
  destruct H1 as (c & Hses & Hcap & Hnext).
  destruct (open_queue_run p1 a c Hses) as ([b|] & p2 & E2 & _ & H2); mstep E2.
  2:{ destruct (close_channel_run (mret ()) p2 a c (proj1 H2)) as (p' & E' & ?). by exists p'. }
  destruct H2 as [w Hses2]. cbn zeta. rewrite Hmake.
  destruct (session_call_run p2 a c b w m (grpc_timeout_milliseconds_to_deadline sec usec 30000) Hses2 Hcap Hnext)
    as ([r|] & p3 & E3 & H3); mstep E3.
  - destruct H3 as (p4 & c' & E4 & Hses4). mstep E4.
    destruct (close_session_run (mret ()) p4 a c' b w Hses4) as (p' & E' & ?). by exists p'.
  - destruct H3 as [[c' Hses3] _]. destruct (close_session_run (mret ()) p3 a c' b w Hses3) as (p' & E' & ?). by exists p'.
Qed.

(** C21. The echo client, for every server address and every answer of the allocator, ends
    without a fault and leaves no channel, queue, call or stream and the library shut down; its
    exit code is 0, or 1 when an allocation failed. *)
Theorem echo_client_spec argv1 sec usec p :
  idle p → ∃ code p', echo_client argv1 sec usec p = Ret (code, p') ∧ nothing_left p' ∧
    (code = 0 ∨ code = 1 ∧ false ∈ memory p).
Proof.
  intros Hi. unfold echo_client. cbn zeta.
  destruct (library_init_run (mret ()) p Hi) as (p0 & E0 & Hi0 & Hm0). rewrite (M_bind_Ret _ _ p () p0) by exact E0.
  destruct (open_channel_run (default (lit "localhost:50051") argv1) p0 Hi0) as ([a|] & p1 & E1 & Hm1 & H1); mstep E1.
  2:{ destruct (library_shutdown_run (mret 1) p1 (proj1 H1)) as (p' & E' & ?). exists 1, p'. rewrite <- Hm0. naive_solver. }
  destruct H1 as (c & Hses & Hcap & Hnext).
  destruct (open_queue_run p1 a c Hses) as ([b|] & p2 & E2 & Hm2 & H2); mstep E2.
  2:{ destruct (close_channel_run (mret 1) p2 a c (proj1 H2)) as (p' & E' & ?). exists 1, p'. rewrite <- Hm0. naive_solver. }
  destruct H2 as [w Hses2].
  destruct (session_call_run p2 a c b w (lit "/echo.Echo/SayHello") (grpc_timeout_milliseconds_to_deadline sec usec 5000)
    Hses2 Hcap Hnext) as ([r|] & p3 & E3 & H3); mstep E3.
  - destruct H3 as (p4 & c' & E4 & Hses4). mstep E4.
    destruct (session_shutdown_run p4 a c' b w Hses4) as (p5 & w' & E5 & Hses5). mstep E5.
    destruct (close_session_run (mret 0) p5 a c' b w' Hses5) as (p' & E' & ?). exists 0, p'. auto.
  - destruct H3 as [[c' Hses3] Hf]. destruct (close_session_run (mret 1) p3 a c' b w Hses3) as (p' & E' & ?).
    exists 1, p'. split; [done|]. split; [done|]. right. split; [done|]. rewrite <- Hm0. by apply Hm1, Hm2.
Qed.

(** The streaming examples leave nothing behind, whatever the allocator answers. *)
Theorem streaming_example_spec clock p :
  idle p → ∃ p', streaming_example clock p = Ret (0, p') ∧ nothing_left p'.
Proof.
  intros Hi. unfold streaming_example. destruct clock as [[t1 t2] t3].
  destruct (streaming_call_run (λ cq dl, grpc_channel_create_server_streaming_call cq
    (Some (lit "/example.Service/ServerStream")) None dl) _ t1.1 t1.2 p (λ b dl, eq_refl) Hi) as (p1 & E1 & H1%nothing_left_idle).
  mstep E1.
  destruct (streaming_call_run (λ cq dl, grpc_channel_create_client_streaming_call cq
    (Some (lit "/example.Service/ClientStream")) None dl) _ t2.1 t2.2 p1 (λ b dl, eq_refl) H1) as (p2 & E2 & H2%nothing_left_idle).
  mstep E2.
  destruct (streaming_call_run (λ cq dl, grpc_channel_create_bidi_streaming_call cq
    (Some (lit "/example.Service/BidiStream")) None dl) _ t3.1 t3.2 p2 (λ b dl, eq_refl) H2) as (p3 & E3 & H3).
  mstep E3. by exists p3.
Qed.

(** ** The server closes its socket *)

Section server.
Context (inet_pton : list Z → option Z).

(** The system as the server finds it: the standard descriptors, and what it will say of sockets. *)
Definition server_os (sockets binds listens : allocs) : os := mk_os [] sockets binds listens [] 3 [].
Definition port_opens (sockets binds listens : allocs) : bool :=
  (answer sockets).1 && (answer binds).1 && (answer listens).1.

(** Opening the first port: the socket 3 is open and in the table, or none is. *)
Lemma first_port_run addr h port ss bs ls :
  parse_address (c_str addr ++ [0]) = Ret (h, port) →
  ∃ o r, grpc_server_add_insecure_http2_port inet_pton (Some addr)
      (Some (mk_sworld (mk_server None [] 4 [] 4 false false None 0 false) (server_os ss bs ls))) = Ret (r, Some
        (mk_sworld (mk_server None (if port_opens ss bs ls then [mk_port 3 (address_of inet_pton h port) None] else [])
          4 [] 4 false false None 0 false) o)) ∧
    r = (if port_opens ss bs ls then port else 0) ∧
    os_answers o = [] ∧ thread_results o = [] ∧ open_fds o = if port_opens ss bs ls then [3] else [].
Proof.
  intros Hp. unfold grpc_server_add_insecure_http2_port, nullable.
  mstep (sv_lock_run (mk_sworld (mk_server None [] 4 [] 4 false false None 0 false) (server_os ss bs ls)) eq_refl).
  rewrite M_bind_gets. cbn [started upd_server server set_sv_mutex sos].
  match goal with |- context [(malloc_server ≫= ?k) ?s] => rewrite (M_bind_Ret malloc_server k s true s eq_refl) end.
  cbn [negb]. mstep Hp. cbn [fst snd].
  generalize (address_of inet_pton h port) as a. intros a. unfold port_opens.
  destruct ss as [|[] ss]; cbn [answer fst snd andb]; try (do 2 eexists; split; [reflexivity|done]).
  all: destruct bs as [|[] bs]; cbn [answer fst snd andb]; try (do 2 eexists; split; [reflexivity|done]).
  all: destruct ls as [|[] ls]; cbn [answer fst snd andb]; (do 2 eexists; split; [reflexivity|done]).
Qed.

Lemma serve_run ticks p : serve ticks p = Ret ((), p).
Proof. by induction ticks as [|[] ticks IH]. Qed.

(** The next step of a program on a state that can be evaluated. *)
Ltac run_step_by_evaluation :=
  match goal with
  | |- context [(?m ≫= ?k) ?s] =>
      let r := eval vm_compute in (m s) in
      match r with Ret (?a, ?s') => rewrite (M_bind_Ret m k s a s') by (vm_compute; reflexivity) end
  end.

(** C22. The echo server, with memory and threads granted, ends with exit code 0 exactly when
    its socket could be opened, bound and listened on and the port of the address is not 0, and
    with 1 otherwise; in either case every socket is closed, the worker threads (of which
    [accept] holds none) are joined and nothing is left. *)
Theorem echo_server_spec argv1 h port ss bs ls ticks :
  parse_address (c_str (default (lit "0.0.0.0:50051") argv1) ++ [0]) = Ret (h, port) →
  ∃ p', echo_server inet_pton argv1 ticks (new_process (server_os ss bs ls)) =
      Ret (if port_opens ss bs ls && negb (port =? 0) then 0 else 1, p') ∧
    nothing_left p' ∧ open_fds (system p') = [].
Proof.
  intros Hp. unfold echo_server. cbn zeta. set (addr := default _ argv1) in *.
  set (p0 := set_flag true (new_process (server_os ss bs ls))).
  rewrite (M_bind_Ret library_init _ (new_process (server_os ss bs ls)) () p0 eq_refl).
  destruct (first_port_run addr h port ss bs ls Hp) as (o & r & E & -> & Ha & Ht & Hf).
  set (s0 := mk_server None [] 4 [] 4 false false None 0 false) in *.
  set (p1 := set_servers {[ 1%positive := s0 ]} (set_fresh 2 p0)).
  rewrite (M_bind_Ret (server_create None) _ p0 (Some 1%positive) p1 eq_refl).
  lazy beta iota.
  assert (object_at 1 p1 = Some (mk_sworld s0 (server_os ss bs ls))) as Hs by done.
  mstep (on_ptr_run 1%positive _ p1 _ _ _ Hs E).
  destruct o as [al ss' bs' ls' ts fd' fds]. cbn in Ha, Ht, Hf. subst al ts.
  clear E. generalize (address_of inet_pton h port) as ad. intros ad.
  destruct (port_opens ss bs ls); cbn [andb]; subst fds; [destruct (Z.eqb_spec port 0); cbn [negb]|].
  1,3: eexists; split; [vm_compute; reflexivity|done].
  run_step_by_evaluation. lazy beta iota. do 2 run_step_by_evaluation.
  rewrite (M_bind_Ret _ _ _ _ _ (serve_run ticks _)). eexists. split; [vm_compute; reflexivity|done].
Qed.
End server.

(** ** Witnesses *)

(** The second allocation of the channel fails; nothing is left all the same. *)
Lemma echo_client_spec_witness :
  ∃ p', echo_client None 10 0 (new_process (mk_os [true; false] [] [] [] [] 3 [])) = Ret (1, p') ∧ nothing_left p'.
Proof.
  destruct (echo_client_spec None 10 0 (new_process (mk_os [true; false] [] [] [] [] 3 []))) as (code & p' & E & Hn & Hc).
  { split; [reflexivity|]. split; [reflexivity|]. split; reflexivity. }
  exists p'. split; [|exact Hn]. assert (code = 1) as <-; [|exact E].
  clear Hc Hn. vm_compute in E. by injection E as <- _.
Defined.

(** The address is in use, so that [bind] fails. *)
Lemma echo_server_spec_witness :
  ∃ p', echo_server sample_pton None [true; true; false] (new_process (server_os [] [false] [])) = Ret (1, p') ∧
    nothing_left p' ∧ open_fds (system p') = [].
Proof.
  apply (echo_server_spec sample_pton None [48; 46; 48; 46; 48; 46; 48; 0; 53; 48; 48; 53; 49; 0] 50051 [] [false] []
    [true; true; false]).
  vm_compute. reflexivity.
Defined.
