(* ===== verification/Demos.v ===== *)
(** * The example of the advanced features (src/examples/advanced_example.c)

    Each demonstration makes an object of one component, works with it and destroys it.  The result
    is what it shows that is not fixed text, and the number of blocks that are left.  [al] are the
    answers of the allocator while the object exists. *)

From Stdlib Require Import ZArith Lia SpecFloat.
From stdpp Require Import base tactics list option strings gmap.
From S2P Require Import Prelude Lists CStrings Core LoadBalancer ConnectionPool Interceptors NameResolver Reflection Metrics Transport Tracing Examples.

#[local] Open Scope Z_scope.
#[local] Set Warnings "-clear-no-such-hyp".

Inductive shown :=
| Text (s : list Z)
| Number (n : Z)
| Measured (v : double)
| Exported
| Logged (level : string) (message : list Z).

Definition demonstration := outcome (list shown * nat).

(** The object made by [create], the work on it and its destruction; nothing is shown without an
    object. *)
Definition with_object {P T L} (create : M allocs (option P)) (load : P → allocs → T) (body : M T (list shown))
    (destroy : option T → outcome (option L)) (left : L → nat) (al : allocs) : demonstration :=
  match create al with
  | Ret (None, _) => Ret ([], 0%nat)
  | Ret (Some p, al) =>
      b ← body (load p al);
      d ← destroy (Some b.2);
      match d with Some l => Ret (b.1, left l) | None => Fault NullDeref end
  | Fault f => Fault f
  end.
Definition and_then (d1 d2 : demonstration) : demonstration :=
  r1 ← d1; r2 ← d2; Ret (r1.1 ++ r2.1, (r1.2 + r2.2)%nat).

(** [printf ("%s", s)]. *)
Definition show_string (s : option (list Z)) : outcome shown :=
  match s with Some s => Ret (Text (c_str s)) | None => Fault NullDeref end.

(** ** Load balancing *)

(** [n] picks, each shown; round robin asks for no random number. *)
Fixpoint show_picks (n : nat) : M lb_state (list shown) :=
  match n with
  | O => mret []
  | S n =>
      addr ← deref (grpc_lb_policy_pick 0);
      s ← lift (show_string (snd <$> addr));
      l ← show_picks n;
      mret (s :: l)
  end.

Definition demonstrate_load_balancing : allocs → demonstration :=
  with_object (grpc_lb_policy_create GRPC_LB_POLICY_ROUND_ROBIN) (λ p al, mk_heap p ∅ 1 al) (
    _ ← deref (grpc_lb_policy_add_address (Some (lit "localhost:50051")) 1);
    _ ← deref (grpc_lb_policy_add_address (Some (lit "localhost:50052")) 1);
    _ ← deref (grpc_lb_policy_add_address (Some (lit "localhost:50053")) 1);
    l1 ← show_picks 6;
    _ ← deref (grpc_lb_policy_mark_unavailable (Some (lit "localhost:50052")));
    l2 ← show_picks 4;
    mret (l1 ++ l2)) grpc_lb_policy_destroy size.

(** ** Name resolution *)

Section resolution.
Context (locals : list Z) (getaddrinfo : list Z → option (list addrinfo)).
Context (inet_ntop : Z → list Z → option (list Z)).
Context (call_custom : positive → list Z → option positive → M resolver_state (option positive)).

Definition show_resolution (type : Z) (tgt : list Z) : allocs → demonstration :=
  with_object (grpc_name_resolver_create type (Some tgt)) (λ r al, mk_heap r ∅ 1 al) (
    r ← deref (grpc_name_resolver_resolve locals getaddrinfo inet_ntop call_custom);
    if r =? 0 then count ← deref grpc_name_resolver_get_address_count; mret [Number count] else mret [])
    grpc_name_resolver_destroy size.

Definition demonstrate_name_resolution (al1 al2 : allocs) : demonstration :=
  and_then (show_resolution GRPC_RESOLVER_STATIC (lit "127.0.0.1:50051") al1)
    (show_resolution GRPC_RESOLVER_DNS (lit "localhost:50051") al2).
End resolution.

(** ** Connection pool *)

(** [thread] tells whether the keep-alive thread could be started; [now] and [tk] are the clock. *)
Definition demonstrate_connection_pool {C} `{!Connection C} (thread : bool) (now : Z) (tk : list Z) : allocs → demonstration :=
  with_object (grpc_connection_pool_create 10 30000 thread now tk) (λ p al, mk_heap p ∅ 1 al) (
    _ ← deref (grpc_connection_pool_set_keepalive 10000 5000 true);
    mret []) grpc_connection_pool_destroy (λ '(nodes, conns), (size nodes + size conns)%nat).

(** ** Interceptors *)

(** The addresses of the library's interceptors. *)
Definition logging_interceptor : positive := 1.
Definition auth_interceptor : positive := 2.

Definition demonstrate_interceptors (al1 al2 : allocs) : demonstration :=
  and_then
    (with_object grpc_client_interceptor_chain_create (λ c al, mk_heap c ∅ 1 al) (
       _ ← deref (grpc_client_interceptor_chain_add (Some logging_interceptor) None);
       _ ← deref (grpc_client_interceptor_chain_add (Some auth_interceptor) None);
       mret []) grpc_client_interceptor_chain_destroy size al1)
    (with_object grpc_server_interceptor_chain_create (λ c al, mk_heap c ∅ 1 al) (
       _ ← deref (grpc_server_interceptor_chain_add (Some logging_interceptor) None);
       _ ← deref (grpc_server_interceptor_chain_add (Some auth_interceptor) None);
       mret []) grpc_server_interceptor_chain_destroy size al2).

(** ** Reflection *)

Definition demonstrate_reflection : allocs → demonstration :=
  with_object grpc_reflection_registry_create (λ r al, mk_heap (mk_heap r ∅ 1 []) ∅ 1 al) (
    _ ← deref (grpc_reflection_registry_add_service (Some (lit "GreeterService")) (Some (lit "helloworld")));
    _ ← deref (grpc_reflection_registry_add_method (Some (lit "GreeterService")) (Some (lit "SayHello"))
          (Some (lit "HelloRequest")) (Some (lit "HelloResponse")) false false);
    _ ← deref (grpc_reflection_registry_add_method (Some (lit "GreeterService")) (Some (lit "SayHelloStream"))
          (Some (lit "HelloRequest")) (Some (lit "HelloResponse")) false true);
    count ← deref grpc_reflection_registry_get_service_count;
    service ← deref (grpc_reflection_registry_get_service (Some (lit "GreeterService")));
    match service with
    | None => mret [Number count]
    | Some s =>
        c ← read_cell s;
        full_name ← zoom cell_answers set_cell_answers (grpc_reflection_get_full_service_name (Some (data c)));
        t ← lift (show_string full_name);
        mret [Number count; t]
    end) grpc_reflection_registry_destroy (λ '(ss, ms), (size ss + size ms)%nat).

(** ** Tracing *)

Definition custom_trace_exporter (span : positive) (user_data : option positive) : M (list shown) () :=
  modify (λ out, out ++ [Exported]).

Section tracing.
Context (rand_after : Z → nat → Z).

(** [now] are the coming readings of the clock, [seed] is the state of [rand]. *)
Definition demonstrate_tracing (now : list timeval) (seed : Z * nat) : allocs → demonstration :=
  with_object grpc_trace_context_create (λ c al, mk_tworld (mk_heap c ∅ 1 al) now seed []) (
    _ ← deref (grpc_trace_context_set_exporter (Some 1%positive) None);
    span ← deref (grpc_trace_start_span rand_after (Some (lit "example_operation")) None);
    _ ← match span with
        | Some _ =>
            _ ← on_spans (grpc_trace_span_add_tag span (Some (lit "service")) (Some (lit "example")));
            _ ← on_spans (grpc_trace_span_add_tag span (Some (lit "method")) (Some (lit "demonstrate_tracing")));
            _ ← deref (grpc_trace_finish_span (λ _, custom_trace_exporter) span);
            mret ()
        | None => mret ()
        end;
    gets tw_app) (λ t, grpc_trace_context_destroy (tw_spans <$> t)) size.
End tracing.

(** ** Metrics *)

(** The binary64 numbers of the literals: the integers, 45.3 and 52.1. *)
Definition d1 : double := S754_finite false 4503599627370496 (-52).
Definition d5 : double := S754_finite false 5629499534213120 (-50).
Definition d45_3 : double := S754_finite false 6375408222496358 (-47).
Definition d52_1 : double := S754_finite false 7332423143312589 (-47).

(** [printf ("%.0f", metric->value)], when there is a metric. *)
Definition show_metric (name : list Z) : M metrics_state (list shown) :=
  metric ← deref (grpc_metrics_get (Some name));
  match metric with
  | Some m => c ← read_cell m; mret [Measured (metric_value (data c))]
  | None => mret []
  end.

Definition demonstrate_metrics : allocs → demonstration :=
  with_object grpc_metrics_registry_create (λ r al, mk_heap r ∅ 1 al) (
    _ ← deref (grpc_metrics_register (Some (lit "requests_total")) (Some (lit "Total requests")) GRPC_METRIC_COUNTER);
    _ ← deref (grpc_metrics_register (Some (lit "active_connections")) (Some (lit "Active connections")) GRPC_METRIC_GAUGE);
    _ ← deref (grpc_metrics_register (Some (lit "request_duration_ms")) (Some (lit "Request duration")) GRPC_METRIC_HISTOGRAM);
    _ ← deref (grpc_metrics_increment (Some (lit "requests_total")) d1);
    _ ← deref (grpc_metrics_increment (Some (lit "requests_total")) d1);
    _ ← deref (grpc_metrics_set (Some (lit "active_connections")) d5);
    _ ← deref (grpc_metrics_increment (Some (lit "request_duration_ms")) d45_3);
    _ ← deref (grpc_metrics_increment (Some (lit "request_duration_ms")) d52_1);
    l1 ← show_metric (lit "requests_total");
    l2 ← show_metric (lit "active_connections");
    mret (l1 ++ l2)) grpc_metrics_registry_destroy size.

(** ** Logging *)

Definition GRPC_LOG_LEVEL_DEBUG : Z := 0.
Definition GRPC_LOG_LEVEL_INFO : Z := 1.
Definition GRPC_LOG_LEVEL_WARNING : Z := 2.
Definition GRPC_LOG_LEVEL_ERROR : Z := 3.

Definition level_str (level : Z) : string :=
  if level =? GRPC_LOG_LEVEL_DEBUG then "DEBUG"
  else if level =? GRPC_LOG_LEVEL_INFO then "INFO"
  else if level =? GRPC_LOG_LEVEL_WARNING then "WARNING"
  else if level =? GRPC_LOG_LEVEL_ERROR then "ERROR"
  else "UNKNOWN".
Definition custom_log_handler (level : Z) (message : list Z) (user_data : option positive)
    : M (grpc_logger * list shown) () :=
  modify (λ '(l, out), (l, out ++ [Logged (level_str level) (c_str message)])).

Definition log : Z → list Z → M (grpc_logger * list shown) () := λ level message,
  deref (grpc_logger_log (λ _, custom_log_handler) level (Some message)).
Definition demonstrate_logging : allocs → demonstration :=
  with_object (grpc_logger_create GRPC_LOG_LEVEL_DEBUG) (λ l _, (l, [])) (
    _ ← deref (grpc_logger_set_handler (Some 1%positive) None);
    _ ← log GRPC_LOG_LEVEL_DEBUG (lit "This is a debug message");
    _ ← log GRPC_LOG_LEVEL_INFO (lit "This is an info message");
    _ ← log GRPC_LOG_LEVEL_WARNING (lit "This is a warning message");
    _ ← log GRPC_LOG_LEVEL_ERROR (lit "This is an error message");
    gets snd) grpc_logger_destroy (λ _, 0%nat).

(** ** The program *)

Section program.
Context (locals : list Z) (getaddrinfo : list Z → option (list addrinfo)).
Context (inet_ntop : Z → list Z → option (list Z)).
Context (call_custom : positive → list Z → option positive → M resolver_state (option positive)).
Context (rand_after : Z → nat → Z).
Context {C : Type} `{!Connection C}.

(** [al i] are the answers of the allocator for the [i]-th object made. *)
Definition advanced_example (al : nat → allocs) (thread : bool) (now : Z) (tk : list Z) (clock : list timeval)
    (seed : Z * nat) (g_grpc_initialized : bool) : outcome (Z * bool * (list shown * nat)) :=
  let initialized := grpc_init g_grpc_initialized in
  r ← and_then (demonstrate_load_balancing (al 0%nat)) (
      and_then (demonstrate_name_resolution locals getaddrinfo inet_ntop call_custom (al 1%nat) (al 2%nat)) (
      and_then (demonstrate_connection_pool thread now tk (al 3%nat)) (
      and_then (demonstrate_interceptors (al 4%nat) (al 5%nat)) (
      and_then (demonstrate_reflection (al 6%nat)) (
      and_then (demonstrate_tracing rand_after clock seed (al 7%nat)) (
      and_then (demonstrate_metrics (al 8%nat)) (
      demonstrate_logging (al 9%nat))))))));
  Ret (0, grpc_shutdown initialized, r).
End program.


(** ** What the demonstrations show *)

(** A new resolver: what its resolution finds, the count of it, and the end of it. *)
Lemma new_resolver_run locals getaddrinfo inet_ntop call_custom type tgt :
  resolver_env locals getaddrinfo call_custom → type ≠ GRPC_RESOLVER_CUSTOM → target_ok (c_str tgt ++ [0]) →
  let r := mk_resolver type (c_str tgt ++ [0]) None 0 false None None in
  let found := expected getaddrinfo inet_ntop r [] in
  ∃ w, grpc_name_resolver_resolve locals getaddrinfo inet_ntop call_custom (Some (mk_heap r ∅ 1 [])) =
      Ret (if decide (found = []) then -1 else 0, Some w) ∧
    grpc_name_resolver_get_address_count (Some w) = Ret (u64 (zlen found), Some w) ∧
    grpc_name_resolver_destroy (Some w) = Ret (Some ∅).
Proof.
  intros Henv Ht Htgt r found. set (w := mk_heap _ ∅ 1 []).
  assert (resolver_rel w []) as Hr by (split; [apply owns_nil|done|done]).
  destruct (resolve_run locals getaddrinfo inet_ntop call_custom w [] Henv Hr Htgt) as (w' & l & E & Hr' & Hl & _).
  assert (l.*2 = found) as <- by by apply Hl. exists w'. split_and!.
  - rewrite E. by destruct l.
  - rewrite length_fmap. unfold grpc_name_resolver_get_address_count, nullable. mstep (rs_lock_run w' (rr_mutex _ _ Hr')).
    rewrite M_bind_gets. unfold rs_unlock. rewrite M_bind_modify. cbn. rewrite (rr_count _ _ Hr').
    destruct Hr' as [_ _ Hm]. by destruct w' as [[] ???]; cbn in Hm; subst.
  - by apply (resolver_destroy_run w' l).
Qed.

(** A resolution shows the number of the addresses found, if there are any. *)
Lemma show_resolution_run locals getaddrinfo inet_ntop call_custom type tgt :
  resolver_env locals getaddrinfo call_custom → type ≠ GRPC_RESOLVER_CUSTOM → target_ok (c_str tgt ++ [0]) →
  let found := expected getaddrinfo inet_ntop (mk_resolver type (c_str tgt ++ [0]) None 0 false None None) [] in
  show_resolution locals getaddrinfo inet_ntop call_custom type tgt [] =
    Ret (if decide (found = []) then [] else [Number (u64 (zlen found))], 0%nat).
Proof.
  intros Henv Ht Htgt found.
  destruct (new_resolver_run locals getaddrinfo inet_ntop call_custom type tgt Henv Ht Htgt) as (w & E & Ec & Ed).
  fold found in E, Ec. unfold show_resolution, with_object.
  change (grpc_name_resolver_create type (Some tgt) []) with
    (Ret (Some (mk_resolver type (c_str tgt ++ [0]) None 0 false None None), @nil bool)). lazy beta iota.
  rewrite (M_bind_Ret _ _ (mk_heap _ ∅ 1 []) (if decide (found = []) then -1 else 0) w) by by apply deref_Ret.
  case_decide as Hf.
  - cbn [Z.eqb]. by rewrite (outcome_bind_Ret _ _ ([], w)), (outcome_bind_Ret _ _ _ Ed) by done.
  - cbn [Z.eqb]. rewrite (M_bind_Ret _ _ w (u64 (zlen found)) w) by by apply deref_Ret.
    by rewrite (outcome_bind_Ret _ _ ([Number (u64 (zlen found))], w)), (outcome_bind_Ret _ _ _ Ed) by done.
Qed.

(** The first span of a context, whose identifiers are [i1] and [i2]. *)
Lemma first_span_run {U} rand_after exporter user_data op (t1 t2 t3 : timeval) later seed (u : U) :
  (∀ sd n, 0 ≤ rand_after sd n) →
  ∃ i1 i2 sd, grpc_trace_start_span rand_after (Some op) None (Some (mk_tworld
      (mk_heap (mk_tcontext None 0 false exporter user_data) ∅ 1 []) (t1 :: t2 :: t3 :: later) seed u)) =
    Ret (Some 1%positive, Some (mk_tworld (mk_heap (mk_tcontext (Some 1%positive) 1 false exporter user_data)
      {[ 1%positive := mk_cell (mk_span i1 i2 None (c_str op ++ [0]) t3 (mk_timeval 0 0) false no_tags) None ]} 2 [])
      later sd u)).
Proof.
  intros Hrand. set (t0 := mk_tworld _ _ _ _).
  unfold grpc_trace_start_span, nullable, grpc_trace_span_create.
  rewrite !M_bind_assoc. rewrite (M_bind_Ret (on_spans malloc_cell) _ t0 true t0 eq_refl). cbn [negb]. rewrite M_bind_assoc.
  destruct (generate_id_run rand_after Hrand t0) as (c1 & s1 & E1 & Hc1). mstep E1. rewrite (Hc1 eq_refl), M_bind_assoc.
  set (t0' := mk_tworld _ _ s1 _). destruct (generate_id_run rand_after Hrand t0') as (c2 & s2 & E2 & Hc2).
  mstep E2. rewrite (Hc2 eq_refl). do 3 eexists. reflexivity.
Qed.

Lemma demonstrate_tracing_run rand_after (t1 t2 t3 t4 : timeval) later seed :
  (∀ sd n, 0 ≤ rand_after sd n) →
  demonstrate_tracing rand_after (t1 :: t2 :: t3 :: t4 :: later) seed [] = Ret ([Exported], 0%nat).
Proof.
  intros Hrand. unfold demonstrate_tracing, with_object.
  change (grpc_trace_context_create []) with (Ret (Some (mk_tcontext None 0 false None None), @nil bool)). lazy beta iota.
  destruct (first_span_run rand_after (Some 1%positive) None (lit "example_operation") t1 t2 t3 (t4 :: later) seed
    (@nil shown) Hrand) as (i1 & i2 & sd & E).
  match type of E with grpc_trace_start_span _ _ _ (Some ?t) = _ =>
    rewrite (M_bind_Ret (deref (grpc_trace_context_set_exporter (Some 1%positive) None)) _ _ () t) by reflexivity end.
  rewrite (M_bind_Ret _ _ _ _ _ (deref_Ret _ _ _ _ E)).
  clear. vm_compute. reflexivity.
Qed.

Section program_run.
Context (locals : list Z) (getaddrinfo : list Z → option (list addrinfo)).
Context (inet_ntop : Z → list Z → option (list Z)).
Context (call_custom : positive → list Z → option positive → M resolver_state (option positive)).
Context (rand_after : Z → nat → Z).
Context {C : Type} `{!Connection C}.

Definition text (s : string) : shown := Text (c_str (lit s)).
(** The address at the port 5005[n]: the three in turn, and then, without the second, the third
    twice as often as the first. *)
Definition backend (n : string) : shown := text ("localhost:5005" +:+ n).
Definition picks_shown : list shown :=
  backend <$> ["1"; "2"; "3"; "1"; "2"; "3"; "1"; "3"; "3"; "1"]%string.

(** What the DNS finds for ["localhost"]. *)
Definition localhost_found : list grpc_resolved_address :=
  match getaddrinfo (lit "localhost") with None => [] | Some rs => dns_addresses inet_ntop rs 50051 [] end.

Definition transcript : list shown :=
  picks_shown ++ [Number 1] ++ (if decide (localhost_found = []) then [] else [Number (u64 (zlen localhost_found))]) ++
  [Number 1; text "helloworld.GreeterService"] ++ [Exported] ++
  [Measured (dadd d1 d1); Measured d5] ++
  [Logged "DEBUG" (c_str (lit "This is a debug message")); Logged "INFO" (c_str (lit "This is an info message"));
   Logged "WARNING" (c_str (lit "This is a warning message")); Logged "ERROR" (c_str (lit "This is an error message"))].

(** With memory granted, the program shows the transcript, whatever the clock, the random numbers and
    the DNS say, and leaves nothing behind. *)
Theorem advanced_example_spec now tk (t1 t2 t3 t4 : timeval) later seed initialized :
  resolver_env locals getaddrinfo call_custom → (∀ sd n, 0 ≤ rand_after sd n) →
  advanced_example locals getaddrinfo inet_ntop call_custom rand_after (λ _, []) true now tk
    (t1 :: t2 :: t3 :: t4 :: later) seed initialized = Ret (0, false, (transcript, 0%nat)).
Proof.
  intros Henv Hrand. unfold advanced_example, demonstrate_name_resolution.
  rewrite (show_resolution_run locals getaddrinfo inet_ntop call_custom GRPC_RESOLVER_STATIC (lit "127.0.0.1:50051") Henv)
    by (vm_compute; discriminate || exact I).
  rewrite (show_resolution_run locals getaddrinfo inet_ntop call_custom GRPC_RESOLVER_DNS (lit "localhost:50051") Henv)
    by (vm_compute; discriminate || exact I).
  rewrite demonstrate_tracing_run by done.
  assert (demonstrate_load_balancing [] = Ret (picks_shown, 0%nat)) as -> by (vm_compute; reflexivity).
  assert (demonstrate_interceptors [] [] = Ret ([], 0%nat)) as -> by (vm_compute; reflexivity).
  assert (demonstrate_reflection [] = Ret ([Number 1; text "helloworld.GreeterService"], 0%nat)) as -> by (vm_compute; reflexivity).
  assert (demonstrate_metrics [] = Ret ([Measured (dadd d1 d1); Measured d5], 0%nat)) as -> by (vm_compute; reflexivity).
  assert (demonstrate_connection_pool (C:=C) true now tk [] = Ret ([], 0%nat)) as -> by reflexivity.
  change (expected _ _ (mk_resolver GRPC_RESOLVER_DNS _ _ _ _ _ _) []) with localhost_found.
  set (found := if decide (localhost_found = []) then [] else [Number (u64 (zlen localhost_found))]).
  unfold and_then. cbn [mbind outcome_bind fst snd]. unfold transcript. fold found.
  assert (grpc_shutdown (grpc_init initialized) = false) as -> by by destruct initialized.
  done.
Qed.
End program_run.

Lemma advanced_example_spec_witness :
  advanced_example (C:=Transport.world) sample_locals sample_getaddrinfo sample_ntop no_custom sample_rand (λ _, []) true 7 []
    [mk_timeval 5 1; mk_timeval 5 2; mk_timeval 5 3; mk_timeval 5 4] (0, 0%nat) false =
  Ret (0, false, (transcript sample_getaddrinfo sample_ntop, 0%nat)).
Proof.
  apply (advanced_example_spec sample_locals sample_getaddrinfo sample_ntop no_custom sample_rand 7 []
    (mk_timeval 5 1) (mk_timeval 5 2) (mk_timeval 5 3) (mk_timeval 5 4) [] (0, 0%nat) false sample_env sample_rand_nonneg).
Defined.
